(* ===== verification/_CoqProject ===== *)
-Q . S2P
Prelude.v
GoString.v
GoTime.v
GoFloat.v
RateLimit.v
GoBase64.v
GoJson.v
Model.v
World.v
Keyset.v
Sql.v
Cursor.v
Store.v
Coding.v
SQLite.v
Postgres.v
Pagination.v
StoreFacts.v
Hub.v
HubLock.v
Broadcaster.v
Auth.v
Config.v
GoNumber.v
Wire.v
Metrics.v
Tracing.v
Http.v
Middleware.v
Server.v
Devices.v
Diagnostics.v
Sockets.v
Routes.v
Logic.v
ServerFacts.v
Service.v
EndpointFacts.v
SocketFacts.v
Schema.v
SQLiteMigrate.v
PostgresMigrate.v
HostStats.v
AgentState.v
Agent.v
AgentFacts.v
AgentMain.v
ServerMain.v
