(* ===== verification/Prelude.v ===== *)
(** * Puls: a verification development.

    Puls monitors devices.  A server (cmd/puls-server, internal/) registers devices,
    keeps a WebSocket connection to each, stores what they report in SQLite or
    PostgreSQL, and answers administrators over HTTP; an agent (cmd/puls-agent) is a
    device's side.  The development translates the Go code into executable definitions
    and proves what makes the parts correct, and the parts together.

    ** How the code is embedded

    Code that has effects is a function in the monad [Op D E A] of World.v: from a
    system state (a counter and data [D]) to a state and a result [res E A], Go's pair of
    a value and an error.  What the program cannot compute is an oracle of the counter:
    the clock, identifiers, bcrypt, the fate of each database round trip ([IoOk], lost,
    or done without an acknowledgement), the numbers an identity column skips after a
    refused INSERT, system calls, the network.  Every reading
    advances the counter; theorems hold for all oracles or name what they need.  HTTP
    handlers are in [HOp] of Http.v, over the server, the observed log and metrics, and
    the response; a panic is the monad's error.  Where goroutines or processes interleave
    there is a step function and its reachable states.  Libraries that are not under the
    sources are classes, some with laws: [Jwt] ([JwtLaws]: a token signed for claims of
    valid UTF-8 and whole seconds reads back as they are, by the same key, while they are
    alive), [PgDriver], [Lib] (the WebSocket upgrade, the scrape), [Host] (gopsutil),
    [Otel], [Network], [OsWorld], [Machine].

    ** The files

    What Go and its standard library do, as far as the program uses it:
    GoString (strings, strconv, net), GoTime (time, RFC 3339), GoFloat (float64 and
    float32), GoBase64, GoJson (encoding/json), GoNumber (numbers in JSON), Http
    (net/http).  World has the oracles and the monad.

    Data: Model (internal/model/device.go), Wire (its JSON and internal/ws/message.go).

    Store: Sql (schema and statements over a type of time columns), Keyset (pages of
    sorted rows), Cursor (cursor.go), Store (the interface of store.go and its
    specification [Spec] over tables of instants), Coding (a backend that encodes
    instants simulates the specification), SQLite and Postgres (the two backends,
    operation by operation), Pagination (walking the pages of ListDevices), StoreFacts
    (what the specification guarantees).  Schema (the schema scripts on a catalog),
    SQLiteMigrate (pragmas and migrations of sqlite.go), PostgresMigrate (migrations of
    postgres.go, instances interleaved under the advisory lock).

    Connections and events: Hub (internal/ws/hub.go with the goroutines of client.go and
    routes_ws.go as an interleaving), HubLock (the methods of hub.go one lock, unlock and
    access at a time, which makes them the single actions of Hub), Broadcaster (broadcaster.go and the loop of
    routes_events.go), Sockets (routes_ws.go and client.go on the server's state, one
    connection at a time).

    Server: RateLimit (ratelimit.go), Auth (jwt.go), Config (config.go), Metrics
    (metrics.go), Tracing (tracing.go), Middleware (middleware.go and the other
    middlewares), Server (the state of server.go), Devices (routes_device.go),
    Diagnostics (routes_diagnostics.go), Routes (registerRoutes, the mux and New),
    ServerMain (cmd/puls-server/main.go, Start).  Logic is a program logic for handlers;
    its classes [Blind], [HubBlind] and [Calls] say what an invariant owes to the store
    and to the rest of the server.

    Agent: HostStats (stats.go), AgentState (state.go), Agent (agent.go), AgentMain
    (main.go).

    Facts of several components: ServerFacts and Service (sequences of requests and
    socket stages), EndpointFacts (what the endpoints answer and store), SocketFacts (what
    connections do), AgentFacts, AgentMain (the agent's registration against the server's
    handler).

    ** What is proved

    - Refinement: SQLite and Postgres simulate [Spec], at a resolution of a second and of
      a microsecond.  A client of a store is proved against the class [Store], or against
      any store that refines [Spec].
    - The tables: unique identifiers, foreign keys and payload consistency through every
      sequence of calls, and of requests and messages to the whole server, with failures;
      every page walk ends with every device once.
    - Migrations: however starts are interrupted, what is on disk is a first part of the
      migrations with its version; instances migrate one at a time; a start that nothing
      disturbs completes them, if over an index that a dead build left invalid.
    - Connections: the map and the wait group through every interleaving; that the hub's
      methods are atomic and none waits for a close; what [Wait] means; when the stored
      status is right, and what the races of an overlap do to it.
    - HTTP: no panics, one log line a request, counters with bounded labels, panics turned
      into 500, admin routes behind tokens, each endpoint's answers on every branch.
    - Events, limiter, tokens, messages, configuration: order of events, the rate and its
      memory, expiry, round trips, diagnosed faults.
    - Agent: backoff, reuse of the registration, answers to requests, and that the agent's
      registration and the server's agree.

    ** Bounds and fuel

    Scanners and printers of text recur on a fuel that is the length of the text, which
    each step shortens.  [walk] takes one page more than there are devices, which its
    theorem shows enough.  [run_alone] and [run_migrate] take the 12 steps of a start with
    two migrations to apply, which the theorem shows enough.  The agent's [Run] is bounded
    by a number of connections and its theorems hold for every number; one connection sees
    a finite list of events.  Float64 has rounding at 53 bits and an exponent without a
    bound, and no infinity or NaN; a conversion to float32 may fail for size.  [int64] wraps
    where the code can reach the limit.

    ** Abstractions to know

    Tables are lists of rows; a statement is atomic.  Hub.v makes atomic what the database
    does, and what HubLock.v shows the hub's lock makes atomic; a close is an action that
    may come at any later time.  The chain of middlewares is proved for handlers that
    panic, if they do, before they send a status; none of the server's panics at all.
    Sockets.v runs one connection's message loop to its end; its interleaving with others
    is Hub.v's, for status, and Service.v's, for stages between requests.
    A migration whose commit or rollback is lost leaves its transaction open.  A session of
    PostgreSQL that ends, or is lost, frees its lock, and an unlock that does not reach the
    database keeps it; the deadlock of a concurrent build with instances that wait for the
    lock, which the database breaks, is a trip that fails.  A process that is killed during
    a migration is, for SQLite, a start whose round trips fail.

    ** Not modelled

    The text of errors and logs; the parsing of command-line flags; the Prometheus scrape;
    the mux's redirects and percent-escaped paths; the handler otelhttp puts around the
    server's when tracing is on; write deadlines of a stream; JSON's nesting limit; the location of a
    time; TLS and HTTP timeouts; the shutdown of net/http beyond its result; the agent's
    context deadlines, which are among the failures of its oracles; paths of Windows.  The
    web page, OpenAPI document, containers and workflows have no program logic. *)

From Stdlib Require Export Ascii String ZArith Lia.
From stdpp Require Export base tactics strings gmap sorting option list.

(** ** Results: a Go [(value, error)] pair *)

(** [Ok a] is a call that returned [a, nil]; [Err e] one that returned a
    non-nil error [e]. *)
Inductive res (E A : Type) : Type :=
  | Ok (a : A)
  | Err (e : E).
Arguments Ok {E A} a.
Arguments Err {E A} e.

#[export] Instance res_eq_dec {E A} `{EqDecision E, EqDecision A} : EqDecision (res E A).
Proof. solve_decision. Defined.

#[export] Instance res_ret {E} : MRet (res E) := λ A a, Ok a.
#[export] Instance res_bind {E} : MBind (res E) := λ A B f m,
  match m with Ok a => f a | Err e => Err e end.
#[export] Instance res_fmap {E} : FMap (res E) := λ A B f m,
  match m with Ok a => Ok (f a) | Err e => Err e end.

Definition is_ok {E A} (r : res E A) : bool :=
  match r with Ok _ => true | Err _ => false end.

(** ** Stateful computations that can fail *)

(** The state survives an error, as it does when a Go function returns one
    after a side effect. *)
Definition ST (S E A : Type) : Type := S → S * res E A.

#[export] Instance st_ret {S E} : MRet (ST S E) := λ A a s, (s, Ok a).
#[export] Instance st_bind {S E} : MBind (ST S E) := λ A B f m s,
  match m s with
  | (s', Ok a) => f a s'
  | (s', Err e) => (s', Err e)
  end.

Definition st_fail {S E A} (e : E) : ST S E A := λ s, (s, Err e).
Definition st_get {S E} : ST S E S := λ s, (s, Ok s).
Definition st_put {S E} (s : S) : ST S E unit := λ _, (s, Ok tt).
Definition st_modify {S E} (f : S → S) : ST S E unit := λ s, (f s, Ok tt).

(** [st_try m] makes the error of [m] a value, for [if err := m(); err != nil]. *)
Definition st_try {S E E' A} (m : ST S E A) : ST S E' (res E A) :=
  λ s, let '(s', r) := m s in (s', Ok r).

(** [st_lift r] is a pure call that may return an error. *)
Definition st_lift {S E A} (r : res E A) : ST S E A := λ s, (s, r).

(** [zoom get put m] runs [m] on a component of the state. *)
Definition zoom {S T E A} (get : S → T) (put : T → S → S) (m : ST T E A) : ST S E A :=
  λ s, let '(t, r) := m (get s) in (put t s, r).

Section st_laws.
Context {S E : Type}.

Lemma st_bind_ok {A B} (m : ST S E A) (f : A → ST S E B) s s' a :
  m s = (s', Ok a) → (m ≫= f) s = f a s'.
Proof. intros H. unfold mbind, st_bind. by rewrite H. Qed.

Lemma st_bind_err {A B} (m : ST S E A) (f : A → ST S E B) s s' e :
  m s = (s', Err e) → (m ≫= f) s = (s', Err e).
Proof. intros H. unfold mbind, st_bind. by rewrite H. Qed.

Lemma st_bind_assoc {A B C} (m : ST S E A) (f : A → ST S E B) (g : B → ST S E C) s :
  ((m ≫= f) ≫= g) s = (m ≫= (λ x, f x ≫= g)) s.
Proof. unfold mbind, st_bind. by destruct (m s) as [s' [a|e]]. Qed.

Lemma st_lift_ok {A B} (a : A) (f : A → ST S E B) : st_lift (Ok a) ≫= f = f a.
Proof. done. Qed.
End st_laws.

(** ** Integers at their width *)

Definition int64_min : Z := - 2 ^ 63.
Definition int64_max : Z := 2 ^ 63 - 1.
Definition is_int64 (z : Z) : bool := (int64_min <=? z)%Z && (z <=? int64_max)%Z.

(** Two's complement wrap-around of Go's [int64] arithmetic. *)
Definition wrap64 (z : Z) : Z := ((z + 2 ^ 63) mod 2 ^ 64 - 2 ^ 63)%Z.

Lemma wrap64_id z : is_int64 z = true → wrap64 z = z.
Proof.
  unfold is_int64, wrap64, int64_min, int64_max.
  rewrite andb_true_iff, !Z.leb_le. intros [H1 H2].
  rewrite Z.mod_small; lia.
Qed.

Lemma wrap64_range z : is_int64 (wrap64 z) = true.
Proof.
  unfold is_int64, wrap64, int64_min, int64_max.
  pose proof (Z.mod_pos_bound (z + 2 ^ 63) (2 ^ 64) ltac:(lia)).
  rewrite andb_true_iff, !Z.leb_le. lia.
Qed.

(** ** Tactics *)

Create HintDb puls discriminated.
Create Rewrite HintDb puls_bytes.

(** Turn every boolean test of the context into the proposition it decides. *)
Ltac bool_prop :=
  repeat match goal with
  | H : _ && _ = true |- _ => apply andb_true_iff in H as [? ?]
  | H : _ || _ = false |- _ => apply orb_false_iff in H as [? ?]
  | H : negb _ = true |- _ => apply negb_true_iff in H
  | H : negb _ = false |- _ => apply negb_false_iff in H
  | H : (_ <=? _)%Z = true |- _ => apply Z.leb_le in H
  | H : (_ <=? _)%Z = false |- _ => apply Z.leb_gt in H
  | H : (_ <? _)%Z = true |- _ => apply Z.ltb_lt in H
  | H : (_ <? _)%Z = false |- _ => apply Z.ltb_ge in H
  | H : (_ =? _)%Z = true |- _ => apply Z.eqb_eq in H
  | H : (_ =? _)%Z = false |- _ => apply Z.eqb_neq in H
  | H : bool_decide _ = true |- _ => apply bool_decide_eq_true in H
  | H : bool_decide _ = false |- _ => apply bool_decide_eq_false in H
  end.

(** [lia] with the defining equations of [/] and [mod]. *)
Ltac div_lia := Z.to_euclidean_division_equations; lia.

(** Case analysis on the scrutinee of a [match] or [if] of a hypothesis. *)
Ltac case_in H :=
  match type of H with
  | context [match ?x with _ => _ end] =>
      lazymatch x with
      | context [match _ with _ => _ end] => fail
      | _ => let E := fresh "E" in destruct x eqn:E
      end
  end.

(** Run every test of [H], closing the branches that contradict it. *)
Ltac run H := repeat (case_in H; simplify_eq/=); bool_prop.

(** ** Lists *)

Section lists.
Context {A : Type}.
Implicit Types l : list A.

Lemma take_last_lookup l n :
  0 < n → n ≤ length l → last (take n l) = l !! (n - 1).
Proof.
  intros H1 H2. rewrite last_lookup, length_take, lookup_take_lt by lia.
  f_equal. lia.
Qed.

Lemma StronglySorted_lookup (R : relation A) l i j x y :
  StronglySorted R l → l !! i = Some x → l !! j = Some y → i < j → R x y.
Proof.
  intros Hs. revert i j. induction Hs as [|z l Hs IH Hall]; intros i j Hi Hj Hij;
    [done|].
  destruct i, j; simplify_eq/=; [lia| |lia|eapply IH; eauto; lia].
  by eapply Forall_lookup_1 in Hall.
Qed.

Lemma Forall_filter_2 (P Q : A → Prop) `{∀ x, Decision (Q x)} l :
  Forall P l → Forall P (filter Q l).
Proof. rewrite !Forall_forall. intros HP x [_ Hx]%list_elem_of_filter. by apply HP. Qed.

Lemma filter_none (P : A → Prop) `{∀ x, Decision (P x)} l :
  (∀ x, x ∈ l → ¬ P x) → filter P l = [].
Proof.
  induction l as [|x l IH]; intros Hl; [done|].
  rewrite filter_cons, decide_False by (apply Hl; set_solver). apply IH. set_solver.
Qed.

Lemma filter_all (P : A → Prop) `{∀ x, Decision (P x)} l :
  (∀ x, x ∈ l → P x) → filter P l = l.
Proof.
  induction l as [|x l IH]; intros Hl; [done|].
  rewrite filter_cons, decide_True by (apply Hl; set_solver). f_equal. apply IH. set_solver.
Qed.
End lists.

(** ** Maps *)

Lemma map_Forall_filter_2 {K A} `{Countable K} (P : K → A → Prop) (Q : K * A → Prop)
    `{∀ x, Decision (Q x)} (m : gmap K A) :
  map_Forall P m → map_Forall P (filter Q m).
Proof. intros HP k a [Hk _]%map_lookup_filter_Some. by apply HP. Qed.
