(* ===== verification/GoString.v ===== *)
(** * Go strings.

    The functions of Go's [strings], [strconv] and [net] packages that the
    program calls, over byte strings, with the facts the components use.  A Go
    string is a [string] of bytes, [len] is the number of bytes and [<] is
    the order of bytes. *)
From S2P Require Import Prelude.
Local Open Scope Z_scope.

(** ** Bytes *)

Definition bytes (s : string) : list ascii := list_ascii_of_string s.
Definition unbytes (l : list ascii) : string := string_of_list_ascii l.
Definition len (s : string) : Z := Z.of_nat (String.length s).
Definition byte (n : Z) : ascii := ascii_of_N (Z.to_N n).
Definition code (c : ascii) : Z := Z.of_N (N_of_ascii c).

Lemma bytes_unbytes l : bytes (unbytes l) = l.
Proof. apply list_ascii_of_string_of_list_ascii. Qed.

Lemma unbytes_bytes s : unbytes (bytes s) = s.
Proof. apply string_of_list_ascii_of_string. Qed.

Lemma len_bytes s : len s = Z.of_nat (length (bytes s)).
Proof. unfold len, bytes. induction s; simpl; lia. Qed.

Lemma bytes_app s t : bytes (s +:+ t) = bytes s ++ bytes t.
Proof. unfold bytes. induction s; simpl; [done|]. by f_equal. Qed.

Lemma code_byte n : 0 <= n < 256 → code (byte n) = n.
Proof. intros H. unfold code, byte. rewrite N_ascii_embedding; lia. Qed.

Lemma code_range c : 0 <= code c < 256.
Proof. unfold code. pose proof (N_ascii_bounded c). lia. Qed.

#[export] Hint Rewrite bytes_unbytes unbytes_bytes bytes_app : puls_bytes.

(** ** [strings.HasPrefix], [TrimPrefix], [TrimSuffix], [Contains], [Split] *)

Fixpoint has_prefix (p l : list ascii) : bool :=
  match p, l with
  | [], _ => true
  | a :: p', b :: l' => Ascii.eqb a b && has_prefix p' l'
  | _ :: _, [] => false
  end.

Definition HasPrefix (s p : string) : bool := has_prefix (bytes p) (bytes s).

Definition trim_prefix (p l : list ascii) : list ascii :=
  if has_prefix p l then drop (length p) l else l.

Definition TrimPrefix (s p : string) : string := unbytes (trim_prefix (bytes p) (bytes s)).

Definition TrimSuffix (s p : string) : string :=
  unbytes (rev (trim_prefix (rev (bytes p)) (rev (bytes s)))).

Fixpoint contains (p l : list ascii) : bool :=
  has_prefix p l || match l with [] => false | _ :: l' => contains p l' end.

Definition Contains (s p : string) : bool := contains (bytes p) (bytes s).

(** [Split] at a one-byte separator: the fields between its occurrences. *)
Fixpoint split (c : ascii) (l : list ascii) : list (list ascii) :=
  match l with
  | [] => [[]]
  | a :: l' =>
      if Ascii.eqb a c then [] :: split c l'
      else match split c l' with
           | f :: fs => (a :: f) :: fs
           | [] => [[a]]
           end
  end.

Definition Split (s : string) (c : ascii) : list string := unbytes <$> split c (bytes s).

Lemma has_prefix_spec p l : has_prefix p l = true ↔ ∃ k, l = p ++ k.
Proof.
  revert l. induction p as [|a p IH]; intros l; simpl.
  { split; [by exists l|done]. }
  destruct l as [|b l].
  { split; [done|by intros [k Hk]]. }
  rewrite andb_true_iff, Ascii.eqb_eq, IH. split.
  - intros [-> [k ->]]. by exists k.
  - intros [k [= -> ->]]. eauto.
Qed.

Lemma trim_prefix_app p k : trim_prefix p (p ++ k) = k.
Proof.
  unfold trim_prefix. rewrite (proj2 (has_prefix_spec p (p ++ k))); [|by exists k].
  by rewrite drop_app_length.
Qed.

Lemma HasPrefix_spec s p : HasPrefix s p = true ↔ ∃ t, s = p +:+ t.
Proof.
  unfold HasPrefix. rewrite has_prefix_spec. split.
  - intros [k Hk]. exists (unbytes k).
    rewrite <-(unbytes_bytes s), Hk, <-(unbytes_bytes (p +:+ unbytes k)).
    by autorewrite with puls_bytes.
  - intros [t ->]. exists (bytes t). by autorewrite with puls_bytes.
Qed.

Lemma TrimPrefix_app p t : TrimPrefix (p +:+ t) p = t.
Proof.
  unfold TrimPrefix. rewrite bytes_app, trim_prefix_app. apply unbytes_bytes.
Qed.

Lemma split_not_nil c l : split c l ≠ [].
Proof. destruct l as [|a l]; simpl; [done|]. case_match; [done|]. by case_match. Qed.

(** ** [strings.TrimSpace] *)

(** The UTF-8 encodings of the runes of [unicode.IsSpace]. *)
Definition space_runes : list (list ascii) :=
  (λ l : list Z, byte <$> l) <$>
  [[9]; [10]; [11]; [12]; [13]; [32]; [194; 133]; [194; 160]; [225; 154; 128];
   [226; 128; 128]; [226; 128; 129]; [226; 128; 130]; [226; 128; 131];
   [226; 128; 132]; [226; 128; 133]; [226; 128; 134]; [226; 128; 135];
   [226; 128; 136]; [226; 128; 137]; [226; 128; 138]; [226; 128; 168];
   [226; 128; 169]; [226; 128; 175]; [226; 129; 159]; [227; 128; 128]].

(** The rest of [l] after the rune of [rs] it starts with. *)
Definition strip_rune (rs : list (list ascii)) (l : list ascii) : option (list ascii) :=
  match List.find (λ r, has_prefix r l) rs with
  | Some r => Some (drop (length r) l)
  | None => None
  end.

Fixpoint strip_runes (fuel : nat) (rs : list (list ascii)) (l : list ascii) : list ascii :=
  match fuel with
  | O => l
  | S fuel => match strip_rune rs l with
              | Some l' => strip_runes fuel rs l'
              | None => l
              end
  end.

Definition trim_left (rs : list (list ascii)) (l : list ascii) : list ascii :=
  strip_runes (length l) rs l.

(** A trailing white-space rune is the reversal of a leading one of the
    reversed string: each encoding starts with the only lead byte in it. *)
Definition trim_space (l : list ascii) : list ascii :=
  rev (trim_left (@rev ascii <$> space_runes) (rev (trim_left space_runes l))).

Definition TrimSpace (s : string) : string := unbytes (trim_space (bytes s)).

Section trim_space_facts.
Variable rs : list (list ascii).
Hypothesis rs_pos : Forall (λ r, r ≠ []) rs.

Lemma strip_rune_shorter l l' :
  strip_rune rs l = Some l' → (length l' < length l)%nat.
Proof using rs_pos.
  unfold strip_rune. destruct (List.find _ _) as [r|] eqn:E; [|done].
  intros [= <-]. apply List.find_some in E as [Hin Hp].
  apply has_prefix_spec in Hp as [k ->].
  rewrite List.Forall_forall in rs_pos. specialize (rs_pos r Hin).
  rewrite length_drop, length_app. destruct r; [done|simpl; lia].
Qed.

Lemma strip_runes_clean fuel l :
  (length l ≤ fuel)%nat → strip_rune rs (strip_runes fuel rs l) = None.
Proof using rs_pos.
  revert l. induction fuel as [|fuel IH]; intros l Hl; simpl;
    destruct (strip_rune rs l) as [l'|] eqn:E; try done;
    apply strip_rune_shorter in E; [lia|]. apply IH. lia.
Qed.

Lemma strip_runes_suffix fuel l : ∃ k, l = k ++ strip_runes fuel rs l.
Proof using.
  revert l. induction fuel as [|fuel IH]; intros l; simpl; [by exists []|].
  destruct (strip_rune rs l) as [l'|] eqn:E; [|by exists []].
  unfold strip_rune in E. destruct (List.find _ _) as [r|] eqn:Ef; [|done].
  simplify_eq. apply List.find_some in Ef as [_ Hp].
  apply has_prefix_spec in Hp as [k ->]. rewrite drop_app_length.
  destruct (IH k) as [k' Hk']. exists (r ++ k'). by rewrite <-app_assoc, <-Hk'.
Qed.

Lemma strip_rune_prefix l k : strip_rune rs (l ++ k) = None → strip_rune rs l = None.
Proof using.
  unfold strip_rune. destruct (List.find (λ r, has_prefix r (l ++ k)) rs) eqn:E; [done|].
  intros _. destruct (List.find (λ r, has_prefix r l) rs) as [r|] eqn:E'; [|done].
  apply List.find_some in E' as [Hin Hp]. apply has_prefix_spec in Hp as [k' ->].
  eapply List.find_none in E; [|done]. exfalso. revert E.
  rewrite <-app_assoc. by rewrite (proj2 (has_prefix_spec _ _)); [|eexists].
Qed.
End trim_space_facts.

Lemma space_runes_pos : Forall (λ r, r ≠ []) space_runes.
Proof. repeat constructor; discriminate. Qed.

Lemma space_runes_rev_pos : Forall (λ r, r ≠ []) (@rev ascii <$> space_runes).
Proof. repeat constructor; discriminate. Qed.

(** [s] neither starts nor ends with white space. *)
Definition trimmed (l : list ascii) : Prop :=
  strip_rune space_runes l = None ∧
  strip_rune (@rev ascii <$> space_runes) (rev l) = None.

#[export] Instance trimmed_dec l : Decision (trimmed l).
Proof. unfold trimmed. apply _. Defined.

Lemma trim_space_trimmed l : trimmed (trim_space l).
Proof.
  unfold trim_space, trimmed, trim_left. rewrite rev_involutive. split.
  - set (m := strip_runes (length l) space_runes l).
    destruct (strip_runes_suffix (@rev ascii <$> space_runes) (length (rev m)) (rev m))
      as [k Hk].
    eapply (strip_rune_prefix _ _ (rev k)). rewrite <-rev_app_distr, <-Hk, rev_involutive.
    by apply strip_runes_clean; [apply space_runes_pos|].
  - by apply strip_runes_clean; [apply space_runes_rev_pos|].
Qed.

Lemma strip_runes_id fuel rs l : strip_rune rs l = None → strip_runes fuel rs l = l.
Proof. destruct fuel; simpl; [done|]. by intros ->. Qed.

(** Trimming what is already trimmed changes nothing. *)
Lemma trim_space_id l : trimmed l → trim_space l = l.
Proof.
  intros [H1 H2]. unfold trim_space, trim_left.
  rewrite (strip_runes_id _ space_runes) by done.
  rewrite strip_runes_id by done. apply rev_involutive.
Qed.

Lemma TrimSpace_trimmed s : trimmed (bytes (TrimSpace s)).
Proof. unfold TrimSpace. rewrite bytes_unbytes. apply trim_space_trimmed. Qed.

(** ** Decimal numbers *)

Definition digit (n : Z) : ascii := byte (48 + n).
Definition is_digit (c : ascii) : bool := (48 <=? code c) && (code c <=? 57).

(** [n] as exactly [w] decimal digits, for [0 <= n < 10 ^ w]. *)
Fixpoint pad (w : nat) (n : Z) : list ascii :=
  match w with
  | O => []
  | S w => digit (n / 10 ^ Z.of_nat w) :: pad w (n mod 10 ^ Z.of_nat w)
  end.

Fixpoint num_digits (fuel : nat) (n : Z) : nat :=
  match fuel with
  | O => 1
  | S fuel => if n <? 10 then 1 else S (num_digits fuel (n / 10))
  end.

(** [time.appendInt]: [n] in at least [w] digits, with a sign if negative. *)
Definition append_int (w : nat) (n : Z) : list ascii :=
  let u := Z.abs n in
  let ds := pad (Nat.max w (num_digits (Z.to_nat (Z.log2 u)) u)) u in
  if n <? 0 then byte 45 :: ds else ds.

Definition Itoa (n : Z) : string := unbytes (append_int 1 n).

(** The value of a string of digits, [None] at any other byte. *)
Fixpoint parse_digits (acc : Z) (l : list ascii) : option Z :=
  match l with
  | [] => Some acc
  | c :: l => if is_digit c then parse_digits (acc * 10 + (code c - 48)) l else None
  end.

(** [strconv.Atoi]: an optional sign and at least one digit, in the range of
    a 64-bit [int]. *)
Definition Atoi (s : string) : option Z :=
  let '(neg, ds) :=
    match bytes s with
    | c :: l => if Ascii.eqb c (byte 45) then (true, l)
                else if Ascii.eqb c (byte 43) then (false, l)
                else (false, c :: l)
    | [] => (false, [])
    end in
  match ds with
  | [] => None
  | _ => match parse_digits 0 ds with
         | Some u => let n := if neg : bool then - u else u in
                     if is_int64 n then Some n else None
         | None => None
         end
  end.

Lemma length_pad w n : length (pad w n) = w.
Proof. revert n. induction w; intros n; simpl; auto. Qed.

Lemma pow10_pos w : 0 < 10 ^ Z.of_nat w.
Proof. apply Z.pow_pos_nonneg; lia. Qed.

Lemma pow10_succ w : 10 ^ Z.of_nat (S w) = 10 * 10 ^ Z.of_nat w.
Proof. rewrite Nat2Z.inj_succ, Z.pow_succ_r; lia. Qed.

Lemma pad_head_range w n :
  0 <= n < 10 ^ Z.of_nat (S w) → 0 <= n / 10 ^ Z.of_nat w < 10.
Proof.
  rewrite pow10_succ. pose proof (pow10_pos w). intros H'.
  split; [apply Z.div_pos; lia|apply Z.div_lt_upper_bound; lia].
Qed.

Lemma pad_tail_range w n : 0 <= n mod 10 ^ Z.of_nat w < 10 ^ Z.of_nat w.
Proof. apply Z.mod_pos_bound, pow10_pos. Qed.

Lemma code_digit n : 0 <= n < 10 → code (digit n) = 48 + n.
Proof. intros. unfold digit. rewrite code_byte; lia. Qed.

Lemma is_digit_digit n : 0 <= n < 10 → is_digit (digit n) = true.
Proof.
  intros. unfold is_digit. rewrite code_digit by done.
  rewrite andb_true_iff, !Z.leb_le. lia.
Qed.

(** Reading back what [pad] writes. *)
Lemma parse_digits_pad w n acc k :
  0 <= n < 10 ^ Z.of_nat w →
  parse_digits acc (pad w n ++ k) = parse_digits (acc * 10 ^ Z.of_nat w + n) k.
Proof.
  revert n acc. induction w as [|w IH]; intros n acc Hn.
  { simpl. f_equal. simpl in Hn. lia. }
  pose proof (pad_head_range w n Hn) as Hd.
  cbn [pad app parse_digits]. rewrite is_digit_digit, code_digit, IH by auto using pad_tail_range.
  f_equal. rewrite pow10_succ.
  pose proof (Z.div_mod n (10 ^ Z.of_nat w) ltac:(pose proof (pow10_pos w); lia)). lia.
Qed.

Lemma num_digits_pos fuel n : (1 ≤ num_digits fuel n)%nat.
Proof. destruct fuel; simpl; [lia|]. case_match; lia. Qed.

Lemma num_digits_enough fuel n :
  0 <= n < 10 ^ (Z.of_nat fuel + 1) → n < 10 ^ Z.of_nat (num_digits fuel n).
Proof.
  revert n. induction fuel as [|fuel IH]; intros n Hn; simpl num_digits.
  { simpl in Hn. change (n < 10). lia. }
  destruct (n <? 10) eqn:E; bool_prop.
  { change (n < 10). lia. }
  rewrite pow10_succ.
  assert (n / 10 < 10 ^ Z.of_nat (num_digits fuel (n / 10))).
  { apply IH. split; [apply Z.div_pos; lia|]. apply Z.div_lt_upper_bound; [lia|].
    rewrite <-Z.pow_succ_r by lia. eapply Z.lt_le_trans; [apply Hn|].
    apply Z.pow_le_mono_r; lia. }
  pose proof (Z.div_mod n 10). pose proof (Z.mod_pos_bound n 10). lia.
Qed.

Lemma log2_pow10 n : 0 <= n → n < 10 ^ (Z.log2 n + 1).
Proof.
  intros H. destruct (decide (n = 0)) as [->|]; [done|].
  pose proof (Z.log2_spec n ltac:(lia)) as [_ Hlt].
  eapply Z.lt_le_trans; [apply Hlt|]. rewrite Z.add_1_r.
  apply Z.pow_le_mono_l. lia.
Qed.

(** The digits [append_int] writes are the digits of a number in range. *)
Lemma append_int_width w n :
  let u := Z.abs n in
  u < 10 ^ Z.of_nat (Nat.max w (num_digits (Z.to_nat (Z.log2 u)) u)).
Proof.
  intros u. pose proof (Z.log2_nonneg u).
  eapply Z.lt_le_trans.
  - apply (num_digits_enough (Z.to_nat (Z.log2 u))).
    rewrite Z2Nat.id by done. split; [lia|]. apply log2_pow10. lia.
  - apply Z.pow_le_mono_r; lia.
Qed.

(** A number of at most [w] digits is written in exactly [w]. *)
Lemma num_digits_le fuel w n :
  (1 ≤ w)%nat → 0 <= n < 10 ^ Z.of_nat w → (num_digits fuel n ≤ w)%nat.
Proof.
  revert w n. induction fuel as [|fuel IH]; intros w n Hw Hn; simpl; [done|].
  destruct (n <? 10) eqn:E; [done|]; bool_prop.
  destruct w as [|[|w]]; [lia|simpl in Hn; lia|].
  apply le_n_S, IH; [lia|].
  split; [apply Z.div_pos; lia|].
  apply Z.div_lt_upper_bound; [lia|]. rewrite <-pow10_succ. lia.
Qed.

Lemma append_int_pad w n :
  (1 ≤ w)%nat → 0 <= n < 10 ^ Z.of_nat w → append_int w n = pad w n.
Proof.
  intros Hw Hn. unfold append_int.
  rewrite (proj2 (Z.ltb_ge n 0)), Z.abs_eq by lia. f_equal.
  apply Nat.max_l. by apply num_digits_le.
Qed.

(** ** The order of bytes *)

Fixpoint cmp_bytes (k l : list ascii) : comparison :=
  match k, l with
  | [], [] => Eq
  | [], _ :: _ => Lt
  | _ :: _, [] => Gt
  | a :: k, b :: l => match code a ?= code b with Eq => cmp_bytes k l | c => c end
  end.

Lemma compare_cmp_bytes s t : String.compare s t = cmp_bytes (bytes s) (bytes t).
Proof.
  revert t. induction s as [|a s IH]; intros [|b t]; try done.
  change (bytes (String a s)) with (a :: bytes s).
  change (bytes (String b t)) with (b :: bytes t).
  cbn [String.compare cmp_bytes]. unfold code, Ascii.compare.
  rewrite N2Z.inj_compare. case_match; [apply IH|done..].
Qed.

Lemma cmp_bytes_app p k l : cmp_bytes (p ++ k) (p ++ l) = cmp_bytes k l.
Proof. induction p; simpl; [done|]. by rewrite Z.compare_refl. Qed.

Definition then_cmp (c d : comparison) : comparison := match c with Eq => d | _ => c end.

(** Two numbers of [w] digits compare as their decimal representations. *)
Lemma cmp_bytes_pad w a b k l :
  0 <= a < 10 ^ Z.of_nat w → 0 <= b < 10 ^ Z.of_nat w →
  cmp_bytes (pad w a ++ k) (pad w b ++ l) = then_cmp (a ?= b) (cmp_bytes k l).
Proof.
  revert a b. induction w as [|w IH]; intros a b Ha Hb.
  { simpl in *. by replace a with b by lia; rewrite Z.compare_refl. }
  pose proof (pad_head_range w a Ha) as Hda. pose proof (pad_head_range w b Hb) as Hdb.
  pose proof (pow10_pos w). pose proof (pad_tail_range w a) as Hma.
  pose proof (pad_tail_range w b) as Hmb.
  cbn [pad app cmp_bytes]. rewrite !code_digit, IH by done.
  pose proof (Z.div_mod a (10 ^ Z.of_nat w) ltac:(lia)) as Ea.
  pose proof (Z.div_mod b (10 ^ Z.of_nat w) ltac:(lia)) as Eb.
  set (p := 10 ^ Z.of_nat w) in *. set (qa := a / p) in *. set (qb := b / p) in *.
  destruct (Z.compare_spec (48 + qa) (48 + qb)) as [Hq|Hq|Hq].
  - assert (Hqq : qa = qb) by lia. rewrite Hqq in Ea.
    replace (a ?= b) with (a mod p ?= b mod p); [done|].
    rewrite Ea at 2. rewrite Eb at 2. by rewrite Z.add_compare_mono_l.
  - assert (a < b) as -> % Z.compare_lt_iff by nia. done.
  - assert (a > b) as Hgt by nia. by rewrite (proj2 (Z.compare_gt_iff a b)) by lia.
Qed.

(** The separators in a string of [split] fields. *)
Lemma split_no_sep c l : Forall (λ f, c ∉ f) (split c l).
Proof.
  induction l as [|a l IH]; simpl.
  { repeat constructor. set_solver. }
  destruct (Ascii.eqb_spec a c) as [->|Hne].
  { constructor; [set_solver|done]. }
  destruct (split c l) as [|f fs] eqn:E; [by destruct (split_not_nil c l)|].
  inversion IH as [|? ? Hf Hfs]; subst. constructor; [|done].
  rewrite not_elem_of_cons. split; congruence.
Qed.

(** ** [net.SplitHostPort] *)

Fixpoint index_byte (c : ascii) (l : list ascii) : option nat :=
  match l with
  | [] => None
  | a :: l => if Ascii.eqb a c then Some O else S <$> index_byte c l
  end.

Definition last_index (c : ascii) (l : list ascii) : option nat :=
  (λ i, (length l - 1 - i)%nat) <$> index_byte c (rev l).

Definition has_byte (c : ascii) (l : list ascii) : bool :=
  match index_byte c l with Some _ => true | None => false end.

Definition colon : ascii := byte 58.
Definition lbracket : ascii := byte 91.
Definition rbracket : ascii := byte 93.

(** The host and the port, or [None] where Go returns an [*AddrError]. *)
Definition split_host_port (l : list ascii) : option (list ascii * list ascii) :=
  match last_index colon l with
  | None => None
  | Some i =>
      let finish host j k :=
        if has_byte lbracket (drop j l) || has_byte rbracket (drop k l) then None
        else Some (host, drop (S i) l) in
      match l with
      | c :: _ =>
          if Ascii.eqb c lbracket then
            match index_byte rbracket l with
            | None => None
            | Some e =>
                if Nat.eqb (S e) (length l) then None
                else if Nat.eqb (S e) i then finish (take (e - 1) (drop 1 l)) 1%nat (S e)
                else None
            end
          else if has_byte colon (take i l) then None
          else finish (take i l) 0%nat 0%nat
      | [] => None
      end
  end.

Definition SplitHostPort (s : string) : option (string * string) :=
  (λ '(h, p), (unbytes h, unbytes p)) <$> split_host_port (bytes s).

Example SplitHostPort_v4 : SplitHostPort "10.0.0.7:51234" = Some ("10.0.0.7", "51234")%string.
Proof. reflexivity. Qed.
Example SplitHostPort_v6 : SplitHostPort "[::1]:80" = Some ("::1", "80")%string.
Proof. reflexivity. Qed.
Example SplitHostPort_bare : SplitHostPort "::1" = None.
Proof. reflexivity. Qed.

Lemma cmp_bytes_trans k l m : cmp_bytes k l = Lt → cmp_bytes l m = Lt → cmp_bytes k m = Lt.
Proof.
  revert l m. induction k as [|a k IH]; intros [|b l] [|c m]; simpl; try done.
  destruct (Z.compare_spec (code a) (code b)) as [H1|H1|H1],
    (Z.compare_spec (code b) (code c)) as [H2|H2|H2]; try done; intros Hk Hl.
  - rewrite (proj2 (Z.compare_eq_iff _ _)) by lia. eauto.
  - by rewrite (proj2 (Z.compare_lt_iff _ _)) by lia.
  - by rewrite (proj2 (Z.compare_lt_iff _ _)) by lia.
  - by rewrite (proj2 (Z.compare_lt_iff _ _)) by lia.
Qed.
