(* ===== verification/GoTime.v ===== *)
(** * Go time.

    Instants, durations and RFC 3339 text: the part of Go's [time] package the
    program uses.  A [time.Time] is a number of nanoseconds since 1970-01-01
    UTC, a [time.Duration] a number of nanoseconds in [int64].  The location a
    [time.Time] carries is not modelled: [UTC()] keeps the instant, and every
    formatted time of the program went through [UTC()] first. *)
From S2P Require Import Prelude GoString.
Local Open Scope Z_scope.

(** ** Instants and durations *)

Definition Time : Type := Z.
Definition Duration : Type := Z.

Definition Nanosecond : Duration := 1.
Definition Microsecond : Duration := 1000.
Definition Millisecond : Duration := 1000000.
Definition Second : Duration := 1000000000.
Definition Minute : Duration := 60 * Second.
Definition Hour : Duration := 60 * Minute.

(** [t.Sub(u)] saturates at the bounds of a [Duration]. *)
Definition time_Sub (t u : Time) : Duration := Z.max int64_min (Z.min int64_max (t - u)).

(** [time.Time{}], year 1 in UTC; [IsZero] recognises it. *)
Definition zero_time : Time := -62135596800 * Second.
Definition IsZero (t : Time) : bool := t =? zero_time.

Definition unix_sec (t : Time) : Z := t / Second.
Definition nanosecond (t : Time) : Z := t mod Second.

(** The instant truncated to its second. *)
Definition trunc_sec (t : Time) : Time := unix_sec t * Second.

Lemma trunc_sec_bounds t : trunc_sec t <= t < trunc_sec t + Second.
Proof.
  unfold trunc_sec, unix_sec, Second. pose proof (Z.mod_pos_bound t 1000000000).
  pose proof (Z.div_mod t 1000000000). lia.
Qed.

Lemma unix_sec_trunc t : unix_sec (trunc_sec t) = unix_sec t.
Proof. unfold unix_sec, trunc_sec, unix_sec. apply Z.div_mul. done. Qed.

Lemma trunc_sec_idem t : trunc_sec (trunc_sec t) = trunc_sec t.
Proof. unfold trunc_sec at 1 3. by rewrite unix_sec_trunc. Qed.

Lemma time_Sub_exact t u : is_int64 (t - u) = true → time_Sub t u = t - u.
Proof. unfold time_Sub, is_int64. intros H. bool_prop. lia. Qed.

Lemma time_Sub_range t u : is_int64 (time_Sub t u) = true.
Proof.
  unfold time_Sub, is_int64, int64_min, int64_max.
  rewrite andb_true_iff, !Z.leb_le. lia.
Qed.

(** ** The calendar *)

(** The proleptic Gregorian calendar, with years that start on the first of
    March so that a leap day is the last day of its year.  [year_start y] is
    the number of days from 0000-03-01 to [y]-03-01. *)
Definition year_start (y : Z) : Z := 365 * y + y / 4 - y / 100 + y / 400.

(** The March-based year of a day and the day of that year: cycles of 400, 100
    and 4 years, then single years. *)
Definition march (z : Z) : Z * Z :=
  let r := z mod 146097 in
  let c := Z.min (r / 36524) 3 in
  let r := r - 36524 * c in
  let q := r / 1461 in
  let r := r - 1461 * q in
  let k := Z.min (r / 365) 3 in
  (400 * (z / 146097) + 100 * c + 4 * q + k, r - 365 * k).

(** The month and the day of the month of the day [doy] of a March-based year,
    and the number of years to add to it. *)
Definition month_day (doy : Z) : Z * Z * Z :=
  let mp := (5 * doy + 2) / 153 in
  let m := if mp <? 10 then mp + 3 else mp - 9 in
  (if m <=? 2 then 1 else 0, m, doy - (153 * mp + 2) / 5 + 1).

(** [Time.Date]: year, month and day of a day counted from 1970-01-01. *)
Definition civil (days : Z) : Z * Z * Z :=
  let '(y, doy) := march (days + 719468) in
  let '(c, m, d) := month_day doy in
  (y + c, m, d).

(** [time.Date]: days since 1970-01-01 of a date. *)
Definition days_of_civil (y m d : Z) : Z :=
  let y := if m <=? 2 then y - 1 else y in
  let doy := (153 * (if 2 <? m then m - 3 else m + 9) + 2) / 5 + d - 1 in
  year_start y + doy - 719468.

Definition is_leap (y : Z) : bool :=
  (y mod 4 =? 0) && (negb (y mod 100 =? 0) || (y mod 400 =? 0)).

Definition days_in (m y : Z) : Z :=
  if m =? 2 then if is_leap y then 29 else 28
  else if (m =? 4) || (m =? 6) || (m =? 9) || (m =? 11) then 30 else 31.

(** The length of a year. *)
Lemma year_length y :
  year_start (y + 1) - year_start y = if is_leap (y + 1) then 366 else 365.
Proof.
  unfold year_start, is_leap.
  pose proof (Z.div_mod y 400 ltac:(lia)) as E.
  pose proof (Z.mod_pos_bound y 400 ltac:(lia)) as B.
  set (e := y / 400) in *. set (r := y mod 400) in *. clearbody e r. subst y.
  replace ((400 * e + r + 1) mod 4) with ((r + 1) mod 4) by div_lia.
  replace ((400 * e + r + 1) mod 100) with ((r + 1) mod 100) by div_lia.
  replace ((400 * e + r + 1) mod 400) with ((r + 1) mod 400) by div_lia.
  destruct (Z.eqb_spec ((r + 1) mod 4) 0), (Z.eqb_spec ((r + 1) mod 100) 0),
    (Z.eqb_spec ((r + 1) mod 400) 0); cbn [negb andb orb]; div_lia.
Qed.

Lemma year_start_mono y y' : y <= y' → year_start y <= year_start y'.
Proof. unfold year_start. div_lia. Qed.

Lemma march_spec z :
  let '(y, doy) := march z in
  z = year_start y + doy ∧ 0 <= doy ∧ doy < year_start (y + 1) - year_start y.
Proof.
  unfold march, year_start.
  pose proof (Z.div_mod z 146097 ltac:(lia)) as E0.
  pose proof (Z.mod_pos_bound z 146097 ltac:(lia)) as B0.
  set (e := z / 146097) in *. set (r0 := z mod 146097) in *. clearbody e r0. subst z.
  set (c := Z.min (r0 / 36524) 3).
  assert (Hc : 0 <= c <= 3 ∧ 0 <= r0 - 36524 * c <= 36524 ∧
               (r0 - 36524 * c = 36524 → c = 3)) by (unfold c; div_lia).
  clearbody c. set (r1 := r0 - 36524 * c) in *.
  assert (E1 : r0 = 36524 * c + r1) by (unfold r1; lia). clearbody r1. subst r0.
  pose proof (Z.div_mod r1 1461 ltac:(lia)) as E2.
  pose proof (Z.mod_pos_bound r1 1461 ltac:(lia)) as B2.
  set (q := r1 / 1461) in *.
  replace (r1 - 1461 * q) with (r1 mod 1461) by lia.
  set (r2 := r1 mod 1461) in *. clearbody q r2. subst r1.
  set (k := Z.min (r2 / 365) 3).
  assert (Hk : 0 <= k <= 3 ∧ 0 <= r2 - 365 * k <= 365 ∧
               (r2 - 365 * k = 365 → k = 3)) by (unfold k; div_lia).
  clearbody k. div_lia.
Qed.

(** The facts about one day of a March-based year, for the 366 days. *)
Definition month_day_ok (doy : Z) : bool :=
  let '(c, m, d) := month_day doy in
  let '(c', m', d') := month_day (doy + 1) in
  (1 <=? m) && (m <=? 12) && (1 <=? d) && (c =? (if m <=? 2 then 1 else 0)) &&
  ((153 * (if 2 <? m then m - 3 else m + 9) + 2) / 5 + d - 1 =? doy) &&
  (if m =? 2 then (d <=? 28) || ((d =? 29) && (doy =? 365)) else d <=? days_in m 1) &&
  ((doy =? 365) || (c * 10000 + m * 100 + d <? c' * 10000 + m' * 100 + d')).

Lemma month_day_spec doy : 0 <= doy <= 365 → month_day_ok doy = true.
Proof.
  assert (H : forallb (λ i, month_day_ok (Z.of_nat i)) (seq 0 366) = true) by by vm_compute.
  intros Hd. rewrite List.forallb_forall in H. rewrite <-(Z2Nat.id doy) by lia.
  apply H, in_seq. lia.
Qed.

Lemma days_in_other m y : m ≠ 2 → days_in m y = days_in m 1.
Proof. intros H. unfold days_in. by rewrite (proj2 (Z.eqb_neq m 2) H). Qed.

Lemma march_doy z : let '(y, doy) := march z in
  0 <= doy <= 365 ∧ (doy = 365 → is_leap (y + 1) = true).
Proof.
  pose proof (march_spec z) as H. destruct (march z) as [y doy].
  rewrite year_length in H. case_match; lia.
Qed.

(** A day as a date is a valid date, and the same day. *)
Lemma civil_spec n :
  let '(y, m, d) := civil n in
  days_of_civil y m d = n ∧ 1 <= m <= 12 ∧ 1 <= d <= days_in m y.
Proof.
  unfold civil. pose proof (march_spec (n + 719468)) as Hs.
  pose proof (march_doy (n + 719468)) as Hd.
  destruct (march (n + 719468)) as [y doy]. destruct Hd as [Hd Hleap].
  pose proof (month_day_spec doy Hd) as Hm. unfold month_day_ok in Hm.
  destruct (month_day doy) as [[c m] d]. destruct (month_day (doy + 1)) as [[c' m'] d'].
  apply andb_true_iff in Hm as [Hm _]. bool_prop. subst c.
  unfold days_of_civil. split_and!; try lia.
  - destruct (m <=? 2).
    + replace (y + 1 - 1) with y by lia. lia.
    + replace (y + 0) with y by lia. lia.
  - destruct (Z.eqb_spec m 2) as [->|Hm2].
    + replace (y + (if 2 <=? 2 then 1 else 0)) with (y + 1) by done.
      unfold days_in. simpl (2 =? 2) in *. cbn match in *.
      destruct (d <=? 28) eqn:E; bool_prop; [destruct (is_leap (y + 1)); lia|].
      cbn [orb] in *. bool_prop. rewrite Hleap by done. lia.
    + rewrite (days_in_other m) by done. bool_prop. done.
Qed.

(** Dates as numbers, in the order of their days. *)
Definition date_key (n : Z) : Z := let '(y, m, d) := civil n in y * 10000 + m * 100 + d.

Definition month_key (doy : Z) : Z :=
  let '(c, m, d) := month_day doy in c * 10000 + m * 100 + d.

Lemma date_key_march n :
  date_key n = (march (n + 719468)).1 * 10000 + month_key (march (n + 719468)).2.
Proof.
  unfold date_key, civil, month_key. destruct (march _) as [y doy]; simpl.
  destruct (month_day doy) as [[c m] d]. lia.
Qed.

Lemma month_key_step doy : 0 <= doy < 365 → month_key doy < month_key (doy + 1).
Proof.
  intros H. pose proof (month_day_spec doy ltac:(lia)) as Hm. unfold month_day_ok in Hm.
  unfold month_key. destruct (month_day doy) as [[c m] d].
  destruct (month_day (doy + 1)) as [[c' m'] d']. apply andb_true_iff in Hm as [_ Hm].
  apply orb_true_iff in Hm as [Hm|Hm]; bool_prop; lia.
Qed.

Lemma month_key_mono a b : 0 <= a < b → b <= 365 → month_key a < month_key b.
Proof.
  intros [Ha Hab]. replace b with (a + 1 + Z.of_nat (Z.to_nat (b - a - 1))) by lia.
  induction (Z.to_nat (b - a - 1)) as [|k IH]; intros Hb.
  - rewrite Z.add_0_r. apply month_key_step. lia.
  - rewrite Nat2Z.inj_succ, <-Z.add_1_r, Z.add_assoc in *.
    etrans; [apply IH; lia|]. apply month_key_step. lia.
Qed.

Lemma month_key_range doy : 0 <= doy <= 365 → 301 <= month_key doy <= 10229.
Proof.
  intros H.
  assert (month_key 0 = 301 ∧ month_key 365 = 10229) as [E0 E1] by done.
  destruct (Z.eq_dec doy 0) as [->|]; [lia|].
  destruct (Z.eq_dec doy 365) as [->|]; [lia|].
  pose proof (month_key_mono 0 doy). pose proof (month_key_mono doy 365). lia.
Qed.

Lemma date_key_mono a b : a < b → date_key a < date_key b.
Proof.
  intros Hab. rewrite !date_key_march.
  pose proof (march_spec (a + 719468)) as Ha. pose proof (march_doy (a + 719468)) as Da.
  pose proof (march_spec (b + 719468)) as Hb. pose proof (march_doy (b + 719468)) as Db.
  destruct (march (a + 719468)) as [ya da], (march (b + 719468)) as [yb db]; simpl.
  destruct Da as [Da _], Db as [Db _].
  pose proof (month_key_range da Da). pose proof (month_key_range db Db).
  destruct (Z.lt_trichotomy ya yb) as [Hy|[->|Hy]]; [lia| |].
  - pose proof (month_key_mono da db). lia.
  - pose proof (year_start_mono (yb + 1) ya). lia.
Qed.

(** ** RFC 3339 *)

(** The hour, the minute and the second of a day. *)
Definition clock (sod : Z) : Z * Z * Z := (sod / 3600, sod / 60 mod 60, sod mod 60).

Definition year_of (t : Time) : Z := (civil (unix_sec t / 86400)).1.1.

(** RFC 3339 has four-digit years. *)
Definition rfc_year (t : Time) : Prop := 0 <= year_of t <= 9999.

#[export] Instance rfc_year_dec t : Decision (rfc_year t).
Proof. unfold rfc_year. apply _. Defined.

(** [time.appendNano]: the fraction of a second without trailing zeros. *)
Fixpoint trim_zeros (l : list ascii) : list ascii :=
  match l with
  | c :: l' => if Ascii.eqb c (byte 48) then trim_zeros l' else l
  | [] => []
  end.

Definition append_nano (n : Z) : list ascii :=
  match rev (trim_zeros (rev (pad 9 n))) with
  | [] => []
  | ds => byte 46 :: ds
  end.

(** [time.appendFormatRFC3339], with or without the nanoseconds, at UTC. *)
Definition append_rfc3339 (nanos : bool) (t : Time) : list ascii :=
  let s := unix_sec t in
  let '(y, m, d) := civil (s / 86400) in
  let '(hh, mm, ss) := clock (s mod 86400) in
  append_int 4 y ++ byte 45 :: append_int 2 m ++ byte 45 :: append_int 2 d ++
  byte 84 :: append_int 2 hh ++ byte 58 :: append_int 2 mm ++ byte 58 :: append_int 2 ss ++
  (if nanos then append_nano (nanosecond t) else []) ++ [byte 90].

(** [t.UTC().Format(time.RFC3339)] and [time.RFC3339Nano]. *)
Definition Format_RFC3339 (t : Time) : string := unbytes (append_rfc3339 false t).
Definition Format_RFC3339Nano (t : Time) : string := unbytes (append_rfc3339 true t).

(** [parseUint]: a number of digits in a range. *)
Definition parse_uint (l : list ascii) (lo hi : Z) : option Z :=
  n ← parse_digits 0 l; if (lo <=? n) && (n <=? hi) then Some n else None.

Fixpoint span_digits (l : list ascii) : list ascii * list ascii :=
  match l with
  | c :: l' => if is_digit c then let '(ds, k) := span_digits l' in (c :: ds, k) else ([], l)
  | [] => ([], [])
  end.

(** [time.parseNanoseconds] on the digits of a fraction: nine are significant. *)
Definition parse_nanos (ds : list ascii) : option Z :=
  n ← parse_digits 0 (take 9 ds); Some (n * 10 ^ (9 - Z.of_nat (length (take 9 ds)))).

(** The zone at the end: [Z] or [+hh:mm], as seconds east of UTC. *)
Definition parse_zone (l : list ascii) : option Z :=
  match l with
  | [z] => if Ascii.eqb z (byte 90) then Some 0 else None
  | [g; h1; h2; c; m1; m2] =>
      hr ← parse_uint [h1; h2] 0 23;
      mn ← parse_uint [m1; m2] 0 59;
      if (Ascii.eqb g (byte 45) || Ascii.eqb g (byte 43)) && Ascii.eqb c (byte 58) then
        let off := (hr * 60 + mn) * 60 in
        Some (if Ascii.eqb g (byte 45) then - off else off)
      else None
  | _ => None
  end.

Definition sep_at (i : nat) (c : ascii) (l : list ascii) : bool :=
  match l !! i with Some a => Ascii.eqb a c | None => false end.

Definition slice (i j : nat) (l : list ascii) : list ascii := drop i (take j l).

(** The nanoseconds at the front of [rest] and what is left of it. *)
Definition parse_fraction (rest : list ascii) : option (Z * list ascii) :=
  match rest with
  | p :: r =>
      match span_digits r with
      | (c :: ds, k) => if Ascii.eqb p (byte 46) then n ← parse_nanos (c :: ds); Some (n, k)
                        else Some (0, rest)
      | _ => Some (0, rest)
      end
  | [] => Some (0, rest)
  end.

(** [time.parseRFC3339] *)
Definition parse_rfc3339 (l : list ascii) : option Time :=
  if (length l <? 19)%nat then None else
  y ← parse_uint (slice 0 4 l) 0 9999;
  m ← parse_uint (slice 5 7 l) 1 12;
  d ← parse_uint (slice 8 10 l) 1 (days_in m y);
  hh ← parse_uint (slice 11 13 l) 0 23;
  mm ← parse_uint (slice 14 16 l) 0 59;
  ss ← parse_uint (slice 17 19 l) 0 59;
  if negb (sep_at 4 (byte 45) l && sep_at 7 (byte 45) l && sep_at 10 (byte 84) l &&
           sep_at 13 (byte 58) l && sep_at 16 (byte 58) l) then None else
  '(ns, zone) ← parse_fraction (drop 19 l);
  off ← parse_zone zone;
  Some ((days_of_civil y m d * 86400 + hh * 3600 + mm * 60 + ss - off) * Second + ns).

Definition Parse_RFC3339 (s : string) : option Time := parse_rfc3339 (bytes s).

Example format_ex : Format_RFC3339 1721570645123456789 = "2024-07-21T14:04:05Z"%string.
Proof. reflexivity. Qed.
Example format_nano_ex :
  Format_RFC3339Nano 1721570645123456000 = "2024-07-21T14:04:05.123456Z"%string.
Proof. reflexivity. Qed.
Example parse_ex :
  Parse_RFC3339 "2024-07-21T16:04:05.25+02:00" = Some 1721570645250000000.
Proof. reflexivity. Qed.
Example parse_ex_feb : Parse_RFC3339 "2023-02-29T00:00:00Z" = None.
Proof. reflexivity. Qed.
Example format_zero : Format_RFC3339 zero_time = "0001-01-01T00:00:00Z"%string.
Proof. reflexivity. Qed.

(** *** The order of formatted times *)

Definition time_key (s : Z) : Z :=
  date_key (s / 86400) * 1000000 +
  (let '(hh, mm, ss) := clock (s mod 86400) in hh * 10000 + mm * 100 + ss).

Lemma clock_spec sod :
  0 <= sod < 86400 →
  let '(hh, mm, ss) := clock sod in
  sod = hh * 3600 + mm * 60 + ss ∧ 0 <= hh <= 23 ∧ 0 <= mm <= 59 ∧ 0 <= ss <= 59.
Proof. intros H. unfold clock. div_lia. Qed.

Lemma sod_range s : 0 <= s mod 86400 < 86400.
Proof. apply Z.mod_pos_bound. lia. Qed.

Lemma time_key_mono a b : a < b → time_key a < time_key b.
Proof.
  intros Hab. unfold time_key.
  pose proof (clock_spec _ (sod_range a)) as Ca. pose proof (clock_spec _ (sod_range b)) as Cb.
  destruct (clock (a mod 86400)) as [[ha ma] sa], (clock (b mod 86400)) as [[hb mb] sb].
  pose proof (Z.div_mod a 86400 ltac:(lia)). pose proof (Z.div_mod b 86400 ltac:(lia)).
  destruct (Z.lt_trichotomy (a / 86400) (b / 86400)) as [Hd|[Hd|Hd]].
  - pose proof (date_key_mono _ _ Hd). lia.
  - rewrite Hd in *. lia.
  - lia.
Qed.

Lemma compare_mono (f : Z → Z) a b :
  (∀ x y, x < y → f x < f y) → (f a ?= f b) = (a ?= b).
Proof.
  intros Hf. destruct (Z.compare_spec a b) as [->|H|H].
  - apply Z.compare_refl.
  - by apply Z.compare_lt_iff, Hf.
  - by apply Z.compare_gt_iff, Hf.
Qed.

(** Two fields compare as the number they make. *)
Lemma then_cmp_fields k a b c d :
  0 <= c < k → 0 <= d < k → then_cmp (a ?= b) (c ?= d) = (a * k + c ?= b * k + d).
Proof.
  intros Hc Hd. destruct (Z.compare_spec a b) as [->|H|H]; simpl.
  - by rewrite Z.add_compare_mono_l.
  - symmetry. apply Z.compare_lt_iff. nia.
  - symmetry. apply Z.compare_gt_iff. nia.
Qed.

Lemma then_cmp_assoc a b c : then_cmp (then_cmp a b) c = then_cmp a (then_cmp b c).
Proof. by destruct a. Qed.

(** The date and the clock of a formatted time, as padded fields. *)
Lemma append_rfc3339_pad nanos t :
  rfc_year t →
  let '(y, m, d) := civil (unix_sec t / 86400) in
  let '(hh, mm, ss) := clock (unix_sec t mod 86400) in
  append_rfc3339 nanos t =
    pad 4 y ++ [byte 45] ++ pad 2 m ++ [byte 45] ++ pad 2 d ++ [byte 84] ++
    pad 2 hh ++ [byte 58] ++ pad 2 mm ++ [byte 58] ++ pad 2 ss ++
    (if nanos then append_nano (nanosecond t) else []) ++ [byte 90].
Proof.
  unfold append_rfc3339, rfc_year, year_of. intros Hy.
  pose proof (civil_spec (unix_sec t / 86400)) as Hc.
  pose proof (clock_spec _ (sod_range (unix_sec t))) as Hk.
  destruct (civil _) as [[y m] d]. destruct (clock _) as [[hh mm] ss]. simpl in Hy.
  assert (Hd : d <= 31) by (unfold days_in in Hc; repeat case_match; lia).
  rewrite (append_int_pad 4 y), !(append_int_pad 2) by (lia || (simpl; lia)).
  done.
Qed.

Lemma cmp_append_rfc3339 a b :
  rfc_year a → rfc_year b →
  cmp_bytes (append_rfc3339 false a) (append_rfc3339 false b) = (unix_sec a ?= unix_sec b).
Proof.
  intros Ha Hb. rewrite <-(compare_mono time_key) by apply time_key_mono.
  pose proof (append_rfc3339_pad false a Ha) as Ea.
  pose proof (append_rfc3339_pad false b Hb) as Eb.
  unfold rfc_year, year_of, time_key, date_key in *.
  pose proof (civil_spec (unix_sec a / 86400)) as Ca.
  pose proof (civil_spec (unix_sec b / 86400)) as Cb.
  pose proof (clock_spec _ (sod_range (unix_sec a))) as Ka.
  pose proof (clock_spec _ (sod_range (unix_sec b))) as Kb.
  destruct (civil (unix_sec a / 86400)) as [[ya ma] da], (civil (unix_sec b / 86400)) as [[yb mb] db].
  destruct (clock (unix_sec a mod 86400)) as [[ha mia] sa],
    (clock (unix_sec b mod 86400)) as [[hb mib] sb]. simpl in Ha, Hb.
  assert (da <= 31) by (unfold days_in in Ca; repeat case_match; lia).
  assert (db <= 31) by (unfold days_in in Cb; repeat case_match; lia).
  rewrite Ea, Eb.
  repeat (rewrite cmp_bytes_pad by (simpl; lia); rewrite cmp_bytes_app).
  change (cmp_bytes [byte 90] [byte 90]) with Eq.
  replace (then_cmp (sa ?= sb) Eq) with (sa ?= sb) by (by destruct (sa ?= sb)).
  rewrite <-!then_cmp_assoc.
  repeat (rewrite (then_cmp_fields 100) by lia). f_equal; lia.
Qed.

(** *** Reading back a formatted time *)

Lemma parse_uint_pad w n lo hi :
  0 <= n < 10 ^ Z.of_nat w → lo <= n <= hi → parse_uint (pad w n) lo hi = Some n.
Proof.
  intros Hw Hr. unfold parse_uint. rewrite <-(app_nil_r (pad w n)), parse_digits_pad by done.
  cbn [parse_digits mbind option_bind]. rewrite Z.mul_0_l, Z.add_0_l.
  by rewrite (proj2 (Z.leb_le lo n)), (proj2 (Z.leb_le n hi)) by lia.
Qed.

Lemma rev_replicate {A} k (x : A) : rev (replicate k x) = replicate k x.
Proof. induction k as [|k IH]; [done|]. rewrite replicate_S_end at 2. simpl. by rewrite IH. Qed.

Lemma trim_zeros_spec l : ∃ k, l = replicate k (byte 48) ++ trim_zeros l.
Proof.
  induction l as [|c l [k Hk]]; simpl; [by exists O|].
  destruct (Ascii.eqb_spec c (byte 48)) as [->|]; [|by exists O].
  exists (S k). simpl. by f_equal.
Qed.

Lemma pad_digits w n :
  0 <= n < 10 ^ Z.of_nat w → Forall (λ c, is_digit c = true) (pad w n).
Proof.
  revert n. induction w as [|w IH]; intros n Hn; constructor.
  - apply is_digit_digit, pad_head_range. done.
  - apply IH, pad_tail_range.
Qed.

Lemma span_digits_app ds c k :
  Forall (λ c, is_digit c = true) ds → is_digit c = false →
  span_digits (ds ++ c :: k) = (ds, c :: k).
Proof.
  intros Hd Hc. induction Hd as [|a ds Ha Hd IH]; simpl; [by rewrite Hc|].
  by rewrite Ha, IH.
Qed.

Lemma parse_digits_zeros k acc l :
  parse_digits acc (l ++ replicate k (byte 48)) =
  (λ v, v * 10 ^ Z.of_nat k) <$> parse_digits acc l.
Proof.
  revert acc. induction l as [|c l IH]; intros acc; simpl.
  - revert acc. induction k as [|k IHk]; intros acc.
    { simpl. f_equal. lia. }
    cbn [replicate parse_digits]. change (is_digit (byte 48)) with true.
    rewrite IHk, pow10_succ. simpl. f_equal. change (code (byte 48)) with 48. lia.
  - destruct (is_digit c); [apply IH|done].
Qed.

(** The digits of [append_nano] give back the nanoseconds. *)
Lemma append_nano_digits n :
  0 <= n < Second →
  let ds := rev (trim_zeros (rev (pad 9 n))) in
  Forall (λ c, is_digit c = true) ds ∧ parse_nanos ds = Some n.
Proof.
  intros Hn ds. destruct (trim_zeros_spec (rev (pad 9 n))) as [k Hk].
  assert (Hp : pad 9 n = ds ++ replicate k (byte 48)).
  { unfold ds. rewrite <-(rev_involutive (pad 9 n)) at 1.
    rewrite Hk at 1. by rewrite rev_app_distr, rev_replicate. }
  assert (Hl : (length ds + k = 9)%nat).
  { apply (f_equal length) in Hp. rewrite length_pad, length_app, length_replicate in Hp. lia. }
  pose proof (pad_digits 9 n ltac:(simpl; unfold Second in Hn; lia)) as Hd.
  rewrite Hp, Forall_app in Hd. split; [apply Hd|].
  unfold parse_nanos. rewrite take_ge by lia.
  pose proof (parse_digits_pad 9 n 0 [] ltac:(simpl; unfold Second in Hn; lia)) as Hv.
  rewrite app_nil_r, Hp, parse_digits_zeros in Hv.
  destruct (parse_digits 0 ds) as [v|]; [|done]. cbn [fmap option_fmap option_map mbind option_bind] in *.
  replace (9 - Z.of_nat (length ds)) with (Z.of_nat k) by lia. by rewrite Hv.
Qed.

Lemma parse_fraction_append nanos n :
  0 <= n < Second →
  parse_fraction ((if nanos : bool then append_nano n else []) ++ [byte 90]) =
  Some (if nanos then n else 0, [byte 90]).
Proof.
  intros Hn. destruct nanos; [|done]. destruct (append_nano_digits n Hn) as [Hd Hp].
  unfold append_nano. destruct (rev (trim_zeros _)) as [|c ds] eqn:E.
  - injection Hp as <-. done.
  - cbn [app parse_fraction]. change ((c :: ds) ++ [byte 90]) with ((c :: ds) ++ byte 90 :: []).
    rewrite app_comm_cons, span_digits_app by done. by rewrite Hp.
Qed.

(** Parsing a formatted time gives the instant back, to the second or to the
    nanosecond. *)
Lemma parse_append_rfc3339 nanos t :
  rfc_year t →
  parse_rfc3339 (append_rfc3339 nanos t) = Some (if nanos then t else trunc_sec t).
Proof.
  intros Hy. pose proof (append_rfc3339_pad nanos t Hy) as Ht.
  unfold rfc_year, year_of in Hy.
  pose proof (civil_spec (unix_sec t / 86400)) as Hc.
  pose proof (clock_spec _ (sod_range (unix_sec t))) as Hk.
  pose proof (Z.div_mod (unix_sec t) 86400 ltac:(lia)) as Hs.
  destruct (civil _) as [[y m] d]. destruct (clock _) as [[hh mm] ss]. simpl in Hy.
  destruct Hc as [Hdays [Hm Hd]]. destruct Hk as [Hsod Hk].
  assert (Hd31 : d <= 31) by (unfold days_in in Hd; repeat case_match; lia).
  assert (Hn : 0 <= nanosecond t < Second) by (apply Z.mod_pos_bound; done).
  rewrite Ht. set (tail := (if nanos then append_nano (nanosecond t) else []) ++ [byte 90]).
  unfold parse_rfc3339.
  change (length _ <? 19)%nat with false; cbv iota.
  change (slice 0 4 _) with (pad 4 y). rewrite (parse_uint_pad 4) by (simpl; lia).
  change (slice 5 7 _) with (pad 2 m). rewrite (parse_uint_pad 2) by (simpl; lia).
  change (slice 8 10 _) with (pad 2 d).
  cbn [mbind option_bind]. rewrite (parse_uint_pad 2) by (simpl; lia).
  change (slice 11 13 _) with (pad 2 hh). rewrite (parse_uint_pad 2) by (simpl; lia).
  change (slice 14 16 _) with (pad 2 mm). rewrite (parse_uint_pad 2) by (simpl; lia).
  change (slice 17 19 _) with (pad 2 ss). rewrite (parse_uint_pad 2) by (simpl; lia).
  cbn [mbind option_bind]. change (drop 19 _) with tail.
  unfold tail. rewrite parse_fraction_append by done.
  cbn -[Z.mul Z.add Z.sub days_of_civil Second]. f_equal. rewrite Hdays.
  unfold trunc_sec, nanosecond, unix_sec in *. destruct nanos; [|lia].
  pose proof (Z.div_mod t Second ltac:(done)). lia.
Qed.
