(* ===== verification/GoFloat.v ===== *)
(** * Go float64.

    The finite [float64] values and their arithmetic: every operation is the
    exact one followed by the rounding of IEEE 754, to nearest, ties to even,
    at 53 bits.  The exponent is not bounded: the quantities the program
    computes with (seconds, token counts, percentages) are zero or have
    magnitudes between [10 ^ -9] and [10 ^ 12], far from the subnormals and
    from overflow, so there are no infinities and no NaN to model. *)
From Stdlib Require Import QArith Qround Qabs Lqa Qpower Qcanon.
From S2P Require Import Prelude.
Local Open Scope Z_scope.
Local Open Scope Q_scope.

Abbreviation float64 := Q (only parsing).

(** [2 ^ e] for any integer [e]. *)
Definition pow2 (e : Z) : Q := Qpower 2 e.

(** The integer part of [log2 x] for [x > 0]. *)
Definition flog2 (x : Q) : Z :=
  let e := (Z.log2 (Qnum x) - Z.log2 (Zpos (Qden x)))%Z in
  if Qle_bool (pow2 e) x then e else (e - 1)%Z.

(** Round to the nearest integer, ties to even. *)
Definition rint (x : Q) : Z :=
  let f := Qfloor x in
  match Qcompare (x - inject_Z f) (1 # 2) with
  | Lt => f
  | Gt => (f + 1)%Z
  | Eq => if Z.even f then f else (f + 1)%Z
  end.

Definition rnd_pos (x : Q) : Q :=
  let e := (flog2 x - 52)%Z in
  inject_Z (rint (x * pow2 (- e))) * pow2 e.

(** The [float64] nearest to [x], in lowest terms. *)
Definition rnd (x : Q) : float64 :=
  Qred (match Qnum x with
        | Z0 => 0
        | Zpos _ => rnd_pos x
        | Zneg _ => - rnd_pos (- x)
        end).

Definition f_of_Z (z : Z) : float64 := rnd (inject_Z z).
Definition fadd (x y : float64) : float64 := rnd (x + y).
Definition fsub (x y : float64) : float64 := rnd (x - y).
Definition fmul (x y : float64) : float64 := rnd (x * y).
Definition fdiv (x y : float64) : float64 := rnd (x / y).
Definition flt (x y : float64) : bool := negb (Qle_bool y x).

#[global] Arguments rnd : simpl never.
#[global] Arguments pow2 : simpl never.

Example rnd_tenth : fadd (fdiv 1 10) (fdiv 2 10) = 1351079888211149 # 4503599627370496.
Proof. reflexivity. Qed.
Example rnd_big : f_of_Z (2 ^ 53 + 1) = 9007199254740992 # 1.
Proof. reflexivity. Qed.

(** ** Powers of two *)

Lemma pow2_pos e : 0 < pow2 e.
Proof. apply Qpower_0_lt. done. Qed.

Lemma pow2_add a b : pow2 (a + b) == pow2 a * pow2 b.
Proof. apply Qpower_plus. discriminate. Qed.

Lemma pow2_opp e : pow2 e * pow2 (- e) == 1.
Proof. rewrite <-pow2_add. by rewrite Z.add_opp_diag_r. Qed.

Lemma pow2_le a b : (a <= b)%Z → pow2 a <= pow2 b.
Proof. intros H. apply Qpower_le_compat_l; [done|discriminate]. Qed.

Lemma pow2_Z e : (0 <= e)%Z → pow2 e == inject_Z (2 ^ e).
Proof. intros H. unfold pow2. by rewrite Zpower_Qpower by done. Qed.

Lemma inject_Z_pow2_le e n : (0 <= e)%Z → (2 ^ e <= n)%Z → pow2 e <= inject_Z n.
Proof. intros He Hn. rewrite pow2_Z by done. by rewrite <-Zle_Qle. Qed.

Lemma inject_Z_pow2_lt e n : (0 <= e)%Z → (n < 2 ^ e)%Z → inject_Z n < pow2 e.
Proof. intros He Hn. rewrite pow2_Z by done. by rewrite <-Zlt_Qlt. Qed.

Lemma Q_num_den x : inject_Z (Qnum x) == x * inject_Z (Zpos (Qden x)).
Proof. destruct x as [n d]. unfold Qeq, inject_Z. simpl. lia. Qed.

Lemma Qlt_num x : 0 < x → (0 < Qnum x)%Z.
Proof. unfold Qlt. simpl. lia. Qed.

Lemma flog2_spec x : 0 < x → pow2 (flog2 x) <= x ∧ x < pow2 (flog2 x + 1).
Proof.
  intros Hx. apply Qlt_num in Hx as Hn. pose proof (Q_num_den x) as E.
  set (n := Qnum x) in *. set (d := Zpos (Qden x)) in *.
  assert (Hd : (0 < d)%Z) by done.
  pose proof (Z.log2_spec n Hn) as [Hn1 Hn2]. pose proof (Z.log2_spec d Hd) as [Hd1 Hd2].
  pose proof (Z.log2_nonneg n). pose proof (Z.log2_nonneg d).
  apply inject_Z_pow2_le in Hn1; [|done]. apply inject_Z_pow2_le in Hd1; [|done].
  apply inject_Z_pow2_lt in Hn2; [|lia]. apply inject_Z_pow2_lt in Hd2; [|lia].
  assert (HdQ : 0 < inject_Z d) by (rewrite (Zlt_Qlt 0 d) in Hd; done).
  unfold flog2. fold n d. set (a := Z.log2 n) in *. set (b := Z.log2 d) in *.
  destruct (Qle_bool (pow2 (a - b)) x) eqn:Hb.
  - apply Qle_bool_iff in Hb. split; [done|].
    apply (Qmult_lt_r _ _ (inject_Z d)); [done|]. rewrite <-E.
    eapply Qlt_le_trans; [exact Hn2|].
    replace (Z.succ a) with (a - b + 1 + b)%Z by lia. rewrite (pow2_add (a - b + 1) b).
    apply Qmult_le_l; [apply pow2_pos|done].
  - assert (Hlt : x < pow2 (a - b)).
    { apply Qnot_le_lt. intros Hle. apply Qle_bool_iff in Hle. congruence. }
    replace (a - b - 1 + 1)%Z with (a - b)%Z by lia. split; [|done].
    apply (Qmult_le_r _ _ (inject_Z d)); [done|]. rewrite <-E.
    eapply Qle_trans; [|exact Hn1]. apply Qlt_le_weak.
    eapply Qlt_le_trans; [apply Qmult_lt_l; [apply pow2_pos|exact Hd2]|].
    rewrite <-pow2_add. apply pow2_le. lia.
Qed.

Lemma pow2_lt_inv a b : pow2 a < pow2 b → (a < b)%Z.
Proof. intros H. eapply Qpower_lt_compat_l_inv; [exact H|done]. Qed.

Lemma flog2_mono x y : 0 < x → x <= y → (flog2 x <= flog2 y)%Z.
Proof.
  intros Hx Hxy. destruct (flog2_spec x Hx) as [Hl _].
  destruct (flog2_spec y ltac:(lra)) as [_ Hu].
  assert (pow2 (flog2 x) < pow2 (flog2 y + 1)) as H % pow2_lt_inv by lra. lia.
Qed.

(** ** Rounding to an integer *)

Lemma rint_cases x :
  (rint x = Qfloor x ∧ x <= inject_Z (Qfloor x) + (1 # 2)) ∨
  (rint x = (Qfloor x + 1)%Z ∧ inject_Z (Qfloor x) + (1 # 2) <= x).
Proof.
  unfold rint. destruct (Qcompare_spec (x - inject_Z (Qfloor x)) (1 # 2)) as [H|H|H].
  - destruct (Z.even _); [left|right]; split; try done; lra.
  - left. split; [done|lra].
  - right. split; [done|lra].
Qed.

Lemma rint_near x : Qabs (inject_Z (rint x) - x) <= 1 # 2.
Proof.
  pose proof (Qfloor_le x). pose proof (Qlt_floor x) as H1.
  rewrite inject_Z_plus in H1. apply Qabs_Qle_condition.
  destruct (rint_cases x) as [[-> ?]|[-> ?]]; [|rewrite inject_Z_plus];
    change (inject_Z 1) with 1 in *; lra.
Qed.

Lemma rint_le_Z x k : x <= inject_Z k → (rint x <= k)%Z.
Proof.
  intros H. destruct (rint_cases x) as [[-> _]|[-> Hx]].
  - rewrite Zle_Qle. eapply Qle_trans; [apply Qfloor_le|done].
  - assert (inject_Z (Qfloor x) < inject_Z k) as Hk by lra. rewrite <-Zlt_Qlt in Hk. lia.
Qed.

Lemma rint_ge_Z x k : inject_Z k <= x → (k <= rint x)%Z.
Proof.
  intros H. apply Qfloor_resp_le in H. rewrite Qfloor_Z in H.
  destruct (rint_cases x) as [[-> _]|[-> _]]; lia.
Qed.

Lemma rint_mono x y : x <= y → (rint x <= rint y)%Z.
Proof.
  intros H. pose proof (Qfloor_resp_le x y H) as Hf.
  destruct (decide (Qfloor x = Qfloor y)) as [E|].
  - unfold rint. rewrite <-E.
    destruct (Qcompare_spec (x - inject_Z (Qfloor x)) (1 # 2)),
      (Qcompare_spec (y - inject_Z (Qfloor x)) (1 # 2)); try case_match; try lia; lra.
  - destruct (rint_cases x) as [[-> _]|[-> _]], (rint_cases y) as [[-> _]|[-> _]]; lia.
Qed.

(** ** Rounding to 53 bits *)

(** The significand of [x > 0] is between [2 ^ 52] and [2 ^ 53]. *)
Lemma significand_range x :
  0 < x → let y := x * pow2 (- (flog2 x - 52)) in
  inject_Z (2 ^ 52) <= y ∧ y <= inject_Z (2 ^ 53).
Proof.
  intros Hx y. destruct (flog2_spec x Hx) as [Hl Hu].
  rewrite <-!pow2_Z by done. unfold y. set (f := flog2 x) in *. split.
  - replace 52%Z with (f + - (f - 52))%Z at 1 by lia. rewrite (pow2_add f).
    apply Qmult_le_r; [apply pow2_pos|done].
  - replace 53%Z with (f + 1 + - (f - 52))%Z by lia. rewrite (pow2_add (f + 1)).
    apply Qmult_le_r; [apply pow2_pos|]. by apply Qlt_le_weak.
Qed.

Lemma rnd_pos_range x : 0 < x → pow2 (flog2 x) <= rnd_pos x ∧ rnd_pos x <= pow2 (flog2 x + 1).
Proof.
  intros Hx. destruct (significand_range x Hx) as [Hl Hu].
  apply rint_ge_Z in Hl. apply rint_le_Z in Hu. unfold rnd_pos.
  set (m := rint _) in *. set (f := flog2 x) in *.
  rewrite Zle_Qle in Hl, Hu. rewrite <-pow2_Z in Hl, Hu by done. split.
  - replace f with (52 + (f - 52))%Z at 1 by lia. rewrite (pow2_add 52).
    apply Qmult_le_r; [apply pow2_pos|done].
  - replace (f + 1)%Z with (53 + (f - 52))%Z at 1 by lia. rewrite (pow2_add 53).
    apply Qmult_le_r; [apply pow2_pos|done].
Qed.

Lemma rnd_pos_mono x y : 0 < x → x <= y → rnd_pos x <= rnd_pos y.
Proof.
  intros Hx Hxy. pose proof (flog2_mono x y Hx Hxy) as Hf.
  destruct (decide (flog2 x = flog2 y)) as [E|].
  - unfold rnd_pos. rewrite E. apply Qmult_le_r; [apply pow2_pos|].
    rewrite <-Zle_Qle. apply rint_mono. apply Qmult_le_r; [apply pow2_pos|done].
  - destruct (rnd_pos_range x Hx) as [_ Hu].
    destruct (rnd_pos_range y ltac:(lra)) as [Hl _].
    assert (pow2 (flog2 x + 1) <= pow2 (flog2 y)) by (apply pow2_le; lia). lra.
Qed.

Lemma rnd_pos_pos x : 0 < x → 0 < rnd_pos x.
Proof.
  intros Hx. destruct (rnd_pos_range x Hx) as [Hl _].
  pose proof (pow2_pos (flog2 x)). lra.
Qed.

Lemma rnd_of_pos x : 0 < x → rnd x == rnd_pos x.
Proof.
  intros Hx. unfold rnd. rewrite Qred_correct. apply Qlt_num in Hx.
  destruct (Qnum x); [lia|reflexivity|lia].
Qed.

Lemma rnd_of_neg x : x < 0 → rnd x == - rnd_pos (- x).
Proof.
  intros Hx. unfold rnd. rewrite Qred_correct. unfold Qlt in Hx; simpl in Hx.
  destruct (Qnum x); [lia|lia|reflexivity].
Qed.

Lemma rnd_of_zero x : x == 0 → rnd x == 0.
Proof.
  intros Hx. unfold rnd. rewrite Qred_correct. unfold Qeq in Hx; simpl in Hx.
  destruct (Qnum x); [reflexivity|lia|lia].
Qed.

(** Rounding is monotone. *)
Lemma rnd_mono x y : x <= y → rnd x <= rnd y.
Proof.
  intros Hxy.
  destruct (Q_dec x 0) as [[Hx|Hx]|Hx], (Q_dec y 0) as [[Hy|Hy]|Hy]; try lra.
  - rewrite !rnd_of_neg by done. pose proof (rnd_pos_mono (- y) (- x)). lra.
  - rewrite rnd_of_neg, rnd_of_pos by done.
    pose proof (rnd_pos_pos (- x)). pose proof (rnd_pos_pos y Hy). lra.
  - rewrite rnd_of_neg, (rnd_of_zero y) by done. pose proof (rnd_pos_pos (- x)). lra.
  - rewrite !rnd_of_pos by done. by apply rnd_pos_mono.
  - rewrite (rnd_of_zero x), rnd_of_pos by done. pose proof (rnd_pos_pos y Hy). lra.
  - rewrite !rnd_of_zero by done. lra.
Qed.

(** A [float64] is in lowest terms. *)
Lemma rnd_canonical x : Qred (rnd x) = rnd x.
Proof. unfold rnd. apply Qred_complete, Qred_correct. Qed.

Lemma rnd_eq x y : rnd x == rnd y → rnd x = rnd y.
Proof. intros H. rewrite <-rnd_canonical, <-(rnd_canonical y). by apply Qred_complete. Qed.

(** Equal numbers round to the same [float64]. *)
#[export] Instance rnd_proper : Proper (Qeq ==> eq) rnd.
Proof.
  intros x y Hxy. apply rnd_eq, Qle_antisym; apply rnd_mono; rewrite Hxy; apply Qle_refl.
Qed.

#[export] Instance rnd_proper_Q : Proper (Qeq ==> Qeq) rnd.
Proof. intros x y Hxy. by rewrite (rnd_proper x y Hxy). Qed.

Lemma rint_Z z : rint (inject_Z z) = z.
Proof.
  pose proof (rint_le_Z (inject_Z z) z (Qle_refl _)).
  pose proof (rint_ge_Z (inject_Z z) z (Qle_refl _)). lia.
Qed.

#[export] Instance rint_proper : Proper (Qeq ==> eq) rint.
Proof.
  intros x y Hxy. apply Z.le_antisymm; apply rint_mono; rewrite Hxy; apply Qle_refl.
Qed.

Lemma rnd_opp x : rnd (- x) == - rnd x.
Proof.
  destruct (Q_dec x 0) as [[Hx|Hx]|Hx].
  - rewrite rnd_of_pos, (rnd_of_neg x) by lra. lra.
  - rewrite rnd_of_neg, <-!rnd_of_pos by lra.
    assert (E : - - x == x) by ring. by rewrite E.
  - rewrite rnd_of_zero, (rnd_of_zero x) by lra. lra.
Qed.

(** A product of an integer of at most 53 bits and a power of two is exact. *)
Lemma rnd_pos_exact z k :
  (0 < z < 2 ^ 53)%Z → rnd_pos (inject_Z z * pow2 k) == inject_Z z * pow2 k.
Proof.
  intros Hz. set (x := inject_Z z * pow2 k).
  assert (Hzq : 0 < inject_Z z) by (change 0 with (inject_Z 0); rewrite <-Zlt_Qlt; lia).
  assert (Hx : 0 < x) by (apply Qmult_lt_0_compat; [done|apply pow2_pos]).
  assert (He : (flog2 x - 52 <= k)%Z).
  { destruct (flog2_spec x Hx) as [Hl _].
    assert (pow2 (flog2 x) < pow2 (53 + k)) as H % pow2_lt_inv; [|lia].
    eapply Qle_lt_trans; [exact Hl|]. unfold x. rewrite pow2_add.
    apply Qmult_lt_r; [apply pow2_pos|]. rewrite pow2_Z by done. rewrite <-Zlt_Qlt. lia. }
  unfold rnd_pos. set (e := (flog2 x - 52)%Z) in *.
  assert (Hi : x * pow2 (- e) == inject_Z (z * 2 ^ (k - e))).
  { rewrite inject_Z_mult, <-pow2_Z by lia. unfold x.
    rewrite <-Qmult_assoc, <-pow2_add. by replace (k + - e)%Z with (k - e)%Z by lia. }
  rewrite Hi, rint_Z, <-Hi, <-Qmult_assoc, (Qmult_comm (pow2 (- e))), pow2_opp.
  apply Qmult_1_r.
Qed.

Lemma rnd_exact z k : (Z.abs z < 2 ^ 53)%Z → rnd (inject_Z z * pow2 k) == inject_Z z * pow2 k.
Proof.
  intros Hz. pose proof (pow2_pos k) as Hk.
  destruct (Z.lt_trichotomy z 0) as [Hn|[->|Hp]].
  - assert (E : inject_Z z * pow2 k == - (inject_Z (- z) * pow2 k)).
    { rewrite inject_Z_opp. ring. }
    rewrite E, rnd_opp, rnd_of_pos; [by rewrite rnd_pos_exact by lia|].
    apply Qmult_lt_0_compat; [|done]. change 0 with (inject_Z 0). rewrite <-Zlt_Qlt. lia.
  - rewrite rnd_of_zero; change (inject_Z 0) with 0; ring.
  - rewrite rnd_of_pos; [by apply rnd_pos_exact; lia|].
    apply Qmult_lt_0_compat; [|done]. change 0 with (inject_Z 0). rewrite <-Zlt_Qlt. lia.
Qed.

Lemma rnd_Z z : (Z.abs z < 2 ^ 53)%Z → rnd (inject_Z z) = inject_Z z.
Proof.
  intros Hz. assert (H : rnd (inject_Z z) == inject_Z z).
  { rewrite <-(Qmult_1_r (inject_Z z)). change 1 with (pow2 0). by apply rnd_exact. }
  rewrite <-rnd_canonical. rewrite (Qred_complete _ _ H).
  apply Qred_identity. simpl. apply Z.gcd_1_r.
Qed.

(** The relative error of rounding. *)
Lemma rnd_pos_error x : 0 < x → Qabs (rnd_pos x - x) <= x * pow2 (-53).
Proof.
  intros Hx. destruct (flog2_spec x Hx) as [Hl _]. unfold rnd_pos.
  set (e := (flog2 x - 52)%Z). pose proof (pow2_pos e) as He.
  assert (E : inject_Z (rint (x * pow2 (- e))) * pow2 e - x ==
              (inject_Z (rint (x * pow2 (- e))) - x * pow2 (- e)) * pow2 e).
  { transitivity (inject_Z (rint (x * pow2 (- e))) * pow2 e - x * (pow2 e * pow2 (- e)));
      [rewrite pow2_opp; ring|ring]. }
  rewrite E, Qabs_Qmult, (Qabs_pos (pow2 e)) by lra.
  eapply Qle_trans; [apply Qmult_le_compat_r; [apply rint_near|lra]|].
  change (1 # 2) with (pow2 (-1)). rewrite <-pow2_add.
  eapply Qle_trans; [|apply Qmult_le_compat_r; [exact Hl|apply Qlt_le_weak, pow2_pos]].
  rewrite <-pow2_add. apply pow2_le. lia.
Qed.

Lemma rnd_error x : 0 <= x → Qabs (rnd x - x) <= x * pow2 (-53).
Proof.
  intros Hx. destruct (Q_dec x 0) as [[?|Hp]|H0]; [lra| |].
  - rewrite rnd_of_pos by done. by apply rnd_pos_error.
  - rewrite rnd_of_zero, H0 by done. vm_compute. discriminate.
Qed.

Lemma rnd_upper x : 0 <= x → rnd x <= x * (1 + pow2 (-53)).
Proof.
  intros Hx. pose proof (rnd_error x Hx) as H. apply Qabs_Qle_condition in H. lra.
Qed.

Lemma rnd_nonneg x : 0 <= x → 0 <= rnd x.
Proof. intros Hx. change 0 with (rnd 0) at 1. by apply rnd_mono. Qed.

Lemma rnd_ge_Z x z : (Z.abs z < 2 ^ 53)%Z → inject_Z z <= x → inject_Z z <= rnd x.
Proof. intros Hz Hx. rewrite <-(rnd_Z z Hz). by apply rnd_mono. Qed.

Lemma rnd_le_Z x z : (Z.abs z < 2 ^ 53)%Z → x <= inject_Z z → rnd x <= inject_Z z.
Proof. intros Hz Hx. rewrite <-(rnd_Z z Hz). by apply rnd_mono. Qed.
