(* ===== verification/RateLimit.v ===== *)
(** * The token-bucket rate limiter (internal/server/ratelimit.go).

    [keyedRateLimiter] keeps one bucket per key.  Go's [*bucket] values are
    reachable only through the map and only under [l.mu], so a bucket is a
    value of the map here and one [allow] is one atomic step; the clock reading
    it takes is its argument [now]. *)
From Stdlib Require Import QArith Qround Qabs Lqa Qpower.
From S2P Require Import Prelude GoString GoTime GoFloat.
Local Open Scope Z_scope.

Record bucket := Bucket { b_tokens : float64; b_last : Time }.

Record keyedRateLimiter := Limiter {
  l_buckets : gmap string bucket;
  l_rate : float64;   (* tokens per second *)
  l_burst : float64;  (* bucket capacity *)
  l_lastSweep : Time
}.

Definition rateLimitSweepInterval : Duration := Minute.
Definition rateLimitBucketTTL : Duration := 10 * Minute.

(** [d.Seconds()]: whole seconds and nanoseconds converted separately. *)
Definition Seconds (d : Duration) : float64 :=
  fadd (f_of_Z (Z.quot d Second)) (fdiv (f_of_Z (Z.rem d Second)) (f_of_Z 1000000000)).

Definition newRateLimiter (now : Time) (ratePerSec : float64) (burst : Z) : keyedRateLimiter :=
  {| l_buckets := ∅; l_rate := ratePerSec; l_burst := f_of_Z burst; l_lastSweep := now |}.

(** [sweep] evicts the buckets idle for longer than the TTL, at most once per
    sweep interval. *)
Definition sweep (now : Time) (l : keyedRateLimiter) : keyedRateLimiter :=
  if time_Sub now (l_lastSweep l) <? rateLimitSweepInterval then l
  else {| l_buckets := filter (λ kb, (time_Sub now (b_last kb.2) <=? rateLimitBucketTTL) = true)
                         (l_buckets l);
          l_rate := l_rate l; l_burst := l_burst l; l_lastSweep := now |}.

(** The refill of a bucket at [now], capped at the burst, and the token taken. *)
Definition refill (l : keyedRateLimiter) (now : Time) (b : bucket) : float64 :=
  let t := fadd (b_tokens b) (fmul (Seconds (time_Sub now (b_last b))) (l_rate l)) in
  if flt (l_burst l) t then l_burst l else t.

Definition take_token (t : float64) (now : Time) : bucket * bool :=
  if flt t 1 then (Bucket t now, false) else (Bucket (fsub t 1) now, true).

Definition set_bucket (key : string) (b : bucket) (l : keyedRateLimiter) : keyedRateLimiter :=
  {| l_buckets := <[key := b]> (l_buckets l);
     l_rate := l_rate l; l_burst := l_burst l; l_lastSweep := l_lastSweep l |}.

Definition bucket_of (l : keyedRateLimiter) (now : Time) (key : string) : bucket :=
  default (Bucket (l_burst l) now) (l_buckets l !! key).

(** [allow] after the sweep: look the bucket up, or start a full one. *)
Definition allow_bucket (now : Time) (key : string) (l : keyedRateLimiter) : keyedRateLimiter * bool :=
  let '(b, ok) := take_token (refill l now (bucket_of l now key)) now in
  (set_bucket key b l, ok).

Definition allow (now : Time) (key : string) (l : keyedRateLimiter) : keyedRateLimiter * bool :=
  allow_bucket now key (sweep now l).

#[global] Arguments allow_bucket : simpl never.
#[global] Arguments allow : simpl never.
#[global] Arguments sweep : simpl never.

(** [clientIP]: the host of [r.RemoteAddr], or all of it when it has no port. *)
Definition clientIP (RemoteAddr : string) : string :=
  match SplitHostPort RemoteAddr with
  | Some (host, _) => host
  | None => RemoteAddr
  end.

(** ** Sequences of calls *)

Abbreviation call := (Time * string)%type.

(** The decisions of a sequence of calls, with a given treatment of one call. *)
Fixpoint run (step : Time → string → keyedRateLimiter → keyedRateLimiter * bool)
    (l : keyedRateLimiter) (cs : list call) : keyedRateLimiter * list bool :=
  match cs with
  | [] => (l, [])
  | (t, k) :: cs =>
      let '(l, ok) := step t k l in
      let '(l, oks) := run step l cs in (l, ok :: oks)
  end.

(** The clock does not run backwards. *)
Definition clock_ok (now : Time) (cs : list call) : Prop :=
  Sorted Z.le (now :: (fst <$> cs)).

(** The number of calls with key [k] that were let through. *)
Fixpoint allowed (k : string) (cs : list call) (oks : list bool) : Z :=
  match cs, oks with
  | (_, k') :: cs, ok :: oks =>
      (if bool_decide (k' = k) && ok then 1 else 0) + allowed k cs oks
  | _, _ => 0
  end.

(** ** Well-formed limiters *)

(** The burst is an integer, and the idle time after which a bucket may be
    evicted is long enough to fill it: true of the three limiters the server
    creates (rate 1 burst 5, rate 2 burst 10, rate 5 burst 20). *)
Record limiter_wf (l : keyedRateLimiter) : Prop := {
  wf_burst : ∃ n, l_burst l = inject_Z n ∧ 1 <= n < 2 ^ 32;
  wf_rate : (0 <= l_rate l)%Q;
  wf_ttl : (l_burst l <= 600 * l_rate l)%Q;
  wf_buckets : map_Forall (λ _ b, (0 <= b_tokens b ∧ b_tokens b <= l_burst l)%Q) (l_buckets l)
}.

Lemma newRateLimiter_wf now r n :
  1 <= n < 2 ^ 32 → (inject_Z n <= 600 * r)%Q → limiter_wf (newRateLimiter now r n).
Proof.
  intros Hn Hr.
  assert (H1 : (1 <= inject_Z n)%Q) by (change 1%Q with (inject_Z 1); rewrite <-Zle_Qle; lia).
  assert (E : f_of_Z n = inject_Z n) by (apply rnd_Z; lia).
  split; simpl; rewrite ?E; [by exists n|lra|lra|apply map_Forall_empty].
Qed.

Section wf_facts.
Context (l : keyedRateLimiter) (Hwf : limiter_wf l).

Lemma burst_ge_1 : (1 <= l_burst l)%Q.
Proof using Hwf.
  destruct (wf_burst _ Hwf) as (n & -> & Hn).
  change 1%Q with (inject_Z 1). rewrite <-Zle_Qle. lia.
Qed.

Lemma rnd_burst : rnd (l_burst l) = l_burst l.
Proof using Hwf. destruct (wf_burst _ Hwf) as (n & -> & Hn). apply rnd_Z. lia. Qed.

Lemma bucket_of_range now k :
  (0 <= b_tokens (bucket_of l now k) ∧ b_tokens (bucket_of l now k) <= l_burst l)%Q.
Proof using Hwf.
  unfold bucket_of. destruct (l_buckets l !! k) as [b|] eqn:E; simpl.
  - by apply (wf_buckets _ Hwf) in E.
  - pose proof burst_ge_1. lra.
Qed.
End wf_facts.

Lemma flt_true x y : flt x y = true ↔ (x < y)%Q.
Proof.
  unfold flt. rewrite negb_true_iff. split.
  - intros H. apply Qnot_le_lt. intros Hle. apply Qle_bool_iff in Hle. congruence.
  - intros H. apply not_true_iff_false. rewrite Qle_bool_iff. lra.
Qed.

Lemma flt_false x y : flt x y = false ↔ (y <= x)%Q.
Proof. rewrite <-not_true_iff_false, flt_true. split; [apply Qnot_lt_le|lra]. Qed.

(** ** Seconds *)

Section seconds.
Variable d : Duration.
Hypothesis Hd : 0 <= d < 2 ^ 63.

Let q := Z.quot d Second.
Let r := Z.rem d Second.

Local Lemma quot_rem : d = Second * q + r ∧ 0 <= q < 2 ^ 34 ∧ 0 <= r < Second.
Proof using Hd. unfold q, r, Second. div_lia. Qed.

Lemma Seconds_ge k : 0 <= k → k * Second <= d → (inject_Z k <= Seconds d)%Q.
Proof using Hd.
  intros Hk Hkd. destruct quot_rem as (E & Hq & Hr).
  assert (Hkq : k <= q) by (unfold Second in *; lia).
  unfold Seconds, fadd, fdiv, f_of_Z. fold q r. rewrite !rnd_Z by (unfold Second in *; lia).
  apply rnd_ge_Z; [lia|].
  assert (0 <= rnd (inject_Z r / inject_Z 1000000000))%Q.
  { apply rnd_nonneg, Qle_shift_div_l; [done|]. rewrite Qmult_0_l.
    change 0%Q with (inject_Z 0). rewrite <-Zle_Qle. lia. }
  rewrite Zle_Qle in Hkq. lra.
Qed.

Lemma Seconds_nonneg : (0 <= Seconds d)%Q.
Proof using Hd. change 0%Q with (inject_Z 0). apply Seconds_ge; lia. Qed.

Lemma Seconds_le :
  (Seconds d <= inject_Z d / inject_Z 1000000000 * (1 + pow2 (-53)) * (1 + pow2 (-53)))%Q.
Proof using Hd.
  destruct quot_rem as (E & Hq & Hr).
  unfold Seconds, fadd, fdiv, f_of_Z. fold q r. rewrite !rnd_Z by (unfold Second in *; lia).
  assert (Hq0 : (0 <= inject_Z q)%Q) by (change 0%Q with (inject_Z 0); rewrite <-Zle_Qle; lia).
  assert (Hr0 : (0 <= inject_Z r / inject_Z 1000000000)%Q).
  { apply Qle_shift_div_l; [done|]. rewrite Qmult_0_l.
    change 0%Q with (inject_Z 0). rewrite <-Zle_Qle. lia. }
  pose proof (rnd_upper _ Hr0) as Hu. pose proof (rnd_nonneg _ Hr0) as Hn.
  eapply Qle_trans; [apply rnd_upper; lra|].
  apply Qmult_le_r; [done|].
  rewrite E, inject_Z_plus, inject_Z_mult.
  assert (Ed : ((inject_Z Second * inject_Z q + inject_Z r) / inject_Z 1000000000 ==
           inject_Z q + inject_Z r / inject_Z 1000000000)%Q) by (unfold Second; field; done).
  rewrite Ed. assert (0 <= pow2 (-53))%Q by (apply Qlt_le_weak, pow2_pos).
  assert (0 <= inject_Z q * pow2 (-53))%Q by (apply Qmult_le_0_compat; done). lra.
Qed.
End seconds.

Lemma Seconds_0 : Seconds 0 = 0%Q.
Proof. reflexivity. Qed.

(** ** One call preserves well-formedness *)

Lemma time_Sub_nonneg t u : u <= t → 0 <= time_Sub t u < 2 ^ 63.
Proof. intros H. unfold time_Sub, int64_min, int64_max. lia. Qed.

Lemma inc_nonneg l now b :
  limiter_wf l → b_last b <= now →
  (0 <= fmul (Seconds (time_Sub now (b_last b))) (l_rate l))%Q.
Proof.
  intros Hwf Ht. apply rnd_nonneg, Qmult_le_0_compat; [|apply (wf_rate _ Hwf)].
  by apply Seconds_nonneg, time_Sub_nonneg.
Qed.

Lemma refill_range l now b :
  limiter_wf l → (0 <= b_tokens b)%Q → b_last b <= now →
  (0 <= refill l now b ∧ refill l now b <= l_burst l)%Q.
Proof.
  intros Hwf Hb Ht. unfold refill. pose proof (burst_ge_1 l Hwf) as H1.
  destruct (flt _ _) eqn:E; [lra|]. apply flt_false in E. split; [|done].
  apply rnd_nonneg. pose proof (inc_nonneg l now b Hwf Ht). lra.
Qed.

Lemma take_token_range t now m :
  (0 <= t)%Q → (t <= m)%Q → rnd m = m →
  (0 <= b_tokens (take_token t now).1 ∧ b_tokens (take_token t now).1 <= m)%Q.
Proof.
  intros H0 Hm Hr. unfold take_token. destruct (flt t 1) eqn:E; simpl; [done|].
  apply flt_false in E. split; [apply rnd_nonneg; lra|].
  rewrite <-Hr. apply rnd_mono. lra.
Qed.

Lemma set_bucket_wf l k b :
  limiter_wf l → (0 <= b_tokens b ∧ b_tokens b <= l_burst l)%Q → limiter_wf (set_bucket k b l).
Proof.
  intros [H1 H2 H3 H4] Hb. split; simpl; try done. by apply map_Forall_insert_2.
Qed.

Lemma sweep_wf now l : limiter_wf l → limiter_wf (sweep now l).
Proof.
  intros Hwf. unfold sweep. case_match; [done|].
  destruct Hwf as [H1 H2 H3 H4]. split; simpl; try done.
  by apply map_Forall_filter_2.
Qed.

(** Every bucket was last used at or before [now]. *)
Definition used_before (now : Time) (l : keyedRateLimiter) : Prop :=
  map_Forall (λ _ b, b_last b <= now) (l_buckets l).

Lemma used_before_mono t t' l : t <= t' → used_before t l → used_before t' l.
Proof. intros H Hl. eapply map_Forall_impl; [exact Hl|]. intros k b Hb. simpl in *. lia. Qed.

Lemma used_before_sweep t now l : used_before t l → used_before t (sweep now l).
Proof.
  intros Hl. unfold sweep. case_match; [done|]. by apply map_Forall_filter_2.
Qed.

Lemma bucket_of_last l t now k :
  used_before t l → t <= now → b_last (bucket_of l now k) <= now.
Proof.
  intros Hl Ht. unfold bucket_of. destruct (l_buckets l !! k) as [b|] eqn:E; simpl; [|lia].
  apply Hl in E. simpl in E. lia.
Qed.

Lemma take_token_last t now : b_last (take_token t now).1 = now.
Proof. unfold take_token. by case_match. Qed.

Lemma allow_bucket_wf now k l :
  limiter_wf l → used_before now l →
  limiter_wf (allow_bucket now k l).1 ∧ used_before now (allow_bucket now k l).1.
Proof.
  intros Hwf Hu. unfold allow_bucket.
  pose proof (bucket_of_last l now now k Hu ltac:(lia)) as Hlast.
  destruct (bucket_of_range l Hwf now k) as [Hb0 _].
  destruct (refill_range l now (bucket_of l now k) Hwf Hb0 Hlast) as [Hr0 Hr1].
  pose proof (take_token_range _ now _ Hr0 Hr1 (rnd_burst l Hwf)) as Ht.
  pose proof (take_token_last (refill l now (bucket_of l now k)) now) as Hn.
  destruct (take_token _ _) as [b ok]; simpl in *. split; [by apply set_bucket_wf|].
  apply map_Forall_insert_2; [lia|done].
Qed.

Lemma allow_wf now k l :
  limiter_wf l → used_before now l →
  limiter_wf (allow now k l).1 ∧ used_before now (allow now k l).1.
Proof.
  intros Hwf Hu. unfold allow. apply allow_bucket_wf.
  - by apply sweep_wf.
  - by apply used_before_sweep.
Qed.

#[export] Hint Resolve sweep_wf used_before_sweep set_bucket_wf : puls.

(** ** Eviction is invisible

    A limiter that never sweeps keeps, for a key the other has evicted, a
    bucket idle for longer than the TTL: at the next call both are full. *)
Definition key_agree (now : Time) (o o' : option bucket) : Prop :=
  o = o' ∨ (o = None ∧ ∃ b, o' = Some b ∧ rateLimitBucketTTL < time_Sub now (b_last b)).

Record agree (now : Time) (l l' : keyedRateLimiter) : Prop := {
  ag_rate : l_rate l' = l_rate l;
  ag_burst : l_burst l' = l_burst l;
  ag_keys : ∀ k, key_agree now (l_buckets l !! k) (l_buckets l' !! k)
}.

Lemma key_agree_later t t' o o' : t <= t' → key_agree t o o' → key_agree t' o o'.
Proof.
  intros Ht [->|(-> & b & -> & Hb)]; [by left|right].
  split; [done|]. exists b. split; [done|]. unfold time_Sub, int64_min, int64_max in *. lia.
Qed.

Lemma sweep_agree t now l l' : t <= now → agree t l l' → agree now (sweep now l) l'.
Proof.
  intros Ht [H1 H2 H3]. unfold sweep. case_match.
  { split; try done. intros k. eapply key_agree_later; [exact Ht|apply H3]. }
  split; simpl; try done. intros k. rewrite map_lookup_filter.
  destruct (H3 k) as [->|(-> & b & -> & Hb)].
  - destruct (l_buckets l' !! k) as [b|]; simpl; [|by left].
    destruct (time_Sub now (b_last b) <=? rateLimitBucketTTL) eqn:E; simpl; [by left|].
    bool_prop. right. eauto.
  - right. simpl. split; [done|]. exists b. split; [done|].
    unfold time_Sub, int64_min, int64_max in *. lia.
Qed.

(** A bucket idle for longer than the TTL refills to the burst. *)
Lemma refill_idle l now b :
  limiter_wf l → (0 <= b_tokens b)%Q → rateLimitBucketTTL < time_Sub now (b_last b) →
  refill l now b = l_burst l.
Proof.
  intros Hwf Hb Hidle. unfold refill.
  destruct (flt _ _) eqn:E; [done|]. apply flt_false in E.
  set (d := time_Sub now (b_last b)) in *.
  assert (Hd : 0 <= d < 2 ^ 63).
  { unfold rateLimitBucketTTL, Minute, Second in Hidle.
    pose proof (time_Sub_range now (b_last b)) as Hr. unfold is_int64 in Hr.
    bool_prop. unfold d, int64_max in *. lia. }
  assert (Hs : (inject_Z 600 <= Seconds d)%Q).
  { apply Seconds_ge; [done|lia|]. unfold rateLimitBucketTTL, Minute in Hidle. lia. }
  pose proof (wf_rate _ Hwf). pose proof (wf_ttl _ Hwf).
  assert (Hm : (l_burst l <= fmul (Seconds d) (l_rate l))%Q).
  { rewrite <-(rnd_burst l Hwf). apply rnd_mono.
    apply (Qmult_le_compat_r _ _ (l_rate l)) in Hs; [|done].
    change (inject_Z 600) with 600%Q in Hs. lra. }
  rewrite <-(rnd_burst l Hwf). apply rnd_eq, Qle_antisym.
  - rewrite (rnd_burst l Hwf). exact E.
  - apply rnd_mono. lra.
Qed.

Lemma refill_fresh l now : limiter_wf l → refill l now (Bucket (l_burst l) now) = l_burst l.
Proof.
  intros Hwf. unfold refill. simpl.
  assert (E : fadd (l_burst l) (fmul (Seconds (time_Sub now now)) (l_rate l)) = l_burst l).
  { replace (time_Sub now now) with 0 by (unfold time_Sub, int64_min, int64_max; lia).
    rewrite Seconds_0. unfold fadd, fmul. rewrite <-(rnd_burst l Hwf) at 2.
    apply rnd_proper. rewrite Qmult_0_l. change (rnd 0) with 0%Q. apply Qplus_0_r. }
  rewrite E. destruct (flt _ _); done.
Qed.

Lemma allow_bucket_agree now k l l' :
  limiter_wf l → limiter_wf l' → agree now l l' →
  agree now (allow_bucket now k l).1 (allow_bucket now k l').1 ∧
  (allow_bucket now k l).2 = (allow_bucket now k l').2.
Proof.
  intros Hwf Hwf' Hag. pose proof (ag_keys _ _ _ Hag k) as Hk.
  assert (Hr : refill l now (bucket_of l now k) = refill l' now (bucket_of l' now k)).
  { unfold bucket_of. destruct Hk as [->|(-> & b & E & Hb)].
    - unfold refill. by rewrite (ag_rate _ _ _ Hag), (ag_burst _ _ _ Hag).
    - simpl. rewrite refill_fresh by done. rewrite E. simpl.
      rewrite refill_idle; [symmetry; apply (ag_burst _ _ _ Hag)|done| |done].
      apply (wf_buckets _ Hwf') in E. apply E. }
  unfold allow_bucket. rewrite Hr. destruct (take_token _ _) as [b ok]. simpl.
  split; [|done]. split; simpl; try apply Hag.
  intros k'. destruct (decide (k = k')) as [->|].
  - left. by rewrite !lookup_insert_eq.
  - rewrite !lookup_insert_ne by done. apply Hag.
Qed.

(** ** Runs *)

Lemma clock_ok_cons now t k cs : clock_ok now ((t, k) :: cs) → now <= t ∧ clock_ok t cs.
Proof.
  unfold clock_ok. simpl. intros H. apply Sorted_inv in H as [H1 H2].
  apply HdRel_inv in H2. done.
Qed.

Lemma run_cons step l t k cs :
  (run step l ((t, k) :: cs)).2 = (step t k l).2 :: (run step (step t k l).1 cs).2.
Proof. simpl. destruct (step t k l) as [l1 ok]. simpl. by destruct (run step l1 cs). Qed.

Lemma run_agree now cs l l' :
  clock_ok now cs → limiter_wf l → limiter_wf l' → used_before now l → used_before now l' →
  agree now l l' →
  (run allow l cs).2 = (run allow_bucket l' cs).2.
Proof.
  revert now l l'. induction cs as [|[t k] cs IH]; intros now l l' Hc Hwf Hwf' Hu Hu' Hag; [done|].
  apply clock_ok_cons in Hc as [Ht Hc]. rewrite !run_cons.
  pose proof (sweep_agree now t l l' Ht Hag) as Hag1.
  destruct (allow_bucket_agree t k (sweep t l) l') as [Hag2 Hok]; [auto with puls..|].
  destruct (allow_wf t k l Hwf (used_before_mono _ _ _ Ht Hu)) as [Hwf1 Hu1].
  destruct (allow_bucket_wf t k l' Hwf' (used_before_mono _ _ _ Ht Hu')) as [Hwf1' Hu1'].
  f_equal; [exact Hok|]. by eapply IH.
Qed.

Lemma agree_refl now l : agree now l l.
Proof. split; [done..|]. intros k. by left. Qed.

(** ** The rate *)

Definition eps : Q := pow2 (-53).

(** The relative excess of the refill: three roundings. *)
Definition excess : Q := (1 + eps) * (1 + eps) * (1 + eps).

(** The exact refill of a span of time. *)
Definition earned (l : keyedRateLimiter) (d : Duration) : Q :=
  inject_Z d / inject_Z 1000000000 * l_rate l * excess.

Lemma eps_pos : (0 <= eps)%Q.
Proof. apply Qlt_le_weak, pow2_pos. Qed.

Lemma inc_le l d :
  limiter_wf l → 0 <= d < 2 ^ 63 → (fmul (Seconds d) (l_rate l) <= earned l d)%Q.
Proof.
  intros Hwf Hd. pose proof (wf_rate _ Hwf) as Hr. pose proof eps_pos.
  pose proof (Seconds_nonneg d Hd) as Hs0. pose proof (Seconds_le d Hd) as Hs.
  unfold fmul. eapply Qle_trans; [apply rnd_upper, Qmult_le_0_compat; done|].
  fold eps in *. unfold earned, excess.
  apply (Qmult_le_compat_r _ _ (l_rate l)) in Hs; [|done].
  apply (Qmult_le_compat_r _ _ (1 + eps)%Q) in Hs; [|lra].
  eapply Qle_trans; [exact Hs|]. apply Qle_lteq. right.
  generalize eps. intros e. ring.
Qed.

Lemma earned_mono l d d' : limiter_wf l → d <= d' → (earned l d <= earned l d')%Q.
Proof.
  intros Hwf Hd. unfold earned. pose proof (wf_rate _ Hwf). pose proof eps_pos.
  assert (0 <= excess)%Q by (unfold excess; repeat apply Qmult_le_0_compat; lra).
  apply Qmult_le_compat_r; [|done]. apply Qmult_le_compat_r; [|done].
  apply Qmult_le_compat_r; [by rewrite <-Zle_Qle|done].
Qed.

(** Refilling adds at most what was earned, and the rounding error of a value
    of at most the burst. *)
Lemma refill_le l now b :
  limiter_wf l → (0 <= b_tokens b)%Q → b_last b <= now →
  (refill l now b <= b_tokens b + earned l (now - b_last b)%Z + eps * l_burst l)%Q.
Proof.
  intros Hwf Hb Ht. pose proof (time_Sub_nonneg now (b_last b) Ht) as Hd.
  pose proof (inc_nonneg l now b Hwf Ht) as Hi0. pose proof (inc_le l _ Hwf Hd) as Hi.
  assert (Hde : time_Sub now (b_last b) <= now - b_last b).
  { unfold time_Sub, int64_min, int64_max in *. lia. }
  pose proof (earned_mono l _ _ Hwf Hde) as He. pose proof eps_pos as Heps.
  pose proof (burst_ge_1 l Hwf) as H1.
  set (i := fmul _ _) in *. set (x := (b_tokens b + i)%Q).
  assert (Hx : (refill l now b <= x + eps * l_burst l)%Q); [|unfold x in *; lra].
  assert (Heb : (0 <= eps * l_burst l)%Q) by (apply Qmult_le_0_compat; lra).
  unfold refill. fold i. unfold fadd. fold x.
  assert (Hr : (rnd x <= x + x * eps)%Q).
  { eapply Qle_trans; [apply rnd_upper; unfold x; lra|]. fold eps. lra. }
  assert (Hcase : (x <= l_burst l ∨ l_burst l < x)%Q).
  { destruct (Qlt_le_dec (l_burst l) x); auto. }
  destruct (flt _ _) eqn:E; [apply flt_true in E|apply flt_false in E]; destruct Hcase as [Hc|Hc].
  - assert (x * eps <= l_burst l * eps)%Q by (apply Qmult_le_compat_r; done). lra.
  - lra.
  - assert (x * eps <= l_burst l * eps)%Q by (apply Qmult_le_compat_r; done). lra.
  - lra.
Qed.

(** One call spends what it lets through. *)
Lemma take_token_le t now m :
  (0 <= t)%Q → (t <= m)%Q →
  (b_tokens (take_token t now).1 + (if (take_token t now).2 then 1 else 0) <= t + eps * m)%Q.
Proof.
  intros H0 Hm. pose proof eps_pos. unfold take_token.
  assert (0 <= eps * m)%Q by (apply Qmult_le_0_compat; lra).
  destruct (flt t 1) eqn:E; simpl; [lra|]. apply flt_false in E.
  unfold fsub. pose proof (rnd_upper (t - 1)) as Hr. fold eps in Hr.
  assert ((t - 1) * eps <= m * eps)%Q by (apply Qmult_le_compat_r; lra). lra.
Qed.

Lemma earned_add l a b : (earned l a + earned l b == earned l (a + b)%Z)%Q.
Proof. unfold earned. rewrite inject_Z_plus. generalize excess. intros e. field. Qed.

(** One call of [k]: what it spends and leaves is paid by what was there and
    what was earned, or by a full bucket. *)
Lemma allow_bucket_le l t k :
  limiter_wf l → used_before t l →
  let b := bucket_of l t k in
  let '(l', ok) := allow_bucket t k l in
  ∃ b', l_buckets l' !! k = Some b' ∧ b_last b' = t ∧
    (b_tokens b' + (if ok then 1 else 0) <=
       b_tokens b + earned l (t - b_last b)%Z + 2 * (eps * l_burst l))%Q ∧
    (b_tokens b' + (if ok then 1 else 0) <= l_burst l + 2 * (eps * l_burst l))%Q.
Proof.
  intros Hwf Hu b. pose proof (bucket_of_last l t t k Hu ltac:(lia)) as Hlast.
  destruct (bucket_of_range l Hwf t k) as [Hb0 _]. fold b in Hb0, Hlast.
  destruct (refill_range l t b Hwf Hb0 Hlast) as [Hr0 Hr1].
  pose proof (refill_le l t b Hwf Hb0 Hlast) as Hr.
  pose proof (take_token_le _ t _ Hr0 Hr1) as Ht. pose proof eps_pos.
  pose proof (burst_ge_1 l Hwf).
  assert (0 <= eps * l_burst l)%Q by (apply Qmult_le_0_compat; lra).
  pose proof (take_token_last (refill l t b) t) as Hn.
  unfold allow_bucket. fold b. destruct (take_token _ _) as [b' ok]. simpl in Ht, Hn.
  exists b'. split_and!; [apply lookup_insert_eq|done|lra|lra].
Qed.

Lemma allow_bucket_other l t k k' :
  k' ≠ k → l_buckets (allow_bucket t k' l).1 !! k = l_buckets l !! k.
Proof.
  intros Hk. unfold allow_bucket. destruct (take_token _ _) as [b ok].
  by apply lookup_insert_ne.
Qed.

Lemma allow_bucket_params l t k :
  l_rate (allow_bucket t k l).1 = l_rate l ∧ l_burst (allow_bucket t k l).1 = l_burst l.
Proof. unfold allow_bucket. by destruct (take_token _ _). Qed.

Lemma earned_nonneg l d : limiter_wf l → 0 <= d → (0 <= earned l d)%Q.
Proof.
  intros Hwf Hd. eapply Qle_trans; [|apply (earned_mono l 0 d Hwf Hd)].
  unfold earned. apply Qle_lteq. right. change (inject_Z 0) with 0%Q.
  generalize excess. intros e. field.
Qed.

Lemma allowed_cons k t k' cs ok oks :
  allowed k ((t, k') :: cs) (ok :: oks) =
  (if bool_decide (k' = k) && ok then 1 else 0) + allowed k cs oks.
Proof. done. Qed.

(** The rounding slack of [n] calls. *)
Definition slack (l : keyedRateLimiter) (n : nat) : Q :=
  inject_Z (Z.of_nat n) * (2 * (eps * l_burst l)).

Lemma slack_S l n : (slack l (S n) == slack l n + 2 * (eps * l_burst l))%Q.
Proof.
  unfold slack. rewrite Nat2Z.inj_succ, <-Z.add_1_r, inject_Z_plus. change (inject_Z 1) with 1%Q.
  generalize (2 * (eps * l_burst l))%Q. intros x. ring.
Qed.

Lemma slack_nonneg l n : limiter_wf l → (0 <= slack l n)%Q.
Proof.
  intros Hwf. pose proof eps_pos. pose proof (burst_ge_1 l Hwf). unfold slack.
  apply Qmult_le_0_compat; [change 0%Q with (inject_Z 0); rewrite <-Zle_Qle; lia|].
  apply Qmult_le_0_compat; [done|]. apply Qmult_le_0_compat; lra.
Qed.

(** What a key can still spend until [tend], from its bucket or from a full one. *)
Definition budget (l : keyedRateLimiter) (now tend : Time) (o : option bucket) : Q :=
  match o with
  | Some b => b_tokens b + earned l (tend - b_last b)
  | None => l_burst l + earned l (tend - now)
  end.

(** The budget after one call. *)
Lemma budget_step l now t tend k k' :
  limiter_wf l → used_before now l → now <= t → t <= tend →
  let '(l', ok) := allow_bucket t k' l in
  let n := inject_Z (if bool_decide (k' = k) && ok then 1 else 0) in
  let s := (2 * (eps * l_burst l))%Q in
  (k' = k → ∃ b', l_buckets l' !! k = Some b' ∧
     (n + budget l t tend (Some b') <= budget l now tend (l_buckets l !! k) + s)%Q ∧
     (n + budget l t tend (Some b') <= budget l now tend None + s)%Q) ∧
  (k' ≠ k → l_buckets l' !! k = l_buckets l !! k ∧ n = 0%Q).
Proof.
  intros Hwf Hu Hnow Ht. pose proof (used_before_mono _ _ _ Hnow Hu) as Hut.
  pose proof (allow_bucket_le l t k' Hwf Hut) as H. pose proof (allow_bucket_other l t k k') as Ho.
  destruct (allow_bucket t k' l) as [l' ok]. simpl. destruct H as (b' & Hb' & Hlast & H1 & H2).
  split; [intros ->|intros Hne; split; [by apply Ho|by rewrite bool_decide_eq_false_2]].
  exists b'. split; [done|]. rewrite bool_decide_eq_true_2 by done. rewrite Hlast.
  assert (En : inject_Z (if true && ok then 1 else 0) = (if ok then 1 else 0)%Q) by by destruct ok.
  rewrite En. pose proof (earned_mono l (tend - t) (tend - now) Hwf ltac:(lia)) as Hm.
  split; [|lra].
  unfold bucket_of in H1. destruct (l_buckets l !! k) as [b|] eqn:E; simpl in H1 |- *; [|lra].
  pose proof (earned_add l (t - b_last b) (tend - t)) as Ha.
  replace (t - b_last b + (tend - t)) with (tend - b_last b) in Ha by lia. lra.
Qed.

Lemma budget_params l l' now t tend o :
  limiter_wf l → l_rate l' = l_rate l → l_burst l' = l_burst l → now <= t →
  (budget l' t tend o <= budget l now tend o)%Q.
Proof.
  intros Hwf Hr Hb Ht. unfold budget, earned. rewrite Hr, Hb.
  destruct o as [b|]; [apply Qle_refl|].
  pose proof (earned_mono l (tend - t) (tend - now) Hwf ltac:(lia)) as Hm.
  unfold earned in Hm. lra.
Qed.

Lemma budget_nonneg l now tend k :
  limiter_wf l → used_before now l → now <= tend →
  (0 <= budget l now tend (l_buckets l !! k) ∧ 0 <= budget l now tend None)%Q.
Proof.
  intros Hwf Hu Hnow. pose proof (burst_ge_1 l Hwf).
  pose proof (earned_nonneg l (tend - now) Hwf ltac:(lia)). split; [|simpl; lra].
  destruct (l_buckets l !! k) as [b|] eqn:E; simpl; [|lra].
  destruct (wf_buckets _ Hwf k b E) as [Hb0 _]. apply Hu in E. simpl in E.
  pose proof (earned_nonneg l (tend - b_last b) Hwf ltac:(lia)). lra.
Qed.

Lemma run_budget k tend cs now l :
  limiter_wf l → used_before now l → clock_ok now cs → now <= tend →
  Forall (λ c : call, c.1 <= tend) cs →
  let n := inject_Z (allowed k cs (run allow_bucket l cs).2) in
  (n <= budget l now tend (l_buckets l !! k) + slack l (length cs))%Q ∧
  (n <= budget l now tend None + slack l (length cs))%Q.
Proof.
  revert now l. induction cs as [|[t k'] cs IH]; intros now l Hwf Hu Hc Hnow Hend.
  { destruct (budget_nonneg l now tend k Hwf Hu Hnow). pose proof (slack_nonneg l 0 Hwf).
    change (inject_Z (allowed k [] (run allow_bucket l []).2)) with 0%Q. cbn [length]. lra. }
  apply clock_ok_cons in Hc as [Ht Hc]. inversion Hend as [|? ? Hte Hend']; subst. simpl in Hte.
  pose proof (used_before_mono _ _ _ Ht Hu) as Hut.
  pose proof (allow_bucket_wf t k' l Hwf Hut) as Hwf1.
  pose proof (allow_bucket_params l t k') as Hp.
  pose proof (budget_step l now t tend k k' Hwf Hu Ht Hte) as Hstep.
  rewrite run_cons, allowed_cons, inject_Z_plus. cbn [length]. rewrite !slack_S.
  destruct (allow_bucket t k' l) as [l1 ok]. simpl fst in *. simpl snd in *.
  destruct Hwf1 as [Hwf1 Hu1]. destruct Hp as [Hr Hb].
  destruct (IH t l1 Hwf1 Hu1 Hc Hte Hend') as [IH1 IH2]. clear IH.
  assert (Hs : slack l1 (length cs) = slack l (length cs)) by (unfold slack; by rewrite Hb).
  rewrite Hs in IH1, IH2. destruct Hstep as [Hsame Hother].
  set (n := inject_Z (allowed k cs _)) in *. clearbody n.
  set (s := slack l (length cs)) in *. clearbody s.
  destruct (decide (k' = k)) as [->|Hne].
  - destruct (Hsame eq_refl) as (b' & E & H1 & H2). rewrite E in IH1.
    pose proof (budget_params l l1 t t tend (Some b') Hwf Hr Hb ltac:(lia)). lra.
  - destruct (Hother Hne) as [E ->]. rewrite E in IH1.
    pose proof (budget_params l l1 now t tend (l_buckets l !! k) Hwf Hr Hb Ht).
    pose proof (budget_params l l1 now t tend None Hwf Hr Hb Ht).
    pose proof (slack_nonneg l 1 Hwf) as Hs1. rewrite slack_S in Hs1.
    change (slack l 0) with (0 * (2 * (eps * l_burst l)))%Q in Hs1. lra.
Qed.

(** ** What the limiter guarantees *)

(** C23: Eviction is unobservable: whatever the calls, the limiter that sweeps
    idle buckets takes the same decisions as one that keeps every bucket
    forever. *)
Theorem sweep_unobservable now l cs :
  limiter_wf l → used_before now l → clock_ok now cs →
  (run allow l cs).2 = (run allow_bucket l cs).2.
Proof. intros. eapply run_agree; eauto using agree_refl. Qed.

Lemma server_limiter_wf now r n :
  (r, n) ∈ [(1, 5); (2, 10); (5, 20)] → limiter_wf (newRateLimiter now (inject_Z r) n).
Proof.
  rewrite !elem_of_cons, elem_of_nil. intros H.
  destruct_or!; simplify_eq; try done; apply newRateLimiter_wf; try lia; done.
Qed.

Lemma new_used_before now t r n : used_before now (newRateLimiter t r n).
Proof. apply map_Forall_empty. Qed.

Lemma sweep_unobservable_witness :
  let cs := [(0, "a"); (Second, "b"); (12 * Minute, "c"); (13 * Minute, "a")]%string in
  (run allow (newRateLimiter 0 1 5) cs).2 = (run allow_bucket (newRateLimiter 0 1 5) cs).2.
Proof.
  intros cs. apply (sweep_unobservable 0).
  - apply (server_limiter_wf 0 1 5). by left.
  - apply new_used_before.
  - repeat constructor; done.
Defined.

(** C11: The rate: in any interval that ends at [tend], a key is let through at
    most burst + rate * length times, up to the rounding of the token
    arithmetic (a relative [2 ^ -51] of what is earned, and a [2 ^ -52] of the
    burst for each call). *)
Theorem rate_bound k now tend l cs :
  limiter_wf l → used_before now l → clock_ok now cs → now <= tend →
  Forall (λ c : call, c.1 <= tend) cs →
  (inject_Z (allowed k cs (run allow l cs).2) <=
     l_burst l + earned l (tend - now)%Z + slack l (length cs))%Q.
Proof.
  intros Hwf Hu Hc Hnow Hend.
  rewrite (run_agree now cs l l) by auto using agree_refl.
  by apply (run_budget k tend cs now l).
Qed.

Lemma rate_bound_witness :
  let cs := replicate 30 (Second, "a"%string) in
  let l := newRateLimiter 0 1 5 in
  allowed "a" cs (run allow l cs).2 = 5 ∧
  (inject_Z (allowed "a" cs (run allow l cs).2) <=
     l_burst l + earned l (Second - 0)%Z + slack l (length cs))%Q.
Proof.
  intros cs l. split; [by vm_compute|]. apply rate_bound.
  - apply (server_limiter_wf 0 1 5). by left.
  - apply new_used_before.
  - repeat constructor; done.
  - done.
  - repeat constructor; done.
Defined.

(** *** A full bucket *)

Lemma take_exact l now k j :
  limiter_wf l → 0 <= j < 2 ^ 52 → l_buckets l !! k = Some (Bucket (inject_Z j) now) →
  (inject_Z j <= l_burst l)%Q →
  allow_bucket now k l =
    if j =? 0 then (set_bucket k (Bucket (inject_Z 0) now) l, false)
    else (set_bucket k (Bucket (inject_Z (j - 1)) now) l, true).
Proof.
  intros Hwf Hj Hk Hle. unfold allow_bucket, bucket_of. rewrite Hk. simpl.
  assert (Hr : refill l now (Bucket (inject_Z j) now) = inject_Z j).
  { unfold refill. simpl.
    replace (time_Sub now now) with 0 by (unfold time_Sub, int64_min, int64_max; lia).
    assert (E : fadd (inject_Z j) (fmul (Seconds 0) (l_rate l)) = inject_Z j).
    { rewrite <-(rnd_Z j) at 2 by lia. apply rnd_proper. rewrite Seconds_0. unfold fmul.
      rewrite Qmult_0_l. change (rnd 0) with 0%Q. apply Qplus_0_r. }
    rewrite E. destruct (flt _ _) eqn:F; [|done]. apply flt_true in F. lra. }
  rewrite Hr. unfold take_token. destruct (Z.eqb_spec j 0) as [->|Hne].
  - by rewrite (proj2 (flt_true (inject_Z 0) 1)).
  - assert (flt (inject_Z j) 1 = false) as ->.
    { apply flt_false. change 1%Q with (inject_Z 1). rewrite <-Zle_Qle. lia. }
    assert (fsub (inject_Z j) 1 = inject_Z (j - 1)) as ->; [|done].
    rewrite <-(rnd_Z (j - 1)) by lia. apply rnd_proper.
    unfold Z.sub. rewrite inject_Z_plus, inject_Z_opp. reflexivity.
Qed.

Lemma clock_ok_instant now k i : clock_ok now (replicate i (now, k)).
Proof.
  unfold clock_ok. rewrite fmap_replicate. simpl.
  induction i as [|i IH]; [by repeat constructor|].
  constructor; [exact IH|]. constructor. lia.
Qed.

Lemma run_instant now k m j l :
  limiter_wf l → used_before now l → 0 <= j < 2 ^ 52 →
  l_buckets l !! k = Some (Bucket (inject_Z j) now) → (inject_Z j <= l_burst l)%Q →
  (run allow_bucket l (replicate (Z.to_nat j + m) (now, k))).2 =
    replicate (Z.to_nat j) true ++ replicate m false.
Proof.
  intros Hwf Hu Hj. remember (Z.to_nat j) as n eqn:En. revert j m l Hwf Hu Hj En.
  induction n as [|n IHn]; intros j m l Hwf Hu Hj En Hk Hle.
  - assert (j = 0) as -> by lia. simpl app. clear En. induction m as [|m IHm]; [done|].
    cbn [replicate Nat.add]. rewrite run_cons, (take_exact l now k 0) by done. simpl. f_equal.
    replace (set_bucket k (Bucket (inject_Z 0) now) l) with l; [done|].
    unfold set_bucket. rewrite insert_id by done. by destruct l.
  - cbn [replicate Nat.add app]. pose proof (allow_bucket_wf now k l Hwf Hu) as H.
    rewrite run_cons. rewrite (take_exact l now k j) in H |- * by done.
    rewrite (proj2 (Z.eqb_neq j 0)) in H |- * by lia. simpl in *. f_equal.
    apply (IHn (j - 1)); try lia; try apply H.
    + apply lookup_insert_eq.
    + simpl. eapply Qle_trans; [|exact Hle]. rewrite <-Zle_Qle. lia.
Qed.

(** A key seen for the first time gets exactly its burst: of any number of
    calls at one instant the first [burst] are let through and the rest are
    rejected. *)
Theorem burst_exact now k r n m :
  1 <= n < 2 ^ 32 → (inject_Z n <= 600 * r)%Q →
  (run allow (newRateLimiter now r n) (replicate (Z.to_nat n + m) (now, k))).2 =
    replicate (Z.to_nat n) true ++ replicate m false.
Proof.
  intros Hn Hr. set (l := newRateLimiter now r n).
  pose proof (newRateLimiter_wf now r n Hn Hr) as Hwf. fold l in Hwf.
  assert (Hu : used_before now l) by apply new_used_before.
  rewrite (run_agree now _ l l) by auto using agree_refl, clock_ok_instant.
  assert (E : f_of_Z n = inject_Z n) by (apply rnd_Z; lia).
  set (l1 := set_bucket k (Bucket (inject_Z n) now) l).
  assert (Hn0 : (0 <= inject_Z n)%Q) by (change 0%Q with (inject_Z 0); rewrite <-Zle_Qle; lia).
  rewrite <-(run_instant now k m n l1).
  - destruct (Z.to_nat n) as [|i] eqn:Ei; [lia|]. cbn [replicate Nat.add]. rewrite !run_cons.
    assert (allow_bucket now k l = allow_bucket now k l1) as ->; [|done].
    assert (bucket_of l now k = bucket_of l1 now k) as Eb.
    { unfold bucket_of, l1, l. simpl. by rewrite lookup_insert_eq, E. }
    unfold allow_bucket. rewrite Eb. change (refill l1) with (refill l).
    destruct (take_token _ _) as [b ok]. unfold set_bucket, l1. simpl.
    by rewrite insert_insert_eq.
  - apply set_bucket_wf; [done|]. simpl. rewrite E. lra.
  - apply map_Forall_insert_2; [simpl; lia|apply map_Forall_empty].
  - lia.
  - apply lookup_insert_eq.
  - simpl. rewrite E. lra.
Qed.

Lemma burst_exact_witness :
  (run allow (newRateLimiter 0 1 5) (replicate 8 (0, "ip"%string))).2 =
  [true; true; true; true; true; false; false; false].
Proof. apply (burst_exact 0 "ip" 1 5 3); [lia|discriminate]. Defined.

(** *** The size of the map *)

(** No bucket was idle for the TTL when the map was last swept, and the next
    sweep is due within the interval. *)
Definition recently_used (now : Time) (l : keyedRateLimiter) : Prop :=
  map_Forall (λ _ b, l_lastSweep l - b_last b <= rateLimitBucketTTL) (l_buckets l) ∧
  now - l_lastSweep l < rateLimitSweepInterval ∧ l_lastSweep l <= now.

Lemma sweep_recent t now l :
  t <= now → recently_used t l → recently_used now (sweep now l).
Proof.
  intros Ht (H1 & H2 & H3). unfold sweep, recently_used, rateLimitSweepInterval, Minute, Second in *.
  destruct (_ <? _) eqn:E; bool_prop; simpl.
  - split_and!; [done| |lia]. unfold time_Sub, int64_min, int64_max in E. lia.
  - split_and!; [|lia..]. intros k b Hb. apply map_lookup_filter_Some in Hb as [Hb Hc].
    simpl in Hc |- *. bool_prop. unfold time_Sub, rateLimitBucketTTL, Minute, Second, int64_min, int64_max in *. lia.
Qed.

Lemma allow_bucket_recent now k l :
  recently_used now l → recently_used now (allow_bucket now k l).1.
Proof.
  intros (H1 & H2 & H3). unfold allow_bucket.
  pose proof (take_token_last (refill l now (bucket_of l now k)) now) as Hn.
  destruct (take_token _ _) as [b ok]. simpl in *. split_and!; [|done..].
  apply map_Forall_insert_2; [|done]. rewrite Hn. simpl.
  unfold rateLimitBucketTTL, Minute, Second. lia.
Qed.

Lemma run_recent t cs l :
  clock_ok t cs → recently_used t l →
  recently_used (default t (last (fst <$> cs))) (run allow l cs).1.
Proof.
  revert t l. induction cs as [|[t' k] cs IH]; intros t l Hc Hl; [done|].
  apply clock_ok_cons in Hc as [Ht Hc].
  assert (H : recently_used t' (allow t' k l).1).
  { apply allow_bucket_recent. by eapply sweep_recent. }
  specialize (IH t' _ Hc H).
  change (fst <$> (t', k) :: cs) with (t' :: (fst <$> cs)). rewrite last_cons.
  replace (run allow l ((t', k) :: cs)).1 with (run allow (allow t' k l).1 cs).1.
  - by destruct (last (fst <$> cs)).
  - cbn [run]. destruct (allow t' k l) as [l1 ok]. cbn [fst]. by destruct (run allow l1 cs).
Qed.

(** C36: The map cannot grow without bound: after any calls, every bucket it
    still holds was used within the TTL and one sweep interval. *)
Theorem buckets_recent t r n cs :
  clock_ok t cs →
  map_Forall (λ _ b, default t (last (fst <$> cs)) - b_last b <
                     rateLimitBucketTTL + rateLimitSweepInterval)
    (l_buckets (run allow (newRateLimiter t r n) cs).1).
Proof.
  intros Hc. destruct (run_recent t cs (newRateLimiter t r n) Hc) as (H1 & H2 & H3).
  - split_and!; simpl; [apply map_Forall_empty|rewrite Z.sub_diag; done|lia].
  - eapply map_Forall_impl; [exact H1|]. intros k b Hb. simpl in *. lia.
Qed.

Lemma buckets_recent_witness :
  let cs := [(0, "a"); (5 * Minute, "b"); (11 * Minute, "c")]%string in
  let l := (run allow (newRateLimiter 0 1 5) cs).1 in
  l_buckets l !! "a"%string = None ∧
  map_Forall (λ _ b, default 0 (last (fst <$> cs)) - b_last b <
                     rateLimitBucketTTL + rateLimitSweepInterval) (l_buckets l).
Proof.
  split; [by vm_compute|]. apply (buckets_recent 0 1 5). repeat constructor; done.
Defined.

(** *** Keys do not interfere *)

(** The decisions on the calls with key [k]. *)
Fixpoint decisions (k : string) (cs : list call) (oks : list bool) : list bool :=
  match cs, oks with
  | (_, k') :: cs, ok :: oks =>
      if bool_decide (k' = k) then ok :: decisions k cs oks else decisions k cs oks
  | _, _ => []
  end.

Definition calls_of (k : string) (cs : list call) : list call :=
  filter (λ c, c.2 = k) cs.

Lemma allow_bucket_local t k l l' :
  l_rate l' = l_rate l → l_burst l' = l_burst l → l_buckets l' !! k = l_buckets l !! k →
  (allow_bucket t k l').2 = (allow_bucket t k l).2 ∧
  l_buckets (allow_bucket t k l').1 !! k = l_buckets (allow_bucket t k l).1 !! k.
Proof.
  intros Hr Hb Hk. unfold allow_bucket, bucket_of, refill. rewrite Hr, Hb, Hk.
  destruct (take_token _ _) as [b ok]. simpl. by rewrite !lookup_insert_eq.
Qed.

Lemma run_local k cs l l' :
  l_rate l' = l_rate l → l_burst l' = l_burst l → l_buckets l' !! k = l_buckets l !! k →
  decisions k cs (run allow_bucket l cs).2 = (run allow_bucket l' (calls_of k cs)).2.
Proof.
  revert l l'. induction cs as [|[t k'] cs IH]; intros l l' Hr Hb Hk; [done|].
  destruct (allow_bucket_params l t k') as [Hr1 Hb1].
  rewrite run_cons. cbn [decisions]. unfold calls_of. rewrite filter_cons. cbn [snd].
  destruct (decide (k' = k)) as [->|Hne].
  - rewrite bool_decide_eq_true_2, run_cons by done.
    destruct (allow_bucket_params l' t k) as [Hr2 Hb2].
    destruct (allow_bucket_local t k l l' Hr Hb Hk) as [H1 H2].
    f_equal; [done|]. apply IH; congruence.
  - rewrite bool_decide_eq_false_2 by done. apply IH; [congruence..|].
    by rewrite allow_bucket_other.
Qed.

Lemma clock_ok_filter now k cs : clock_ok now cs → clock_ok now (calls_of k cs).
Proof.
  unfold clock_ok, calls_of. intros H.
  apply Sorted_StronglySorted in H; [|intros ???; lia].
  apply StronglySorted_Sorted. inversion H as [|? ? Hs Hf]; subst. clear H. constructor.
  - induction cs as [|[t k'] cs IH]; [constructor|]. simpl in *.
    inversion Hs as [|? ? Hs1 Hf1]; subst. inversion Hf; subst.
    rewrite filter_cons. case_decide; simpl; [|by apply IH]. constructor; [by apply IH|].
    apply Forall_fmap, Forall_filter_2. by rewrite Forall_fmap in Hf1.
  - apply Forall_fmap, Forall_filter_2. by rewrite Forall_fmap in Hf.
Qed.

(** Keys are isolated: the decisions on one key are those of a limiter
    that sees the calls of that key alone. *)
Theorem keys_isolated now k l cs :
  limiter_wf l → used_before now l → clock_ok now cs →
  decisions k cs (run allow l cs).2 = (run allow l (calls_of k cs)).2.
Proof.
  intros Hwf Hu Hc. rewrite !(run_agree now _ l l) by auto using agree_refl, clock_ok_filter.
  by apply run_local.
Qed.

Lemma keys_isolated_witness :
  let cs := [(0, "a"); (0, "b"); (Second, "a"); (12 * Minute, "b")]%string in
  let l := newRateLimiter 0 1 5 in
  decisions "b" cs (run allow l cs).2 = (run allow l (calls_of "b" cs)).2.
Proof.
  intros cs l. apply (keys_isolated 0).
  - apply (server_limiter_wf 0 1 5). by left.
  - apply new_used_before.
  - repeat constructor; done.
Defined.
