(* ===== verification/GoBase64.v ===== *)
(** * Go base64.

    [base64.RawURLEncoding] of [encoding/base64]: the URL alphabet without
    padding, and its decoder, which is not strict about the unused trailing bits
    and skips line breaks. *)
From S2P Require Import Prelude GoString.
Local Open Scope Z_scope.

(** The character of a 6-bit value, and its inverse. *)
Definition b64_char (n : Z) : ascii :=
  byte (if n <? 26 then 65 + n
        else if n <? 52 then 97 + (n - 26)
        else if n <? 62 then 48 + (n - 52)
        else if n =? 62 then 45 else 95).

Definition b64_val (c : ascii) : option Z :=
  let n := code c in
  if (65 <=? n) && (n <=? 90) then Some (n - 65)
  else if (97 <=? n) && (n <=? 122) then Some (n - 97 + 26)
  else if (48 <=? n) && (n <=? 57) then Some (n - 48 + 52)
  else if n =? 45 then Some 62
  else if n =? 95 then Some 63
  else None.

Fixpoint b64_encode (l : list ascii) : list ascii :=
  match l with
  | a :: b :: c :: l =>
      let v := code a * 65536 + code b * 256 + code c in
      b64_char (v / 262144) :: b64_char (v / 4096 mod 64) ::
      b64_char (v / 64 mod 64) :: b64_char (v mod 64) :: b64_encode l
  | [a; b] =>
      let v := code a * 65536 + code b * 256 in
      [b64_char (v / 262144); b64_char (v / 4096 mod 64); b64_char (v / 64 mod 64)]
  | [a] =>
      let v := code a * 65536 in [b64_char (v / 262144); b64_char (v / 4096 mod 64)]
  | [] => []
  end.

(** The bytes of the 6-bit values: a lone value at the end is an error. *)
Fixpoint b64_join (vs : list Z) : option (list ascii) :=
  match vs with
  | a :: b :: c :: d :: vs =>
      let v := ((a * 64 + b) * 64 + c) * 64 + d in
      l ← b64_join vs;
      Some (byte (v / 65536) :: byte (v / 256 mod 256) :: byte (v mod 256) :: l)
  | [a; b; c] =>
      let v := ((a * 64 + b) * 64 + c) * 64 in Some [byte (v / 65536); byte (v / 256 mod 256)]
  | [a; b] => Some [byte ((a * 64 + b) * 4096 / 65536)]
  | [_] => None
  | [] => Some []
  end.

Definition is_line_break (c : ascii) : bool := (code c =? 10) || (code c =? 13).

Definition b64_decode (l : list ascii) : option (list ascii) :=
  vs ← mapM b64_val (filter (λ c, is_line_break c = false) l); b64_join vs.

(** [base64.RawURLEncoding.EncodeToString] and [DecodeString]. *)
Definition EncodeToString (l : list ascii) : string := unbytes (b64_encode l).
Definition DecodeString (s : string) : option (list ascii) := b64_decode (bytes s).

Lemma b64_val_char n : 0 <= n < 64 → b64_val (b64_char n) = Some n.
Proof.
  assert (H : forallb (λ i, bool_decide (b64_val (b64_char (Z.of_nat i)) = Some (Z.of_nat i)))
                (seq 0 64) = true) by by vm_compute.
  intros Hn. rewrite List.forallb_forall in H. specialize (H (Z.to_nat n)).
  rewrite Z2Nat.id, bool_decide_eq_true in H by lia. apply H, in_seq. lia.
Qed.

Lemma b64_char_break n : 0 <= n < 64 → is_line_break (b64_char n) = false.
Proof.
  assert (H : forallb (λ i, negb (is_line_break (b64_char (Z.of_nat i)))) (seq 0 64) = true)
    by by vm_compute.
  intros Hn. rewrite List.forallb_forall in H. specialize (H (Z.to_nat n)).
  rewrite Z2Nat.id in H by lia. apply negb_true_iff, H, in_seq. lia.
Qed.

(** The 6-bit values of an encoding, without the characters. *)
Definition b64_digits_ok (l : list ascii) (ds : list Z) : Prop :=
  l = b64_char <$> ds ∧ Forall (λ n, 0 <= n < 64) ds.

Lemma b64_decode_digits ds :
  Forall (λ n, 0 <= n < 64) ds → b64_decode (b64_char <$> ds) = b64_join ds.
Proof.
  intros H. unfold b64_decode.
  assert (filter (λ c, is_line_break c = false) (b64_char <$> ds) = b64_char <$> ds) as ->.
  { induction H as [|n ds Hn H IH]; [done|].
    rewrite fmap_cons, filter_cons, decide_True by (by apply b64_char_break). by rewrite IH. }
  assert (mapM b64_val (b64_char <$> ds) = Some ds) as ->; [|done].
  apply mapM_Some. apply Forall2_fmap_l, Forall_Forall2_diag.
  eapply Forall_impl; [exact H|]. intros n Hn. by apply b64_val_char.
Qed.

Lemma byte_code c : byte (code c) = c.
Proof. unfold byte, code. rewrite N2Z.id. apply ascii_N_embedding. Qed.

Lemma three_bytes_ind (P : list ascii → Prop) :
  P [] → (∀ a, P [a]) → (∀ a b, P [a; b]) →
  (∀ a b c l, P l → P (a :: b :: c :: l)) → ∀ l, P l.
Proof.
  intros H0 H1 H2 H3 l.
  cut (P l ∧ (∀ a, P (a :: l)) ∧ (∀ a b, P (a :: b :: l))); [by intros []|].
  induction l as [|x l (IH1 & IH2 & IH3)]; split_and!; auto.
Qed.

(** Decoding what was encoded. *)
Lemma b64_roundtrip l : b64_decode (b64_encode l) = Some l.
Proof.
  cut (∃ ds, b64_digits_ok (b64_encode l) ds ∧ b64_join ds = Some l).
  { intros (ds & [-> Hd] & Hj). by rewrite b64_decode_digits. }
  induction l as [|a|a b|a b c l (ds & [El Hd] & Hj)] using three_bytes_ind.
  - exists []. by split; [split; [done|constructor]|].
  - pose proof (code_range a). set (v := code a * 65536) in *.
    exists [v / 262144; v / 4096 mod 64]. split; [split; [done|]|].
    + repeat constructor; div_lia.
    + cbn [b64_join]. do 2 f_equal. rewrite <-(byte_code a). f_equal. unfold v. div_lia.
  - pose proof (code_range a). pose proof (code_range b).
    set (v := code a * 65536 + code b * 256) in *.
    exists [v / 262144; v / 4096 mod 64; v / 64 mod 64]. split; [split; [done|]|].
    + repeat constructor; div_lia.
    + cbn [b64_join]. f_equal. rewrite <-(byte_code a), <-(byte_code b) at 1.
      f_equal; [f_equal; unfold v; div_lia|]. do 2 f_equal. unfold v. div_lia.
  - pose proof (code_range a). pose proof (code_range b). pose proof (code_range c).
    set (v := code a * 65536 + code b * 256 + code c) in *.
    exists (v / 262144 :: v / 4096 mod 64 :: v / 64 mod 64 :: v mod 64 :: ds).
    split; [split|].
    + cbn [b64_encode]. fold v. by rewrite El.
    + repeat constructor; [div_lia..|done].
    + cbn [b64_join]. rewrite Hj. cbn [mbind option_bind].
      assert (((v / 262144 * 64 + v / 4096 mod 64) * 64 + v / 64 mod 64) * 64 + v mod 64 = v)
        as -> by div_lia.
      rewrite <-(byte_code a), <-(byte_code b), <-(byte_code c) at 1.
      f_equal. f_equal; [f_equal; unfold v; div_lia|].
      f_equal; [f_equal; unfold v; div_lia|]. do 2 f_equal. unfold v. div_lia.
Qed.
