(* ===== verification/GoJson.v ===== *)
(** * Go encoding/json.

    The JSON text the program writes and reads.  Every type it encodes is a struct,
    map or slice, so encoding is a concatenation of encoded members
    ([encode_object]); decoding follows Go's decoder, which scans the members of
    an object, finds the raw text of each value, and decodes a raw value into
    the field its key names ([decode_fields]).  Not modelled: the nesting limit
    of 10000, and the text of the errors. *)
From S2P Require Import Prelude GoString GoTime.
From S2P Require Import GoFloat.
From Stdlib Require Import QArith.
Local Open Scope Z_scope.

(** ** UTF-8 *)

Definition in_range (lo hi : Z) (c : ascii) : bool := (lo <=? code c) && (code c <=? hi).

(** The length of the well-formed UTF-8 sequence [l] starts with, if any:
    [utf8.DecodeRune] without the rune. *)
Definition utf8_len (l : list ascii) : option nat :=
  match l with
  | a :: _ =>
      if in_range 0 127 a then Some 1%nat
      else match l with
      | _ :: b :: _ =>
          if in_range 194 223 a then if in_range 128 191 b then Some 2%nat else None
          else match l with
          | _ :: _ :: c :: _ =>
              if in_range 224 239 a then
                let lo := if code a =? 224 then 160 else 128 in
                let hi := if code a =? 237 then 159 else 191 in
                if in_range lo hi b && in_range 128 191 c then Some 3%nat else None
              else match l with
              | _ :: _ :: _ :: d :: _ =>
                  let lo := if code a =? 240 then 144 else 128 in
                  let hi := if code a =? 244 then 143 else 191 in
                  if in_range 240 244 a && in_range lo hi b && in_range 128 191 c &&
                     in_range 128 191 d then Some 4%nat else None
              | _ => None
              end
          | _ => None
          end
      | _ => None
      end
  | [] => None
  end.

(** [utf8.Valid] *)
Fixpoint utf8_valid (fuel : nat) (l : list ascii) : bool :=
  match l, fuel with
  | [], _ => true
  | _, O => false
  | _, S fuel => match utf8_len l with Some n => utf8_valid fuel (drop n l) | None => false end
  end.

Definition utf8_text (l : list ascii) : bool := utf8_valid (length l) l.

(** U+FFFD, which replaces what is not valid UTF-8. *)
Definition replacement : list ascii := [byte 239; byte 191; byte 189].

(** [utf8.EncodeRune] *)
Definition encode_rune (r : Z) : list ascii :=
  if r <? 128 then [byte r]
  else if r <? 2048 then [byte (192 + r / 64); byte (128 + r mod 64)]
  else if (55296 <=? r) && (r <=? 57343) then replacement
  else if r <? 65536 then
    [byte (224 + r / 4096); byte (128 + r / 64 mod 64); byte (128 + r mod 64)]
  else if r <=? 1114111 then
    [byte (240 + r / 262144); byte (128 + r / 4096 mod 64); byte (128 + r / 64 mod 64);
     byte (128 + r mod 64)]
  else replacement.

(** ** Writing *)

Definition hex_digit (n : Z) : ascii := byte (if n <? 10 then 48 + n else 87 + n).

Definition quote : ascii := byte 34.
Definition backslash : ascii := byte 92.

(** A byte below 128 inside a string, with HTML escaping. *)
Definition escape_byte (c : ascii) : list ascii :=
  let n := code c in
  if (n =? 34) || (n =? 92) then [backslash; c]
  else if n =? 8 then [backslash; byte 98]
  else if n =? 9 then [backslash; byte 116]
  else if n =? 10 then [backslash; byte 110]
  else if n =? 12 then [backslash; byte 102]
  else if n =? 13 then [backslash; byte 114]
  else if (n <? 32) || (n =? 38) || (n =? 60) || (n =? 62)
  then [backslash; byte 117; byte 48; byte 48; hex_digit (n / 16); hex_digit (n mod 16)]
  else [c].

Definition is_line_sep (l : list ascii) : option ascii :=
  match l with
  | a :: b :: c :: _ =>
      if (code a =? 226) && (code b =? 128) && (code c =? 168) then Some (byte 56)
      else if (code a =? 226) && (code b =? 128) && (code c =? 169) then Some (byte 57)
      else None
  | _ => None
  end.

(** The inside of a string, by the runes of [l]. *)
Fixpoint escape (fuel : nat) (l : list ascii) : list ascii :=
  match fuel, l with
  | S fuel, a :: l' =>
      if in_range 0 127 a then escape_byte a ++ escape fuel l'
      else match utf8_len l with
      | None => [backslash; byte 117; byte 102; byte 102; byte 102; byte 100] ++ escape fuel l'
      | Some n =>
          match is_line_sep l with
          | Some d => [backslash; byte 117; byte 50; byte 48; byte 50; d] ++ escape fuel (drop n l)
          | None => take n l ++ escape fuel (drop n l)
          end
      end
  | _, _ => []
  end.

Definition encode_string (l : list ascii) : list ascii :=
  quote :: escape (length l) l ++ [quote].

(** Members joined by commas; the values are JSON text. *)
Fixpoint encode_members (kvs : list (list ascii * list ascii)) : list ascii :=
  match kvs with
  | [] => []
  | [(k, v)] => encode_string k ++ byte 58 :: v
  | (k, v) :: kvs => encode_string k ++ byte 58 :: v ++ byte 44 :: encode_members kvs
  end.

Definition encode_object (kvs : list (list ascii * list ascii)) : list ascii :=
  byte 123 :: encode_members kvs ++ [byte 125].

(** [Time.MarshalJSON]: RFC 3339 with nanoseconds; an error outside years 0 to 9999. *)
Definition encode_time (t : Time) : option (list ascii) :=
  if bool_decide (rfc_year t) then Some (quote :: append_rfc3339 true t ++ [quote]) else None.

Definition encode_int (n : Z) : list ascii := append_int 1 n.

(** ** Scanning *)

Definition is_space (c : ascii) : bool :=
  (code c =? 32) || (code c =? 9) || (code c =? 10) || (code c =? 13).

Fixpoint skip_ws (l : list ascii) : list ascii :=
  match l with
  | c :: l' => if is_space c then skip_ws l' else l
  | [] => []
  end.

Definition hex_val (c : ascii) : option Z :=
  if in_range 48 57 c then Some (code c - 48)
  else if in_range 97 102 c then Some (code c - 87)
  else if in_range 65 70 c then Some (code c - 55)
  else None.

Definition hex4 (l : list ascii) : option (Z * list ascii) :=
  match l with
  | a :: b :: c :: d :: l =>
      a ← hex_val a; b ← hex_val b; c ← hex_val c; d ← hex_val d;
      Some (((a * 16 + b) * 16 + c) * 16 + d, l)
  | _ => None
  end.

(** The byte of a one-letter escape. *)
Definition simple_escape (c : ascii) : option ascii :=
  let n := code c in
  if (n =? 34) || (n =? 92) || (n =? 47) then Some c
  else if n =? 98 then Some (byte 8)
  else if n =? 102 then Some (byte 12)
  else if n =? 110 then Some (byte 10)
  else if n =? 114 then Some (byte 13)
  else if n =? 116 then Some (byte 9)
  else None.

(** A [\u] escape, with the second half of a surrogate pair if there is one. *)
Definition unescape_u (l : list ascii) : option (list ascii * list ascii) :=
  '(r, l) ← hex4 l;
  if (55296 <=? r) && (r <=? 57343) then
    match l with
    | b :: u :: l' =>
        if Ascii.eqb b backslash && Ascii.eqb u (byte 117) then
          match hex4 l' with
          | Some (r2, l'') =>
              if (r <=? 56319) && (56320 <=? r2) && (r2 <=? 57343)
              then Some (encode_rune ((r - 55296) * 1024 + (r2 - 56320) + 65536), l'')
              else Some (replacement, l)
          | None => Some (replacement, l)
          end
        else Some (replacement, l)
    | _ => Some (replacement, l)
    end
  else Some (encode_rune r, l).

(** The rest of a string after its opening quote: its bytes and what follows
    the closing quote. *)
Fixpoint scan_string (fuel : nat) (l : list ascii) : option (list ascii * list ascii) :=
  match fuel, l with
  | S fuel, a :: l' =>
      if Ascii.eqb a quote then Some ([], l')
      else if Ascii.eqb a backslash then
        match l' with
        | e :: l'' =>
            '(s, k) ← (if Ascii.eqb e (byte 117) then unescape_u l''
                       else c ← simple_escape e; Some ([c], l''));
            '(s', k) ← scan_string fuel k; Some (s ++ s', k)
        | [] => None
        end
      else if code a <? 32 then None
      else match utf8_len l with
      | Some n => '(s, k) ← scan_string fuel (drop n l); Some (take n l ++ s, k)
      | None => '(s, k) ← scan_string fuel l'; Some (replacement ++ s, k)
      end
  | _, _ => None
  end.

Definition parse_string (l : list ascii) : option (list ascii * list ascii) :=
  match l with
  | q :: l => if Ascii.eqb q quote then scan_string (length l) l else None
  | [] => None
  end.

(** A number: what follows its longest prefix of the JSON grammar. *)
Definition scan_frac (l : list ascii) : option (list ascii) :=
  match l with
  | p :: l' =>
      if Ascii.eqb p (byte 46) then
        match span_digits l' with ([], _) => None | (_, k) => Some k end
      else Some l
  | [] => Some []
  end.

Definition scan_exp (l : list ascii) : option (list ascii) :=
  match l with
  | e :: l' =>
      if Ascii.eqb e (byte 101) || Ascii.eqb e (byte 69) then
        let l'' := match l' with
                   | s :: k => if Ascii.eqb s (byte 43) || Ascii.eqb s (byte 45) then k else l'
                   | [] => []
                   end in
        match span_digits l'' with ([], _) => None | (_, k) => Some k end
      else Some l
  | [] => Some []
  end.

Definition scan_number (l : list ascii) : option (list ascii) :=
  let l := match l with
           | s :: k => if Ascii.eqb s (byte 45) then k else l
           | [] => []
           end in
  k ← match span_digits l with
      | ([], _) => None
      | (z :: ds, k) =>
          if Ascii.eqb z (byte 48) then match l with _ :: k => Some k | [] => None end
          else Some k
      end;
  k ← scan_frac k; scan_exp k.

Definition scan_literal (w l : list ascii) : option (list ascii) :=
  if has_prefix w l then Some (drop (length w) l) else None.

(** What follows the value [l] starts with, with the members of an object and
    the elements of an array; [None] at a syntax error. *)
Fixpoint skip_value (fuel : nat) (l : list ascii) : option (list ascii) :=
  match fuel with
  | O => None
  | S fuel =>
      match skip_ws l with
      | [] => None
      | c :: k =>
          if Ascii.eqb c quote then snd <$> scan_string (length k) k
          else if Ascii.eqb c (byte 123) then
            match skip_ws k with
            | d :: k' => if Ascii.eqb d (byte 125) then Some k' else skip_members fuel k
            | [] => None
            end
          else if Ascii.eqb c (byte 91) then
            match skip_ws k with
            | d :: k' => if Ascii.eqb d (byte 93) then Some k' else skip_elements fuel k
            | [] => None
            end
          else if Ascii.eqb c (byte 116) then scan_literal (bytes "true") (c :: k)
          else if Ascii.eqb c (byte 102) then scan_literal (bytes "false") (c :: k)
          else if Ascii.eqb c (byte 110) then scan_literal (bytes "null") (c :: k)
          else scan_number (c :: k)
      end
  end
with skip_members (fuel : nat) (l : list ascii) : option (list ascii) :=
  match fuel with
  | O => None
  | S fuel =>
      '(_, k) ← parse_string (skip_ws l);
      match skip_ws k with
      | c :: k =>
          if negb (Ascii.eqb c (byte 58)) then None else
          k ← skip_value fuel k;
          match skip_ws k with
          | d :: k =>
              if Ascii.eqb d (byte 125) then Some k
              else if Ascii.eqb d (byte 44) then skip_members fuel k else None
          | [] => None
          end
      | [] => None
      end
  end
with skip_elements (fuel : nat) (l : list ascii) : option (list ascii) :=
  match fuel with
  | O => None
  | S fuel =>
      k ← skip_value fuel l;
      match skip_ws k with
      | d :: k =>
          if Ascii.eqb d (byte 93) then Some k
          else if Ascii.eqb d (byte 44) then skip_elements fuel k else None
      | [] => None
      end
  end.

(** The value at the front of [l] as raw text, and what follows it. *)
Definition raw_value (l : list ascii) : option (list ascii * list ascii) :=
  let v := skip_ws l in
  k ← skip_value (S (length v)) v; Some (take (length v - length k) v, k).

(** The members of an object after its brace: keys and raw values. *)
Fixpoint scan_members (fuel : nat) (l : list ascii)
    : option (list (list ascii * list ascii) * list ascii) :=
  match fuel with
  | O => None
  | S fuel =>
      '(key, k) ← parse_string (skip_ws l);
      match skip_ws k with
      | c :: k =>
          if negb (Ascii.eqb c (byte 58)) then None else
          '(v, k) ← raw_value k;
          match skip_ws k with
          | d :: k =>
              if Ascii.eqb d (byte 125) then Some ([(key, v)], k)
              else if Ascii.eqb d (byte 44) then
                '(kvs, k) ← scan_members fuel k; Some ((key, v) :: kvs, k)
              else None
          | [] => None
          end
      | [] => None
      end
  end.

(** The first value of [l]: the members of an object, [null] or another value. *)
Inductive top_value : Type :=
  | TObject (kvs : list (list ascii * list ascii))
  | TNull
  | TOther (raw : list ascii).

Definition parse_top (l : list ascii) : option (top_value * list ascii) :=
  match skip_ws l with
  | c :: k =>
      if Ascii.eqb c (byte 123) then
        match skip_ws k with
        | d :: k' =>
            if Ascii.eqb d (byte 125) then Some (TObject [], k')
            else '(kvs, k) ← scan_members (length k) k; Some (TObject kvs, k)
        | [] => None
        end
      else
        '(raw, k) ← raw_value (c :: k);
        Some (if bool_decide (raw = bytes "null") then TNull else TOther raw, k)
  | [] => None
  end.

(** ** Decoding into a struct *)

Definition upper (c : ascii) : ascii := if in_range 97 122 c then byte (code c - 32) else c.

(** [foldName]: upper case, with the two non-ASCII runes that fold to a letter. *)
Fixpoint fold_name (fuel : nat) (l : list ascii) : list ascii :=
  match fuel, l with
  | S fuel, a :: b :: c :: l' =>
      if (code a =? 226) && (code b =? 132) && (code c =? 170) then byte 75 :: fold_name fuel l'
      else if (code a =? 197) && (code b =? 191) then byte 83 :: fold_name fuel (c :: l')
      else upper a :: fold_name fuel (b :: c :: l')
  | S fuel, [a; b] =>
      if (code a =? 197) && (code b =? 191) then [byte 83] else [upper a; upper b]
  | S fuel, [a] => [upper a]
  | _, _ => []
  end.

Definition fold (l : list ascii) : list ascii := fold_name (length l) l.

(** The field of [names] a key selects: the exact name, else up to case. *)
Definition match_field (names : list string) (key : list ascii) : option string :=
  match List.find (λ n, bool_decide (bytes n = key)) names with
  | Some n => Some n
  | None => List.find (λ n, bool_decide (fold (bytes n) = fold key)) names
  end.

Section decode.
Context {S : Type} (names : list string) (disallow_unknown : bool)
  (set_field : string → list ascii → S → option S).

Fixpoint decode_fields (kvs : list (list ascii * list ascii)) (s : S) : option S :=
  match kvs with
  | [] => Some s
  | (key, raw) :: kvs =>
      match match_field names key with
      | Some n => s ← set_field n raw s; decode_fields kvs s
      | None => if disallow_unknown then None else decode_fields kvs s
      end
  end.

(** [null] leaves a struct as it is; any other non-object is a type error. *)
Definition decode_top (v : top_value) (s : S) : option S :=
  match v with
  | TObject kvs => decode_fields kvs s
  | TNull => Some s
  | TOther _ => None
  end.

(** [json.Unmarshal]: one value and nothing but white space after it. *)
Definition Unmarshal (l : list ascii) (s : S) : option S :=
  '(v, k) ← parse_top l;
  match skip_ws k with [] => decode_top v s | _ => None end.

(** [Decoder.Decode]: the first value of the stream. *)
Definition Decode (l : list ascii) (s : S) : option S :=
  '(v, _) ← parse_top l; decode_top v s.
End decode.

(** ** Decoding a raw value into a field *)

Definition is_null (raw : list ascii) : bool := bool_decide (raw = bytes "null").

(** A [string] field. *)
Definition decode_string (raw : list ascii) (old : string) : option string :=
  if is_null raw then Some old else '(s, _) ← parse_string raw; Some (unbytes s).

(** An [int64] field: an integer in range, without fraction or exponent. *)
Definition decode_int64 (raw : list ascii) (old : Z) : option Z :=
  if is_null raw then Some old else
  match scan_number raw with Some _ => Atoi (unbytes raw) | None => None end.

(** A [time.Time] field. *)
Definition decode_time (raw : list ascii) (old : Time) : option Time :=
  if is_null raw then Some old else
  match raw with
  | q :: l =>
      match rev l with
      | q' :: m => if Ascii.eqb q quote && Ascii.eqb q' quote then parse_rfc3339 (rev m) else None
      | [] => None
      end
  | [] => None
  end.

(** The value of a number of the JSON grammar. *)
Definition number_value (l : list ascii) : option Q :=
  let '(neg, l) := match l with
                   | s :: k => if Ascii.eqb s (byte 45) then (true, k) else (false, l)
                   | [] => (false, [])
                   end in
  let '(ip, l) := span_digits l in
  let '(fp, l) := match l with
                  | p :: k => if Ascii.eqb p (byte 46) then span_digits k else ([], l)
                  | [] => ([], [])
                  end in
  e ← match l with
      | _ :: s :: k =>
          if Ascii.eqb s (byte 45) then Z.opp <$> parse_digits 0 k
          else if Ascii.eqb s (byte 43) then parse_digits 0 k
          else parse_digits 0 (s :: k)
      | _ => Some 0
      end;
  m ← parse_digits 0 (ip ++ fp);
  let v := (inject_Z m * Qpower 10 (e - Z.of_nat (length fp)))%Q in
  Some (if neg : bool then (- v)%Q else v).

(** The [float32] nearest to [x], ties to even; [None] beyond the largest. *)
Definition to_float32 (x : Q) : option Q :=
  let a := Qabs.Qabs x in
  if Qle_bool a 0 then Some 0%Q else
  let e := Z.max (flog2 a - 23) (-149) in
  let r := Qred (inject_Z (rint (a * pow2 (- e))) * pow2 e) in
  if Qle_bool (pow2 128) r then None
  else Some (if Qle_bool 0 x then r else Qopp r).

Definition decode_float32 (raw : list ascii) (old : Q) : option Q :=
  if is_null raw then Some old else
  match scan_number raw with Some _ => v ← number_value raw; to_float32 v | None => None end.

(** A [json.RawMessage] field keeps the text of the value. *)
Definition decode_raw (raw : list ascii) : string := unbytes raw.

(** ** Reading back what was written *)

Definition ascii_text (l : list ascii) : Prop := Forall (λ c, in_range 0 127 c = true) l.

#[export] Instance ascii_text_dec l : Decision (ascii_text l).
Proof. unfold ascii_text. apply _. Defined.

Lemma ascii_utf8 l : ascii_text l → utf8_text l = true.
Proof.
  unfold utf8_text. induction 1 as [|c l Hc _ IH]; [done|]. cbn [length utf8_valid utf8_len]. by rewrite Hc.
Qed.

Lemma scan_escape_byte c fuel r :
  in_range 0 127 c = true →
  scan_string (S fuel) (escape_byte c ++ r) =
  ('(s, k) ← scan_string fuel r; Some (c :: s, k)).
Proof. destruct c as [[] [] [] [] [] [] [] []]; done. Qed.

Lemma scan_string_escape l fuel k :
  ascii_text l → (length l < fuel)%nat →
  scan_string fuel (escape (length l) l ++ quote :: k) = Some (l, k).
Proof.
  intros Hl. revert fuel. induction Hl as [|c l Hc Hl IH]; intros [|fuel] Hf; try (simpl in Hf; lia).
  - done.
  - cbn [length escape]. rewrite Hc, <-app_assoc, scan_escape_byte by done.
    rewrite IH by (simpl in Hf; lia). done.
Qed.

Lemma escape_length l : ascii_text l → (length l ≤ length (escape (length l) l))%nat.
Proof.
  induction 1 as [|c l Hc Hl IH]; [done|]. cbn [length escape]. rewrite Hc, length_app.
  enough (1 ≤ length (escape_byte c))%nat by lia.
  unfold escape_byte. repeat case_match; simpl; lia.
Qed.

Lemma parse_encode_string l k :
  ascii_text l → parse_string (encode_string l ++ k) = Some (l, k).
Proof.
  intros Hl. unfold encode_string, parse_string. cbn [app]. rewrite Ascii.eqb_refl, <-app_assoc.
  apply scan_string_escape; [done|].
  rewrite length_app. simpl. pose proof (escape_length l Hl). lia.
Qed.

(** What may follow a value: the end, a comma or a closing bracket. *)
Definition delimited (k : list ascii) : Prop :=
  match k with
  | [] => True
  | c :: _ => c = byte 44 ∨ c = byte 125 ∨ c = byte 93
  end.

(** [v] is the text of one value, without space in front of it. *)
Record json_value (v : list ascii) : Prop := {
  jv_head : ∃ c v', v = c :: v' ∧ is_space c = false;
  jv_skip : ∀ fuel k, (length v < fuel)%nat → delimited k → skip_value fuel (v ++ k) = Some k
}.

Lemma skip_ws_value v k : json_value v → skip_ws (v ++ k) = v ++ k.
Proof. intros [(c & v' & -> & Hc) _]. simpl. by rewrite Hc. Qed.

Lemma encode_string_value l : ascii_text l → json_value (encode_string l).
Proof.
  intros Hl. split; [by exists quote, (escape (length l) l ++ [quote])|].
  intros [|fuel] k Hf _; [simpl in Hf; lia|].
  unfold encode_string. cbn [app skip_value skip_ws].
  change (is_space quote) with false. cbn match. rewrite Ascii.eqb_refl, <-app_assoc.
  cbn [app]. rewrite scan_string_escape; [done|done|].
  rewrite !length_app. pose proof (escape_length l Hl). simpl. lia.
Qed.

Lemma raw_value_app v k :
  json_value v → delimited k → raw_value (v ++ k) = Some (v, k).
Proof.
  intros Hv Hk. unfold raw_value. rewrite skip_ws_value by done.
  rewrite (jv_skip _ Hv) by (try done; rewrite length_app; lia). simpl.
  by rewrite length_app, Nat.add_sub, take_app_length.
Qed.

(** Members whose keys are ASCII and whose values are values. *)
Definition members_ok (kvs : list (list ascii * list ascii)) : Prop :=
  Forall (λ kv, ascii_text kv.1 ∧ json_value kv.2) kvs.

Lemma skip_ws_quote k : skip_ws (quote :: k) = quote :: k.
Proof. done. Qed.

Lemma skip_ws_encode_string l k : skip_ws (encode_string l ++ k) = encode_string l ++ k.
Proof. done. Qed.

Lemma scan_encode_members kvs fuel k :
  members_ok kvs → kvs ≠ [] → (length kvs ≤ fuel)%nat →
  scan_members fuel (encode_members kvs ++ byte 125 :: k) = Some (kvs, k).
Proof.
  intros Hok. revert fuel. induction Hok as [|[key v] kvs [Hk Hv] Hok IH];
    intros [|fuel] Hne Hf; try done; try (simpl in Hf; lia).
  simpl in Hk, Hv. cbn [encode_members scan_members].
  destruct kvs as [|kv kvs].
  - rewrite <-app_assoc, skip_ws_encode_string, parse_encode_string by done.
    cbn [mbind option_bind app skip_ws]. change (is_space (byte 58)) with false. cbn match.
    change (Ascii.eqb (byte 58) (byte 58)) with true. cbn [negb].
    rewrite raw_value_app by (done || (simpl; auto)). done.
  - rewrite <-app_assoc, skip_ws_encode_string, parse_encode_string by done.
    cbn [mbind option_bind app skip_ws]. change (is_space (byte 58)) with false. cbn match.
    change (Ascii.eqb (byte 58) (byte 58)) with true. cbn [negb].
    rewrite <-app_assoc, raw_value_app by (done || (simpl; auto)).
    cbn [mbind option_bind app skip_ws]. change (is_space (byte 44)) with false. cbn match.
    change (Ascii.eqb (byte 44) (byte 125)) with false.
    change (Ascii.eqb (byte 44) (byte 44)) with true. cbn match.
    by rewrite IH by (done || (simpl in *; lia)).
Qed.

Lemma encode_members_head kvs k :
  kvs ≠ [] → ∃ r, encode_members kvs ++ k = quote :: r.
Proof.
  destruct kvs as [|[key v] [|kv kvs]]; [done|..]; intros _; cbn [encode_members]; by eexists.
Qed.

Lemma encode_members_length kvs : (length kvs ≤ length (encode_members kvs))%nat.
Proof.
  induction kvs as [|[key v] kvs IH]; [done|]. destruct kvs as [|kv kvs].
  - cbn [encode_members]. rewrite length_app. simpl. lia.
  - set (r := kv :: kvs) in *. change (encode_members ((key, v) :: r))
      with (encode_string key ++ byte 58 :: v ++ byte 44 :: encode_members r).
    rewrite length_app. cbn [length]. rewrite length_app. cbn [length]. lia.
Qed.

Lemma parse_encode_object kvs k :
  members_ok kvs → parse_top (encode_object kvs ++ k) = Some (TObject kvs, k).
Proof.
  intros Hok. unfold encode_object, parse_top. cbn [app skip_ws].
  change (is_space (byte 123)) with false. cbn match.
  change (Ascii.eqb (byte 123) (byte 123)) with true. cbn match. rewrite <-app_assoc. cbn [app].
  destruct (decide (kvs = [])) as [->|Hne]; [done|].
  destruct (encode_members_head kvs (byte 125 :: k) Hne) as [r Hr].
  rewrite Hr, skip_ws_quote. change (Ascii.eqb quote (byte 125)) with false. cbn match.
  rewrite <-Hr, scan_encode_members; [done..|].
  rewrite length_app. pose proof (encode_members_length kvs). lia.
Qed.

(** [Unmarshal] and [Decode] of an encoded object decode its members. *)
Lemma Unmarshal_encode {S} names dis (set : string → list ascii → S → option S) kvs s :
  members_ok kvs →
  Unmarshal names dis set (encode_object kvs) s = decode_fields names dis set kvs s.
Proof.
  intros Hok. unfold Unmarshal. rewrite <-(app_nil_r (encode_object kvs)).
  by rewrite parse_encode_object.
Qed.

(** ** Times *)

(** A byte that a string holds as it is. *)
Definition plain (c : ascii) : Prop := in_range 0 127 c = true ∧ escape_byte c = [c].

Lemma digit_plain c : is_digit c = true → plain c.
Proof. destruct c as [[] [] [] [] [] [] [] []]; done. Qed.

Lemma escape_plain l : Forall plain l → escape (length l) l = l.
Proof.
  induction 1 as [|c l [H1 H2] Hl IH]; [done|]. cbn [length escape]. by rewrite H1, H2, IH.
Qed.

Lemma plain_ascii l : Forall plain l → ascii_text l.
Proof. intros H. eapply Forall_impl; [exact H|]. by intros c []. Qed.

Lemma pad_plain w n : 0 <= n < 10 ^ Z.of_nat w → Forall plain (pad w n).
Proof. intros Hn. eapply Forall_impl; [by apply pad_digits|]. apply digit_plain. Qed.

Lemma append_nano_plain n : 0 <= n < Second → Forall plain (append_nano n).
Proof.
  intros Hn. destruct (append_nano_digits n Hn) as [Hd _]. unfold append_nano.
  destruct (rev _) as [|c ds]; [constructor|]. constructor; [done|].
  eapply Forall_impl; [exact Hd|]. apply digit_plain.
Qed.

Lemma append_rfc3339_plain nanos t : rfc_year t → Forall plain (append_rfc3339 nanos t).
Proof.
  intros Hy. pose proof (append_rfc3339_pad nanos t Hy) as Ht. unfold rfc_year, year_of in Hy.
  pose proof (civil_spec (unix_sec t / 86400)) as Hc.
  pose proof (clock_spec _ (sod_range (unix_sec t))) as Hk.
  destruct (civil _) as [[y m] d]. destruct (clock _) as [[hh mm] ss]. simpl in Hy.
  assert (Hd : d <= 31) by (unfold days_in in Hc; repeat case_match; lia).
  assert (Hn : 0 <= nanosecond t < Second) by (apply Z.mod_pos_bound; done).
  rewrite Ht. rewrite !Forall_app.
  assert (Hsep : ∀ c, plain c → Forall plain [c]) by (intros c Hp; constructor; [exact Hp|constructor]).
  split_and!; try (apply pad_plain; simpl; lia); try (by apply Hsep).
  destruct nanos; [by apply append_nano_plain|constructor].
Qed.

Lemma encode_time_string t :
  rfc_year t → encode_time t = Some (encode_string (append_rfc3339 true t)).
Proof.
  intros Hy. unfold encode_time, encode_string. rewrite bool_decide_eq_true_2 by done.
  by rewrite escape_plain by (by apply append_rfc3339_plain).
Qed.

Lemma is_null_string l : is_null (encode_string l) = false.
Proof. unfold is_null, encode_string. by rewrite bool_decide_eq_false_2. Qed.

Lemma decode_encode_time t old :
  rfc_year t → decode_time (encode_string (append_rfc3339 true t)) old = Some t.
Proof.
  intros Hy. unfold decode_time. rewrite is_null_string. unfold encode_string.
  rewrite escape_plain by (by apply append_rfc3339_plain).
  rewrite rev_app_distr. cbn [rev app]. rewrite !Ascii.eqb_refl. cbn [andb].
  rewrite rev_involutive. by apply (parse_append_rfc3339 true).
Qed.

Lemma decode_encode_string l old :
  ascii_text l → decode_string (encode_string l) old = Some (unbytes l).
Proof.
  intros Hl. unfold decode_string. rewrite is_null_string.
  rewrite <-(app_nil_r (encode_string l)). by rewrite parse_encode_string.
Qed.
