(* ===== verification/Model.v ===== *)
(** * The data model (internal/model/device.go, internal/ws/message.go).

    Go's string types with named constants stay strings here: a value read from
    a request or from the database may be any string. *)
From Stdlib Require Import QArith.
From S2P Require Import Prelude GoString GoTime.
Local Open Scope string_scope.

(** A finite [float32] as the number it is. *)
Definition float32 : Type := Q.

Definition DeviceStatus : Type := string.
Definition StatusOnline : DeviceStatus := "online".
Definition StatusOffline : DeviceStatus := "offline".
Definition StatusUnknown : DeviceStatus := "unknown".

Definition DeviceOS : Type := string.
Definition OSWindows : DeviceOS := "windows".
Definition OSLinux : DeviceOS := "linux".

Record Device := {
  d_ID : string;
  d_Name : string;
  d_OS : DeviceOS;
  d_Arch : string;
  d_Status : DeviceStatus;
  d_RegisteredAt : Time;
  d_LastSeenAt : option Time
}.

Record RegisterRequest := {
  rr_Name : string;
  rr_OS : DeviceOS;
  rr_Arch : string;
  rr_Secret : string
}.

Record RegisterResponse := { rs_DeviceID : string; rs_Token : string }.

Record Heartbeat := {
  hb_ID : Z;
  hb_DeviceID : string;
  hb_ReceivedAt : Time;
  hb_CPUPercent : float32;
  hb_MemoryPercent : float32;
  hb_DiskPercent : float32;
  hb_UptimeSeconds : Z;
  hb_OSVersion : string
}.

Definition DiagnosticScope : Type := string.
Definition ScopeFull : DiagnosticScope := "full".
Definition ScopeNetwork : DiagnosticScope := "network".
Definition ScopeProcesses : DiagnosticScope := "processes".
Definition ScopeStorage : DiagnosticScope := "storage".

Definition DiagnosticRequestStatus : Type := string.
Definition DiagnosticPending : DiagnosticRequestStatus := "pending".
Definition DiagnosticCompleted : DiagnosticRequestStatus := "completed".
Definition DiagnosticTimedOut : DiagnosticRequestStatus := "timed_out".

(** A [*json.RawMessage] is the text of a JSON value, or nil. *)
Record DiagnosticResult := {
  dg_ID : Z;
  dg_DeviceID : string;
  dg_RequestID : string;
  dg_Scope : DiagnosticScope;
  dg_RequestedAt : Time;
  dg_ReceivedAt : option Time;
  dg_Payload : option string;
  dg_Status : DiagnosticRequestStatus
}.

Record DeviceDetail := { dd_Device : Device; dd_RecentHeartbeats : list Heartbeat }.

Record DeviceList := { dl_Devices : list Device; dl_NextCursor : string }.

#[export] Instance Device_eq_dec : EqDecision Device.
Proof. solve_decision. Defined.

(** [devices[i].Status = s] *)
Definition with_status (s : DeviceStatus) (d : Device) : Device :=
  {| d_ID := d_ID d; d_Name := d_Name d; d_OS := d_OS d; d_Arch := d_Arch d;
     d_Status := s; d_RegisteredAt := d_RegisteredAt d; d_LastSeenAt := d_LastSeenAt d |}.

Definition with_diag_status (s : DiagnosticRequestStatus) (r : DiagnosticResult) : DiagnosticResult :=
  {| dg_ID := dg_ID r; dg_DeviceID := dg_DeviceID r; dg_RequestID := dg_RequestID r;
     dg_Scope := dg_Scope r; dg_RequestedAt := dg_RequestedAt r;
     dg_ReceivedAt := dg_ReceivedAt r; dg_Payload := dg_Payload r; dg_Status := s |}.
