(* ===== verification/World.v ===== *)
(** * The world outside the program.

    What the program cannot compute itself is given by oracles indexed by a
    counter of the system state: the clock, the random identifiers, the outcome
    of each database round trip, bcrypt, the order in which the database returns
    rows its [ORDER BY] leaves unordered, and how many numbers of an identity
    column an INSERT it refuses uses up (none in SQLite, one in Postgres).  Every reading advances the
    counter, so two readings are independent; the theorems hold for all oracles,
    or name what they need of them. *)
From S2P Require Import Prelude GoString GoTime GoJson.
From Stdlib Require Import Sorted.
Local Open Scope Z_scope.

(** One round trip to the database: done; lost before it had an effect; or done,
    but with an error reported to the program (a timeout, a dropped connection,
    a cancelled context). *)
Inductive io : Type := IoOk | IoLost | IoUnacked.

#[export] Instance io_eq_dec : EqDecision io.
Proof. solve_decision. Defined.

Class World := {
  now_at : nat → Time;
  uuid_at : nat → string;
  io_at : nat → io;
  bcrypt_at : nat → string → option string;
  order_at : nat → nat → nat;
  gap_at : nat → nat
}.

(** ** [ORDER BY]

    The database sorts by the keys of the clause and leaves rows with equal keys
    in an order it does not specify: the rows are first put in an order the
    oracle [pos] chooses (any permutation is such a choice), then sorted. *)
Fixpoint shuffle {R} (pos : nat → nat) (l : list R) : list R :=
  match l with
  | [] => []
  | x :: l =>
      let r := shuffle (λ i, pos (S i)) l in take (pos 0%nat) r ++ x :: drop (pos 0%nat) r
  end.

Fixpoint insert_sorted {R} (le : R → R → bool) (x : R) (l : list R) : list R :=
  match l with
  | [] => [x]
  | y :: l' => if le x y then x :: l else y :: insert_sorted le x l'
  end.

Definition sort_rows {R} (le : R → R → bool) (l : list R) : list R :=
  foldr (insert_sorted le) [] l.

Definition order_rows `{World} {R} (n : nat) (le : R → R → bool) (l : list R) : list R :=
  sort_rows le (shuffle (order_at n) l).

Lemma shuffle_perm {R} pos (l : list R) : shuffle pos l ≡ₚ l.
Proof.
  revert pos. induction l as [|x l IH]; intros pos; simpl; [done|].
  rewrite <-Permutation_middle, take_drop. by rewrite IH.
Qed.

Lemma shuffle_fmap {R R'} (f : R → R') pos l : shuffle pos (f <$> l) = f <$> shuffle pos l.
Proof.
  revert pos. induction l as [|x l IH]; intros pos; simpl; [done|].
  by rewrite IH, fmap_app, fmap_cons, fmap_take, fmap_drop.
Qed.

Lemma insert_sorted_perm {R} le (x : R) l : insert_sorted le x l ≡ₚ x :: l.
Proof.
  induction l as [|y l IH]; simpl; [done|]. case_match; [done|].
  rewrite IH. apply Permutation_swap.
Qed.

Lemma sort_rows_perm {R} le (l : list R) : sort_rows le l ≡ₚ l.
Proof.
  induction l as [|x l IH]; simpl; [done|]. by rewrite insert_sorted_perm, IH.
Qed.

Lemma insert_sorted_fmap {R R'} (f : R → R') le le' x l :
  (∀ y, y ∈ l → le' (f x) (f y) = le x y) →
  insert_sorted le' (f x) (f <$> l) = f <$> insert_sorted le x l.
Proof.
  induction l as [|y l IH]; csimpl; intros H; [done|].
  rewrite H by set_solver. destruct (le x y); [done|].
  csimpl. by rewrite IH by set_solver.
Qed.

Lemma sort_rows_fmap {R R'} (f : R → R') le le' l :
  (∀ x y, x ∈ l → y ∈ l → le' (f x) (f y) = le x y) →
  sort_rows le' (f <$> l) = f <$> sort_rows le l.
Proof.
  induction l as [|x l IH]; csimpl; intros H; [done|].
  rewrite IH by set_solver. apply insert_sorted_fmap.
  intros y Hy. rewrite sort_rows_perm in Hy. apply H; set_solver.
Qed.

Section order.
Context `{World} {R : Type} (le : R → R → bool).

Lemma order_rows_perm n l : order_rows n le l ≡ₚ l.
Proof. unfold order_rows. by rewrite sort_rows_perm, shuffle_perm. Qed.

Hypothesis le_total : ∀ a b, le a b = true ∨ le b a = true.
Hypothesis le_trans : ∀ a b c, le a b = true → le b c = true → le a c = true.

Lemma insert_sorted_sorted x l :
  StronglySorted (λ a b, le a b = true) l →
  StronglySorted (λ a b, le a b = true) (insert_sorted le x l).
Proof using le_total le_trans.
  induction 1 as [|y l Hs IH Hf]; simpl.
  { repeat constructor. }
  destruct (le x y) eqn:E.
  - constructor; [by constructor|]. constructor; [done|].
    eapply Forall_impl; [exact Hf|]. intros z Hz. by eapply le_trans.
  - constructor; [done|]. destruct (le_total x y) as [|Hyx]; [congruence|].
    rewrite insert_sorted_perm. by constructor.
Qed.

Lemma order_rows_sorted n l : StronglySorted (λ a b, le a b = true) (order_rows n le l).
Proof using le_total le_trans.
  unfold order_rows. induction (shuffle _ l) as [|x l' IH]; simpl; [constructor|].
  by apply insert_sorted_sorted.
Qed.
End order.

(** The order depends on the comparisons alone. *)
Lemma order_rows_fmap `{World} {R R'} (f : R → R') n le le' l :
  (∀ x y, x ∈ l → y ∈ l → le' (f x) (f y) = le x y) →
  order_rows n le' (f <$> l) = f <$> order_rows n le l.
Proof.
  intros Hle. unfold order_rows. rewrite shuffle_fmap. apply sort_rows_fmap.
  intros x y Hx Hy. rewrite shuffle_perm in Hx, Hy. auto.
Qed.

(** A component's data with the counter of the oracles. *)
Record Sys (D : Type) := MkSys { tick : nat; dat : D }.
Arguments MkSys {D} tick dat.
Arguments tick {D} s.
Arguments dat {D} s.

Abbreviation Op D E := (ST (Sys D) E).

Definition bump {D} (s : Sys D) : Sys D := MkSys (S (tick s)) (dat s).

Section ops.
Context `{W : World} {D E : Type}.

(** [time.Now().UTC()] *)
Definition time_Now : Op D E Time := λ s, (bump s, Ok (now_at (tick s))).

(** [uuid.New().String()] *)
Definition uuid_New : Op D E string := λ s, (bump s, Ok (uuid_at (tick s))).

Definition read_dat : Op D E D := λ s, (s, Ok (dat s)).
Definition modify_dat (f : D → D) : Op D E unit := λ s, (MkSys (tick s) (f (dat s)), Ok tt).
End ops.

(** Run an operation of a component on the system that contains it. *)
Definition on_part {D T E A} (get : D → T) (put : T → D → D) (m : Op T E A) : Op D E A :=
  λ s, let '(s', r) := m (MkSys (tick s) (get (dat s))) in
       (MkSys (tick s') (put (dat s') (dat s)), r).

(** No round trip fails. *)
Definition reliable (W : World) : Prop := ∀ n, @io_at W n = IoOk.

(** Identifiers are fresh. *)
Definition fresh_uuids (W : World) : Prop := Inj (=) (=) (@uuid_at W).

(** ** Total orders of keys *)

Class CmpOrder {A : Type} (cmp : A → A → comparison) : Prop := {
  cmp_opp a b : cmp b a = CompOpp (cmp a b);
  cmp_eq a b : cmp a b = Eq → a = b;
  cmp_trans a b c : cmp a b = Lt → cmp b c = Lt → cmp a c = Lt
}.

Section cmp_facts.
Context {A : Type} (cmp : A → A → comparison) `{!CmpOrder cmp}.

Lemma cmp_refl a : cmp a a = Eq.
Proof. pose proof (cmp_opp a a) as H. by destruct (cmp a a). Qed.

Lemma cmp_gt_lt a b : cmp a b = Gt → cmp b a = Lt.
Proof. intros H. rewrite (cmp_opp a b), H. done. Qed.

Lemma cmp_lt_gt a b : cmp a b = Lt → cmp b a = Gt.
Proof. intros H. rewrite (cmp_opp a b), H. done. Qed.

(** [a] is not below [b]. *)
Definition cmp_ge (a b : A) : bool := match cmp a b with Lt => false | _ => true end.

Lemma cmp_ge_total a b : cmp_ge a b = true ∨ cmp_ge b a = true.
Proof. unfold cmp_ge. rewrite (cmp_opp a b). destruct (cmp a b); auto. Qed.

Lemma cmp_ge_trans a b c : cmp_ge a b = true → cmp_ge b c = true → cmp_ge a c = true.
Proof.
  unfold cmp_ge. intros H1 H2. destruct (cmp a c) eqn:E; try done.
  destruct (cmp a b) eqn:E1; try done.
  - apply cmp_eq in E1 as ->. by rewrite E in H2.
  - destruct (cmp b c) eqn:E2; try done.
    + apply cmp_eq in E2 as ->. by rewrite E in E1.
    + apply cmp_gt_lt in E1. rewrite (cmp_trans b a c E1 E) in E2. done.
Qed.

Lemma cmp_ge_antisym a b : cmp_ge a b = true → cmp_ge b a = true → a = b.
Proof.
  unfold cmp_ge. rewrite (cmp_opp a b). destruct (cmp a b) eqn:E; simpl; try done.
  intros _ _. by apply cmp_eq.
Qed.
End cmp_facts.

#[export] Instance Z_cmp_order : CmpOrder Z.compare.
Proof.
  split.
  - intros a b. apply Z.compare_antisym.
  - apply Z.compare_eq.
  - intros a b c. rewrite !Z.compare_lt_iff. lia.
Qed.

(** Lexicographic order of pairs. *)
Definition pair_cmp {A B} (cA : A → A → comparison) (cB : B → B → comparison) (x y : A * B)
    : comparison :=
  match cA x.1 y.1 with Eq => cB x.2 y.2 | c => c end.

#[export] Instance pair_cmp_order {A B} (cA : A → A → comparison) (cB : B → B → comparison)
    `{!CmpOrder cA, !CmpOrder cB} : CmpOrder (pair_cmp cA cB).
Proof.
  unfold pair_cmp. split; intros [a1 b1] [a2 b2]; simpl.
  - rewrite (cmp_opp a1 a2). destruct (cA a1 a2); simpl; [apply cmp_opp|done..].
  - destruct (cA a1 a2) eqn:E; try done. intros Hb.
    apply cmp_eq in E as ->. by apply cmp_eq in Hb as ->.
  - intros [a3 b3]; simpl. destruct (cA a1 a2) eqn:E1; try done;
      destruct (cA a2 a3) eqn:E2; try done.
    + apply cmp_eq in E1 as ->. rewrite E2. apply cmp_trans.
    + intros _ _. apply cmp_eq in E1 as ->. by rewrite E2.
    + intros _ _. apply cmp_eq in E2 as <-. by rewrite E1.
    + intros _ _. by rewrite (cmp_trans a1 a2 a3).
Qed.

(** The order of the bytes of strings. *)
#[export] Instance string_cmp_order : CmpOrder String.compare.
Proof.
  split.
  - intros a b. apply String.compare_antisym.
  - apply String.compare_eq_iff.
  - intros a b c. rewrite !compare_cmp_bytes. apply cmp_bytes_trans.
Qed.

(** ** A concrete world

    A clock that advances by one second at each reading for an hour from an
    instant of July 2024, distinct identifiers, a database that never fails. *)
Definition test_world : World := {|
  now_at n := (1721570645 + Z.of_nat (Nat.min n 3600)) * Second;
  uuid_at n := String "u" (unbytes (replicate n "0"%char));
  io_at _ := IoOk;
  bcrypt_at _ p := Some p;
  order_at _ _ := 0%nat;
  gap_at _ := 1%nat
|}.

Lemma test_world_reliable : reliable test_world.
Proof. done. Qed.

(** The clock shows a time from 1970 to the last second but one of 9999: what
    RFC 3339 can write, also rounded up. *)
Definition max_time : Time := 253402300799 * Second.

Definition rfc_clock (W : World) : Prop := ∀ n, 0 <= @now_at W n < max_time.

Lemma rfc_year_range t : - Second <= t < max_time + Second → rfc_year t.
Proof.
  intros Ht. unfold rfc_year, year_of, unix_sec, max_time, Second in *.
  set (n := t / 1000000000 / 86400). assert (Hn : -1 <= n <= 2932896) by (unfold n; div_lia).
  assert (Hlo : date_key (-1) <= date_key n).
  { destruct (decide (n = -1)) as [->|]; [done|]. apply Z.lt_le_incl, date_key_mono. lia. }
  assert (Hhi : date_key n <= date_key 2932896).
  { destruct (decide (n = 2932896)) as [->|]; [done|]. apply Z.lt_le_incl, date_key_mono. lia. }
  replace (date_key (-1)) with 19691231 in Hlo by (by vm_compute).
  replace (date_key 2932896) with 99991231 in Hhi by (by vm_compute).
  unfold date_key in *. pose proof (civil_spec n) as Hc.
  destruct (civil n) as [[y m] d]. simpl.
  assert (d <= 31) by (unfold days_in in Hc; repeat case_match; lia). lia.
Qed.

Lemma test_world_clock : rfc_clock test_world.
Proof.
  intros n. cbn [now_at test_world]. pose proof (Nat.le_min_r n 3600) as H.
  unfold max_time, Second. lia.
Qed.

(** Identifiers are nonempty ASCII text. *)
Definition ascii_uuids (W : World) : Prop :=
  ∀ n, @uuid_at W n ≠ "" ∧ ascii_text (bytes (@uuid_at W n)).

Lemma test_world_uuids : ascii_uuids test_world.
Proof.
  intros n. split; [done|]. unfold uuid_at, test_world, bytes, unbytes. simpl.
  constructor; [done|]. rewrite list_ascii_of_string_of_list_ascii.
  by apply Forall_replicate.
Qed.

Lemma test_world_fresh : fresh_uuids test_world.
Proof.
  intros n m [= H]. apply (f_equal bytes) in H. rewrite !bytes_unbytes in H.
  apply (f_equal length) in H. by rewrite !length_replicate in H.
Qed.
