(* ===== verification/Keyset.v ===== *)
(** * Keyset pagination.

    Rows listed by descending key, a page at a time: a page holds the rows
    below the key of the last row of the page before.  These facts about lists
    are shared by the two backends, whose [ListDevices] runs this scheme in SQL. *)
From S2P Require Import Prelude World.
From Stdlib Require Import Sorted.

Section keyset.
Context {R K : Type} (key : R → K) (cmp : K → K → comparison) `{!CmpOrder cmp}.
Implicit Types (l : list R) (x y : R).

(** [ORDER BY key DESC] *)
Definition desc x y : bool := cmp_ge cmp (key x) (key y).

(** [WHERE key < k], or no condition. *)
Definition below (k : option K) x : bool :=
  match k with
  | None => true
  | Some k => match cmp (key x) k with Lt => true | _ => false end
  end.

Definition desc_sorted l : Prop := StronglySorted (λ x y, desc x y = true) l.

(** Rows are told apart by their keys. *)
Definition keys_inj l : Prop := ∀ x y, x ∈ l → y ∈ l → key x = key y → x = y.

Lemma NoDup_keys_inj l : NoDup (key <$> l) → keys_inj l.
Proof using.
  intros Hnd x y Hx Hy Hk.
  apply list_elem_of_lookup in Hx as [i Hi]. apply list_elem_of_lookup in Hy as [j Hj].
  assert (i = j) as ->; [|congruence].
  eapply (NoDup_lookup (key <$> l)); [done|..]; rewrite list_lookup_fmap; [by rewrite Hi|].
  rewrite Hj. simpl. by rewrite Hk.
Qed.

(** The order of the rows is determined. *)
Lemma desc_sorted_unique l l' :
  keys_inj l → desc_sorted l → desc_sorted l' → l ≡ₚ l' → l = l'.
Proof using CmpOrder0.
  intros Hinj Hs. revert l'. induction Hs as [|x l Hs IH Hx]; intros l' Hs' Hp.
  { by apply Permutation_nil_l in Hp. }
  destruct Hs' as [|y l' Hs' Hy]; [by apply Permutation_nil_r in Hp|].
  assert (x = y) as ->.
  { assert (Hyin : y ∈ x :: l) by (rewrite Hp; set_solver).
    assert (Hxin : x ∈ y :: l') by (rewrite <-Hp; set_solver).
    destruct (proj1 (elem_of_cons _ _ _) Hyin) as [Heq|Hyin']; [by rewrite Heq|].
    destruct (proj1 (elem_of_cons _ _ _) Hxin) as [Heq|Hxin']; [by rewrite Heq|].
    rewrite Forall_forall in Hx, Hy. specialize (Hx y Hyin'). specialize (Hy x Hxin').
    apply Hinj; [set_solver..|]. by apply (cmp_ge_antisym cmp). }
  f_equal. apply IH; [|done|by apply Permutation_cons_inv in Hp].
  intros a b Ha Hb. apply Hinj; set_solver.
Qed.

Lemma below_not_ge x y : below (Some (key x)) y = negb (desc y x).
Proof using. unfold below, desc, cmp_ge. by destruct (cmp (key y) (key x)). Qed.

(** The rows below the key of a row are those after it. *)
Lemma filter_below_split l1 x l2 :
  desc_sorted (l1 ++ x :: l2) → NoDup (key <$> (l1 ++ x :: l2)) →
  filter (λ y, below (Some (key x)) y = true) (l1 ++ x :: l2) = l2.
Proof using CmpOrder0.
  intros Hs Hnd. rewrite filter_app, filter_cons.
  apply StronglySorted_app in Hs as (Hc & _ & Hs). inversion Hs as [|? ? Hs2 Hx]; subst.
  rewrite decide_False; [|rewrite below_not_ge; unfold desc, cmp_ge; by rewrite cmp_refl].
  rewrite (filter_none _ l1), (filter_all _ l2); [done|..].
  - intros y Hy. rewrite below_not_ge, negb_true_iff.
    rewrite Forall_forall in Hx. specialize (Hx y Hy).
    destruct (desc y x) eqn:E; [|done]. exfalso.
    pose proof (cmp_ge_antisym cmp _ _ E Hx) as Hk.
    rewrite fmap_app, fmap_cons in Hnd. apply NoDup_app in Hnd as (_ & _ & Hnd).
    apply NoDup_cons in Hnd as [Hn _]. apply Hn. rewrite <-Hk. by apply list_elem_of_fmap_2.
  - intros y Hy. rewrite below_not_ge, not_true_iff_false, negb_false_iff.
    apply Hc; [done|set_solver].
Qed.

Lemma desc_sorted_filter (P : R → Prop) `{∀ x, Decision (P x)} l :
  desc_sorted l → desc_sorted (filter P l).
Proof using.
  induction 1 as [|x l Hs IH Hx]; [constructor|]. rewrite filter_cons. case_decide; [|done].
  constructor; [done|]. by apply Forall_filter_2.
Qed.

(** Whatever order the database uses, a query below a key is the matching
    part of the sorted table. *)
Lemma sorted_query l s q (P : R → Prop) `{∀ x, Decision (P x)} :
  NoDup (key <$> l) → desc_sorted s → s ≡ₚ l →
  desc_sorted q → q ≡ₚ filter P l → q = filter P s.
Proof using CmpOrder0.
  intros Hnd Hs Hsl Hq Hql. apply desc_sorted_unique; [|done|by apply desc_sorted_filter|].
  - intros x y Hx Hy. rewrite Hql, list_elem_of_filter in Hx, Hy.
    apply NoDup_keys_inj in Hnd. apply Hnd; [apply Hx|apply Hy].
  - rewrite Hql. by rewrite Hsl.
Qed.
End keyset.
