(* ===== verification/Sql.v ===== *)
(** * The tables and the SQL statements.

    The schema of internal/store/schema.sql and schema_postgres.sql, and the
    effect of the statements the two backends send, over a type [C] of time
    columns: RFC 3339 text for SQLite, timestamps for Postgres.  A table is the
    list of its rows in order of insertion. *)
From Stdlib Require Import QArith Sorted.
From S2P Require Import Prelude GoString GoTime Model World Keyset.
Local Open Scope Z_scope.

(** ** Rows *)

Record device_row (C : Type) := DeviceRow {
  dr_id : string;              (* PRIMARY KEY *)
  dr_name : string;
  dr_os : string;
  dr_arch : string;
  dr_secret_hash : string;
  dr_status : string;          (* DEFAULT 'unknown' *)
  dr_registered_at : C;
  dr_last_seen_at : option C
}.

Record heartbeat_row (C : Type) := HeartbeatRow {
  hr_id : Z;                   (* PRIMARY KEY, generated *)
  hr_device_id : string;       (* REFERENCES devices(id) *)
  hr_received_at : C;
  hr_cpu_percent : float32;
  hr_memory_percent : float32;
  hr_disk_percent : float32;
  hr_uptime_seconds : Z;
  hr_os_version : string
}.

Record diag_row (C : Type) := DiagRow {
  gr_id : Z;                   (* PRIMARY KEY, generated *)
  gr_device_id : string;       (* REFERENCES devices(id) *)
  gr_request_id : string;      (* UNIQUE *)
  gr_scope : string;
  gr_requested_at : C;
  gr_received_at : option C;
  gr_payload : option string
}.

Arguments DeviceRow {C}. Arguments HeartbeatRow {C}. Arguments DiagRow {C}.
Arguments dr_id {C}. Arguments dr_name {C}. Arguments dr_os {C}. Arguments dr_arch {C}.
Arguments dr_secret_hash {C}. Arguments dr_status {C}. Arguments dr_registered_at {C}.
Arguments dr_last_seen_at {C}.
Arguments hr_id {C}. Arguments hr_device_id {C}. Arguments hr_received_at {C}.
Arguments hr_cpu_percent {C}. Arguments hr_memory_percent {C}. Arguments hr_disk_percent {C}.
Arguments hr_uptime_seconds {C}. Arguments hr_os_version {C}.
Arguments gr_id {C}. Arguments gr_device_id {C}. Arguments gr_request_id {C}.
Arguments gr_scope {C}. Arguments gr_requested_at {C}. Arguments gr_received_at {C}.
Arguments gr_payload {C}.

(** The tables, with the next generated key of the two that generate one. *)
Record Tables (C : Type) := MkTables {
  devices : list (device_row C);
  heartbeats : list (heartbeat_row C);
  diagnostic_results : list (diag_row C);
  heartbeats_seq : Z;
  diagnostics_seq : Z
}.
Arguments MkTables {C}. Arguments devices {C}. Arguments heartbeats {C}.
Arguments diagnostic_results {C}. Arguments heartbeats_seq {C}. Arguments diagnostics_seq {C}.

Definition empty_tables {C} : Tables C := MkTables [] [] [] 1 1.

(** ** Errors *)

(** [store.ErrNotFound], [store.ErrInvalidCursor], and every other error, with
    the message its caller wraps it in.  [Panicked] is a run-time panic. *)
Inductive store_err : Type :=
  | ErrNotFound
  | ErrInvalidCursor
  | ErrOther (what : string)
  | Panicked.

#[export] Instance store_err_eq_dec : EqDecision store_err.
Proof. solve_decision. Defined.

(** ** Statements *)

Section statements.
Context {C : Type} (cmpC : C → C → comparison) (collate : string → string → comparison).
Implicit Types T : Tables C.

Definition with_devices (f : list (device_row C) → list (device_row C)) T : Tables C :=
  MkTables (f (devices T)) (heartbeats T) (diagnostic_results T)
    (heartbeats_seq T) (diagnostics_seq T).

Definition with_diagnostics (f : list (diag_row C) → list (diag_row C)) T : Tables C :=
  MkTables (devices T) (heartbeats T) (f (diagnostic_results T))
    (heartbeats_seq T) (diagnostics_seq T).

(** The outcome of a statement: the rows affected, or a violated constraint. *)
Definition outcome : Type := option (Tables C * Z).

Definition has_device (id : string) T : bool :=
  existsb (λ r, bool_decide (dr_id r = id)) (devices T).

Definition has_request (id : string) T : bool :=
  existsb (λ r, bool_decide (gr_request_id r = id)) (diagnostic_results T).

(** [INSERT INTO devices (id, name, os, arch, secret_hash, registered_at)] *)
Definition insert_device (id name os arch hash : string) (at_ : C) T : outcome :=
  if has_device id T then None
  else Some (with_devices (λ l, l ++ [DeviceRow id name os arch hash "unknown" at_ None]) T, 1).

(** [UPDATE devices SET ... WHERE id = ?] *)
Definition update_device (id : string) (f : device_row C → device_row C) T : outcome :=
  Some (with_devices (fmap (λ r, if bool_decide (dr_id r = id) then f r else r)) T,
        Z.of_nat (length (filter (λ r, dr_id r = id) (devices T)))).

Definition set_status (s : string) (r : device_row C) : device_row C :=
  DeviceRow (dr_id r) (dr_name r) (dr_os r) (dr_arch r) (dr_secret_hash r) s
    (dr_registered_at r) (dr_last_seen_at r).

Definition set_last_seen (at_ : C) (r : device_row C) : device_row C :=
  DeviceRow (dr_id r) (dr_name r) (dr_os r) (dr_arch r) (dr_secret_hash r) "online"
    (dr_registered_at r) (Some at_).

(** Numbers of an identity column that no row gets. *)
Definition skip_heartbeats (k : nat) T : Tables C :=
  MkTables (devices T) (heartbeats T) (diagnostic_results T) (heartbeats_seq T + Z.of_nat k) (diagnostics_seq T).
Definition skip_diagnostics (k : nat) T : Tables C :=
  MkTables (devices T) (heartbeats T) (diagnostic_results T) (heartbeats_seq T) (diagnostics_seq T + Z.of_nat k).

(** [INSERT INTO heartbeats]: the device must exist. *)
Definition insert_heartbeat (dev : string) (at_ : C) (cpu mem disk : float32) (up : Z)
    (osv : string) T : outcome :=
  if has_device dev T then
    Some (MkTables (devices T)
            (heartbeats T ++ [HeartbeatRow (heartbeats_seq T) dev at_ cpu mem disk up osv])
            (diagnostic_results T) (heartbeats_seq T + 1) (diagnostics_seq T), 1)
  else None.

(** [INSERT INTO diagnostic_results]: the device must exist and the request
    identifier be new. *)
Definition insert_diagnostic (dev req scope : string) (at_ : C) T : outcome :=
  if has_device dev T && negb (has_request req T) then
    Some (MkTables (devices T) (heartbeats T)
            (diagnostic_results T ++ [DiagRow (diagnostics_seq T) dev req scope at_ None None])
            (heartbeats_seq T) (diagnostics_seq T + 1), 1)
  else None.

(** [UPDATE diagnostic_results SET received_at, payload WHERE request_id = ?] *)
Definition answer (at_ : C) (payload : string) (r : diag_row C) : diag_row C :=
  DiagRow (gr_id r) (gr_device_id r) (gr_request_id r) (gr_scope r) (gr_requested_at r)
    (Some at_) (Some payload).

Definition update_diagnostic (req : string) (f : diag_row C → diag_row C) T : outcome :=
  Some (with_diagnostics (fmap (λ r, if bool_decide (gr_request_id r = req) then f r else r)) T,
        Z.of_nat (length (filter (λ r, gr_request_id r = req) (diagnostic_results T)))).

(** [DELETE FROM diagnostic_results WHERE request_id = ?] *)
Definition delete_diagnostic (req : string) T : outcome :=
  Some (with_diagnostics (filter (λ r, gr_request_id r ≠ req)) T,
        Z.of_nat (length (filter (λ r, gr_request_id r = req) (diagnostic_results T)))).

(** ** Queries *)

(** [LIMIT n]: SQLite takes a negative [n] as no limit.  (Postgres refuses it,
    which its file adds.) *)
Definition sql_limit {R} (n : Z) (l : list R) : list R :=
  if n <? 0 then l else take (Z.to_nat n) l.

Definition device_key (r : device_row C) : C * string := (dr_registered_at r, dr_id r).

Definition key_cmp : C * string → C * string → comparison := pair_cmp cmpC collate.

(** [SELECT ... FROM devices WHERE registered_at < k.1 OR (registered_at = k.1
    AND id < k.2) ORDER BY registered_at DESC, id DESC LIMIT n] *)
Definition before_cursor (k : option (C * string)) (r : device_row C) : bool :=
  match k with
  | None => true
  | Some (at_, id) =>
      match cmpC (dr_registered_at r) at_ with Lt => true | _ => false end ||
      (match cmpC (dr_registered_at r) at_ with Eq => true | _ => false end &&
       match collate (dr_id r) id with Lt => true | _ => false end)
  end.

Definition select_devices `{World} (n : nat) (k : option (C * string)) (limit : Z) T
    : list (device_row C) :=
  sql_limit limit
    (order_rows n (desc device_key key_cmp) (filter (λ r, before_cursor k r = true) (devices T))).

(** [SELECT ... WHERE id = ?] of one row. *)
Definition find_device (id : string) T : option (device_row C) :=
  List.find (λ r, bool_decide (dr_id r = id)) (devices T).

(** [SELECT ... FROM heartbeats WHERE device_id = ? ORDER BY received_at DESC LIMIT n] *)
Definition select_heartbeats `{World} (n : nat) (dev : string) (limit : Z) T
    : list (heartbeat_row C) :=
  sql_limit limit
    (order_rows n (desc hr_received_at cmpC) (filter (λ r, hr_device_id r = dev) (heartbeats T))).

Definition select_diagnostics `{World} (n : nat) (dev : string) (limit : Z) T
    : list (diag_row C) :=
  sql_limit limit
    (order_rows n (desc gr_requested_at cmpC)
       (filter (λ r, gr_device_id r = dev) (diagnostic_results T))).

Definition find_diagnostic (req : string) T : option (diag_row C) :=
  List.find (λ r, bool_decide (gr_request_id r = req)) (diagnostic_results T).

(** ** Round trips *)

(** [ExecContext]: the rows affected.  A violated constraint and a failed
    round trip are errors; an unacknowledged statement has taken effect.  A refused
    statement leaves the rows as they are; [skip] is what it does to the sequences. *)
Definition db_exec_insert `{World} (skip : nat → Tables C → Tables C) (f : Tables C → outcome)
    : Op (Tables C) store_err Z := λ s,
  match io_at (tick s), f (dat s) with
  | IoLost, _ => (bump s, Err (ErrOther "exec"))
  | _, None => (MkSys (S (tick s)) (skip (gap_at (tick s)) (dat s)), Err (ErrOther "exec"))
  | IoOk, Some (T, n) => (MkSys (S (tick s)) T, Ok n)
  | IoUnacked, Some (T, _) => (MkSys (S (tick s)) T, Err (ErrOther "exec"))
  end.

Definition db_exec `{World} : (Tables C → outcome) → Op (Tables C) store_err Z :=
  db_exec_insert (λ _ T, T).

(** [QueryContext] and [QueryRowContext]: the rows. *)
Definition db_query `{World} {R} (q : nat → Tables C → R) : Op (Tables C) store_err R := λ s,
  match io_at (tick s) with
  | IoOk => (bump s, Ok (q (tick s) (dat s)))
  | _ => (bump s, Err (ErrOther "query"))
  end.

(** [PingContext] *)
Definition db_ping `{World} : Op (Tables C) store_err unit := db_query (λ _ _, ()).
End statements.

(** [collect]: scan every row, stopping at the first error. *)
Fixpoint collect {R A} (scan : R → res store_err A) (rows : list R) : res store_err (list A) :=
  match rows with
  | [] => Ok []
  | r :: rows =>
      match scan r with
      | Err e => Err e
      | Ok v => match collect scan rows with Ok vs => Ok (v :: vs) | Err e => Err e end
      end
  end.

(** The Go error a failed [m] returns, wrapped with [fmt.Errorf("what: %w", err)]:
    the sentinels keep their identity under [errors.Is]. *)
Definition wrap {D A} (what : string) (m : Op D store_err A) : Op D store_err A := λ s,
  match m s with
  | (s', Err (ErrOther _)) => (s', Err (ErrOther what))
  | p => p
  end.
