(* ===== verification/Cursor.v ===== *)
(** * Page cursors (internal/store/cursor.go).

    A cursor is the base64 text of a JSON object with the key of the last
    device of a page.  Nothing authenticates it: [decodeDeviceCursor] takes what
    a client sends, and every malformed text is [ErrInvalidCursor]. *)
From S2P Require Import Prelude GoString GoTime GoBase64 GoJson Sql.
Local Open Scope Z_scope.

Record deviceCursor := { dc_RegisteredAt : Time; dc_ID : string }.

Definition cursor_fields : list string := ["r"; "i"].

(** The fields of [deviceCursor] with their JSON names. *)
Definition set_cursor_field (name : string) (raw : list ascii) (c : deviceCursor)
    : option deviceCursor :=
  if bool_decide (name = "r") then
    t ← decode_time raw (dc_RegisteredAt c);
    Some {| dc_RegisteredAt := t; dc_ID := dc_ID c |}
  else
    i ← decode_string raw (dc_ID c);
    Some {| dc_RegisteredAt := dc_RegisteredAt c; dc_ID := i |}.

(** [json.Marshal(c)] *)
Definition cursor_json (c : deviceCursor) : option (list ascii) :=
  t ← encode_time (dc_RegisteredAt c);
  Some (encode_object [(bytes "r", t); (bytes "i", encode_string (bytes (dc_ID c)))]).

(** The error of [json.Marshal] is dropped: no bytes are encoded. *)
Definition encodeDeviceCursor (registeredAt : Time) (id : string) : string :=
  EncodeToString
    (default [] (cursor_json {| dc_RegisteredAt := registeredAt; dc_ID := id |})).

Definition decodeDeviceCursor (cursor : string) : res store_err (Time * string) :=
  match DecodeString cursor with
  | None => Err ErrInvalidCursor
  | Some raw =>
      match Unmarshal cursor_fields false set_cursor_field raw
              {| dc_RegisteredAt := zero_time; dc_ID := "" |} with
      | None => Err ErrInvalidCursor
      | Some c =>
          if bool_decide (dc_ID c = "") || IsZero (dc_RegisteredAt c) then Err ErrInvalidCursor
          else Ok (dc_RegisteredAt c, dc_ID c)
      end
  end.

(** What a cursor can hold: a time JSON can write and an ASCII identifier. *)
Definition cursor_ok (t : Time) (id : string) : Prop :=
  rfc_year t ∧ t ≠ zero_time ∧ ascii_text (bytes id) ∧ id ≠ "".

#[export] Instance cursor_ok_dec t id : Decision (cursor_ok t id).
Proof. unfold cursor_ok. apply _. Defined.

Lemma encode_cursor t id :
  rfc_year t →
  encodeDeviceCursor t id =
    EncodeToString (encode_object [(bytes "r", encode_string (append_rfc3339 true t));
                                   (bytes "i", encode_string (bytes id))]).
Proof.
  intros Hy. unfold encodeDeviceCursor, cursor_json. simpl. by rewrite encode_time_string.
Qed.

Lemma decode_encode_cursor t id :
  cursor_ok t id → decodeDeviceCursor (encodeDeviceCursor t id) = Ok (t, id).
Proof.
  intros (Hy & Hz & Ha & Hne). rewrite encode_cursor by done.
  unfold decodeDeviceCursor, DecodeString, EncodeToString.
  rewrite bytes_unbytes, b64_roundtrip.
  assert (Hp : ascii_text (append_rfc3339 true t)).
  { apply plain_ascii. by apply append_rfc3339_plain. }
  rewrite Unmarshal_encode.
  2: { repeat constructor; simpl; try apply encode_string_value; try done. }
  unfold decode_fields.
  replace (match_field cursor_fields (bytes "r")) with (Some "r") by (by vm_compute).
  replace (match_field cursor_fields (bytes "i")) with (Some "i") by (by vm_compute).
  unfold set_cursor_field. simpl.
  rewrite decode_encode_time by done. simpl.
  rewrite decode_encode_string by done. simpl.
  rewrite unbytes_bytes, bool_decide_eq_false_2 by done. simpl.
  unfold IsZero. by rewrite (proj2 (Z.eqb_neq _ _) Hz).
Qed.

Lemma encode_cursor_nonempty t id : rfc_year t → encodeDeviceCursor t id ≠ "".
Proof.
  intros Hy. rewrite encode_cursor by done. unfold EncodeToString, encode_object.
  intros H. apply (f_equal bytes) in H. rewrite bytes_unbytes in H. simpl in H.
  discriminate H.
Qed.

(** A cursor names the position it was made from.  Encoding the key of a
    device (a time in the years 0 to 9999 other than Go's zero time, with a
    nonempty ASCII identifier) gives a nonempty text, which [decodeDeviceCursor]
    reads back as the same time, to the nanosecond, and the same identifier. *)
Theorem cursor_roundtrip t id :
  cursor_ok t id →
  encodeDeviceCursor t id ≠ "" ∧ decodeDeviceCursor (encodeDeviceCursor t id) = Ok (t, id).
Proof.
  intros H. split; [apply encode_cursor_nonempty, H|by apply decode_encode_cursor].
Qed.

Lemma cursor_roundtrip_witness :
  let t := 1721570645123000000 in
  cursor_ok t "dev-1" ∧
  encodeDeviceCursor t "dev-1" ≠ "" ∧
  decodeDeviceCursor (encodeDeviceCursor t "dev-1") = Ok (t, "dev-1").
Proof.
  assert (H : cursor_ok 1721570645123000000 "dev-1")
    by (by apply (bool_decide_eq_true_1 _); vm_compute).
  split; [exact H|]. exact (cursor_roundtrip _ _ H).
Defined.

(** Malformed and incomplete cursors are refused. *)
Example cursor_not_base64 : decodeDeviceCursor "not base64!" = Err ErrInvalidCursor.
Proof. by vm_compute. Qed.

Example cursor_missing_id :
  decodeDeviceCursor (EncodeToString (bytes "{}")) = Err ErrInvalidCursor.
Proof. by vm_compute. Qed.
