(* ===== verification/Store.v ===== *)
(** * The store interface and its specification (internal/store/store.go).

    [Store D] is the Go interface, over a database in state [D].  Its contract
    is [Spec]: the tables with instants as times, at the resolution of the
    backend's time columns.  [sim] is the simulation each backend proves against
    it, so that what holds of [Spec] holds of the backends. *)
From Stdlib Require Import QArith.
From S2P Require Import Prelude GoString GoTime Model World Keyset Sql Cursor.
Local Open Scope Z_scope.

Class Store (D : Type) := {
  Ping : Op D store_err unit;
  CreateDevice : RegisterRequest → Op D store_err Device;
  GetDevice : string → Op D store_err Device;
  ListDevices : Z → string → Op D store_err (list Device * string);
  SetDeviceStatus : string → DeviceStatus → Op D store_err unit;
  UpdateLastSeen : string → Op D store_err unit;
  InsertHeartbeat : Heartbeat → Op D store_err unit;
  ListHeartbeats : string → Z → Op D store_err (list Heartbeat);
  CreateDiagnosticRequest : string → string → DiagnosticScope → Op D store_err DiagnosticResult;
  DeleteDiagnosticRequest : string → Op D store_err unit;
  SaveDiagnosticResult : string → string → Op D store_err unit;
  ListDiagnosticResults : string → Z → Op D store_err (list DiagnosticResult);
  GetDiagnosticResult : string → Op D store_err DiagnosticResult
}.

(** ** Steps the two backends share *)

Section steps.
Context `{W : World} {C : Type}.

(** [bcrypt.GenerateFromPassword([]byte(secret), 12)] *)
Definition hash_secret (secret : string) : Op (Tables C) store_err string := λ s,
  (bump s, match bcrypt_at (tick s) secret with
           | Some h => Ok h
           | None => Err (ErrOther "hash secret")
           end).

(** [if n, _ := res.RowsAffected(); n == 0 { return ErrNotFound }] *)
Definition require_affected (n : Z) : Op (Tables C) store_err unit :=
  if n =? 0 then st_fail ErrNotFound else mret ().

(** [errors.Is(err, sql.ErrNoRows)] of a one-row query, then the scan. *)
Definition one_row {R A} (scan : R → res store_err A) (r : option R)
    : Op (Tables C) store_err A :=
  match r with
  | None => st_fail ErrNotFound
  | Some r => st_lift (scan r)
  end.

(** The end of [ListDevices]: the extra row is cut off, and its page ends with
    a cursor.  [devices[:limit]] panics for a negative [limit], and
    [devices[len(devices)-1]] for [limit] 0. *)
Definition cut_page (limit : Z) (devices : list Device)
    : Op (Tables C) store_err (list Device * string) :=
  if Z.of_nat (length devices) <=? limit then mret (devices, "")
  else if limit <? 0 then st_fail Panicked
  else
    let devices := take (Z.to_nat limit) devices in
    match last devices with
    | None => st_fail Panicked
    | Some d => mret (devices, encodeDeviceCursor (d_RegisteredAt d) (d_ID d))
    end.
End steps.

(** The position a page starts at: [if cursor != "" { decodeDeviceCursor }]. *)
Definition page_start (cursor : string) : res store_err (option (Time * string)) :=
  if bool_decide (cursor = "") then Ok None
  else '(t, id) ← decodeDeviceCursor cursor; Ok (Some (t, id)).

(** [payload.Valid && payload.String != ""] *)
Definition scan_payload (p : option string) : option string :=
  match p with Some "" => None | p => p end.

(** The text parameters of the query of a page. *)
Definition cursor_args {C} (k : option (C * string)) : list string :=
  match k with Some (_, i) => [i] | None => [] end.

(** [&model.DiagnosticResult{DeviceID: ..., RequestedAt: now}] *)
Definition new_request (deviceID requestID : string) (scope : DiagnosticScope) (now : Time)
    : DiagnosticResult :=
  {| dg_ID := 0; dg_DeviceID := deviceID; dg_RequestID := requestID; dg_Scope := scope;
     dg_RequestedAt := now; dg_ReceivedAt := None; dg_Payload := None; dg_Status := "" |}.

(** ** The specification *)

Section spec.
(** The instant a time column holds for an instant; the order of identifiers;
    the texts the database takes as parameters. *)
Context `{W : World} (round : Time → Time) (collate : string → string → comparison)
  (accepts : string → bool).

Abbreviation O := (Op (Tables Time) store_err).

Definition exec_insert (args : list string) (skip : nat → Tables Time → Tables Time)
    (f : Tables Time → outcome) : O Z :=
  if forallb accepts args then db_exec_insert skip f else λ s, (bump s, Err (ErrOther "exec")).

Definition exec (args : list string) : (Tables Time → outcome) → O Z := exec_insert args (λ _ T, T).

Definition query {R} (args : list string) (q : nat → Tables Time → R) : O R :=
  if forallb accepts args then db_query q else λ s, (bump s, Err (ErrOther "query")).

Definition spec_device (r : device_row Time) : Device :=
  {| d_ID := dr_id r; d_Name := dr_name r; d_OS := dr_os r; d_Arch := dr_arch r;
     d_Status := dr_status r; d_RegisteredAt := dr_registered_at r;
     d_LastSeenAt := dr_last_seen_at r |}.

Definition spec_heartbeat (r : heartbeat_row Time) : Heartbeat :=
  {| hb_ID := hr_id r; hb_DeviceID := hr_device_id r; hb_ReceivedAt := hr_received_at r;
     hb_CPUPercent := hr_cpu_percent r; hb_MemoryPercent := hr_memory_percent r;
     hb_DiskPercent := hr_disk_percent r; hb_UptimeSeconds := hr_uptime_seconds r;
     hb_OSVersion := hr_os_version r |}.

Definition spec_diagnostic (r : diag_row Time) : DiagnosticResult :=
  {| dg_ID := gr_id r; dg_DeviceID := gr_device_id r; dg_RequestID := gr_request_id r;
     dg_Scope := gr_scope r; dg_RequestedAt := gr_requested_at r;
     dg_ReceivedAt := gr_received_at r; dg_Payload := scan_payload (gr_payload r);
     dg_Status := "" |}.

Definition spec_CreateDevice (req : RegisterRequest) : O Device :=
  hash ← hash_secret (rr_Secret req);
  id ← uuid_New;
  now ← time_Now;
  _ ← wrap "create device"
        (exec [id; rr_Name req; rr_OS req; rr_Arch req]
           (insert_device id (rr_Name req) (rr_OS req) (rr_Arch req) hash (round now)));
  mret {| d_ID := id; d_Name := rr_Name req; d_OS := rr_OS req; d_Arch := rr_Arch req;
          d_Status := StatusUnknown; d_RegisteredAt := now; d_LastSeenAt := None |}.

Definition spec_GetDevice (id : string) : O Device :=
  r ← query [id] (λ _, find_device id);
  match r with None => st_fail ErrNotFound | Some r => mret (spec_device r) end.

Definition spec_ListDevices (limit : Z) (cursor : string) : O (list Device * string) :=
  k ← st_lift (page_start cursor);
  let k := (λ p, (round p.1, p.2)) <$> k in
  rows ← wrap "list devices"
           (query (cursor_args k) (λ n, select_devices Z.compare collate n k (limit + 1)));
  cut_page limit (spec_device <$> rows).

Definition spec_SetDeviceStatus (id : string) (status : DeviceStatus) : O unit :=
  n ← wrap "set device status" (exec [status; id] (update_device id (set_status status)));
  require_affected n.

Definition spec_UpdateLastSeen (id : string) : O unit :=
  now ← time_Now;
  _ ← exec [id] (update_device id (set_last_seen (round now)));
  mret ().

Definition spec_InsertHeartbeat (hb : Heartbeat) : O unit :=
  now ← time_Now;
  _ ← exec_insert [hb_DeviceID hb; hb_OSVersion hb] skip_heartbeats
        (insert_heartbeat (hb_DeviceID hb) (round now) (hb_CPUPercent hb) (hb_MemoryPercent hb)
           (hb_DiskPercent hb) (hb_UptimeSeconds hb) (hb_OSVersion hb));
  mret ().

Definition spec_ListHeartbeats (deviceID : string) (limit : Z) : O (list Heartbeat) :=
  rows ← wrap "list heartbeats"
           (query [deviceID] (λ n, select_heartbeats Z.compare n deviceID limit));
  mret (spec_heartbeat <$> rows).

Definition spec_CreateDiagnosticRequest (deviceID requestID : string) (scope : DiagnosticScope)
    : O DiagnosticResult :=
  now ← time_Now;
  _ ← wrap "create diagnostic request"
        (exec_insert [deviceID; requestID; scope] skip_diagnostics
           (insert_diagnostic deviceID requestID scope (round now)));
  mret (new_request deviceID requestID scope now).

Definition spec_DeleteDiagnosticRequest (requestID : string) : O unit :=
  _ ← wrap "delete diagnostic request" (exec [requestID] (delete_diagnostic requestID));
  mret ().

Definition spec_SaveDiagnosticResult (requestID payload : string) : O unit :=
  now ← time_Now;
  n ← wrap "save diagnostic result"
        (exec [payload; requestID] (update_diagnostic requestID (answer (round now) payload)));
  require_affected n.

Definition spec_ListDiagnosticResults (deviceID : string) (limit : Z)
    : O (list DiagnosticResult) :=
  rows ← wrap "list diagnostics"
           (query [deviceID] (λ n, select_diagnostics Z.compare n deviceID limit));
  mret (spec_diagnostic <$> rows).

Definition spec_GetDiagnosticResult (requestID : string) : O DiagnosticResult :=
  r ← query [requestID] (λ _, find_diagnostic requestID);
  match r with None => st_fail ErrNotFound | Some r => mret (spec_diagnostic r) end.

Definition Spec : Store (Tables Time) := {|
  Ping := db_ping;
  CreateDevice := spec_CreateDevice;
  GetDevice := spec_GetDevice;
  ListDevices := spec_ListDevices;
  SetDeviceStatus := spec_SetDeviceStatus;
  UpdateLastSeen := spec_UpdateLastSeen;
  InsertHeartbeat := spec_InsertHeartbeat;
  ListHeartbeats := spec_ListHeartbeats;
  CreateDiagnosticRequest := spec_CreateDiagnosticRequest;
  DeleteDiagnosticRequest := spec_DeleteDiagnosticRequest;
  SaveDiagnosticResult := spec_SaveDiagnosticResult;
  ListDiagnosticResults := spec_ListDiagnosticResults;
  GetDiagnosticResult := spec_GetDiagnosticResult
|}.
End spec.

(** ** Simulation *)

(** From related databases and equal counters, [m] and [m'] return results that
    [Q] relates, or the same error, and leave related databases and equal
    counters. *)
Definition sim {D D' E A A'} (R : D → D' → Prop) (Q : A → A' → Prop)
    (m : Op D E A) (m' : Op D' E A') : Prop :=
  ∀ s s', tick s = tick s' → R (dat s) (dat s') →
    match (m s).2, (m' s').2 with
    | Ok a, Ok a' => Q a a'
    | Err e, Err e' => e = e'
    | _, _ => False
    end ∧ tick (m s).1 = tick (m' s').1 ∧ R (dat (m s).1) (dat (m' s').1).

(** What a backend promises: every operation simulates the specification, for the
    limits the server passes and for cursors of the years RFC 3339 can write.  The
    cursors the server makes are of those years; a client may send one whose instant
    is of the year 10000 in UTC, and what a backend then lists is not promised. *)
Record refines {D} `{W : World} (R : D → Tables Time → Prop) (S : Store D)
    (S' : Store (Tables Time)) : Prop := {
  ref_Ping : sim R eq (Ping (Store := S)) (Ping (Store := S'));
  ref_CreateDevice req : sim R eq (CreateDevice req) (CreateDevice (Store := S') req);
  ref_GetDevice id : sim R eq (GetDevice id) (GetDevice (Store := S') id);
  ref_ListDevices limit cursor :
    0 <= limit → (∀ t i, page_start cursor = Ok (Some (t, i)) → rfc_year t) →
    sim R eq (ListDevices limit cursor) (ListDevices (Store := S') limit cursor);
  ref_SetDeviceStatus id st : sim R eq (SetDeviceStatus id st) (SetDeviceStatus (Store := S') id st);
  ref_UpdateLastSeen id : sim R eq (UpdateLastSeen id) (UpdateLastSeen (Store := S') id);
  ref_InsertHeartbeat hb : sim R eq (InsertHeartbeat hb) (InsertHeartbeat (Store := S') hb);
  ref_ListHeartbeats id limit :
    0 <= limit → sim R eq (ListHeartbeats id limit) (ListHeartbeats (Store := S') id limit);
  ref_CreateDiagnosticRequest id req sc :
    sim R eq (CreateDiagnosticRequest id req sc) (CreateDiagnosticRequest (Store := S') id req sc);
  ref_DeleteDiagnosticRequest req :
    sim R eq (DeleteDiagnosticRequest req) (DeleteDiagnosticRequest (Store := S') req);
  ref_SaveDiagnosticResult req p :
    sim R eq (SaveDiagnosticResult req p) (SaveDiagnosticResult (Store := S') req p);
  ref_ListDiagnosticResults id limit :
    0 <= limit →
    sim R eq (ListDiagnosticResults id limit) (ListDiagnosticResults (Store := S') id limit);
  ref_GetDiagnosticResult req :
    sim R eq (GetDiagnosticResult req) (GetDiagnosticResult (Store := S') req)
}.

Section sim.
Context `{W : World} {D D' E : Type} (R : D → D' → Prop).

Lemma sim_ret {A A'} (Q : A → A' → Prop) a a' :
  Q a a' → sim (E := E) R Q (mret a) (mret a').
Proof. by intros HQ s s' Ht Hd. Qed.

Lemma sim_fail {A A'} (Q : A → A' → Prop) (e : E) : sim R Q (st_fail e) (st_fail e).
Proof. by intros s s' Ht Hd. Qed.

Lemma sim_lift {A} (r r' : res E A) : r = r' → sim R eq (st_lift r) (st_lift r').
Proof. intros <- s s' Ht Hd. by destruct r. Qed.

Lemma sim_bind {A A' B B'} (Q : A → A' → Prop) (Q' : B → B' → Prop)
    (m : Op D E A) (m' : Op D' E A') (f : A → Op D E B) (f' : A' → Op D' E B') :
  sim R Q m m' → (∀ a a', Q a a' → sim R Q' (f a) (f' a')) →
  sim R Q' (m ≫= f) (m' ≫= f').
Proof using.
  intros Hm Hf s s' Ht Hd. destruct (Hm s s' Ht Hd) as (Hr & Ht' & Hd').
  unfold mbind, st_bind. destruct (m s) as [s1 r], (m' s') as [s1' r']. simpl in *.
  destruct r, r'; try done. by apply Hf.
Qed.

Lemma sim_bind_eq {A B} (m : Op D E A) (m' : Op D' E A) (f : A → Op D E B)
    (f' : A → Op D' E B) :
  sim R eq m m' → (∀ a, sim R eq (f a) (f' a)) → sim R eq (m ≫= f) (m' ≫= f').
Proof using. intros Hm Hf. eapply sim_bind; [exact Hm|]. by intros a a' <-. Qed.

Lemma sim_now {B B'} (Q : B → B' → Prop) (f : Time → Op D E B) (f' : Time → Op D' E B') :
  (∀ n, sim R Q (f (now_at n)) (f' (now_at n))) → sim R Q (time_Now ≫= f) (time_Now ≫= f').
Proof using.
  intros Hf [t d] [t' d'] Ht Hd. simpl in Ht. subst t'.
  apply (Hf t (bump (MkSys t d)) (bump (MkSys t d'))); done.
Qed.

Lemma sim_uuid : sim (E := E) R eq uuid_New uuid_New.
Proof. intros [t d] [t' d'] Ht Hd. simpl in *. by subst t'. Qed.
End sim.

Lemma sim_wrap {D D'} (R : D → D' → Prop) {A A'} (Q : A → A' → Prop) what
    (m : Op D store_err A) (m' : Op D' store_err A') :
  sim R Q m m' → sim R Q (wrap what m) (wrap what m').
Proof.
  intros Hm s s' Ht Hd. destruct (Hm s s' Ht Hd) as (Hr & Ht' & Hd').
  unfold wrap. destruct (m s) as [s1 r], (m' s') as [s1' r']. simpl in *.
  destruct r as [|[]], r' as [|[]]; done.
Qed.

Lemma sim_result {D D' E A} (R : D → D' → Prop) (m : Op D E A) (m' : Op D' E A) s s' :
  sim R eq m m' → tick s = tick s' → R (dat s) (dat s') → (m s).2 = (m' s').2.
Proof.
  intros Hm Ht Hd. destruct (Hm s s' Ht Hd) as (Hr & _).
  destruct (m s).2, (m' s').2; by simplify_eq.
Qed.
