(* ===== verification/Coding.v ===== *)
(** * Backends that write instants their own way.

    A backend stores an instant [t] as [enc t].  If comparing what is stored
    compares the instants, every statement and query of Sql.v on the stored
    tables simulates the one on the instants. *)
From Stdlib Require Import QArith Sorted.
From S2P Require Import Prelude GoString GoTime Model World Keyset Sql Cursor Store.
Local Open Scope Z_scope.

(** ** Lists of coded rows *)

Lemma filter_map {R R'} (f : R → R') (P : R' → Prop) (P' : R → Prop)
    `{∀ x, Decision (P x), ∀ x, Decision (P' x)} (l : list R) :
  (∀ x, x ∈ l → P (f x) ↔ P' x) → filter P (f <$> l) = f <$> filter P' l.
Proof.
  induction l as [|x l IH]; intros HP; csimpl; [done|]. rewrite !filter_cons, IH by set_solver.
  specialize (HP x ltac:(set_solver)). do 2 case_decide; tauto || done.
Qed.

Lemma find_map {R R'} (f : R → R') (p : R' → bool) (p' : R → bool) l :
  (∀ x, p (f x) = p' x) → List.find p (f <$> l) = f <$> List.find p' l.
Proof.
  intros Hp. induction l as [|x l IH]; csimpl; [done|]. rewrite Hp. by destruct (p' x).
Qed.

Lemma find_ok {R} (P : R → Prop) p l r : Forall P l → List.find p l = Some r → P r.
Proof.
  intros Hl Hr. apply find_some in Hr as [Hr _]. rewrite Forall_forall in Hl.
  apply Hl. by apply list_elem_of_In.
Qed.

Lemma sql_limit_fmap {R R'} (f : R → R') n l : sql_limit n (f <$> l) = f <$> sql_limit n l.
Proof. unfold sql_limit. case_match; [done|]. by rewrite fmap_take. Qed.

Lemma sql_limit_Forall {R} (P : R → Prop) n l : Forall P l → Forall P (sql_limit n l).
Proof. unfold sql_limit. case_match; [done|]. apply Forall_take. Qed.

Section coding.
Context `{W : World} {C : Type} (enc : Time → C) (ok : Time → Prop)
  (cmpC : C → C → comparison) (collate : string → string → comparison).
Hypothesis enc_cmp : ∀ a b, ok a → ok b → cmpC (enc a) (enc b) = Z.compare a b.

Definition map_device (r : device_row Time) : device_row C :=
  DeviceRow (dr_id r) (dr_name r) (dr_os r) (dr_arch r) (dr_secret_hash r) (dr_status r)
    (enc (dr_registered_at r)) (enc <$> dr_last_seen_at r).

Definition map_heartbeat (r : heartbeat_row Time) : heartbeat_row C :=
  HeartbeatRow (hr_id r) (hr_device_id r) (enc (hr_received_at r)) (hr_cpu_percent r)
    (hr_memory_percent r) (hr_disk_percent r) (hr_uptime_seconds r) (hr_os_version r).

Definition map_diag (r : diag_row Time) : diag_row C :=
  DiagRow (gr_id r) (gr_device_id r) (gr_request_id r) (gr_scope r) (enc (gr_requested_at r))
    (enc <$> gr_received_at r) (gr_payload r).

Definition map_tables (T : Tables Time) : Tables C :=
  MkTables (map_device <$> devices T) (map_heartbeat <$> heartbeats T)
    (map_diag <$> diagnostic_results T) (heartbeats_seq T) (diagnostics_seq T).

Definition opt_ok (t : option Time) : Prop := match t with Some t => ok t | None => True end.
Definition device_ok (r : device_row Time) : Prop :=
  ok (dr_registered_at r) ∧ opt_ok (dr_last_seen_at r).
Definition heartbeat_ok (r : heartbeat_row Time) : Prop := ok (hr_received_at r).
Definition diag_ok (r : diag_row Time) : Prop :=
  ok (gr_requested_at r) ∧ opt_ok (gr_received_at r).

Record tables_ok (T : Tables Time) : Prop := {
  ok_devices : Forall device_ok (devices T);
  ok_heartbeats : Forall heartbeat_ok (heartbeats T);
  ok_diagnostics : Forall diag_ok (diagnostic_results T)
}.

(** The stored tables [T] are those of the instants [T']. *)
Definition codes (T : Tables C) (T' : Tables Time) : Prop := T = map_tables T' ∧ tables_ok T'.

Definition sim_outcome (f : Tables C → outcome) (f' : Tables Time → outcome) : Prop :=
  ∀ T', tables_ok T' →
    match f (map_tables T'), f' T' with
    | Some (T, n), Some (T1', n') => n = n' ∧ codes T T1'
    | None, None => True
    | _, _ => False
    end.

Definition sim_skip (skip : nat → Tables C → Tables C) (skip' : nat → Tables Time → Tables Time) : Prop :=
  ∀ k T', tables_ok T' → codes (skip k (map_tables T')) (skip' k T').

Lemma sim_exec_insert skip skip' f f' :
  sim_skip skip skip' → sim_outcome f f' →
  sim codes eq (db_exec_insert skip f) (db_exec_insert skip' f').
Proof using.
  intros Hs Hf [t d] [t' d'] Ht [Hd Hok]. simpl in *. subst t' d.
  specialize (Hf d' Hok). specialize (Hs (gap_at t) d' Hok). unfold db_exec_insert. simpl.
  assert (Hc : codes (map_tables d') d') by done.
  destruct (f (map_tables d')) as [[T n]|], (f' d') as [[T' n']|]; try done;
    [destruct Hf as [-> Hf]|]; by destruct (io_at t).
Qed.

Lemma sim_exec f f' : sim_outcome f f' → sim codes eq (db_exec f) (db_exec f').
Proof using. by apply sim_exec_insert. Qed.

Lemma sim_skip_heartbeats : sim_skip skip_heartbeats skip_heartbeats.
Proof using. intros k T [Hd Hh Hg]. by repeat split. Qed.

Lemma sim_skip_diagnostics : sim_skip skip_diagnostics skip_diagnostics.
Proof using. intros k T [Hd Hh Hg]. by repeat split. Qed.

Lemma sim_query {R R'} (Q : R → R' → Prop) (q : nat → Tables C → R)
    (q' : nat → Tables Time → R') :
  (∀ n T', tables_ok T' → Q (q n (map_tables T')) (q' n T')) →
  sim codes Q (db_query q) (db_query q').
Proof using.
  intros Hq [t d] [t' d'] Ht [Hd Hok]. simpl in *. subst t' d.
  unfold db_query. simpl. destruct (io_at t); simpl; (split; [|done]); auto.
Qed.

(** ** Statements *)

Lemma has_device_map id T : has_device id (map_tables T) = has_device id T.
Proof using.
  unfold has_device. simpl. induction (devices T) as [|r l IH]; csimpl; [done|]. by rewrite IH.
Qed.

Lemma has_request_map id T : has_request id (map_tables T) = has_request id T.
Proof using.
  unfold has_request. simpl.
  induction (diagnostic_results T) as [|r l IH]; csimpl; [done|]. by rewrite IH.
Qed.

Lemma sim_insert_device id name os arch hash t :
  ok t →
  sim_outcome (insert_device id name os arch hash (enc t)) (insert_device id name os arch hash t).
Proof using.
  intros Ht T [Hd Hh Hg]. unfold insert_device. rewrite has_device_map.
  destruct (has_device id T); [done|]. split; [done|]. split.
  - unfold with_devices, map_tables. simpl. by rewrite fmap_app.
  - split; simpl; [|done..]. apply Forall_app. split; [done|]. by repeat constructor.
Qed.

Lemma sim_insert_heartbeat dev t cpu mem disk up osv :
  ok t →
  sim_outcome (insert_heartbeat dev (enc t) cpu mem disk up osv)
    (insert_heartbeat dev t cpu mem disk up osv).
Proof using.
  intros Ht T [Hd Hh Hg]. unfold insert_heartbeat. rewrite has_device_map.
  destruct (has_device dev T); [|done]. split; [done|]. split.
  - unfold map_tables. simpl. by rewrite fmap_app.
  - split; simpl; [done| |done]. apply Forall_app. split; [done|]. by repeat constructor.
Qed.

Lemma sim_insert_diagnostic dev req scope t :
  ok t →
  sim_outcome (insert_diagnostic dev req scope (enc t)) (insert_diagnostic dev req scope t).
Proof using.
  intros Ht T [Hd Hh Hg]. unfold insert_diagnostic. rewrite has_device_map, has_request_map.
  destruct (has_device dev T && negb (has_request req T)); [|done]. split; [done|]. split.
  - unfold map_tables. simpl. by rewrite fmap_app.
  - split; simpl; [done..|]. apply Forall_app. split; [done|]. by repeat constructor.
Qed.

(** Filtering and updating by a column that coding leaves alone. *)
Lemma sim_update_device id (f : device_row C → device_row C) f' :
  (∀ r, device_ok r → f (map_device r) = map_device (f' r) ∧ device_ok (f' r)) →
  sim_outcome (update_device id f) (update_device id f').
Proof using.
  intros Hf T [Hd Hh Hg]. unfold update_device. split; [|split].
  - simpl. by rewrite (filter_map map_device _ (λ r, dr_id r = id)), length_fmap by done.
  - unfold with_devices, map_tables. simpl. f_equal. rewrite <-!list_fmap_compose.
    apply Forall_fmap_ext_1. eapply Forall_impl; [exact Hd|]. intros r Hr. simpl.
    case_bool_decide; [by apply Hf|done].
  - split; simpl; [|done..]. rewrite Forall_fmap. eapply Forall_impl; [exact Hd|].
    intros r Hr. simpl. case_bool_decide; [by apply Hf|done].
Qed.

Lemma sim_update_diagnostic req (f : diag_row C → diag_row C) f' :
  (∀ r, diag_ok r → f (map_diag r) = map_diag (f' r) ∧ diag_ok (f' r)) →
  sim_outcome (update_diagnostic req f) (update_diagnostic req f').
Proof using.
  intros Hf T [Hd Hh Hg]. unfold update_diagnostic. split; [|split].
  - simpl. by rewrite (filter_map map_diag _ (λ r, gr_request_id r = req)), length_fmap by done.
  - unfold with_diagnostics, map_tables. simpl. f_equal. rewrite <-!list_fmap_compose.
    apply Forall_fmap_ext_1. eapply Forall_impl; [exact Hg|]. intros r Hr. simpl.
    case_bool_decide; [by apply Hf|done].
  - split; simpl; [done..|]. rewrite Forall_fmap. eapply Forall_impl; [exact Hg|].
    intros r Hr. simpl. case_bool_decide; [by apply Hf|done].
Qed.

Lemma sim_set_status s r :
  device_ok r → set_status s (map_device r) = map_device (set_status s r) ∧
                device_ok (set_status s r).
Proof using. done. Qed.

Lemma sim_set_last_seen t r :
  ok t → device_ok r →
  set_last_seen (enc t) (map_device r) = map_device (set_last_seen t r) ∧
  device_ok (set_last_seen t r).
Proof using. intros Ht [Hr _]. done. Qed.

Lemma sim_answer t p r :
  ok t → diag_ok r →
  answer (enc t) p (map_diag r) = map_diag (answer t p r) ∧ diag_ok (answer t p r).
Proof using. intros Ht [Hr _]. done. Qed.

Lemma sim_delete_diagnostic req :
  sim_outcome (delete_diagnostic req) (delete_diagnostic req).
Proof using.
  intros T [Hd Hh Hg]. unfold delete_diagnostic. split; [|split].
  - simpl. by rewrite (filter_map map_diag _ (λ r, gr_request_id r = req)), length_fmap by done.
  - unfold with_diagnostics, map_tables. simpl. f_equal. by apply filter_map.
  - split; simpl; [done..|]. by apply Forall_filter_2.
Qed.

(** ** Queries *)

Lemma find_device_map id T :
  find_device id (map_tables T) = map_device <$> find_device id T.
Proof using. unfold find_device. simpl. by apply find_map. Qed.

Lemma find_diagnostic_map req T :
  find_diagnostic req (map_tables T) = map_diag <$> find_diagnostic req T.
Proof using. unfold find_diagnostic. simpl. by apply find_map. Qed.

(** A query of rows: the rows of the instants, coded. *)
Definition rows_ok {R R'} (f : R → R') (P : R → Prop) (rows : list R') (rows' : list R) : Prop :=
  rows = f <$> rows' ∧ Forall P rows'.

Lemma sim_select {R R'} (f : R → R') (P : R → Prop) n le le' limit
    (p : R' → Prop) (p' : R → Prop) `{∀ x, Decision (p x), ∀ x, Decision (p' x)} l :
  Forall P l → (∀ x y, P x → P y → le (f x) (f y) = le' x y) →
  (∀ x, P x → p (f x) ↔ p' x) →
  rows_ok f P (sql_limit limit (order_rows n le (filter p (f <$> l))))
    (sql_limit limit (order_rows n le' (filter p' l))).
Proof using.
  intros Hl Hle Hp. pose proof Hl as Hl'. rewrite Forall_forall in Hl'.
  rewrite (filter_map f p p') by auto. split.
  - rewrite (order_rows_fmap f n le' le), sql_limit_fmap; [done|].
    intros x y Hx Hy. apply list_elem_of_filter in Hx as [_ Hx], Hy as [_ Hy]. auto.
  - apply sql_limit_Forall. rewrite order_rows_perm. by apply Forall_filter_2.
Qed.

Definition map_cursor (k : option (Time * string)) : option (C * string) :=
  (λ p, (enc p.1, p.2)) <$> k.

Lemma sim_select_devices n k limit T :
  tables_ok T → opt_ok (fst <$> k) →
  rows_ok map_device device_ok
    (select_devices cmpC collate n (map_cursor k) limit (map_tables T))
    (select_devices Z.compare collate n k limit T).
Proof using enc_cmp.
  intros [Hd _ _] Hk. unfold select_devices. simpl. apply sim_select; [done|..].
  - intros x y [Hx _] [Hy _]. unfold desc, device_key, key_cmp, cmp_ge, pair_cmp. simpl.
    by rewrite enc_cmp.
  - intros x [Hx _]. destruct k as [[t i]|]; simpl; [|done]. simpl in Hk. by rewrite enc_cmp.
Qed.

Lemma sim_select_heartbeats n dev limit T :
  tables_ok T →
  rows_ok map_heartbeat heartbeat_ok (select_heartbeats cmpC n dev limit (map_tables T))
    (select_heartbeats Z.compare n dev limit T).
Proof using enc_cmp.
  intros [_ Hh _]. unfold select_heartbeats. simpl. apply sim_select; [done|..|done].
  intros x y Hx Hy. unfold desc, cmp_ge. simpl. by rewrite enc_cmp.
Qed.

Lemma sim_select_diagnostics n dev limit T :
  tables_ok T →
  rows_ok map_diag diag_ok (select_diagnostics cmpC n dev limit (map_tables T))
    (select_diagnostics Z.compare n dev limit T).
Proof using enc_cmp.
  intros [_ _ Hg]. unfold select_diagnostics. simpl. apply sim_select; [done|..|done].
  intros x y [Hx _] [Hy _]. unfold desc, cmp_ge. simpl. by rewrite enc_cmp.
Qed.

(** ** Scanning rows *)

Lemma collect_rows {R R' A} (f : R → R') (P : R → Prop) (scan : R' → res store_err A)
    (spec : R → A) rows rows' :
  rows_ok f P rows rows' → (∀ r, P r → scan (f r) = Ok (spec r)) →
  collect scan rows = Ok (spec <$> rows').
Proof using.
  intros [-> HP] Hs. induction HP as [|r l Hr HP IH]; csimpl; [done|]. by rewrite Hs, IH.
Qed.

(** A query of one row. *)
Definition row_ok {R R'} (f : R → R') (P : R → Prop) (r : option R') (r' : option R) : Prop :=
  r = f <$> r' ∧ match r' with Some x => P x | None => True end.

Lemma row_device id T :
  tables_ok T → row_ok map_device device_ok (find_device id (map_tables T)) (find_device id T).
Proof using.
  intros [Hd _ _]. split; [apply find_device_map|].
  destruct (find_device id T) eqn:E; [|done]. by eapply find_ok.
Qed.

Lemma row_diagnostic req T :
  tables_ok T →
  row_ok map_diag diag_ok (find_diagnostic req (map_tables T)) (find_diagnostic req T).
Proof using.
  intros [_ _ Hg]. split; [apply find_diagnostic_map|].
  destruct (find_diagnostic req T) eqn:E; [|done]. by eapply find_ok.
Qed.

Lemma sim_one_row {R R' A} (f : R → R') (P : R → Prop) (scan : R' → res store_err A)
    (spec : R → A) r r' :
  row_ok f P r r' → (∀ x, P x → scan (f x) = Ok (spec x)) →
  sim codes eq (one_row scan r)
    (match r' with None => st_fail ErrNotFound | Some x => mret (spec x) end).
Proof using.
  intros [-> HP] Hs. destruct r' as [x|]; simpl; [|apply sim_fail].
  rewrite Hs by done. by apply sim_lift.
Qed.

Lemma sim_hash_secret s : sim codes eq (hash_secret s) (hash_secret s).
Proof using. intros [t d] [t' d'] Ht Hd. simpl in *. subst t'. by destruct (bcrypt_at t s). Qed.

Lemma sim_require_affected n : sim codes eq (require_affected n) (require_affected n).
Proof using. unfold require_affected. case_match; [apply sim_fail|by apply sim_ret]. Qed.

Lemma sim_cut_page limit l : sim codes eq (cut_page limit l) (cut_page limit l).
Proof using.
  unfold cut_page. repeat case_match; (apply sim_fail || by apply sim_ret).
Qed.
End coding.
