(* ===== verification/SQLite.v ===== *)
(** * The SQLite backend (internal/store/sqlite.go, scan.go).

    Every operation on tables whose time columns hold RFC 3339 text, and the
    proof that it refines the specification at a resolution of one second.
    Time text is compared byte by byte (the BINARY collation), as are
    identifiers. *)
From Stdlib Require Import QArith.
From S2P Require Import Prelude GoString GoTime Model World Keyset Sql Cursor Store Coding.
Local Open Scope Z_scope.

(** [rfc3339Time.Scan] and [nullRFC3339Time.Scan] *)
Definition rfc3339Time_Scan (src : string) : option Time := Parse_RFC3339 src.

Definition nullRFC3339Time_Scan (src : option string) : option (option Time) :=
  match src with
  | None => Some None
  | Some s => t ← Parse_RFC3339 s; Some (Some t)
  end.

Definition scanDevice (r : device_row string) : res store_err Device :=
  match rfc3339Time_Scan (dr_registered_at r), nullRFC3339Time_Scan (dr_last_seen_at r) with
  | Some reg, Some seen =>
      Ok {| d_ID := dr_id r; d_Name := dr_name r; d_OS := dr_os r; d_Arch := dr_arch r;
            d_Status := dr_status r; d_RegisteredAt := reg; d_LastSeenAt := seen |}
  | _, _ => Err (ErrOther "scan device")
  end.

Definition scanHeartbeat (r : heartbeat_row string) : res store_err Heartbeat :=
  match rfc3339Time_Scan (hr_received_at r) with
  | Some received =>
      Ok {| hb_ID := hr_id r; hb_DeviceID := hr_device_id r; hb_ReceivedAt := received;
            hb_CPUPercent := hr_cpu_percent r; hb_MemoryPercent := hr_memory_percent r;
            hb_DiskPercent := hr_disk_percent r; hb_UptimeSeconds := hr_uptime_seconds r;
            hb_OSVersion := hr_os_version r |}
  | None => Err (ErrOther "scan heartbeat")
  end.

Definition scanDiagnostic (r : diag_row string) : res store_err DiagnosticResult :=
  match rfc3339Time_Scan (gr_requested_at r), nullRFC3339Time_Scan (gr_received_at r) with
  | Some requested, Some received =>
      Ok {| dg_ID := gr_id r; dg_DeviceID := gr_device_id r; dg_RequestID := gr_request_id r;
            dg_Scope := gr_scope r; dg_RequestedAt := requested; dg_ReceivedAt := received;
            dg_Payload := scan_payload (gr_payload r); dg_Status := "" |}
  | _, _ => Err (ErrOther "scan diagnostic")
  end.

Section sqlite.
Context `{W : World}.

Abbreviation O := (Op (Tables string) store_err).

Definition SQLite_CreateDevice (req : RegisterRequest) : O Device :=
  hash ← hash_secret (rr_Secret req);
  id ← uuid_New;
  now ← time_Now;
  _ ← wrap "create device"
        (db_exec (insert_device id (rr_Name req) (rr_OS req) (rr_Arch req) hash
                    (Format_RFC3339 now)));
  mret {| d_ID := id; d_Name := rr_Name req; d_OS := rr_OS req; d_Arch := rr_Arch req;
          d_Status := StatusUnknown; d_RegisteredAt := now; d_LastSeenAt := None |}.

Definition SQLite_GetDevice (id : string) : O Device :=
  row ← db_query (λ _, find_device id);
  one_row scanDevice row.

Definition SQLite_ListDevices (limit : Z) (cursor : string) : O (list Device * string) :=
  k ← st_lift (page_start cursor);
  let k := (λ p, (Format_RFC3339 p.1, p.2)) <$> k in
  rows ← wrap "list devices"
           (db_query (λ n, select_devices String.compare String.compare n k (limit + 1)));
  devices ← st_lift (collect scanDevice rows);
  cut_page limit devices.

Definition SQLite_SetDeviceStatus (id : string) (status : DeviceStatus) : O unit :=
  n ← wrap "set device status" (db_exec (update_device id (set_status status)));
  require_affected n.

Definition SQLite_UpdateLastSeen (id : string) : O unit :=
  now ← time_Now;
  _ ← db_exec (update_device id (set_last_seen (Format_RFC3339 now)));
  mret ().

Definition SQLite_InsertHeartbeat (hb : Heartbeat) : O unit :=
  now ← time_Now;
  _ ← db_exec_insert skip_heartbeats (insert_heartbeat (hb_DeviceID hb) (Format_RFC3339 now) (hb_CPUPercent hb)
                 (hb_MemoryPercent hb) (hb_DiskPercent hb) (hb_UptimeSeconds hb)
                 (hb_OSVersion hb));
  mret ().

Definition SQLite_ListHeartbeats (deviceID : string) (limit : Z) : O (list Heartbeat) :=
  rows ← wrap "list heartbeats"
           (db_query (λ n, select_heartbeats String.compare n deviceID limit));
  st_lift (collect scanHeartbeat rows).

Definition SQLite_CreateDiagnosticRequest (deviceID requestID : string)
    (scope : DiagnosticScope) : O DiagnosticResult :=
  now ← time_Now;
  _ ← wrap "create diagnostic request"
        (db_exec_insert skip_diagnostics (insert_diagnostic deviceID requestID scope (Format_RFC3339 now)));
  mret (new_request deviceID requestID scope now).

Definition SQLite_DeleteDiagnosticRequest (requestID : string) : O unit :=
  _ ← wrap "delete diagnostic request" (db_exec (delete_diagnostic requestID));
  mret ().

Definition SQLite_SaveDiagnosticResult (requestID payload : string) : O unit :=
  now ← time_Now;
  n ← wrap "save diagnostic result"
        (db_exec (update_diagnostic requestID (answer (Format_RFC3339 now) payload)));
  require_affected n.

Definition SQLite_ListDiagnosticResults (deviceID : string) (limit : Z)
    : O (list DiagnosticResult) :=
  rows ← wrap "list diagnostics"
           (db_query (λ n, select_diagnostics String.compare n deviceID limit));
  st_lift (collect scanDiagnostic rows).

Definition SQLite_GetDiagnosticResult (requestID : string) : O DiagnosticResult :=
  row ← db_query (λ _, find_diagnostic requestID);
  one_row scanDiagnostic row.

Definition SQLite : Store (Tables string) := {|
  Ping := db_ping;
  CreateDevice := SQLite_CreateDevice;
  GetDevice := SQLite_GetDevice;
  ListDevices := SQLite_ListDevices;
  SetDeviceStatus := SQLite_SetDeviceStatus;
  UpdateLastSeen := SQLite_UpdateLastSeen;
  InsertHeartbeat := SQLite_InsertHeartbeat;
  ListHeartbeats := SQLite_ListHeartbeats;
  CreateDiagnosticRequest := SQLite_CreateDiagnosticRequest;
  DeleteDiagnosticRequest := SQLite_DeleteDiagnosticRequest;
  SaveDiagnosticResult := SQLite_SaveDiagnosticResult;
  ListDiagnosticResults := SQLite_ListDiagnosticResults;
  GetDiagnosticResult := SQLite_GetDiagnosticResult
|}.
End sqlite.

(** ** Refinement *)

(** What a time column can hold: whole seconds of the years 0 to 9999. *)
Definition sqlite_time (t : Time) : Prop := rfc_year t ∧ trunc_sec t = t.

Definition sqlite_codes : Tables string → Tables Time → Prop := codes Format_RFC3339 sqlite_time.

Lemma year_of_trunc t : year_of (trunc_sec t) = year_of t.
Proof. unfold year_of. by rewrite unix_sec_trunc. Qed.

Lemma sqlite_time_trunc t : rfc_year t → sqlite_time (trunc_sec t).
Proof.
  intros Ht. split; [|apply trunc_sec_idem]. unfold rfc_year. by rewrite year_of_trunc.
Qed.

Lemma format_trunc t : Format_RFC3339 (trunc_sec t) = Format_RFC3339 t.
Proof. unfold Format_RFC3339, append_rfc3339. by rewrite unix_sec_trunc. Qed.

Lemma sqlite_cmp a b :
  sqlite_time a → sqlite_time b →
  String.compare (Format_RFC3339 a) (Format_RFC3339 b) = Z.compare a b.
Proof.
  intros [Ha Ea] [Hb Eb]. rewrite compare_cmp_bytes. unfold Format_RFC3339.
  rewrite !bytes_unbytes, cmp_append_rfc3339 by done.
  replace (a ?= b) with (trunc_sec a ?= trunc_sec b) by (by rewrite Ea, Eb).
  unfold trunc_sec. symmetry. apply (compare_mono (λ s, s * Second)). unfold Second. lia.
Qed.

Lemma parse_format t : sqlite_time t → Parse_RFC3339 (Format_RFC3339 t) = Some t.
Proof.
  intros [Hy Et]. unfold Parse_RFC3339, Format_RFC3339. rewrite bytes_unbytes.
  rewrite parse_append_rfc3339 by done. by rewrite Et.
Qed.

Lemma null_scan_format t :
  opt_ok sqlite_time t → nullRFC3339Time_Scan (Format_RFC3339 <$> t) = Some t.
Proof. destruct t as [t|]; simpl; [|done]. intros Ht. by rewrite parse_format. Qed.

Lemma scanDevice_ok r :
  device_ok sqlite_time r → scanDevice (map_device Format_RFC3339 r) = Ok (spec_device r).
Proof.
  intros [H1 H2]. unfold scanDevice, rfc3339Time_Scan. simpl.
  by rewrite parse_format, null_scan_format.
Qed.

Lemma scanHeartbeat_ok r :
  heartbeat_ok sqlite_time r → scanHeartbeat (map_heartbeat Format_RFC3339 r) = Ok (spec_heartbeat r).
Proof. intros H. unfold scanHeartbeat, rfc3339Time_Scan. simpl. by rewrite parse_format. Qed.

Lemma scanDiagnostic_ok r :
  diag_ok sqlite_time r → scanDiagnostic (map_diag Format_RFC3339 r) = Ok (spec_diagnostic r).
Proof.
  intros [H1 H2]. unfold scanDiagnostic, rfc3339Time_Scan. simpl.
  by rewrite parse_format, null_scan_format.
Qed.

(** The specification SQLite meets: any text is a parameter. *)
Definition sqlite_spec `{World} : Store (Tables Time) :=
  Spec trunc_sec String.compare (λ _, true).

Section refinement.
Context `{W : World} (Hclock : rfc_clock W).

Local Abbreviation R := sqlite_codes.

Lemma sqlite_exec_insert args skip skip' f f' :
  sim_skip Format_RFC3339 sqlite_time skip skip' → sim_outcome Format_RFC3339 sqlite_time f f' →
  sim R eq (db_exec_insert skip f) (exec_insert (λ _, true) args skip' f').
Proof using.
  intros Hs Hf. unfold exec_insert. replace (forallb _ args) with true by (by induction args).
  by apply sim_exec_insert.
Qed.

Lemma sqlite_exec_unwrapped args f f' :
  sim_outcome Format_RFC3339 sqlite_time f f' →
  sim R eq (db_exec f) (exec (λ _, true) args f').
Proof using. by apply sqlite_exec_insert. Qed.

Lemma sqlite_exec args what f f' :
  sim_outcome Format_RFC3339 sqlite_time f f' →
  sim R eq (wrap what (db_exec f)) (wrap what (exec (λ _, true) args f')).
Proof using. intros Hf. by apply sim_wrap, sqlite_exec_unwrapped. Qed.

Lemma sqlite_query {A A'} (Q : A → A' → Prop) args q q' :
  (∀ n T, tables_ok sqlite_time T → Q (q n (map_tables Format_RFC3339 T)) (q' n T)) →
  sim R Q (db_query q) (query (λ _, true) args q').
Proof using.
  intros Hq. unfold query. replace (forallb _ args) with true by (by induction args).
  by apply sim_query.
Qed.

Lemma sqlite_collect {X Y A} (f : X → Y) P scan (spec : X → A) rows rows' :
  rows_ok f P rows rows' → (∀ r, P r → scan (f r) = Ok (spec r)) →
  sim R eq (st_lift (collect scan rows)) (mret (spec <$> rows')).
Proof using.
  intros Hr Hs. rewrite (collect_rows f P scan spec rows rows') by done. by apply sim_lift.
Qed.

Lemma sqlite_now n : sqlite_time (trunc_sec (now_at n)).
Proof using Hclock.
  apply sqlite_time_trunc, rfc_year_range. specialize (Hclock n). unfold Second. lia.
Qed.

Lemma sqlite_CreateDevice req :
  sim R eq (SQLite_CreateDevice req)
    (spec_CreateDevice trunc_sec (λ _, true) req).
Proof using Hclock.
  apply sim_bind_eq; [apply sim_hash_secret|]. intros hash.
  apply sim_bind_eq; [apply sim_uuid|]. intros id. apply sim_now. intros n.
  apply sim_bind_eq; [|intros _; by apply sim_ret]. apply sqlite_exec.
  rewrite <-format_trunc. apply sim_insert_device, sqlite_now.
Qed.

Lemma sqlite_ListDevices limit cursor :
  (∀ t i, page_start cursor = Ok (Some (t, i)) → rfc_year t) →
  sim R eq (SQLite_ListDevices limit cursor)
    (spec_ListDevices trunc_sec String.compare (λ _, true) limit cursor).
Proof using.
  intros Hc. unfold SQLite_ListDevices, spec_ListDevices.
  destruct (page_start cursor) as [k|e]; [|apply sim_fail].
  rewrite !st_lift_ok. set (k' := (λ p, (trunc_sec p.1, p.2)) <$> k).
  eapply sim_bind.
  - apply sim_wrap, sqlite_query. intros n T HT.
    replace ((λ p, (Format_RFC3339 p.1, p.2)) <$> k) with (map_cursor Format_RFC3339 k').
    + apply (sim_select_devices _ sqlite_time); [apply sqlite_cmp|done|].
      destruct k as [[t i]|]; simpl; [|done]. apply sqlite_time_trunc. by eapply Hc.
    + destruct k as [[t i]|]; simpl; [|done]. by rewrite format_trunc.
  - intros rows rows' Hr.
    rewrite (collect_rows _ _ _ spec_device _ _ Hr) by apply scanDevice_ok.
    rewrite st_lift_ok. apply sim_cut_page.
Qed.

Lemma sqlite_InsertHeartbeat hb :
  sim R eq (SQLite_InsertHeartbeat hb) (spec_InsertHeartbeat trunc_sec (λ _, true) hb).
Proof using Hclock.
  apply sim_now. intros n. apply sim_bind_eq; [|intros _; by apply sim_ret].
  apply sqlite_exec_insert; [apply sim_skip_heartbeats|]. rewrite <-format_trunc.
  apply sim_insert_heartbeat, sqlite_now.
Qed.

Lemma sqlite_UpdateLastSeen id :
  sim R eq (SQLite_UpdateLastSeen id) (spec_UpdateLastSeen trunc_sec (λ _, true) id).
Proof using Hclock.
  apply sim_now. intros n. apply sim_bind_eq; [|intros _; by apply sim_ret].
  apply sqlite_exec_unwrapped. rewrite <-format_trunc. apply sim_update_device.
  intros r Hr. apply sim_set_last_seen; [apply sqlite_now|done].
Qed.

Lemma sqlite_CreateDiagnosticRequest id req scope :
  sim R eq (SQLite_CreateDiagnosticRequest id req scope)
    (spec_CreateDiagnosticRequest trunc_sec (λ _, true) id req scope).
Proof using Hclock.
  apply sim_now. intros n. apply sim_bind_eq; [|intros _; by apply sim_ret].
  apply sim_wrap, sqlite_exec_insert; [apply sim_skip_diagnostics|]. rewrite <-format_trunc.
  apply sim_insert_diagnostic, sqlite_now.
Qed.

Lemma sqlite_SaveDiagnosticResult req p :
  sim R eq (SQLite_SaveDiagnosticResult req p)
    (spec_SaveDiagnosticResult trunc_sec (λ _, true) req p).
Proof using Hclock.
  apply sim_now. intros n. apply sim_bind_eq; [|intros; apply sim_require_affected].
  apply sqlite_exec. rewrite <-format_trunc. apply sim_update_diagnostic.
  intros r Hr. apply sim_answer; [apply sqlite_now|done].
Qed.
End refinement.

Lemma sqlite_refines_proof (W : World) :
  rfc_clock W → refines sqlite_codes SQLite sqlite_spec.
Proof.
  intros Hclock. split; simpl.
  - by apply sim_query.
  - by apply sqlite_CreateDevice.
  - intros id. eapply sim_bind; [by apply sqlite_query; intros _; apply row_device|]. intros r r' Hr.
    eapply sim_one_row; [exact Hr|apply scanDevice_ok].
  - intros limit cursor _. apply sqlite_ListDevices.
  - intros id st. apply sim_bind_eq; [|apply sim_require_affected].
    apply sqlite_exec, sim_update_device, sim_set_status.
  - by apply sqlite_UpdateLastSeen.
  - by apply sqlite_InsertHeartbeat.
  - intros id limit _. eapply sim_bind.
    { apply sim_wrap, sqlite_query. intros n T. by apply sim_select_heartbeats, sqlite_cmp. }
    intros rows rows' Hr. eapply sqlite_collect; [exact Hr|apply scanHeartbeat_ok].
  - by apply sqlite_CreateDiagnosticRequest.
  - intros req. apply sim_bind_eq; [|intros _; by apply sim_ret].
    apply sqlite_exec, sim_delete_diagnostic.
  - by apply sqlite_SaveDiagnosticResult.
  - intros id limit _. eapply sim_bind.
    { apply sim_wrap, sqlite_query. intros n T. by apply sim_select_diagnostics, sqlite_cmp. }
    intros rows rows' Hr. eapply sqlite_collect; [exact Hr|apply scanDiagnostic_ok].
  - intros req. eapply sim_bind; [by apply sqlite_query; intros _; apply row_diagnostic|]. intros r r' Hr.
    eapply sim_one_row; [exact Hr|apply scanDiagnostic_ok].
Qed.

(** C1: SQLite refines the store's specification at a resolution of one second.
    With a clock in the years 0 to 9999, from tables whose text columns hold
    the specification's instants, every operation returns the specification's
    result, error or panic, whatever round trips fail, and leaves text columns
    that hold the specification's instants: comparing and sorting the text is
    comparing and sorting the instants. *)
Theorem sqlite_refines (W : World) : rfc_clock W → refines sqlite_codes SQLite sqlite_spec.
Proof. apply sqlite_refines_proof. Qed.

Lemma sqlite_refines_witness :
  (λ W : World, refines sqlite_codes SQLite sqlite_spec) test_world.
Proof. exact (sqlite_refines test_world test_world_clock). Defined.
