(* ===== verification/Postgres.v ===== *)
(** * The Postgres backend (internal/store/postgres.go, scan.go).

    Every operation on tables whose time columns are TIMESTAMPTZ, a count of
    microseconds, and the proof that it refines the specification at that
    resolution.  The conversion the driver applies to a [time.Time], the
    collation of the database and the texts the server accepts (no NUL byte, the
    database's encoding) are parameters. *)
From Stdlib Require Import QArith.
From S2P Require Import Prelude GoString GoTime Model World Keyset Sql Cursor Store Coding.
Local Open Scope Z_scope.

(** A TIMESTAMPTZ: microseconds of the Unix epoch. *)
Definition timestamptz : Type := Z.

Definition micros (ts : timestamptz) : Time := ts * Microsecond.

Class PgDriver := {
  pg_time : Time → timestamptz;
  pg_collate : string → string → comparison;
  pg_text : string → bool
}.

(** A whole number of microseconds is stored as it is; the others are rounded,
    one way or the other. *)
Class PgDriverLaws (P : PgDriver) : Prop := {
  pg_time_exact ts : pg_time (micros ts) = ts;
  pg_time_near t : Z.abs (micros (pg_time t) - t) < Microsecond
}.

(** [d.RegisteredAt.UTC()] and the like: the zone of an instant is not part of
    a [Time]. *)
Definition UTC (ts : timestamptz) : Time := micros ts.

Definition scanPGDevice (r : device_row timestamptz) : res store_err Device :=
  Ok {| d_ID := dr_id r; d_Name := dr_name r; d_OS := dr_os r; d_Arch := dr_arch r;
        d_Status := dr_status r; d_RegisteredAt := UTC (dr_registered_at r);
        d_LastSeenAt := UTC <$> dr_last_seen_at r |}.

Definition scanPGHeartbeat (r : heartbeat_row timestamptz) : res store_err Heartbeat :=
  Ok {| hb_ID := hr_id r; hb_DeviceID := hr_device_id r; hb_ReceivedAt := UTC (hr_received_at r);
        hb_CPUPercent := hr_cpu_percent r; hb_MemoryPercent := hr_memory_percent r;
        hb_DiskPercent := hr_disk_percent r; hb_UptimeSeconds := hr_uptime_seconds r;
        hb_OSVersion := hr_os_version r |}.

Definition scanPGDiagnostic (r : diag_row timestamptz) : res store_err DiagnosticResult :=
  Ok {| dg_ID := gr_id r; dg_DeviceID := gr_device_id r; dg_RequestID := gr_request_id r;
        dg_Scope := gr_scope r; dg_RequestedAt := UTC (gr_requested_at r);
        dg_ReceivedAt := UTC <$> gr_received_at r; dg_Payload := scan_payload (gr_payload r);
        dg_Status := "" |}.

Section postgres.
Context `{W : World, P : PgDriver}.

Abbreviation O := (Op (Tables timestamptz) store_err).

(** Statements with text parameters, which the server checks; a negative
    [LIMIT] is an error. *)
Definition pg_exec_insert (args : list string) (skip : nat → Tables timestamptz → Tables timestamptz)
    (f : Tables timestamptz → outcome) : O Z :=
  if forallb pg_text args then db_exec_insert skip f else λ s, (bump s, Err (ErrOther "exec")).

Definition pg_exec (args : list string) : (Tables timestamptz → outcome) → O Z :=
  pg_exec_insert args (λ _ T, T).

Definition pg_query {R} (args : list string) (q : nat → Tables timestamptz → R) : O R :=
  if forallb pg_text args then db_query q else λ s, (bump s, Err (ErrOther "query")).

Definition pg_query_limit {R} (args : list string) (limit : Z)
    (q : nat → Tables timestamptz → R) : O R :=
  if limit <? 0 then λ s, (bump s, Err (ErrOther "query")) else pg_query args q.

Definition Postgres_CreateDevice (req : RegisterRequest) : O Device :=
  hash ← hash_secret (rr_Secret req);
  id ← uuid_New;
  now ← time_Now;
  _ ← wrap "create device"
        (pg_exec [id; rr_Name req; rr_OS req; rr_Arch req]
           (insert_device id (rr_Name req) (rr_OS req) (rr_Arch req) hash (pg_time now)));
  mret {| d_ID := id; d_Name := rr_Name req; d_OS := rr_OS req; d_Arch := rr_Arch req;
          d_Status := StatusUnknown; d_RegisteredAt := now; d_LastSeenAt := None |}.

Definition Postgres_GetDevice (id : string) : O Device :=
  row ← pg_query [id] (λ _, find_device id);
  one_row scanPGDevice row.

Definition Postgres_ListDevices (limit : Z) (cursor : string) : O (list Device * string) :=
  k ← st_lift (page_start cursor);
  let k := (λ p, (pg_time p.1, p.2)) <$> k in
  rows ← wrap "list devices"
           (pg_query_limit (cursor_args k) (limit + 1)
              (λ n, select_devices Z.compare pg_collate n k (limit + 1)));
  devices ← st_lift (collect scanPGDevice rows);
  cut_page limit devices.

Definition Postgres_SetDeviceStatus (id : string) (status : DeviceStatus) : O unit :=
  n ← wrap "set device status" (pg_exec [status; id] (update_device id (set_status status)));
  require_affected n.

Definition Postgres_UpdateLastSeen (id : string) : O unit :=
  now ← time_Now;
  _ ← pg_exec [id] (update_device id (set_last_seen (pg_time now)));
  mret ().

Definition Postgres_InsertHeartbeat (hb : Heartbeat) : O unit :=
  now ← time_Now;
  _ ← pg_exec_insert [hb_DeviceID hb; hb_OSVersion hb] skip_heartbeats
        (insert_heartbeat (hb_DeviceID hb) (pg_time now) (hb_CPUPercent hb)
           (hb_MemoryPercent hb) (hb_DiskPercent hb) (hb_UptimeSeconds hb) (hb_OSVersion hb));
  mret ().

Definition Postgres_ListHeartbeats (deviceID : string) (limit : Z) : O (list Heartbeat) :=
  rows ← wrap "list heartbeats"
           (pg_query_limit [deviceID] limit
              (λ n, select_heartbeats Z.compare n deviceID limit));
  st_lift (collect scanPGHeartbeat rows).

Definition Postgres_CreateDiagnosticRequest (deviceID requestID : string)
    (scope : DiagnosticScope) : O DiagnosticResult :=
  now ← time_Now;
  _ ← wrap "create diagnostic request"
        (pg_exec_insert [deviceID; requestID; scope] skip_diagnostics
           (insert_diagnostic deviceID requestID scope (pg_time now)));
  mret (new_request deviceID requestID scope now).

Definition Postgres_DeleteDiagnosticRequest (requestID : string) : O unit :=
  _ ← wrap "delete diagnostic request" (pg_exec [requestID] (delete_diagnostic requestID));
  mret ().

Definition Postgres_SaveDiagnosticResult (requestID payload : string) : O unit :=
  now ← time_Now;
  n ← wrap "save diagnostic result"
        (pg_exec [payload; requestID]
           (update_diagnostic requestID (answer (pg_time now) payload)));
  require_affected n.

Definition Postgres_ListDiagnosticResults (deviceID : string) (limit : Z)
    : O (list DiagnosticResult) :=
  rows ← wrap "list diagnostics"
           (pg_query_limit [deviceID] limit
              (λ n, select_diagnostics Z.compare n deviceID limit));
  st_lift (collect scanPGDiagnostic rows).

Definition Postgres_GetDiagnosticResult (requestID : string) : O DiagnosticResult :=
  row ← pg_query [requestID] (λ _, find_diagnostic requestID);
  one_row scanPGDiagnostic row.

Definition Postgres : Store (Tables timestamptz) := {|
  Ping := db_ping;
  CreateDevice := Postgres_CreateDevice;
  GetDevice := Postgres_GetDevice;
  ListDevices := Postgres_ListDevices;
  SetDeviceStatus := Postgres_SetDeviceStatus;
  UpdateLastSeen := Postgres_UpdateLastSeen;
  InsertHeartbeat := Postgres_InsertHeartbeat;
  ListHeartbeats := Postgres_ListHeartbeats;
  CreateDiagnosticRequest := Postgres_CreateDiagnosticRequest;
  DeleteDiagnosticRequest := Postgres_DeleteDiagnosticRequest;
  SaveDiagnosticResult := Postgres_SaveDiagnosticResult;
  ListDiagnosticResults := Postgres_ListDiagnosticResults;
  GetDiagnosticResult := Postgres_GetDiagnosticResult
|}.

(** ** Refinement *)

(** The instant a column holds for an instant. *)
Definition pg_round (t : Time) : Time := micros (pg_time t).

(** The specification Postgres meets. *)
Definition postgres_spec : Store (Tables Time) := Spec pg_round pg_collate pg_text.

(** What a time column can hold: whole microseconds. *)
Definition pg_instant (t : Time) : Prop := micros (pg_time t) = t.

Definition postgres_codes : Tables timestamptz → Tables Time → Prop :=
  codes pg_time pg_instant.

Local Abbreviation R := postgres_codes.

Lemma pg_cmp a b : pg_instant a → pg_instant b → (pg_time a ?= pg_time b) = (a ?= b).
Proof using.
  intros Ha Hb. unfold pg_instant in *. symmetry.
  replace (a ?= b) with (micros (pg_time a) ?= micros (pg_time b)) by (by rewrite Ha, Hb).
  apply (compare_mono micros). unfold micros, Microsecond. lia.
Qed.

Lemma scanPGDevice_ok r :
  device_ok pg_instant r → scanPGDevice (map_device pg_time r) = Ok (spec_device r).
Proof using.
  intros [H1 H2]. unfold scanPGDevice, spec_device, UTC, pg_instant in *. simpl. rewrite H1.
  destruct (dr_last_seen_at r); simpl in *; by rewrite ?H2.
Qed.

Lemma scanPGHeartbeat_ok r :
  heartbeat_ok pg_instant r → scanPGHeartbeat (map_heartbeat pg_time r) = Ok (spec_heartbeat r).
Proof using.
  intros H. unfold scanPGHeartbeat, spec_heartbeat, UTC, heartbeat_ok, pg_instant in *. simpl. by rewrite H.
Qed.

Lemma scanPGDiagnostic_ok r :
  diag_ok pg_instant r → scanPGDiagnostic (map_diag pg_time r) = Ok (spec_diagnostic r).
Proof using.
  intros [H1 H2]. unfold scanPGDiagnostic, spec_diagnostic, UTC, pg_instant in *. simpl. rewrite H1.
  destruct (gr_received_at r); simpl in *; by rewrite ?H2.
Qed.

Lemma pg_sim_exec_insert args skip skip' f f' :
  sim_skip pg_time pg_instant skip skip' → sim_outcome pg_time pg_instant f f' →
  sim R eq (pg_exec_insert args skip f) (exec_insert pg_text args skip' f').
Proof using.
  intros Hs Hf. unfold pg_exec_insert, exec_insert. case_match; [by apply sim_exec_insert|].
  by intros [t d] [t' d'] Ht Hd; simpl in *; subst t'.
Qed.

Lemma pg_sim_exec args f f' :
  sim_outcome pg_time pg_instant f f' → sim R eq (pg_exec args f) (exec pg_text args f').
Proof using. by apply pg_sim_exec_insert. Qed.

Lemma pg_sim_query {A A'} (Q : A → A' → Prop) args q q' :
  (∀ n T, tables_ok pg_instant T → Q (q n (map_tables pg_time T)) (q' n T)) →
  sim R Q (pg_query args q) (query pg_text args q').
Proof using.
  intros Hq. unfold pg_query, query. case_match; [by apply sim_query|].
  by intros [t d] [t' d'] Ht Hd; simpl in *; subst t'.
Qed.

Lemma pg_sim_query_limit {A A'} (Q : A → A' → Prop) args limit q q' :
  0 <= limit →
  (∀ n T, tables_ok pg_instant T → Q (q n (map_tables pg_time T)) (q' n T)) →
  sim R Q (pg_query_limit args limit q) (query pg_text args q').
Proof using.
  intros Hl Hq. unfold pg_query_limit. replace (limit <? 0) with false by lia.
  by apply pg_sim_query.
Qed.

Lemma pg_collect {X Y A} (f : X → Y) Q scan (spec : X → A) rows rows' :
  rows_ok f Q rows rows' → (∀ r, Q r → scan (f r) = Ok (spec r)) →
  sim R eq (st_lift (collect scan rows)) (mret (spec <$> rows')).
Proof using.
  intros Hr Hs. rewrite (collect_rows f Q scan spec rows rows') by done. by apply sim_lift.
Qed.

Context `{L : !PgDriverLaws P}.

Lemma pg_round_instant t : pg_instant (pg_round t).
Proof using L. unfold pg_instant, pg_round. by rewrite pg_time_exact. Qed.

Lemma pg_time_round t : pg_time (pg_round t) = pg_time t.
Proof using L. unfold pg_round. apply pg_time_exact. Qed.

Lemma pg_ListDevices limit cursor :
  0 <= limit →
  sim R eq (Postgres_ListDevices limit cursor)
    (spec_ListDevices pg_round pg_collate pg_text limit cursor).
Proof using L.
  intros Hl. unfold Postgres_ListDevices, spec_ListDevices.
  destruct (page_start cursor) as [k|e]; [|apply sim_fail].
  rewrite !st_lift_ok. set (k' := (λ p, (pg_round p.1, p.2)) <$> k).
  replace ((λ p, (pg_time p.1, p.2)) <$> k) with (map_cursor pg_time k')
    by (destruct k as [[t i]|]; simpl; [by rewrite pg_time_round|done]).
  replace (cursor_args (map_cursor pg_time k')) with (cursor_args k') by (by destruct k as [[]|]).
  eapply sim_bind.
  - apply sim_wrap, pg_sim_query_limit; [lia|]. intros n T HT.
    apply (sim_select_devices _ pg_instant); [apply pg_cmp|done|].
    destruct k as [[t i]|]; simpl; [|done]. apply pg_round_instant.
  - intros rows rows' Hr.
    rewrite (collect_rows _ _ _ spec_device _ _ Hr) by apply scanPGDevice_ok.
    rewrite st_lift_ok. apply sim_cut_page.
Qed.

Lemma pg_CreateDevice req :
  sim R eq (Postgres_CreateDevice req) (spec_CreateDevice pg_round pg_text req).
Proof using L.
  apply sim_bind_eq; [apply sim_hash_secret|]. intros hash.
  apply sim_bind_eq; [apply sim_uuid|]. intros id. apply sim_now. intros n.
  apply sim_bind_eq; [|intros _; by apply sim_ret]. apply sim_wrap, pg_sim_exec.
  rewrite <-pg_time_round. apply sim_insert_device, pg_round_instant.
Qed.

Lemma pg_updates :
  (∀ id, sim R eq (Postgres_UpdateLastSeen id) (spec_UpdateLastSeen pg_round pg_text id)) ∧
  (∀ hb, sim R eq (Postgres_InsertHeartbeat hb) (spec_InsertHeartbeat pg_round pg_text hb)) ∧
  (∀ id req sc, sim R eq (Postgres_CreateDiagnosticRequest id req sc)
                  (spec_CreateDiagnosticRequest pg_round pg_text id req sc)) ∧
  (∀ req p, sim R eq (Postgres_SaveDiagnosticResult req p)
              (spec_SaveDiagnosticResult pg_round pg_text req p)).
Proof using L.
  split_and!; intros; apply sim_now; intros n;
    (apply sim_bind_eq; [|intros; (by apply sim_ret) || apply sim_require_affected]);
    try apply sim_wrap.
  - apply pg_sim_exec. rewrite <-pg_time_round. apply sim_update_device. intros r Hr.
    by apply sim_set_last_seen; [apply pg_round_instant|].
  - apply pg_sim_exec_insert; [apply sim_skip_heartbeats|]. rewrite <-pg_time_round.
    apply sim_insert_heartbeat, pg_round_instant.
  - apply pg_sim_exec_insert; [apply sim_skip_diagnostics|]. rewrite <-pg_time_round.
    apply sim_insert_diagnostic, pg_round_instant.
  - apply pg_sim_exec. rewrite <-pg_time_round. apply sim_update_diagnostic. intros r Hr. by apply sim_answer; [apply pg_round_instant|].
Qed.
End postgres.

(** C2: Postgres refines the store's specification at a resolution of one
    microsecond.  From tables that hold the specification's instants, every
    operation called with a limit that is not negative returns the
    specification's result, error or panic, whatever round trips fail, and leaves
    tables that hold its instants, for any collation and any rounding by the
    driver that keeps whole microseconds. *)
Theorem postgres_refines (W : World) (P : PgDriver) :
  PgDriverLaws P → refines postgres_codes Postgres postgres_spec.
Proof.
  intros L. destruct pg_updates as (Hseen & Hhb & Hdiag & Hsave). split; simpl; try done.
  - by apply sim_query.
  - apply pg_CreateDevice.
  - intros id. eapply sim_bind; [by apply pg_sim_query; intros _; apply row_device|].
    intros r r' Hr. eapply sim_one_row; [exact Hr|apply scanPGDevice_ok].
  - intros limit cursor Hl _. by apply pg_ListDevices.
  - intros id st. apply sim_bind_eq; [|apply sim_require_affected].
    apply sim_wrap, pg_sim_exec, sim_update_device, sim_set_status.
  - intros id limit Hl. eapply sim_bind.
    { apply sim_wrap, pg_sim_query_limit; [done|]. intros n T.
      by apply sim_select_heartbeats, pg_cmp. }
    intros rows rows' Hr. eapply pg_collect; [exact Hr|apply scanPGHeartbeat_ok].
  - intros req. apply sim_bind_eq; [|intros _; by apply sim_ret].
    apply sim_wrap, pg_sim_exec, sim_delete_diagnostic.
  - intros id limit Hl. eapply sim_bind.
    { apply sim_wrap, pg_sim_query_limit; [done|]. intros n T.
      by apply sim_select_diagnostics, pg_cmp. }
    intros rows rows' Hr. eapply pg_collect; [exact Hr|apply scanPGDiagnostic_ok].
  - intros req. eapply sim_bind; [by apply pg_sim_query; intros _; apply row_diagnostic|].
    intros r r' Hr. eapply sim_one_row; [exact Hr|apply scanPGDiagnostic_ok].
Qed.

(** A driver that rounds down, a database that orders text by its bytes. *)
Definition test_driver : PgDriver := {|
  pg_time t := t / Microsecond;
  pg_collate := String.compare;
  pg_text s := negb (Contains s (String (byte 0) ""))
|}.

#[export] Instance test_driver_laws : PgDriverLaws test_driver.
Proof.
  split; intros t; simpl; unfold micros, Microsecond; [by rewrite Z.div_mul|div_lia].
Qed.

Lemma postgres_refines_witness :
  (λ (W : World) (P : PgDriver), refines postgres_codes Postgres postgres_spec)
    test_world test_driver.
Proof. exact (postgres_refines test_world test_driver test_driver_laws). Defined.
