(* ===== verification/Pagination.v ===== *)
(** * Walking the pages of the device list (ListDevices of the two backends).

    A client fetches pages with [ListDevices], passing each page's cursor to the
    next call, until a page comes without one.  Against the specification: what
    one page holds, that the walk ends with every device once and in order, and
    that it still lists every device once when the store changes between pages. *)
From Stdlib Require Import QArith Sorted.
From S2P Require Import Prelude GoString GoTime GoJson Model World Keyset Sql Cursor Store Coding SQLite Postgres.
Local Open Scope Z_scope.

(** The client's loop: the page [i] is read from the database as it is then,
    [dbs i]. *)
Fixpoint walk {D} {B : Store D} (dbs : nat → Sys D) (fuel i : nat) (limit : Z) (cursor : string)
    : res store_err (list Device) :=
  match fuel with
  | O => Err (ErrOther "fuel")
  | S fuel =>
      '(page, next) ← (ListDevices limit cursor (dbs i)).2;
      if bool_decide (next = "") then Ok page
      else rest ← walk dbs fuel (S i) limit next; Ok (page ++ rest)
  end.

Definition dev_key (d : Device) : Time * string := (d_RegisteredAt d, d_ID d).

Section pages.
Context `{W : World} (round : Time → Time) (collate : string → string → comparison)
  (accepts : string → bool) `{!CmpOrder collate}.

Local Abbreviation key := (@device_key Time).
Local Abbreviation cmp := (key_cmp Z.compare collate).

#[local] Instance cmp_order : CmpOrder cmp.
Proof. unfold key_cmp. apply _. Qed.

(** Tables whose devices can be listed: identifiers are unique, and every key
    is one a cursor can hold and the time columns keep. *)
Definition row_listable (r : device_row Time) : Prop :=
  cursor_ok (dr_registered_at r) (dr_id r) ∧ round (dr_registered_at r) = dr_registered_at r ∧
  accepts (dr_id r) = true.

Record listable (T : Tables Time) : Prop := {
  li_ids : NoDup (dr_id <$> devices T);
  li_rows : Forall row_listable (devices T)
}.

(** The table in the order of the list. *)
Definition listed (T : Tables Time) : list (device_row Time) :=
  sort_rows (desc key cmp) (devices T).

Lemma listed_perm T : listed T ≡ₚ devices T.
Proof using. apply sort_rows_perm. Qed.

Lemma listed_sorted T : desc_sorted key cmp (listed T).
Proof using CmpOrder0.
  unfold listed, desc_sorted. induction (devices T) as [|x l IH]; simpl; [constructor|].
  apply insert_sorted_sorted; [|..|done]; unfold desc; intros.
  - apply cmp_ge_total, _.
  - eapply (cmp_ge_trans cmp); eassumption.
Qed.

Lemma listed_keys T : listable T → NoDup (key <$> listed T).
Proof using.
  intros [Hids _]. rewrite listed_perm. apply (NoDup_fmap_1 snd).
  rewrite <-list_fmap_compose. exact Hids.
Qed.

(** What is left of the list after a position. *)
Definition rest_of (T : Tables Time) (k : option (Time * string)) : list (device_row Time) :=
  filter (λ r, below key cmp k r = true) (listed T).

Lemma before_below k r :
  before_cursor Z.compare collate k r = below key cmp k r.
Proof using.
  destruct k as [[t i]|]; simpl; [|done]. unfold key_cmp, pair_cmp, device_key. simpl.
  unfold Time. by destruct (dr_registered_at r ?= t).
Qed.

Lemma select_rest n k limit T :
  listable T → 0 <= limit →
  select_devices Z.compare collate n k limit T = take (Z.to_nat limit) (rest_of T k).
Proof using CmpOrder0.
  intros HT Hl. unfold select_devices, sql_limit. replace (limit <? 0) with false by lia.
  f_equal. unfold rest_of.
  assert (Hnd : NoDup (key <$> devices T)) by (rewrite <-listed_perm; by apply listed_keys).
  apply (sorted_query key cmp (devices T)); [done|apply listed_sorted|apply listed_perm|..].
  - apply order_rows_sorted; unfold desc; intros.
    + apply cmp_ge_total, _.
    + eapply (cmp_ge_trans cmp); eassumption.
  - rewrite order_rows_perm. erewrite list_filter_iff; [done|]. intros r. by rewrite before_below.
Qed.

(** A page: the next [limit] devices, and a cursor iff there are more. *)
Definition page_at (limit : Z) (T : Tables Time) (k : option (Time * string))
    : list (device_row Time) := take (Z.to_nat limit) (rest_of T k).

Definition next_at (limit : Z) (T : Tables Time) (k : option (Time * string)) : string :=
  if Z.of_nat (length (rest_of T k)) <=? limit then ""
  else match last (page_at limit T k) with
       | Some r => encodeDeviceCursor (dr_registered_at r) (dr_id r)
       | None => ""
       end.

(** The positions a walk passes. *)
Inductive position : string → option (Time * string) → Prop :=
  | pos_start : position "" None
  | pos_after t i :
      cursor_ok t i → round t = t → accepts i = true →
      position (encodeDeviceCursor t i) (Some (t, i)).

Lemma position_start cursor k :
  position cursor k → page_start cursor = Ok k ∧ (λ p, (round p.1, p.2)) <$> k = k ∧
    forallb accepts (cursor_args k) = true.
Proof using.
  unfold page_start. destruct 1 as [|t i Hc Hr Ha]; [done|].
  rewrite bool_decide_eq_false_2 by (apply encode_cursor_nonempty, Hc).
  rewrite decode_encode_cursor by done. simpl. by rewrite Hr, Ha.
Qed.

Lemma position_year cursor k t i :
  position cursor k → page_start cursor = Ok (Some (t, i)) → rfc_year t.
Proof using.
  intros Hp Hk. destruct (position_start _ _ Hp) as [Hs _]. rewrite Hk in Hs. simplify_eq.
  inversion Hp as [|? ? [Hy _]]; by subst.
Qed.

Lemma cut_page_rows limit (T : Tables Time) k (s : Sys (Tables Time)) :
  1 <= limit →
  cut_page limit (spec_device <$> take (Z.to_nat (limit + 1)) (rest_of T k)) s =
    (s, Ok (spec_device <$> page_at limit T k, next_at limit T k)).
Proof using.
  intros Hl. unfold cut_page, next_at, page_at. rewrite length_fmap, length_take.
  destruct (Z.leb_spec (Z.of_nat (length (rest_of T k))) limit) as [Hle|Hgt].
  - rewrite (proj2 (Z.leb_le _ limit)), !take_ge by lia. done.
  - rewrite (proj2 (Z.leb_gt _ limit)) by lia. replace (limit <? 0) with false by lia.
    rewrite <-fmap_take, take_take, Nat.min_l by lia. rewrite fmap_last.
    destruct (last _) as [r|] eqn:E; [done|].
    apply last_None in E. apply (f_equal length) in E. rewrite length_take in E. simpl in E. lia.
Qed.

(** The specification's [ListDevices], when the round trip succeeds. *)
Lemma spec_list_page limit cursor k s :
  1 <= limit → listable (dat s) → position cursor k → io_at (tick s) = IoOk →
  spec_ListDevices round collate accepts limit cursor s =
    (bump s, Ok (spec_device <$> page_at limit (dat s) k, next_at limit (dat s) k)).
Proof using CmpOrder0.
  intros Hl HT Hp Hio. destruct (position_start _ _ Hp) as (Hs & Hk & Ha).
  unfold spec_ListDevices. rewrite Hs, st_lift_ok, Hk. unfold query. rewrite Ha.
  unfold wrap, db_query. unfold mbind at 1, st_bind at 1. rewrite Hio.
  rewrite select_rest by (done || lia). by apply cut_page_rows.
Qed.

(** A page with a cursor is followed by the rest of the list. *)
Lemma next_position limit T k :
  1 <= limit → listable T → next_at limit T k ≠ "" →
  ∃ r, last (page_at limit T k) = Some r ∧ r ∈ listed T ∧
    position (next_at limit T k) (Some (key r)) ∧
    (limit < Z.of_nat (length (rest_of T k))).
Proof using.
  intros Hl [_ Hrows] Hne. unfold next_at in *. case_match eqn:E; [done|].
  apply Z.leb_gt in E. destruct (last (page_at limit T k)) as [r|] eqn:Hr; [|done].
  assert (Hin : r ∈ listed T).
  { apply last_Some_elem_of in Hr. unfold page_at in Hr.
    apply elem_of_take in Hr as (i & Hi & _). apply list_elem_of_lookup_2 in Hi.
    by apply list_elem_of_filter in Hi as [_ Hi]. }
  exists r. split_and!; [done|done| |done].
  rewrite listed_perm in Hin. rewrite Forall_forall in Hrows.
  destruct (Hrows r Hin) as (H1 & H2 & H3). by constructor.
Qed.

Lemma next_end limit T k :
  1 <= limit → listable T → next_at limit T k = "" →
  Z.of_nat (length (rest_of T k)) <= limit.
Proof using.
  intros Hl [_ Hrows] Hn. unfold next_at in Hn. case_match eqn:E; [by apply Z.leb_le in E|].
  apply Z.leb_gt in E. destruct (last (page_at limit T k)) as [r|] eqn:Hr.
  - exfalso. apply last_Some_elem_of in Hr. unfold page_at in Hr.
    apply elem_of_take in Hr as (i & Hi & _). apply list_elem_of_lookup_2 in Hi.
    apply list_elem_of_filter in Hi as [_ Hi]. rewrite listed_perm in Hi.
    rewrite Forall_forall in Hrows. destruct (Hrows r Hi) as [[Hy _] _].
    by apply (encode_cursor_nonempty _ (dr_id r)) in Hy.
  - apply last_None in Hr. apply (f_equal length) in Hr. unfold page_at in Hr.
    rewrite length_take in Hr. simpl in Hr. lia.
Qed.

(** ** Keys below a position *)

Definition bk (k : option (Time * string)) (x : Time * string) : bool :=
  match k with None => true | Some k => match cmp x k with Lt => true | _ => false end end.

Definition left_of (K : list (Time * string)) k := filter (λ x, bk k x = true) K.

Lemma bk_trans k x y : bk k x = true → bk (Some x) y = true → bk k y = true.
Proof using CmpOrder0.
  destruct k as [k|]; simpl; [|done]. intros H1 H2.
  destruct (cmp x k) eqn:E1; try done. destruct (cmp y x) eqn:E2; try done.
  by rewrite (World.cmp_trans y x k).
Qed.

Lemma bk_irrefl x : bk (Some x) x = false.
Proof using CmpOrder0. simpl. by rewrite (cmp_refl cmp). Qed.

Lemma left_of_shorter K k x :
  x ∈ K → bk k x = true → (length (left_of K (Some x)) < length (left_of K k))%nat.
Proof using CmpOrder0.
  intros Hx Hk. replace (left_of K (Some x)) with (left_of (left_of K k) (Some x)).
  - apply (length_filter_lt _ _ x); [by apply list_elem_of_filter|].
    by rewrite (bk_irrefl x).
  - unfold left_of. rewrite list_filter_filter. apply list_filter_iff. intros y.
    split; [tauto|]. intros Hy. split; [done|]. by eapply bk_trans.
Qed.

Lemma rest_elem T k r :
  r ∈ rest_of T k ↔ bk k (key r) = true ∧ r ∈ devices T.
Proof using. unfold rest_of. rewrite list_elem_of_filter, listed_perm. done. Qed.

(** The rows of the page are above the rest. *)
Lemma page_split limit T k r :
  1 <= limit → listable T → last (page_at limit T k) = Some r →
  (limit < Z.of_nat (length (rest_of T k))) →
  ∃ p, page_at limit T k = p ++ [r] ∧
    (∀ x, x ∈ page_at limit T k → x = r ∨ bk (Some (key x)) (key r) = true) ∧
    (∀ x, x ∈ rest_of T k → x ∈ page_at limit T k ∨ bk (Some (key r)) (key x) = true).
Proof using CmpOrder0.
  intros Hl HT Hr Hlt. apply last_Some in Hr as [p Hp]. exists p. split; [done|].
  set (q := drop (Z.to_nat limit) (rest_of T k)).
  assert (Hq : rest_of T k = p ++ r :: q).
  { rewrite <-(take_drop (Z.to_nat limit) (rest_of T k)). fold (page_at limit T k).
    rewrite Hp, <-app_assoc. done. }
  assert (Hs : desc_sorted key cmp (p ++ r :: q)).
  { rewrite <-Hq. apply desc_sorted_filter, listed_sorted. }
  assert (Hnd : NoDup (key <$> (p ++ r :: q))).
  { rewrite <-Hq. eapply sublist_NoDup; [by apply listed_keys|].
    apply fmap_sublist, sublist_filter. }
  pose proof (filter_below_split key cmp p r q Hs Hnd) as Hb.
  split.
  - intros x Hx. rewrite Hp in Hx. apply elem_of_app in Hx as [Hx| ->%list_elem_of_singleton];
      [right|by left].
    apply StronglySorted_app in Hs as (Hc & _ & _).
    specialize (Hc x r Hx ltac:(set_solver)). unfold desc in Hc. unfold cmp_ge in Hc.
    simpl. rewrite (cmp_opp (key x) (key r)).
    destruct (cmp (key x) (key r)) eqn:E; simpl; try done.
    exfalso. apply cmp_eq in E. rewrite fmap_app, fmap_cons, NoDup_app in Hnd.
    destruct Hnd as (_ & Hnd & _). apply (Hnd (key x)); [by apply list_elem_of_fmap_2|].
    rewrite E. set_solver.
  - intros x Hx. rewrite Hp. rewrite Hq in Hx. apply elem_of_app in Hx as [Hx|Hx]; [set_solver|].
    apply elem_of_cons in Hx as [->|Hx]; [set_solver|]. right.
    rewrite <-Hb in Hx. apply list_elem_of_filter in Hx as [Hx _]. exact Hx.
Qed.

Definition newest_first (l : list Device) : Prop :=
  StronglySorted (λ d d', bk (Some (dev_key d)) (dev_key d') = true) l.

Lemma strict_sorted l :
  desc_sorted key cmp l → NoDup (key <$> l) → newest_first (spec_device <$> l).
Proof using CmpOrder0.
  unfold newest_first. induction 1 as [|x l Hs IH Hx]; csimpl; intros Hnd; [constructor|].
  apply NoDup_cons in Hnd as [Hnin Hnd]. constructor; [by apply IH|].
  rewrite Forall_fmap. apply Forall_forall. intros y Hy.
  rewrite Forall_forall in Hx. specialize (Hx y Hy). unfold desc, cmp_ge in Hx.
  change (bk (Some (key x)) (key y) = true). unfold bk. rewrite (cmp_opp (key x) (key y)).
  destruct (cmp (key x) (key y)) eqn:E; simpl; try done.
  exfalso. apply cmp_eq in E. apply Hnin. rewrite E. by apply list_elem_of_fmap_2.
Qed.

Lemma rest_newest_first T k : listable T → newest_first (spec_device <$> rest_of T k).
Proof using CmpOrder0.
  intros HT. apply strict_sorted; [apply desc_sorted_filter, listed_sorted|].
  eapply sublist_NoDup; [by apply listed_keys|]. apply fmap_sublist, sublist_filter.
Qed.

Lemma page_newest_first limit T k : listable T → newest_first (spec_device <$> page_at limit T k).
Proof using CmpOrder0.
  intros HT. pose proof (rest_newest_first T k HT) as H. unfold page_at, newest_first in *.
  rewrite <-(take_drop (Z.to_nat limit) (rest_of T k)), fmap_app in H.
  by apply StronglySorted_app in H as (_ & H & _).
Qed.

Section walk.
Context {D : Type} {S : Store D} (R : D → Tables Time → Prop)
  (Href : refines R S (Spec round collate accepts)) (Hio : reliable W)
  (dbs : nat → Sys D) (Ts : nat → Tables Time) (K : list (Time * string)) (limit : Z).
Hypothesis Hlimit : 1 <= limit.
Hypothesis Hdb : ∀ i, R (dat (dbs i)) (Ts i).
Hypothesis Hlist : ∀ i, listable (Ts i).
Hypothesis Hgrow : ∀ i, key <$> devices (Ts i) ⊆ key <$> devices (Ts (Datatypes.S i)).
Hypothesis HK : ∀ i, key <$> devices (Ts i) ⊆ K.

Lemma list_step i cursor k :
  position cursor k →
  (ListDevices limit cursor (dbs i)).2 =
    Ok (spec_device <$> page_at limit (Ts i) k, next_at limit (Ts i) k).
Proof using CmpOrder0 Href Hio Hlimit Hdb Hlist.
  intros Hp. pose proof (ref_ListDevices _ _ _ Href limit cursor ltac:(lia)) as Hsim.
  specialize (Hsim (λ t j, position_year _ _ t j Hp)).
  rewrite (sim_result R _ _ (dbs i) (MkSys (tick (dbs i)) (Ts i)) Hsim) by done.
  cbn [Spec ListDevices]. by rewrite (spec_list_page _ _ k) by (apply Hio || done || apply Hlist).
Qed.

(** From a position on: what is returned, in order, and that nothing present
    when the page is read is left out. *)
Definition walk_result (i : nat) k (l : list Device) : Prop :=
  newest_first l ∧
  (∀ d, d ∈ l → bk k (dev_key d) = true ∧
                ∃ j r, r ∈ devices (Ts j) ∧ d = spec_device r) ∧
  (∀ r, r ∈ devices (Ts i) → bk k (key r) = true → key r ∈ dev_key <$> l).

Lemma page_result i k d :
  d ∈ spec_device <$> rest_of (Ts i) k →
  bk k (dev_key d) = true ∧ ∃ j r, r ∈ devices (Ts j) ∧ d = spec_device r.
Proof using.
  intros Hd. apply list_elem_of_fmap in Hd as (r & -> & Hr).
  apply rest_elem in Hr as [Hb Hr]. split; [exact Hb|by exists i, r].
Qed.

Lemma walk_from fuel i cursor k :
  position cursor k → (length (left_of K k) < fuel)%nat →
  ∃ l, walk dbs fuel i limit cursor = Ok l ∧ walk_result i k l.
Proof using CmpOrder0 Href Hio Hlimit Hdb Hlist Hgrow HK.
  revert i cursor k. induction fuel as [|fuel IH]; intros i cursor k Hp Hf; [lia|].
  simpl. rewrite (list_step i cursor k Hp). simpl.
  case_bool_decide as Hn.
  - apply next_end in Hn; [|done..].
    assert (Hpage : page_at limit (Ts i) k = rest_of (Ts i) k) by (apply take_ge; lia).
    eexists. split; [done|]. rewrite Hpage. split_and!.
    + by apply rest_newest_first.
    + apply page_result.
    + intros r Hr Hb. rewrite <-list_fmap_compose. apply (list_elem_of_fmap_2 key).
      by apply rest_elem.
  - destruct (next_position limit (Ts i) k Hlimit (Hlist i) Hn) as (r & Hr & Hin & Hpos & Hlt).
    destruct (page_split limit (Ts i) k r Hlimit (Hlist i) Hr Hlt) as (p & Hp' & Hpre & Hpost).
    assert (Hrk : bk k (key r) = true ∧ r ∈ devices (Ts i)).
    { apply rest_elem. apply last_Some_elem_of in Hr. unfold page_at in Hr.
      by eapply subseteq_take. }
    destruct Hrk as [Hrk Hrd].
    destruct (IH (Datatypes.S i) _ _ Hpos) as (l & -> & Hl1 & Hl2 & Hl3).
    { pose proof (left_of_shorter K k (key r)) as Hs. specialize (Hs ltac:(set_solver) Hrk). lia. }
    eexists. split; [done|]. split_and!.
    + apply StronglySorted_app. split_and!; [|by apply page_newest_first|done].
      intros d d' Hd Hd'. apply list_elem_of_fmap in Hd as (x & -> & Hx).
      destruct (Hl2 d' Hd') as [Hb _].
      destruct (Hpre x Hx) as [->|Hx']; [exact Hb|]. by eapply (bk_trans (Some (key x))).
    + intros d Hd. apply elem_of_app in Hd as [Hd|Hd].
      * apply (page_result i). apply list_elem_of_fmap in Hd as (x & -> & Hx).
        apply list_elem_of_fmap_2. unfold page_at in Hx. by eapply subseteq_take.
      * destruct (Hl2 d Hd) as [Hb Hd2]. split; [|done]. by eapply bk_trans.
    + intros x Hx Hb. rewrite fmap_app. apply elem_of_app.
      destruct (Hpost x) as [Hx'|Hx']; [by apply rest_elem|left|right].
      * rewrite <-list_fmap_compose. by apply (list_elem_of_fmap_2 key).
      * assert (Hk : key x ∈ key <$> devices (Ts (Datatypes.S i))).
        { apply Hgrow. by apply list_elem_of_fmap_2. }
        apply list_elem_of_fmap in Hk as (x' & Hxx & Hx'in).
        rewrite Hxx. apply Hl3; [done|]. by rewrite <-Hxx.
Qed.
End walk.
End pages.

(** The store between two pages of a walk: devices may be added and rows updated,
    within the devices of [Tf]. *)
Record growing {D} (round : Time → Time) (accepts : string → bool)
    (R : D → Tables Time → Prop) (dbs : nat → Sys D) (Ts : nat → Tables Time)
    (Tf : Tables Time) : Prop := {
  gr_db i : R (dat (dbs i)) (Ts i);
  gr_listable i : listable round accepts (Ts i);
  gr_grow i : device_key <$> devices (Ts i) ⊆ device_key <$> devices (Ts (S i));
  gr_bound i : device_key <$> devices (Ts i) ⊆ device_key <$> devices Tf;
  gr_ids : NoDup (dr_id <$> devices Tf)
}.

(** A descending list of keys with unique identifiers repeats none of them. *)
Lemma newest_first_ids collate `{!CmpOrder collate} l K :
  newest_first collate l → dev_key <$> l ⊆ K → NoDup (snd <$> K) → NoDup (d_ID <$> l).
Proof.
  intros Hl HK Hnd. induction Hl as [|d l Hl IH Hd]; csimpl; [constructor|].
  constructor; [|apply IH; set_solver].
  intros Hin. apply list_elem_of_fmap in Hin as (d' & Heq & Hd').
  assert (dev_key d = dev_key d') as Hk.
  { eapply NoDup_keys_inj with (key := snd) (l := K); [done|set_solver..|done]. }
  rewrite Forall_forall in Hd. specialize (Hd d' Hd'). rewrite Hk in Hd.
  by rewrite bk_irrefl in Hd.
Qed.

Lemma walk_all {D} `{W : World} round collate accepts `{!CmpOrder collate} (S : Store D) R dbs Ts Tf
    limit fuel :
  refines R S (Spec round collate accepts) → reliable W →
  growing round accepts R dbs Ts Tf → 1 <= limit → (length (devices Tf) < fuel)%nat →
  ∃ l, walk dbs fuel 0 limit "" = Ok l ∧ newest_first collate l ∧ NoDup (d_ID <$> l) ∧
    (∀ r, r ∈ devices (Ts 0%nat) → device_key r ∈ dev_key <$> l) ∧
    (∀ d, d ∈ l → ∃ i r, r ∈ devices (Ts i) ∧ d = spec_device r).
Proof.
  intros Href Hio [Hdb Hli Hgr Hb Hid] Hl Hf.
  destruct (walk_from round collate accepts R Href Hio dbs Ts (device_key <$> devices Tf)
              limit Hl Hdb Hli Hgr Hb fuel 0 "" None) as (l & Hw & H1 & H2 & H3).
  { constructor. }
  { eapply Nat.le_lt_trans; [apply length_filter|]. by rewrite length_fmap. }
  exists l. split_and!; [done..| | |].
  - apply (newest_first_ids collate l (device_key <$> devices Tf)); [done|..].
    + intros x Hx. apply list_elem_of_fmap in Hx as (d & -> & Hd).
      destruct (H2 d Hd) as (_ & i & r & Hr & ->). apply (Hb i).
      change (dev_key (spec_device r)) with (device_key r). by apply list_elem_of_fmap_2.
    + by rewrite <-list_fmap_compose.
  - intros r Hr. by apply H3.
  - intros d Hd. by apply H2.
Qed.

(** C5: a client that walks the pages sees every device exactly once.  Whatever
    the page size and however the store changes between two pages (devices
    registered, statuses updated; the program never deletes a device), the walk
    ends within one page more than there are devices, lists newest first, repeats
    no device, leaves out none that was there when it began, and lists only
    devices the store held.  This holds of every store that refines the
    specification. *)
Theorem walk_lists_every_device {D} `{W : World} round collate accepts `{!CmpOrder collate}
    (S : Store D) R dbs Ts Tf limit fuel :
  refines R S (Spec round collate accepts) → reliable W →
  growing round accepts R dbs Ts Tf → 1 <= limit → (length (devices Tf) < fuel)%nat →
  ∃ l, walk dbs fuel 0 limit "" = Ok l ∧ newest_first collate l ∧ NoDup (d_ID <$> l) ∧
    (∀ r, r ∈ devices (Ts 0%nat) → device_key r ∈ dev_key <$> l) ∧
    (∀ d, d ∈ l → ∃ i r, r ∈ devices (Ts i) ∧ d = spec_device r).
Proof. exact (walk_all round collate accepts S R dbs Ts Tf limit fuel). Qed.

(** ** A walk of a SQLite store while a device is registered *)

Definition dev_row (i : string) (s : Z) (status : string) : device_row Time :=
  DeviceRow i "n" OSLinux "amd64" "h" status (s * Second) None.

Definition table_of (l : list (device_row Time)) : Tables Time := MkTables l [] [] 1 1.

Definition walk_tables (i : nat) : Tables Time :=
  match i with
  | O => table_of [dev_row "a" 1721570645 "online"; dev_row "b" 1721570645 "unknown";
                   dev_row "c" 1721570640 "unknown"]
  | _ => table_of [dev_row "a" 1721570645 "offline"; dev_row "b" 1721570645 "unknown";
                   dev_row "c" 1721570640 "unknown"; dev_row "d" 1721570641 "unknown"]
  end.

Definition walk_dbs (i : nat) : Sys (Tables string) :=
  MkSys i (map_tables Format_RFC3339 (walk_tables i)).

Lemma walk_growing :
  growing trunc_sec (λ _, true) sqlite_codes walk_dbs walk_tables (walk_tables 1).
Proof.
  assert (Hrow : ∀ i s st, bool_decide (cursor_ok (s * Second) i) = true →
            row_listable trunc_sec (λ _, true) (dev_row i s st)).
  { intros i s st H%bool_decide_eq_true_1. split_and!; [done| |done]. simpl.
    unfold trunc_sec, unix_sec, Second. by rewrite Z.div_mul. }
  assert (Hok : ∀ i s st, bool_decide (cursor_ok (s * Second) i) = true →
            device_ok sqlite_time (dev_row i s st)).
  { intros i s st H%bool_decide_eq_true_1. split; [|done]. split; [apply H|]. simpl.
    unfold trunc_sec, unix_sec, Second. by rewrite Z.div_mul. }
  split.
  - intros i. split; [done|]. split; [|by destruct i..].
    destruct i; simpl; repeat (constructor; [by apply Hok; vm_compute|]); constructor.
  - intros i. split; destruct i.
    1,2: apply (bool_decide_eq_true_1 _); by vm_compute.
    all: simpl; repeat (constructor; [by apply Hrow; vm_compute|]); constructor.
  - intros [|i]; [|done]. simpl. set_solver.
  - intros [|i]; [|done]. simpl. set_solver.
  - apply (bool_decide_eq_true_1 _). by vm_compute.
Qed.

Lemma walk_lists_every_device_witness :
  (λ W : World, ∃ l, walk (B := SQLite) walk_dbs 5 0 2 "" = Ok l ∧ newest_first String.compare l ∧
     NoDup (d_ID <$> l) ∧
     (∀ r, r ∈ devices (walk_tables 0) → device_key r ∈ dev_key <$> l) ∧
     (∀ d, d ∈ l → ∃ i r, r ∈ devices (walk_tables i) ∧ d = spec_device r)) test_world.
Proof.
  refine (walk_lists_every_device (W := test_world) trunc_sec String.compare (λ _, true) SQLite
            sqlite_codes walk_dbs walk_tables (walk_tables 1) 2 5 _ _ walk_growing _ _).
  - apply sqlite_refines_proof, test_world_clock.
  - exact test_world_reliable.
  - lia.
  - simpl. lia.
Defined.
