(* ===== verification/StoreFacts.v ===== *)
(** * What the store guarantees.

    Theorems about the specification that both backends refine: the integrity of
    the tables under every call and every failure, and what the calls do to
    devices and diagnostic requests. *)
From Stdlib Require Import QArith.
From S2P Require Import Prelude GoString GoTime GoJson Model World Keyset Sql Cursor Store Coding SQLite Postgres Pagination.
Local Open Scope Z_scope.

(** What a time column does to an instant. *)
Class RoundLaws (round : Time → Time) : Prop := {
  round_idem t : round (round t) = round t;
  round_near t : - Second < round t - t < Second
}.

#[export] Instance trunc_sec_round : RoundLaws trunc_sec.
Proof.
  split; [apply trunc_sec_idem|]. intros t. pose proof (trunc_sec_bounds t). lia.
Qed.

#[export] Instance pg_round_round `{P : PgDriver} `{!PgDriverLaws P} : RoundLaws pg_round.
Proof.
  split; intros t; unfold pg_round; [by rewrite pg_time_exact|].
  pose proof (pg_time_near t). unfold Microsecond, Second in *. lia.
Qed.

(** ** Operations that keep a property of the tables *)

Definition preserves {D E A} (P : D → Prop) (m : Op D E A) : Prop :=
  ∀ s, P (dat s) → P (dat (m s).1).

Section preserves.
Context `{W : World} {D : Type} (P : D → Prop).

Lemma preserves_ret {E A} (a : A) : preserves (E := E) P (mret a).
Proof. by intros s. Qed.

Lemma preserves_fail {E A} (e : E) : preserves (A := A) P (st_fail e).
Proof. by intros s. Qed.

Lemma preserves_lift {E A} (r : res E A) : preserves P (st_lift r).
Proof. by intros s. Qed.

Lemma preserves_bind {E A B} (m : Op D E A) (f : A → Op D E B) :
  preserves P m → (∀ a, preserves P (f a)) → preserves P (m ≫= f).
Proof using.
  intros Hm Hf s Hs. specialize (Hm s Hs). unfold mbind, st_bind.
  destruct (m s) as [s' [a|e]]; [by apply Hf|done].
Qed.

Lemma preserves_now {E B} (f : Time → Op D E B) :
  (∀ n, preserves P (f (now_at n))) → preserves P (time_Now ≫= f).
Proof using. intros Hf s Hs. apply (Hf (tick s) (bump s) Hs). Qed.

Lemma preserves_uuid {E B} (f : string → Op D E B) :
  (∀ n, preserves P (f (uuid_at n))) → preserves P (uuid_New ≫= f).
Proof using. intros Hf s Hs. apply (Hf (tick s) (bump s) Hs). Qed.

Lemma preserves_wrap {A} what (m : Op D store_err A) :
  preserves P m → preserves P (wrap what m).
Proof using.
  intros Hm s Hs. specialize (Hm s Hs). unfold wrap. by destruct (m s) as [s' [|[]]].
Qed.
End preserves.

Section preserves_sql.
Context `{W : World} (accepts : string → bool) (P : Tables Time → Prop).

Lemma preserves_hash s : preserves P (hash_secret s).
Proof. by intros [t d] Hd. Qed.

Lemma preserves_affected n : preserves P (require_affected n).
Proof. unfold require_affected. case_match; [apply preserves_fail|apply preserves_ret]. Qed.

Lemma preserves_cut limit l : preserves P (cut_page limit l).
Proof. unfold cut_page. repeat case_match; (apply preserves_fail || apply preserves_ret). Qed.

Lemma preserves_db_query {R} (q : nat → Tables Time → R) : preserves P (db_query q).
Proof. intros [t d] Hd. unfold db_query. simpl. by destruct (io_at t). Qed.

Lemma preserves_query {R} args (q : nat → Tables Time → R) :
  preserves P (query accepts args q).
Proof. unfold query. case_match; [apply preserves_db_query|by intros s]. Qed.

Lemma preserves_exec_insert args skip f :
  (∀ k T, P T → P (skip k T)) →
  (∀ T T' n, forallb accepts args = true → f T = Some (T', n) → P T → P T') →
  preserves P (exec_insert accepts args skip f).
Proof using.
  intros Hs Hf. unfold exec_insert. destruct (forallb accepts args) eqn:Ha; [|by intros s].
  intros [t d] Hd. unfold db_exec_insert. simpl. specialize (Hf d).
  destruct (io_at t), (f d) as [[T n]|]; simpl; eauto.
Qed.

Lemma preserves_exec args f :
  (∀ T T' n, forallb accepts args = true → f T = Some (T', n) → P T → P T') →
  preserves P (exec accepts args f).
Proof using. by apply preserves_exec_insert. Qed.
End preserves_sql.

(** ** The calls of the interface *)

Inductive store_call : Type :=
  | CallPing
  | CallCreateDevice (req : RegisterRequest)
  | CallGetDevice (id : string)
  | CallListDevices (limit : Z) (cursor : string)
  | CallSetDeviceStatus (id : string) (status : DeviceStatus)
  | CallUpdateLastSeen (id : string)
  | CallInsertHeartbeat (hb : Heartbeat)
  | CallListHeartbeats (id : string) (limit : Z)
  | CallCreateDiagnosticRequest (id req : string) (scope : DiagnosticScope)
  | CallDeleteDiagnosticRequest (req : string)
  | CallSaveDiagnosticResult (req payload : string)
  | CallListDiagnosticResults (id : string) (limit : Z)
  | CallGetDiagnosticResult (req : string).

Definition call {D} `{Store D} (c : store_call) : Op D store_err unit :=
  match c with
  | CallPing => Ping
  | CallCreateDevice req => _ ← CreateDevice req; mret ()
  | CallGetDevice id => _ ← GetDevice id; mret ()
  | CallListDevices limit cursor => _ ← ListDevices limit cursor; mret ()
  | CallSetDeviceStatus id st => SetDeviceStatus id st
  | CallUpdateLastSeen id => UpdateLastSeen id
  | CallInsertHeartbeat hb => InsertHeartbeat hb
  | CallListHeartbeats id limit => _ ← ListHeartbeats id limit; mret ()
  | CallCreateDiagnosticRequest id req sc => _ ← CreateDiagnosticRequest id req sc; mret ()
  | CallDeleteDiagnosticRequest req => DeleteDiagnosticRequest req
  | CallSaveDiagnosticResult req p => SaveDiagnosticResult req p
  | CallListDiagnosticResults id limit => _ ← ListDiagnosticResults id limit; mret ()
  | CallGetDiagnosticResult req => _ ← GetDiagnosticResult req; mret ()
  end.

(** What the statements of the specification may do to the tables. *)
Record step_ok (round : Time → Time) (accepts : string → bool) `{World}
    (P : Tables Time → Prop) : Prop := {
  so_insert_device n m name os arch hash T T' k :
    accepts (uuid_at n) = true →
    insert_device (uuid_at n) name os arch hash (round (now_at m)) T = Some (T', k) → P T → P T';
  so_set_status id st T T' k : update_device id (set_status st) T = Some (T', k) → P T → P T';
  so_set_last_seen id m T T' k :
    update_device id (set_last_seen (round (now_at m))) T = Some (T', k) → P T → P T';
  so_insert_heartbeat dev m cpu mem disk up osv T T' k :
    insert_heartbeat dev (round (now_at m)) cpu mem disk up osv T = Some (T', k) → P T → P T';
  so_insert_diagnostic dev req scope m T T' k :
    insert_diagnostic dev req scope (round (now_at m)) T = Some (T', k) → P T → P T';
  so_answer req m p T T' k :
    update_diagnostic req (answer (round (now_at m)) p) T = Some (T', k) → P T → P T';
  so_delete req T T' k : delete_diagnostic req T = Some (T', k) → P T → P T';
  so_skip_heartbeats k T : P T → P (skip_heartbeats k T);
  so_skip_diagnostics k T : P T → P (skip_diagnostics k T)
}.

Lemma call_preserves `{W : World} round collate accepts P c :
  step_ok round accepts P → preserves P (call (H := Spec round collate accepts) c).
Proof.
  intros HP. destruct c; simpl.
  - apply preserves_db_query.
  - apply preserves_bind; [|intros; apply preserves_ret].
    apply preserves_bind; [apply preserves_hash|intros h]. apply preserves_uuid; intros n.
    apply preserves_now; intros m. apply preserves_bind; [|intros; apply preserves_ret].
    apply preserves_wrap, preserves_exec. intros T T' k Ha. apply (so_insert_device _ _ _ HP).
    simpl in Ha. by bool_prop.
  - apply preserves_bind; [|intros; apply preserves_ret]. apply preserves_bind; [apply preserves_query|].
    intros []; (apply preserves_ret || apply preserves_fail).
  - apply preserves_bind; [|intros; apply preserves_ret]. apply preserves_bind; [apply preserves_lift|].
    intros k. apply preserves_bind; [apply preserves_wrap, preserves_query|intros; apply preserves_cut].
  - apply preserves_bind; [|intros; apply preserves_affected]. apply preserves_wrap, preserves_exec.
    intros T T' k _. apply (so_set_status _ _ _ HP).
  - apply preserves_now; intros m. apply preserves_bind; [|intros; apply preserves_ret].
    apply preserves_exec. intros T T' k _. apply (so_set_last_seen _ _ _ HP).
  - apply preserves_now; intros m. apply preserves_bind; [|intros; apply preserves_ret].
    apply preserves_exec_insert; [apply (so_skip_heartbeats _ _ _ HP)|].
    intros T T' k _. apply (so_insert_heartbeat _ _ _ HP).
  - apply preserves_bind; [|intros; apply preserves_ret].
    apply preserves_bind; [apply preserves_wrap, preserves_query|intros; apply preserves_ret].
  - apply preserves_bind; [|intros; apply preserves_ret]. apply preserves_now; intros m.
    apply preserves_bind; [|intros; apply preserves_ret]. apply preserves_wrap.
    apply preserves_exec_insert; [apply (so_skip_diagnostics _ _ _ HP)|].
    intros T T' k _. apply (so_insert_diagnostic _ _ _ HP).
  - apply preserves_bind; [|intros; apply preserves_ret]. apply preserves_wrap, preserves_exec.
    intros T T' k _. apply (so_delete _ _ _ HP).
  - apply preserves_now; intros m. apply preserves_bind; [|intros; apply preserves_affected].
    apply preserves_wrap, preserves_exec. intros T T' k _. apply (so_answer _ _ _ HP).
  - apply preserves_bind; [|intros; apply preserves_ret].
    apply preserves_bind; [apply preserves_wrap, preserves_query|intros; apply preserves_ret].
  - apply preserves_bind; [|intros; apply preserves_ret]. apply preserves_bind; [apply preserves_query|].
    intros []; (apply preserves_ret || apply preserves_fail).
Qed.

(** ** Integrity of the tables *)

Record tables_wf (round : Time → Time) (accepts : string → bool) (T : Tables Time) : Prop := {
  wf_listable : listable round accepts T;
  wf_requests : NoDup (gr_request_id <$> diagnostic_results T);
  wf_hb_device : Forall (λ h, hr_device_id h ∈ dr_id <$> devices T) (heartbeats T);
  wf_dg_device : Forall (λ g, gr_device_id g ∈ dr_id <$> devices T) (diagnostic_results T);
  wf_hb_seq : Forall (λ h, hr_id h < heartbeats_seq T) (heartbeats T);
  wf_hb_ids : NoDup (hr_id <$> heartbeats T);
  wf_dg_seq : Forall (λ g, gr_id g < diagnostics_seq T) (diagnostic_results T);
  wf_dg_ids : NoDup (gr_id <$> diagnostic_results T);
  wf_answered : Forall (λ g, is_Some (gr_received_at g) ↔ is_Some (gr_payload g))
                  (diagnostic_results T)
}.

Lemma has_device_true {C} id (T : Tables C) :
  has_device id T = true ↔ id ∈ dr_id <$> devices T.
Proof.
  unfold has_device. rewrite existsb_exists, list_elem_of_fmap.
  setoid_rewrite bool_decide_eq_true. setoid_rewrite <-list_elem_of_In. naive_solver.
Qed.

Lemma has_device_false {C} id (T : Tables C) :
  has_device id T = false ↔ id ∉ dr_id <$> devices T.
Proof. rewrite <-has_device_true. by destruct (has_device id T). Qed.

Lemma has_request_false {C} req (T : Tables C) :
  has_request req T = false ↔ req ∉ gr_request_id <$> diagnostic_results T.
Proof.
  rewrite <-not_true_iff_false. unfold has_request.
  rewrite existsb_exists, list_elem_of_fmap.
  setoid_rewrite bool_decide_eq_true. setoid_rewrite <-list_elem_of_In. naive_solver.
Qed.

Lemma fmap_if {R B} (g : R → B) (p : R → bool) (f : R → R) (l : list R) :
  (∀ r, g (f r) = g r) → g <$> ((λ r, if p r then f r else r) <$> l) = g <$> l.
Proof.
  intros Hg. rewrite <-list_fmap_compose. apply list_fmap_ext. intros i r _. simpl.
  by destruct (p r).
Qed.

Lemma Forall_if {R} (Q : R → Prop) (p : R → bool) (f : R → R) (l : list R) :
  (∀ r, Q r → Q (f r)) → Forall Q l → Forall Q ((λ r, if p r then f r else r) <$> l).
Proof.
  intros Hf Hl. apply Forall_fmap. eapply Forall_impl; [exact Hl|]. intros r Hr. simpl.
  destruct (p r); auto.
Qed.

Lemma NoDup_snoc {A} (l : list A) x : NoDup l → x ∉ l → NoDup (l ++ [x]).
Proof.
  intros Hl Hx. apply NoDup_app. split_and!; [done| |apply NoDup_singleton]. set_solver.
Qed.

Lemma fresh_id {R} (g : R → Z) (l : list R) n : Forall (λ h, g h < n) l → n ∉ g <$> l.
Proof.
  rewrite Forall_forall. intros Hl Hn. apply list_elem_of_fmap in Hn as (h & -> & Hh).
  specialize (Hl h Hh). lia.
Qed.

Lemma Forall_snoc_lt {R} (g : R → Z) l x n :
  Forall (λ h, g h < n) l → g x = n → Forall (λ h, g h < n + 1) (l ++ [x]).
Proof.
  intros Hl Hx. apply Forall_app. split; [|constructor; [lia|constructor]].
  eapply Forall_impl; [exact Hl|]. intros h Hh. simpl in *. lia.
Qed.

Section wf.
Context `{W : World} (round : Time → Time) `{!RoundLaws round} (accepts : string → bool)
  (Hclock : rfc_clock W) (Huuid : ascii_uuids W).

Lemma now_listable n m :
  accepts (uuid_at n) = true →
  cursor_ok (round (now_at m)) (uuid_at n) ∧ round (round (now_at m)) = round (now_at m) ∧
  accepts (uuid_at n) = true.
Proof using RoundLaws0 Hclock Huuid.
  intros Ha. pose proof (round_near (now_at m)) as Hn. specialize (Hclock m).
  destruct (Huuid n) as [Hu1 Hu2]. split_and!; [|apply round_idem|done].
  split_and!; [|unfold zero_time, Second in *; lia|done..].
  apply rfc_year_range. unfold Second, max_time in *. lia.
Qed.

Lemma update_device_wf id f T T' k :
  (∀ r, dr_id (f r) = dr_id r ∧ dr_registered_at (f r) = dr_registered_at r) →
  update_device id f T = Some (T', k) →
  device_key <$> devices T' = device_key <$> devices T ∧
  (tables_wf round accepts T → tables_wf round accepts T').
Proof using.
  intros Hf [= <- <-]. simpl.
  assert (Hids : dr_id <$> ((λ r, if bool_decide (dr_id r = id) then f r else r) <$> devices T) =
                 dr_id <$> devices T) by (apply fmap_if; intros; apply Hf).
  split.
  - apply fmap_if. intros r. unfold device_key. by destruct (Hf r) as [-> ->].
  - intros [[H1 H2] H3 H4 H5 H6 H7 H8 H9 H10]. split; simpl; try done; try by rewrite Hids.
    split; simpl; [by rewrite Hids|]. apply Forall_if; [|done].
    intros r. unfold row_listable. by destruct (Hf r) as [-> ->].
Qed.

Lemma update_diagnostic_wf req f T T' k :
  (∀ r : diag_row Time, gr_request_id (f r) = gr_request_id r ∧ gr_id (f r) = gr_id r ∧
          gr_device_id (f r) = gr_device_id r ∧
          is_Some (gr_received_at (f r)) ∧ is_Some (gr_payload (f r))) →
  update_diagnostic req f T = Some (T', k) →
  tables_wf round accepts T → tables_wf round accepts T'.
Proof using.
  intros Hf [= <- <-] [[H1 H2] H3 H4 H5 H6 H7 H8 H9 H10]. split; simpl; try done.
  - rewrite fmap_if; [done|]. intros; apply Hf.
  - apply Forall_if; [|done]. intros r Hr. by rewrite (proj1 (proj2 (proj2 (Hf r)))).
  - apply Forall_if; [|done]. intros r Hr. by rewrite (proj1 (proj2 (Hf r))).
  - rewrite fmap_if; [done|]. intros; apply Hf.
  - apply Forall_if; [|done]. intros r _. destruct (Hf r) as (_ & _ & _ & ? & ?). done.
Qed.

Lemma wf_steps : step_ok round accepts (tables_wf round accepts).
Proof using RoundLaws0 Hclock Huuid.
  split.
  - intros n m name os arch hash T T' k Ha. unfold insert_device.
    destruct (has_device (uuid_at n) T) eqn:Hd; [done|]. apply has_device_false in Hd.
    intros [= <- <-] [[H1 H2] H3 H4 H5 H6 H7 H8 H9 H10].
    assert (Hsub : ∀ R (g : R → string) l,
              Forall (λ h, g h ∈ dr_id <$> devices T) l →
              Forall (λ h, g h ∈ dr_id <$>
                (devices T ++ [DeviceRow (uuid_at n) name os arch hash "unknown"
                                 (round (now_at m)) None])) l).
    { intros R g l Hl. eapply Forall_impl; [exact Hl|]. intros h Hh. rewrite fmap_app. set_solver. }
    split; simpl; try done; try by apply Hsub.
    split; simpl; [rewrite fmap_app; by apply NoDup_snoc|].
    apply Forall_app. split; [done|]. constructor; [|constructor]. by apply now_listable.
  - intros id st T T' k. by apply update_device_wf.
  - intros id m T T' k. by apply update_device_wf.
  - intros dev m cpu mem disk up osv T T' k. unfold insert_heartbeat.
    destruct (has_device dev T) eqn:Hd; [|done]. apply has_device_true in Hd.
    intros [= <- <-] [[H1 H2] H3 H4 H5 H6 H7 H8 H9 H10]. split; simpl; try done.
    + apply Forall_app. split; [done|]. by repeat constructor.
    + by apply Forall_snoc_lt.
    + rewrite fmap_app. apply NoDup_snoc; [done|]. by apply fresh_id.
  - intros dev req scope m T T' k. unfold insert_diagnostic.
    destruct (has_device dev T) eqn:Hd; [|done]. apply has_device_true in Hd.
    destruct (has_request req T) eqn:Hq; [done|]. apply has_request_false in Hq.
    intros [= <- <-] [[H1 H2] H3 H4 H5 H6 H7 H8 H9 H10]. split; simpl; try done.
    + rewrite fmap_app. by apply NoDup_snoc.
    + apply Forall_app. split; [done|]. by repeat constructor.
    + by apply Forall_snoc_lt.
    + rewrite fmap_app. apply NoDup_snoc; [done|]. by apply fresh_id.
    + apply Forall_app. split; [done|]. constructor; [|constructor]. simpl.
      split; intros [? [=]].
  - intros req m p T T' k. by apply update_diagnostic_wf.
  - intros req T T' k [= <- <-] [[H1 H2] H3 H4 H5 H6 H7 H8 H9 H10].
    assert (Hnd : ∀ B (g : diag_row Time → B), NoDup (g <$> diagnostic_results T) →
              NoDup (g <$> filter (λ r, gr_request_id r ≠ req) (diagnostic_results T))).
    { intros B g Hg. eapply sublist_NoDup; [exact Hg|]. apply fmap_sublist, sublist_filter. }
    split; simpl; try done; try (by apply Hnd); by apply Forall_filter_2.
  - intros k T [H1 H2 H3 H4 H5 H6 H7 H8 H9]. split; simpl; try done; [by destruct H1|].
    eapply Forall_impl; [exact H5|]. simpl. lia.
  - intros k T [H1 H2 H3 H4 H5 H6 H7 H8 H9]. split; simpl; try done; [by destruct H1|].
    eapply Forall_impl; [exact H7|]. simpl. lia.
Qed.

(** Devices and their registration times are there to stay. *)
Lemma grow_steps K : step_ok round accepts (λ T, K ⊆ device_key <$> devices T).
Proof using.
  clear RoundLaws0 Hclock Huuid. split.
  - intros n m name os arch hash T T' k _. unfold insert_device. case_match; [done|].
    intros [= <- <-] HK. simpl. rewrite fmap_app. set_solver.
  - intros id st T T' k Hu HK.
    by destruct (update_device_wf id (set_status st) T T' k (λ r, conj eq_refl eq_refl) Hu) as [-> _].
  - intros id m T T' k Hu HK.
    by destruct (update_device_wf id (set_last_seen (round (now_at m))) T T' k
                   (λ r, conj eq_refl eq_refl) Hu) as [-> _].
  - intros dev m cpu mem disk up osv T T' k. unfold insert_heartbeat. case_match; [|done].
    by intros [= <- <-].
  - intros dev req scope m T T' k. unfold insert_diagnostic. case_match; [|done].
    by intros [= <- <-].
  - by intros req m p T T' k [= <- <-].
  - by intros req T T' k [= <- <-].
  - done.
  - done.
Qed.
End wf.

(** C13: the tables keep their integrity.  Whatever calls are made and whatever
    round trips are lost or unacknowledged, device and request identifiers stay
    unique, heartbeats and diagnostics belong to registered devices, generated
    keys are fresh, a diagnostic has a payload iff it has been received, every
    device can be named by a cursor, and no device is ever lost or registered
    anew. *)
Theorem calls_keep_integrity `{W : World} round `{!RoundLaws round} collate accepts
    (cs : list store_call) (s : Sys (Tables Time)) :
  rfc_clock W → ascii_uuids W → tables_wf round accepts (dat s) →
  let s' := foldl (λ s c, (call (H := Spec round collate accepts) c s).1) s cs in
  tables_wf round accepts (dat s') ∧
  device_key <$> devices (dat s) ⊆ device_key <$> devices (dat s').
Proof.
  intros Hc Hu Hwf. cut (∀ K, K ⊆ device_key <$> devices (dat s) →
    let s' := foldl (λ s c, (call (H := Spec round collate accepts) c s).1) s cs in
    tables_wf round accepts (dat s') ∧ K ⊆ device_key <$> devices (dat s')); [by intros H; apply H|].
  intros K. revert s Hwf. induction cs as [|c cs IH]; intros s Hwf HK; simpl; [done|].
  apply IH.
  - by apply call_preserves; [apply wf_steps|].
  - by apply (call_preserves _ _ _ (λ T, K ⊆ device_key <$> devices T)); [apply grow_steps|].
Qed.

Lemma empty_wf round accepts : tables_wf round accepts empty_tables.
Proof. repeat constructor. Qed.

Lemma calls_keep_integrity_witness :
  (λ W : World,
    let s := MkSys 0%nat empty_tables in
    let s' := foldl (λ s c, (call (H := Spec trunc_sec String.compare (λ _, true)) c s).1) s
                [CallCreateDevice {| rr_Name := "n"; rr_OS := OSLinux; rr_Arch := "amd64";
                                     rr_Secret := "s" |};
                 CallSetDeviceStatus "u0" StatusOnline] in
    tables_wf trunc_sec (λ _, true) (dat s') ∧
    device_key <$> devices (dat s) ⊆ device_key <$> devices (dat s')) test_world.
Proof.
  exact (calls_keep_integrity (W := test_world) trunc_sec String.compare (λ _, true) _
           (MkSys 0%nat empty_tables) test_world_clock test_world_uuids (empty_wf _ _)).
Defined.

(** ** What the calls do *)

Lemma wrap_inv {D A} what (m : Op D store_err A) s s' a :
  wrap what m s = (s', Ok a) → m s = (s', Ok a).
Proof. unfold wrap. destruct (m s) as [s1 [|[]]]; naive_solver. Qed.

Lemma wrap_err {D A} what (m : Op D store_err A) s s' e :
  wrap what m s = (s', Err e) → ∃ e', m s = (s', Err e').
Proof. unfold wrap. destruct (m s) as [s1 [|[]]]; naive_solver. Qed.

Lemma bind_inv {S E A B} (m : ST S E A) (f : A → ST S E B) s s' b :
  (m ≫= f) s = (s', Ok b) → ∃ s1 a, m s = (s1, Ok a) ∧ f a s1 = (s', Ok b).
Proof. unfold mbind, st_bind. destruct (m s) as [s1 [a|e]]; naive_solver. Qed.

Lemma find_app {R} (p : R → bool) l k :
  List.find p (l ++ k) = match List.find p l with Some x => Some x | None => List.find p k end.
Proof. induction l as [|x l IH]; simpl; [done|]. by destruct (p x). Qed.

Lemma find_none_key {R} (g : R → string) (i : string) l :
  i ∉ g <$> l → List.find (λ r, bool_decide (g r = i)) l = None.
Proof.
  induction l as [|x l IH]; csimpl; [done|]. intros [Hn Hl]%not_elem_of_cons.
  rewrite bool_decide_eq_false_2 by congruence. auto.
Qed.

Lemma find_update {R} (g : R → string) (i j : string) (f : R → R) l :
  (∀ r, g (f r) = g r) →
  List.find (λ r, bool_decide (g r = j))
    ((λ r, if bool_decide (g r = i) then f r else r) <$> l) =
  (if bool_decide (i = j) then f else id) <$> List.find (λ r, bool_decide (g r = j)) l.
Proof.
  intros Hg. induction l as [|x l IH]; csimpl; [done|].
  destruct (bool_decide_reflect (g x = i)) as [Hx|Hx]; simpl.
  - rewrite Hg, Hx. destruct (bool_decide_reflect (i = j)) as [->|Hij]; [done|exact IH].
  - destruct (bool_decide_reflect (g x = j)) as [Hxj|]; [|exact IH].
    by rewrite bool_decide_eq_false_2 by congruence.
Qed.

Section calls.
Context `{W : World} (accepts : string → bool).

Lemma exec_inv args f s s' n :
  exec accepts args f s = (s', Ok n) →
  ∃ T, f (dat s) = Some (T, n) ∧ dat s' = T ∧ forallb accepts args = true.
Proof using.
  unfold exec, exec_insert. destruct (forallb accepts args); [|done]. unfold db_exec_insert.
  destruct (io_at (tick s)), (f (dat s)) as [[T k]|]; intros [= <- <-]; naive_solver.
Qed.

Lemma exec_err args f s s' e :
  exec accepts args f s = (s', Err e) →
  dat s' = dat s ∨ ∃ T n, f (dat s) = Some (T, n) ∧ dat s' = T.
Proof using.
  unfold exec, exec_insert. destruct (forallb accepts args); [|intros [= <- <-]; by left]. unfold db_exec_insert.
  destruct (io_at (tick s)), (f (dat s)) as [[T k]|]; intros [= <- <-]; simpl; eauto.
Qed.

Lemma query_ok {R} args (q : nat → Tables Time → R) s :
  forallb accepts args = true → io_at (tick s) = IoOk →
  query accepts args q s = (bump s, Ok (q (tick s) (dat s))).
Proof using. intros Ha Hio. unfold query, db_query. by rewrite Ha, Hio. Qed.
End calls.

Definition with_registered_at (t : Time) (d : Device) : Device :=
  {| d_ID := d_ID d; d_Name := d_Name d; d_OS := d_OS d; d_Arch := d_Arch d;
     d_Status := d_Status d; d_RegisteredAt := t; d_LastSeenAt := d_LastSeenAt d |}.

(** A registered device can be read back.  When [CreateDevice] returns a
    device, its identifier was not in use, it has the request's name, OS and
    architecture, is of unknown status and never seen; [GetDevice] then returns
    the same device at the resolution of the time column, and every other device
    is as it was. *)
Theorem create_then_get `{W : World} round accepts req (s s1 : Sys (Tables Time)) d :
  spec_CreateDevice round accepts req s = (s1, Ok d) → io_at (tick s1) = IoOk →
  has_device (d_ID d) (dat s) = false ∧
  (d_Name d, d_OS d, d_Arch d, d_Status d, d_LastSeenAt d) =
    (rr_Name req, rr_OS req, rr_Arch req, StatusUnknown, None) ∧
  spec_GetDevice accepts (d_ID d) s1 =
    (bump s1, Ok (with_registered_at (round (d_RegisteredAt d)) d)) ∧
  (∀ id, id ≠ d_ID d → find_device id (dat s1) = find_device id (dat s)).
Proof.
  intros Hc Hio. unfold spec_CreateDevice in Hc.
  apply bind_inv in Hc as (sa & hash & Hh & Hc). unfold hash_secret in Hh.
  destruct (bcrypt_at (tick s) (rr_Secret req)); [|done]. simplify_eq.
  apply bind_inv in Hc as (sb & id & [= <- <-] & Hc).
  apply bind_inv in Hc as (sb & now & [= <- <-] & Hc).
  apply bind_inv in Hc as (sb & n & He & Hr). apply wrap_inv, exec_inv in He as (T & Hi & Hd & Ha).
  simpl in Hr. unfold mret, st_ret in Hr. simplify_eq. simpl in *.
  unfold insert_device in Hi. destruct (has_device _ (dat s)) eqn:Hnew; [done|].
  simplify_eq. apply has_device_false in Hnew.
  split_and!; [done|done|..].
  - unfold spec_GetDevice. bool_prop. erewrite st_bind_ok; [|apply query_ok; [simpl; by rewrite andb_true_r|done]].
    rewrite <-H. unfold find_device. simpl. rewrite find_app, (find_none_key dr_id) by done. simpl.
    by rewrite bool_decide_eq_true_2.
  - intros id Hne. rewrite <-H. unfold find_device. simpl. rewrite find_app. simpl.
    rewrite bool_decide_eq_false_2 by congruence. by destruct (List.find _ _).
Qed.

Definition test_req : RegisterRequest :=
  {| rr_Name := "n"; rr_OS := OSLinux; rr_Arch := "amd64"; rr_Secret := "s" |}.

Lemma create_then_get_witness :
  (λ W : World,
    let s := MkSys 0%nat empty_tables in
    let r := spec_CreateDevice trunc_sec (λ _, true) test_req s in
    ∃ d, r.2 = Ok d ∧ io_at (tick r.1) = IoOk ∧
      spec_GetDevice (λ _, true) (d_ID d) r.1 =
        (bump r.1, Ok (with_registered_at (trunc_sec (d_RegisteredAt d)) d))) test_world.
Proof.
  eexists. split; [vm_compute; reflexivity|]. split; [reflexivity|].
  refine (proj1 (proj2 (proj2 (create_then_get (W := test_world) trunc_sec (λ _, true) test_req
            (MkSys 0%nat empty_tables) _ _ _ eq_refl)))).
  vm_compute. reflexivity.
Defined.

(** The rows of a reliable statement. *)
Lemma exec_insert_ok `{W : World} accepts args skip f s T n :
  forallb accepts args = true → io_at (tick s) = IoOk → f (dat s) = Some (T, n) →
  exec_insert accepts args skip f s = (MkSys (S (tick s)) T, Ok n).
Proof. intros Ha Hio Hf. unfold exec_insert, db_exec_insert. by rewrite Ha, Hio, Hf. Qed.

Lemma exec_ok `{W : World} accepts args f s :
  forallb accepts args = true → io_at (tick s) = IoOk →
  exec accepts args f s =
    match f (dat s) with
    | Some (T, n) => (MkSys (S (tick s)) T, Ok n)
    | None => (bump s, Err (ErrOther "exec"))
    end.
Proof. intros Ha Hio. unfold exec, exec_insert, db_exec_insert. rewrite Ha, Hio. by destruct (f (dat s)) as [[]|]. Qed.

Lemma affected_none {R} (g : R → string) id (l : list R) :
  (Z.of_nat (length (filter (λ r, g r = id) l)) =? 0) = negb (existsb (λ r, bool_decide (g r = id)) l).
Proof.
  induction l as [|r l IH]; [done|]. simpl. rewrite filter_cons.
  destruct (decide (g r = id)) as [H|H]; [rewrite bool_decide_eq_true_2 by done|
    rewrite bool_decide_eq_false_2 by done; exact IH].
  apply Z.eqb_neq. simpl. lia.
Qed.

(** A status write touches one device.  Over a working connection,
    [SetDeviceStatus] gives the device named the status and changes nothing else
    of it and no other device, and when no device has the identifier it returns
    [ErrNotFound] and leaves the tables as they are. *)
Theorem set_status_one_device `{W : World} accepts id st (s : Sys (Tables Time)) :
  io_at (tick s) = IoOk → accepts id = true → accepts st = true →
  let r := spec_SetDeviceStatus accepts id st s in
  (r.2 = if has_device id (dat s) then Ok () else Err ErrNotFound) ∧
  (∀ j, find_device j (dat r.1) =
     (if bool_decide (id = j) then set_status st else Datatypes.id) <$> find_device j (dat s)) ∧
  heartbeats (dat r.1) = heartbeats (dat s) ∧
  diagnostic_results (dat r.1) = diagnostic_results (dat s) ∧
  (has_device id (dat s) = false → devices (dat r.1) = devices (dat s)).
Proof.
  intros Hio Ha Hs. unfold spec_SetDeviceStatus.
  unfold wrap, mbind, st_bind. rewrite exec_ok by (simpl; by rewrite ?Ha, ?Hs).
  unfold update_device, require_affected. simpl.
  assert (Hfind : ∀ j, find_device j (with_devices (fmap (λ r, if bool_decide (dr_id r = id)
             then set_status st r else r)) (dat s)) =
           (if bool_decide (id = j) then set_status st else Datatypes.id) <$> find_device j (dat s)).
  { intros j. unfold find_device. simpl. by apply (find_update dr_id). }
  assert (Hsame : has_device id (dat s) = false →
            devices (with_devices (fmap (λ r, if bool_decide (dr_id r = id)
              then set_status st r else r)) (dat s)) = devices (dat s)).
  { intros Hn%has_device_false. simpl. rewrite <-(list_fmap_id (devices (dat s))) at 2.
    apply list_fmap_ext. intros i r Hr. rewrite bool_decide_eq_false_2; [done|].
    intros <-. apply Hn. apply list_elem_of_fmap_2. by eapply list_elem_of_lookup_2. }
  rewrite affected_none. change (existsb _ _) with (has_device id (dat s)).
  by destruct (has_device id (dat s)).
Qed.

Lemma set_status_one_device_witness :
  (λ W : World,
    let s := MkSys 0%nat (walk_tables 0) in
    let r := spec_SetDeviceStatus (λ _, true) "b" StatusOnline s in
    r.2 = Ok () ∧ find_device "a" (dat r.1) = Some (dev_row "a" 1721570645 "online") ∧
    (dr_status <$> find_device "b" (dat r.1)) = Some StatusOnline) test_world.
Proof.
  pose proof (set_status_one_device (W := test_world) (λ _, true) "b" StatusOnline
                (MkSys 0%nat (walk_tables 0)) eq_refl eq_refl eq_refl) as (Hr & Hf & _).
  split; [exact Hr|]. split; [exact (Hf "a")|]. exact (f_equal (fmap dr_status) (Hf "b")).
Defined.

Section requests.
Context `{W : World} (Hio : reliable W) (round : Time → Time) (accepts : string → bool).
Implicit Types s : Sys (Tables Time).

Lemma get_request_eq req s :
  accepts req = true →
  (spec_GetDiagnosticResult accepts req s).2 =
    match find_diagnostic req (dat s) with
    | Some g => Ok (spec_diagnostic g)
    | None => Err ErrNotFound
    end.
Proof using Hio.
  intros Ha. unfold spec_GetDiagnosticResult.
  erewrite st_bind_ok; [|apply query_ok; [simpl; by rewrite Ha|apply Hio]].
  by destruct (find_diagnostic req (dat s)).
Qed.

Lemma create_request_eq dev req scope s T n :
  forallb accepts [dev; req; scope] = true →
  insert_diagnostic dev req scope (round (now_at (tick s))) (dat s) = Some (T, n) →
  spec_CreateDiagnosticRequest round accepts dev req scope s =
    (MkSys (S (S (tick s))) T, Ok (new_request dev req scope (now_at (tick s)))).
Proof using Hio.
  intros Ha Hi. unfold spec_CreateDiagnosticRequest, time_Now, wrap, mbind, st_bind.
  erewrite exec_insert_ok; [|done|apply Hio|exact Hi]. done.
Qed.

Lemma save_request_eq req p s T n :
  forallb accepts [p; req] = true →
  update_diagnostic req (answer (round (now_at (tick s))) p) (dat s) = Some (T, n) → n ≠ 0 →
  spec_SaveDiagnosticResult round accepts req p s = (MkSys (S (S (tick s))) T, Ok ()).
Proof using Hio.
  intros Ha Hu Hn. unfold spec_SaveDiagnosticResult, time_Now, wrap, mbind, st_bind.
  rewrite exec_ok by (done || apply Hio). simpl dat. rewrite Hu. unfold require_affected.
  by rewrite (proj2 (Z.eqb_neq n 0)).
Qed.

Lemma delete_request_eq req s T n :
  accepts req = true → delete_diagnostic req (dat s) = Some (T, n) →
  spec_DeleteDiagnosticRequest accepts req s = (MkSys (S (tick s)) T, Ok ()).
Proof using Hio.
  intros Ha Hu. unfold spec_DeleteDiagnosticRequest, wrap, mbind, st_bind.
  rewrite exec_ok by ((simpl; by rewrite Ha) || apply Hio). by rewrite Hu.
Qed.
End requests.

(** The life of a diagnostic request.  Over a working connection, a request
    created for a registered device under a new identifier is read back
    unanswered; saving a nonempty payload marks that request received with it and
    no other; deleting the request removes it, reading it is then
    [ErrNotFound], and the other requests are the ones there were before. *)
Theorem diagnostic_life `{W : World} round accepts dev req scope p (s : Sys (Tables Time)) :
  reliable W → forallb accepts [dev; req; scope; p] = true → p ≠ "" →
  has_device dev (dat s) = true → has_request req (dat s) = false →
  let r1 := spec_CreateDiagnosticRequest round accepts dev req scope s in
  let r2 := spec_SaveDiagnosticResult round accepts req p r1.1 in
  let r3 := spec_DeleteDiagnosticRequest accepts req r2.1 in
  let get s := (spec_GetDiagnosticResult accepts req s).2 in
  r1.2 = Ok (new_request dev req scope (now_at (tick s))) ∧
  (∃ g, get r1.1 = Ok g ∧ dg_RequestedAt g = round (now_at (tick s)) ∧
        dg_ReceivedAt g = None ∧ dg_Payload g = None) ∧
  r2.2 = Ok () ∧
  (∃ g t, get r2.1 = Ok g ∧ dg_RequestedAt g = round (now_at (tick s)) ∧
        dg_ReceivedAt g = Some (round t) ∧ dg_Payload g = Some p) ∧
  r3.2 = Ok () ∧ get r3.1 = Err ErrNotFound ∧
  diagnostic_results (dat r3.1) = diagnostic_results (dat s) ∧
  diagnostic_results (dat r1.1) =
    diagnostic_results (dat s) ++
      [DiagRow (diagnostics_seq (dat s)) dev req scope (round (now_at (tick s))) None None].
Proof.
  intros Hio Ha Hp Hd Hq r1 r2 r3 get. simpl in Ha. bool_prop.
  set (l := diagnostic_results (dat s)) in *.
  set (row := DiagRow (diagnostics_seq (dat s)) dev req scope (round (now_at (tick s))) None None).
  apply has_request_false in Hq as Hnew. fold l in Hnew.
  assert (Hfind : ∀ x, gr_request_id x = req →
            List.find (λ r, bool_decide (gr_request_id r = req)) (l ++ [x]) = Some x).
  { intros x Hx. rewrite find_app, (find_none_key gr_request_id) by done. simpl.
    by rewrite bool_decide_eq_true_2. }
  set (tables l := MkTables (devices (dat s)) (heartbeats (dat s)) l (heartbeats_seq (dat s))
                     (diagnostics_seq (dat s) + 1)).
  assert (Hr1 : r1 = (MkSys (S (S (tick s))) (tables (l ++ [row])),
                      Ok (new_request dev req scope (now_at (tick s))))).
  { apply (create_request_eq Hio) with (n := 1); [simpl; by rewrite H, H0, H1|].
    unfold insert_diagnostic. by rewrite Hd, Hq. }
  set (t := now_at (S (S (tick s)))).
  assert (Hnone : ∀ r, r ∈ l → gr_request_id r ≠ req).
  { intros r Hr <-. by apply Hnew, list_elem_of_fmap_2. }
  assert (Hr2 : r2 = (MkSys (S (S (S (S (tick s))))) (tables (l ++ [answer (round t) p row])), Ok ())).
  { unfold r2. rewrite Hr1. apply (save_request_eq Hio) with (n := 1); [simpl; by rewrite H0, H2| |done].
    cbn [tick dat fst]. fold t. unfold update_diagnostic, with_diagnostics, tables.
    cbn [diagnostic_results devices heartbeats heartbeats_seq diagnostics_seq].
    rewrite filter_app, filter_none by done. rewrite filter_cons, decide_True by done.
    rewrite fmap_app. simpl. rewrite bool_decide_eq_true_2 by done. do 4 f_equal.
    rewrite <-(list_fmap_id l) at 2. apply list_fmap_ext. intros i r Hr.
    rewrite bool_decide_eq_false_2; [done|]. apply Hnone. by eapply list_elem_of_lookup_2. }
  assert (Hr3 : r3 = (MkSys (S (S (S (S (S (tick s)))))) (tables l), Ok ())).
  { unfold r3. rewrite Hr2. apply (delete_request_eq Hio) with (n := 1); [done|].
    cbn [tick dat fst]. unfold delete_diagnostic, with_diagnostics, tables.
    cbn [diagnostic_results devices heartbeats heartbeats_seq diagnostics_seq].
    rewrite !filter_app, !filter_cons, decide_False, decide_True by naive_solver.
    rewrite (filter_none (λ r, gr_request_id r = req) l) by done.
    rewrite (filter_all (λ r, gr_request_id r ≠ req) l) by done. by rewrite app_nil_r. }
  unfold get. rewrite !(get_request_eq Hio) by done. rewrite Hr3, Hr2, Hr1.
  unfold find_diagnostic, tables. cbn [fst snd dat diagnostic_results].
  rewrite !Hfind by done. rewrite (find_none_key gr_request_id) by done.
  split_and!; try done; [by eexists|]. eexists _, t. split_and!; try done.
  simpl. by destruct p.
Qed.

Lemma diagnostic_life_witness :
  (λ W : World,
    let s := MkSys 0%nat (walk_tables 0) in
    let r1 := spec_CreateDiagnosticRequest trunc_sec (λ _, true) "a" "q1" ScopeFull s in
    let r2 := spec_SaveDiagnosticResult trunc_sec (λ _, true) "q1" "{}" r1.1 in
    let r3 := spec_DeleteDiagnosticRequest (λ _, true) "q1" r2.1 in
    r2.2 = Ok () ∧ diagnostic_results (dat r3.1) = []) test_world.
Proof.
  destruct (diagnostic_life (W := test_world) trunc_sec (λ _, true) "a" "q1" ScopeFull "{}"
              (MkSys 0%nat (walk_tables 0)) test_world_reliable eq_refl ltac:(done) eq_refl eq_refl)
    as (_ & _ & H2 & _ & _ & _ & H3 & _).
  split; [exact H2|exact H3].
Defined.
