(* ===== verification/Hub.v ===== *)
(** * Device connections (internal/ws/hub.go, client.go, and handleWebSocket of
    internal/server/routes_ws.go).

    Each WebSocket connection is a goroutine: it registers with the hub, writes
    the device online, reads messages, and on the way out unregisters and writes
    the device offline.  The connections, the hub's map, its wait group, the
    device table, the published events and a shutdown interleave; [exec] is one
    atomic action of one of them, as the locks and the database make them.

    That a call on the hub is a single action is what [h.mu] is for, and HubLock.v proves
    it of the calls taken apart.  A [Close], which the hub makes with the lock released,
    is an action of its own ([ACloseOld], [ACloseNext]) and may come at any later time: a
    close that blocks is an action that has not come, and holds up only the connection
    that makes it.  No theorem here says that an action comes. *)
From Stdlib Require Import QArith.
From S2P Require Import Prelude GoString GoTime Model World Keyset Sql Store StoreFacts.
Local Open Scope Z_scope.

(** ** The hub's map

    A client pointer is a number; the map holds the active one of each device. *)
Abbreviation client := nat.
Abbreviation registry := (gmap string client).

Definition hub_Register (c : client) (deviceID : string) (m : registry)
    : registry * option client :=
  (<[deviceID := c]> m, m !! deviceID).

Definition hub_Unregister (c : client) (deviceID : string) (m : registry) : registry * bool :=
  if bool_decide (m !! deviceID = Some c) then (delete deviceID m, true) else (m, false).

(** The connection [Send] writes to, or its error. *)
Definition hub_Send (deviceID : string) (m : registry) : option client := m !! deviceID.
Definition hub_Count (m : registry) : nat := size m.
Definition hub_IsConnected (deviceID : string) (m : registry) : bool :=
  bool_decide (is_Some (m !! deviceID)).
Definition hub_ConnectedDeviceIDs (m : registry) : list string := (map_to_list m).*1.

(** ** A connection

    Where its goroutine is, from [hub.wg.Add(1)] in [NewClient] to the end of
    [handleWebSocket]. *)
Inductive phase : Type :=
  | Added                        (* wg.Add done; Register next *)
  | Registered (old : option client) (* in the map; closing the one replaced next *)
  | Connected                    (* NewClient returned; SetDeviceStatus(online) next *)
  | Announcing                   (* Publish(device.connected) next *)
  | Running                      (* Run: reading *)
  | Seen                         (* handleHeartbeat: UpdateLastSeen next *)
  | Closing                      (* a read failed; Unregister next *)
  | Leaving                      (* Unregister returned true; SetDeviceStatus(offline) next *)
  | Finishing                    (* wg.Done next *)
  | Left                         (* Run returned; Publish(device.disconnected) next *)
  | Gone.

#[export] Instance phase_eq_dec : EqDecision phase.
Proof. solve_decision. Defined.

Record conn := Conn { cn_device : string; cn_phase : phase; cn_closed : bool }.

Definition at_phase (p : phase) (c : conn) : conn := Conn (cn_device c) p (cn_closed c).
(** [c.conn.Close(...)]: reads fail from now on. *)
Definition close_conn (c : conn) : conn := Conn (cn_device c) (cn_phase c) true.

Inductive hub_event : Type :=
  | DeviceConnected (id : string)
  | DeviceDisconnected (id : string).

(** [Server.Shutdown]: closing the clients of a snapshot, waiting for the wait
    group, and what [hub.Wait] returned. *)
Inductive shutdown : Type :=
  | Serving
  | ClosingAll (rest : list client)
  | Waited (all_done : bool).

Record state := State {
  st_clients : registry;
  st_wg : Z;
  st_conns : gmap client conn;
  st_db : Tables Time;
  st_events : list hub_event;
  st_shutdown : shutdown
}.

Definition with_conn (c : client) (cn : conn) (s : state) : state :=
  State (st_clients s) (st_wg s) (<[c := cn]> (st_conns s)) (st_db s) (st_events s) (st_shutdown s).

Definition with_clients (m : registry) (s : state) : state :=
  State m (st_wg s) (st_conns s) (st_db s) (st_events s) (st_shutdown s).

Definition add_wg (n : Z) (s : state) : state :=
  State (st_clients s) (st_wg s + n) (st_conns s) (st_db s) (st_events s) (st_shutdown s).

Definition with_db (f : Tables Time → Tables Time) (s : state) : state :=
  State (st_clients s) (st_wg s) (st_conns s) (f (st_db s)) (st_events s) (st_shutdown s).

Definition publish (e : hub_event) (s : state) : state :=
  State (st_clients s) (st_wg s) (st_conns s) (st_db s) (st_events s ++ [e]) (st_shutdown s).

Definition with_shutdown (d : shutdown) (s : state) : state :=
  State (st_clients s) (st_wg s) (st_conns s) (st_db s) (st_events s) d.

(** A statement that took effect, or did not ([ok] is false). *)
Definition written (ok : bool) (f : Tables Time → outcome) (T : Tables Time) : Tables Time :=
  if ok then match f T with Some (T', _) => T' | None => T end else T.

(** Closing a connection, if it exists. *)
Definition close_in (c : client) (s : state) : state :=
  match st_conns s !! c with
  | Some cn => with_conn c (close_conn cn) s
  | None => s
  end.

(** ** The actions *)

Inductive action : Type :=
  | AAccept (c : client) (deviceID : string)
  | ARegister (c : client)
  | ACloseOld (c : client)
  | ASetOnline (c : client) (ok : bool)
  | AAnnounce (c : client)
  | AHeartbeat (c : client)
  | AUpdateLastSeen (c : client) (now : Time) (ok : bool)
  | AReadError (c : client)
  | AUnregister (c : client)
  | ASetOffline (c : client) (ok : bool)
  | AWgDone (c : client)
  | ADisconnected (c : client)
  | ACloseAll
  | ACloseNext (i : nat)
  | AWaitDone
  | AWaitTimeout.

(** One action of connection [c] in the phase it is in.  Enabled says that the goroutine is
    there, not that the call it is in has returned. *)
Definition conn_step (a : action) (c : client) (cn : conn) (s : state) : option state :=
  let d := cn_device cn in
  let go p s := with_conn c (at_phase p cn) s in
  match a, cn_phase cn with
  | ARegister _, Added =>
      let '(m, old) := hub_Register c d (st_clients s) in
      Some (go (Registered old) (with_clients m s))
  | ACloseOld _, Registered old =>
      Some (go Connected (match old with Some o => close_in o s | None => s end))
  | ASetOnline _ ok, Connected =>
      Some (go Announcing (with_db (written ok (update_device d (set_status StatusOnline))) s))
  | AAnnounce _, Announcing => Some (go Running (publish (DeviceConnected d) s))
  | AHeartbeat _, Running => if cn_closed cn then None else Some (go Seen s)
  | AUpdateLastSeen _ now ok, Seen =>
      Some (go Running (with_db (written ok (update_device d (set_last_seen now))) s))
  | AReadError _, Running => Some (go Closing s)
  | AUnregister _, Closing =>
      let '(m, removed) := hub_Unregister c d (st_clients s) in
      Some (go (if removed : bool then Leaving else Finishing) (with_clients m s))
  | ASetOffline _ ok, Leaving =>
      Some (go Finishing (with_db (written ok (update_device d (set_status StatusOffline))) s))
  | AWgDone _, Finishing => Some (go Left (add_wg (-1) s))
  | ADisconnected _, Left => Some (go Gone (publish (DeviceDisconnected d) s))
  | _, _ => None
  end.

(** The connection an action is of. *)
Definition action_conn (a : action) : option client :=
  match a with
  | ARegister c | ACloseOld c | ASetOnline c _ | AAnnounce c | AHeartbeat c
  | AUpdateLastSeen c _ _ | AReadError c | AUnregister c | ASetOffline c _ | AWgDone c
  | ADisconnected c => Some c
  | _ => None
  end.

Definition exec (a : action) (s : state) : option state :=
  match a with
  | AAccept c d =>
      match st_conns s !! c with
      | Some _ => None
      | None => Some (add_wg 1 (with_conn c (Conn d Added false) s))
      end
  | ACloseAll =>
      match st_shutdown s with
      | Serving => Some (with_shutdown (ClosingAll (map_to_list (st_clients s)).*2) s)
      | _ => None
      end
  | ACloseNext i =>
      match st_shutdown s with
      | ClosingAll rest =>
          c ← rest !! i; Some (with_shutdown (ClosingAll (delete i rest)) (close_in c s))
      | _ => None
      end
  | AWaitDone =>
      match st_shutdown s with
      | ClosingAll [] => if st_wg s =? 0 then Some (with_shutdown (Waited true) s) else None
      | _ => None
      end
  | AWaitTimeout =>
      match st_shutdown s with
      | ClosingAll [] => Some (with_shutdown (Waited false) s)
      | _ => None
      end
  | _ =>
      c ← action_conn a;
      cn ← st_conns s !! c;
      conn_step a c cn s
  end.

Definition step (s s' : state) : Prop := ∃ a, exec a s = Some s'.

Fixpoint exec_all (l : list action) (s : state) : option state :=
  match l with
  | [] => Some s
  | a :: l => s' ← exec a s; exec_all l s'
  end.

(** A server that has just started, on a database [T]. *)
Definition initial (T : Tables Time) : state := State ∅ 0 ∅ T [] Serving.

Definition reachable (T : Tables Time) : state → Prop := rtc step (initial T).

Definition status_of (d : string) (T : Tables Time) : option DeviceStatus :=
  dr_status <$> find_device d T.

(** ** The invariant *)

(** The phases between Register and Unregister, and those the wait group counts. *)
Definition in_map (p : phase) : bool :=
  match p with
  | Registered _ | Connected | Announcing | Running | Seen | Closing => true
  | _ => false
  end.

Definition live (p : phase) : bool := match p with Left | Gone => false | _ => true end.

Definition live_conns (m : gmap client conn) : gmap client conn :=
  filter (λ kv, live (cn_phase kv.2) = true) m.

(** The map holds live connections of its devices; the wait group counts the
    goroutines that have not finished; and a connection that is no longer the
    active one is closed, or the one that replaced it is about to close it. *)
Record hub_inv (m : registry) (wg : Z) (conns : gmap client conn) : Prop := {
  inv_map d c :
    m !! d = Some c →
    ∃ cn, conns !! c = Some cn ∧ cn_device cn = d ∧ in_map (cn_phase cn) = true;
  inv_wg : wg = Z.of_nat (size (live_conns conns));
  inv_superseded c cn :
    conns !! c = Some cn → in_map (cn_phase cn) = true →
    m !! cn_device cn = Some c ∨ cn_closed cn = true ∨
    ∃ c' cn', conns !! c' = Some cn' ∧ cn_phase cn' = Registered (Some c);
  inv_other c cn o : conns !! c = Some cn → cn_phase cn = Registered (Some o) → o ≠ c
}.

Definition state_inv (s : state) : Prop := hub_inv (st_clients s) (st_wg s) (st_conns s).

Definition weight (cn : conn) : Z := if live (cn_phase cn) then 1 else 0.

Lemma live_insert m c cn :
  Z.of_nat (size (live_conns (<[c := cn]> m))) =
  Z.of_nat (size (live_conns (delete c m))) + weight cn.
Proof.
  unfold live_conns, weight. rewrite map_filter_insert. simpl. case_decide as Hd.
  - rewrite Hd, <-insert_delete_eq, map_size_insert_None by apply lookup_delete_eq.
    rewrite map_filter_delete. lia.
  - destruct (live _); [done|lia].
Qed.

Lemma live_old m c cn :
  m !! c = Some cn →
  Z.of_nat (size (live_conns m)) = Z.of_nat (size (live_conns (delete c m))) + weight cn.
Proof. intros Hc. rewrite <-(insert_id m c cn Hc) at 1. apply live_insert. Qed.

(** A step of a connection within its stay in the map, or outside it. *)
Lemma inv_move m wg conns c cn p :
  hub_inv m wg conns → conns !! c = Some cn →
  in_map p = in_map (cn_phase cn) → live p = live (cn_phase cn) →
  (∀ o, cn_phase cn ≠ Registered (Some o)) → (∀ o, p ≠ Registered (Some o)) →
  hub_inv m wg (<[c := at_phase p cn]> conns).
Proof.
  intros [Hm Hw Hs Ho] Hc Hin Hl Hr Hnr. split.
  - intros d c' Hd. destruct (Hm d c' Hd) as (cn' & Hc' & Hdev & Hp).
    destruct (decide (c' = c)) as [->|Hne].
    + simplify_eq. eexists. rewrite lookup_insert_eq. split_and!; [done..|]. simpl. congruence.
    + exists cn'. by rewrite lookup_insert_ne.
  - rewrite Hw, live_insert, (live_old _ _ _ Hc). unfold weight. simpl. by rewrite Hl.
  - intros c1 cn1 Hc1 Hp1.
    assert (∃ cn0, conns !! c1 = Some cn0 ∧ in_map (cn_phase cn0) = true ∧
              cn_device cn0 = cn_device cn1 ∧ cn_closed cn0 = cn_closed cn1) as (cn0 & H1 & H2 & H3 & H4).
    { destruct (decide (c1 = c)) as [->|Hne].
      - rewrite lookup_insert_eq in Hc1. simplify_eq. exists cn. simpl in *. by rewrite <-Hin.
      - rewrite lookup_insert_ne in Hc1 by done. by exists cn1. }
    destruct (Hs c1 cn0 H1 H2) as [Hs1|[Hs1|(c' & cn' & Hc' & Hp')]].
    + left. by rewrite <-H3.
    + right; left. by rewrite <-H4.
    + right; right. exists c', cn'. split; [|done]. rewrite lookup_insert_ne; [done|].
      intros ->. simplify_eq. by eapply Hr.
  - intros c1 cn1 o Hc1 Hp1. apply lookup_insert_Some in Hc1 as [[<- <-]|[_ Hc1]]; [|by eapply Ho].
    simpl in Hp1. subst p. by destruct (Hnr o).
Qed.

Lemma inv_close m wg conns c cn :
  hub_inv m wg conns → conns !! c = Some cn → hub_inv m wg (<[c := close_conn cn]> conns).
Proof.
  intros [Hm Hw Hs Ho] Hc. split.
  - intros d c' Hd. destruct (Hm d c' Hd) as (cn' & Hc' & Hdev & Hp).
    destruct (decide (c' = c)) as [->|Hne].
    + simplify_eq. eexists. by rewrite lookup_insert_eq.
    + exists cn'. by rewrite lookup_insert_ne.
  - by rewrite Hw, live_insert, (live_old _ _ _ Hc).
  - intros c1 cn1 Hc1 Hp1. destruct (decide (c1 = c)) as [->|Hne].
    { rewrite lookup_insert_eq in Hc1. simplify_eq. by right; left. }
    rewrite lookup_insert_ne in Hc1 by done.
    destruct (Hs c1 cn1 Hc1 Hp1) as [?|[?|(c' & cn' & Hc' & Hp')]]; [by left|by right; left|].
    right; right. destruct (decide (c' = c)) as [->|Hne'].
    + exists c, (close_conn cn). rewrite lookup_insert_eq. by simplify_eq.
    + exists c', cn'. by rewrite lookup_insert_ne.
  - intros c1 cn1 o Hc1 Hp1. apply lookup_insert_Some in Hc1 as [[<- <-]|[_ Hc1]]; by eapply Ho.
Qed.

Lemma close_in_inv c s : state_inv s → state_inv (close_in c s).
Proof.
  intros Hi. unfold close_in. destruct (st_conns s !! c) as [cn|] eqn:Hc; [|done].
  by apply inv_close.
Qed.

Lemma inv_register m wg conns c cn :
  hub_inv m wg conns → conns !! c = Some cn → cn_phase cn = Added →
  hub_inv (<[cn_device cn := c]> m) wg
    (<[c := at_phase (Registered (m !! cn_device cn)) cn]> conns).
Proof.
  intros [Hm Hw Hs Ho] Hc Hp. split.
  - intros d c' Hd. destruct (decide (d = cn_device cn)) as [->|Hne].
    + rewrite lookup_insert_eq in Hd. simplify_eq. eexists. by rewrite lookup_insert_eq.
    + rewrite lookup_insert_ne in Hd by done. destruct (Hm d c' Hd) as (cn' & Hc' & Hdev & Hp').
      exists cn'. rewrite lookup_insert_ne; [done|]. intros ->. by simplify_eq.
  - rewrite Hw, live_insert, (live_old _ _ _ Hc). unfold weight. simpl. by rewrite Hp.
  - intros c1 cn1 Hc1 Hp1. destruct (decide (c1 = c)) as [->|Hne].
    { rewrite lookup_insert_eq in Hc1. simplify_eq. left. apply lookup_insert_eq. }
    rewrite lookup_insert_ne in Hc1 by done.
    destruct (Hs c1 cn1 Hc1 Hp1) as [Hs1|[?|(c' & cn' & Hc' & Hp')]].
    + destruct (decide (cn_device cn1 = cn_device cn)) as [Hd|Hd].
      * right; right. exists c, (at_phase (Registered (m !! cn_device cn)) cn).
        rewrite lookup_insert_eq. split; [done|]. simpl. by rewrite <-Hd, Hs1.
      * left. by rewrite lookup_insert_ne.
    + by right; left.
    + right; right. exists c', cn'. rewrite lookup_insert_ne; [done|]. intros ->. simplify_eq. congruence.
  - intros c1 cn1 o Hc1 Hp1. apply lookup_insert_Some in Hc1 as [[<- <-]|[_ Hc1]]; [|by eapply Ho].
    injection Hp1 as Hp1. destruct (Hm _ _ Hp1) as (cn' & Hc' & _ & Hp'). intros ->.
    simplify_eq. by rewrite Hp in Hp'.
Qed.

(** The replaced connection is closed before its replacement goes on. *)
Lemma inv_close_old m wg conns c cn old :
  hub_inv m wg conns → conns !! c = Some cn → cn_phase cn = Registered old →
  (∀ o cn', old = Some o → conns !! o = Some cn' → cn_closed cn' = true) →
  hub_inv m wg (<[c := at_phase Connected cn]> conns).
Proof.
  intros [Hm Hw Hs Ho] Hc Hp Hold. split.
  - intros d c' Hd. destruct (Hm d c' Hd) as (cn' & Hc' & Hdev & Hp').
    destruct (decide (c' = c)) as [->|Hne].
    + simplify_eq. eexists. by rewrite lookup_insert_eq.
    + exists cn'. by rewrite lookup_insert_ne.
  - rewrite Hw, live_insert, (live_old _ _ _ Hc). unfold weight. simpl. by rewrite Hp.
  - intros c1 cn1 Hc1 Hp1.
    assert (∃ cn0, conns !! c1 = Some cn0 ∧ in_map (cn_phase cn0) = true ∧
              cn_device cn0 = cn_device cn1 ∧ cn_closed cn0 = cn_closed cn1) as (cn0 & H1 & H2 & H3 & H4).
    { destruct (decide (c1 = c)) as [->|Hne].
      - rewrite lookup_insert_eq in Hc1. simplify_eq. exists cn. simpl in *. by rewrite Hp.
      - rewrite lookup_insert_ne in Hc1 by done. by exists cn1. }
    destruct (Hs c1 cn0 H1 H2) as [Hs1|[Hs1|(c' & cn' & Hc' & Hp')]].
    + left. by rewrite <-H3.
    + right; left. by rewrite <-H4.
    + destruct (decide (c' = c)) as [->|Hne].
      * simplify_eq. right; left. rewrite <-H4. eapply Hold; [|done]. congruence.
      * right; right. exists c', cn'. by rewrite lookup_insert_ne.
  - intros c1 cn1 o Hc1 Hp1. apply lookup_insert_Some in Hc1 as [[<- <-]|[_ Hc1]]; [done|by eapply Ho].
Qed.

Lemma inv_unregister m wg conns c cn :
  hub_inv m wg conns → conns !! c = Some cn → cn_phase cn = Closing →
  hub_inv (hub_Unregister c (cn_device cn) m).1 wg
    (<[c := at_phase (if (hub_Unregister c (cn_device cn) m).2 then Leaving else Finishing) cn]> conns).
Proof.
  intros [Hm Hw Hs Ho] Hc Hp. destruct (hub_Unregister c (cn_device cn) m) as [m' r] eqn:Hu.
  simpl. set (p := if r then Leaving else Finishing).
  assert (Hpp : in_map p = false ∧ live p = true ∧ ∀ o, p ≠ Registered o)
    by (unfold p; by destruct r).
  destruct Hpp as (Hp1 & Hp2 & Hp3).
  assert (Hm' : ∀ d c', m' !! d = Some c' ↔ m !! d = Some c' ∧ c' ≠ c).
  { assert (Hdev : ∀ d, m !! d = Some c → d = cn_device cn).
    { intros d Hd. destruct (Hm d c Hd) as (cn' & Hc' & <- & _). by simplify_eq. }
    unfold hub_Unregister in Hu. intros d c'. case_bool_decide as Hd; simplify_eq.
    - rewrite lookup_delete_Some. split; intros [H1 H2].
      + split; [done|]. intros ->. by apply Hdev in H2.
      + split; [|done]. intros <-. congruence.
    - split; [|tauto]. intros Hd'. split; [done|]. intros ->. apply Hd.
      by rewrite <-(Hdev d Hd'). }
  split.
  - intros d c' Hd. apply Hm' in Hd as [Hd Hne].
    destruct (Hm d c' Hd) as (cn' & Hc' & Hdev & Hp'). exists cn'. by rewrite lookup_insert_ne.
  - rewrite Hw, live_insert, (live_old _ _ _ Hc). unfold weight. simpl. by rewrite Hp, Hp2.
  - intros c1 cn1 Hc1 Hpc. apply lookup_insert_Some in Hc1 as [[<- <-]|[Hne Hc1]].
    { simpl in Hpc. congruence. }
    destruct (Hs c1 cn1 Hc1 Hpc) as [Hs1|[?|(c' & cn' & Hc' & Hp')]].
    + left. by apply Hm'.
    + by right; left.
    + right; right. exists c', cn'. rewrite lookup_insert_ne; [done|]. intros ->. simplify_eq. congruence.
  - intros c1 cn1 o Hc1 Hpc. apply lookup_insert_Some in Hc1 as [[<- <-]|[_ Hc1]]; [|by eapply Ho].
    by destruct (Hp3 (Some o)).
Qed.

Lemma inv_done m wg conns c cn :
  hub_inv m wg conns → conns !! c = Some cn → cn_phase cn = Finishing →
  hub_inv m (wg + -1) (<[c := at_phase Left cn]> conns).
Proof.
  intros [Hm Hw Hs Ho] Hc Hp. split.
  - intros d c' Hd. destruct (Hm d c' Hd) as (cn' & Hc' & Hdev & Hp').
    exists cn'. rewrite lookup_insert_ne; [done|]. intros ->. simplify_eq. by rewrite Hp in Hp'.
  - rewrite Hw, live_insert, (live_old _ _ _ Hc). unfold weight. simpl. rewrite Hp. simpl. lia.
  - intros c1 cn1 Hc1 Hpc. apply lookup_insert_Some in Hc1 as [[<- <-]|[Hne Hc1]]; [done|].
    destruct (Hs c1 cn1 Hc1 Hpc) as [Hs1|[?|(c' & cn' & Hc' & Hp')]]; [by left|by right; left|].
    right; right. exists c', cn'. rewrite lookup_insert_ne; [done|]. intros ->. simplify_eq. congruence.
  - intros c1 cn1 o Hc1 Hpc. apply lookup_insert_Some in Hc1 as [[<- <-]|[_ Hc1]]; [done|by eapply Ho].
Qed.

Lemma inv_accept m wg conns c d :
  hub_inv m wg conns → conns !! c = None → hub_inv m (wg + 1) (<[c := Conn d Added false]> conns).
Proof.
  intros [Hm Hw Hs Ho] Hc. split.
  - intros d' c' Hd. destruct (Hm d' c' Hd) as (cn' & Hc' & Hdev & Hp').
    exists cn'. rewrite lookup_insert_ne; [done|]. intros ->. by simplify_eq.
  - rewrite Hw, live_insert, delete_id by done. unfold weight. simpl. lia.
  - intros c1 cn1 Hc1 Hpc. apply lookup_insert_Some in Hc1 as [[<- <-]|[Hne Hc1]]; [done|].
    destruct (Hs c1 cn1 Hc1 Hpc) as [Hs1|[?|(c' & cn' & Hc' & Hp')]]; [by left|by right; left|].
    right; right. exists c', cn'. rewrite lookup_insert_ne; [done|]. intros ->. by simplify_eq.
  - intros c1 cn1 o Hc1 Hpc. apply lookup_insert_Some in Hc1 as [[<- <-]|[_ Hc1]]; [done|by eapply Ho].
Qed.

Lemma conn_step_inv a c cn s s' :
  state_inv s → st_conns s !! c = Some cn → conn_step a c cn s = Some s' → state_inv s'.
Proof.
  intros Hi Hc He. unfold conn_step in He.
  destruct a, (cn_phase cn) as [|old| | | | | | | | |] eqn:Hp; try done.
  - injection He as <-. by apply inv_register.
  - injection He as <-. unfold state_inv.
    destruct old as [o|]; [|by eapply inv_close_old].
    pose proof (inv_other _ _ _ Hi c cn o Hc Hp) as Hne.
    apply (close_in_inv o) in Hi as Hi'. eapply (inv_close_old _ _ _ c cn (Some o)); [done| |done|].
    + unfold close_in. case_match; simpl; [by rewrite lookup_insert_ne|done].
    + intros o' cn' [= <-]. unfold close_in. destruct (st_conns s !! o) eqn:Ho; simpl; [|congruence].
      rewrite lookup_insert_eq. by intros [= <-].
  - injection He as <-. apply inv_move; [done..|by rewrite Hp|by rewrite Hp|by rewrite Hp|done].
  - injection He as <-. apply inv_move; [done..|by rewrite Hp|by rewrite Hp|by rewrite Hp|done].
  - destruct (cn_closed cn); [done|]. injection He as <-.
    apply inv_move; [done..|by rewrite Hp|by rewrite Hp|by rewrite Hp|done].
  - injection He as <-. apply inv_move; [done..|by rewrite Hp|by rewrite Hp|by rewrite Hp|done].
  - injection He as <-. apply inv_move; [done..|by rewrite Hp|by rewrite Hp|by rewrite Hp|done].
  - pose proof (inv_unregister _ _ _ c cn Hi Hc Hp) as Hu.
    destruct (hub_Unregister c (cn_device cn) (st_clients s)) as [m r]. by injection He as <-.
  - injection He as <-. apply inv_move; [done..|by rewrite Hp|by rewrite Hp|by rewrite Hp|done].
  - injection He as <-. by apply inv_done.
  - injection He as <-. apply inv_move; [done..|by rewrite Hp|by rewrite Hp|by rewrite Hp|done].
Qed.

Lemma exec_conn a c s :
  action_conn a = Some c → exec a s = (cn ← st_conns s !! c; conn_step a c cn s).
Proof. by destruct a; intros [= <-]. Qed.

Lemma exec_hub_inv a s s' : state_inv s → exec a s = Some s' → state_inv s'.
Proof.
  intros Hi He. destruct (action_conn a) as [c|] eqn:Hac.
  { rewrite (exec_conn _ _ _ Hac) in He. destruct (st_conns s !! c) as [cn|] eqn:Hc; [|done].
    by eapply conn_step_inv. }
  destruct a; try done; simpl in He.
  - destruct (st_conns s !! c) eqn:Hc; [done|]. injection He as <-. by apply inv_accept.
  - destruct (st_shutdown s); [|done..]. by injection He as <-.
  - destruct (st_shutdown s) as [|rest|]; try done. destruct (rest !! i); [|done].
    injection He as <-. by apply (close_in_inv _ s).
  - destruct (st_shutdown s) as [|[]|]; try done. case_match; [|done]. by injection He as <-.
  - destruct (st_shutdown s) as [|[]|]; try done. by injection He as <-.
Qed.

Lemma reachable_inv T s : reachable T s → state_inv s.
Proof.
  intros Hr. assert (Hi : state_inv (initial T)).
  { unfold state_inv, initial. simpl. split; [..|intros ??? H|]; try intros ?? H; try done;
      by rewrite lookup_empty in H. }
  induction Hr as [|x y z [a Ha] Hr IH]; [done|]. apply IH. by eapply exec_hub_inv.
Qed.

(** C4: the hub never loses track of a connection.  However connections,
    disconnections, messages and a shutdown interleave, the map holds only live
    connections of the device it has them under, the wait group counts exactly
    the goroutines that have not finished, and every connection that is no longer
    its device's active one has been closed or is about to be closed by the one
    that replaced it. *)
Theorem hub_keeps_track T s : reachable T s → state_inv s.
Proof. apply reachable_inv. Qed.

(** A superseded connection leaves the newer one alone.  When a connection
    unregisters, it is removed and goes on to write the device offline if it is
    the active one; if a newer connection of the device has replaced it, the map
    stays as it is and it writes nothing.  The device table is not touched
    either way, and the entries of other devices stay. *)
Theorem unregister_spares_newer s s' c cn :
  st_conns s !! c = Some cn → exec (AUnregister c) s = Some s' →
  (if bool_decide (st_clients s !! cn_device cn = Some c)
   then st_clients s' !! cn_device cn = None ∧ st_conns s' !! c = Some (at_phase Leaving cn)
   else st_clients s' = st_clients s ∧ st_conns s' !! c = Some (at_phase Finishing cn)) ∧
  (∀ d, d ≠ cn_device cn → st_clients s' !! d = st_clients s !! d) ∧
  st_db s' = st_db s.
Proof.
  intros Hc He. rewrite (exec_conn _ c) in He by done. rewrite Hc in He. simpl in He.
  destruct (cn_phase cn); try done. unfold hub_Unregister in He.
  case_bool_decide; injection He as <-; simpl; split_and!; try done;
    try (by rewrite lookup_insert_eq); try (by rewrite lookup_delete_eq).
  intros d Hd. by rewrite lookup_delete_ne.
Qed.

(** ** Concrete executions *)

Lemma exec_all_reachable T l s : exec_all l (initial T) = Some s → reachable T s.
Proof.
  unfold reachable. generalize (initial T). induction l as [|a l IH]; intros s0; simpl.
  - intros [= ->]. apply rtc_refl.
  - destruct (exec a s0) as [s1|] eqn:Ha; [|done]. simpl. intros H.
    eapply rtc_l; [by exists a|by apply IH].
Qed.

Definition device_named (i : string) : device_row Time :=
  DeviceRow i "n" OSLinux "amd64" "h" "unknown" 1721570645000000000 None.

Definition two_devices : Tables Time :=
  MkTables [device_named "a"; device_named "b"] [] [] 1 1.

(** A connection from Accept to its first read. *)
Definition connects (c : client) (d : string) : list action :=
  [AAccept c d; ARegister c; ACloseOld c; ASetOnline c true; AAnnounce c].

(** A connection that still is the active one, from a failed read to the end. *)
Definition disconnects (c : client) : list action :=
  [AReadError c; AUnregister c; ASetOffline c true; AWgDone c; ADisconnected c].

(** The state an execution ends in. *)
Definition run (l : list action) : state :=
  default (initial empty_tables) (exec_all l (initial two_devices)).

Lemma run_reachable l : is_Some (exec_all l (initial two_devices)) → reachable two_devices (run l).
Proof.
  unfold run. intros [s Hs]. rewrite Hs. simpl. by eapply exec_all_reachable.
Qed.

Lemma hub_keeps_track_witness : state_inv (run (connects 1 "a" ++ connects 2 "a")).
Proof.
  apply (hub_keeps_track two_devices). apply run_reachable. vm_compute. by eexists.
Defined.

Lemma unregister_spares_newer_witness :
  let s := run (connects 1 "a" ++ connects 2 "a" ++ [AReadError 1]) in
  exists s', exec (AUnregister 1) s = Some s' /\ st_clients s' = st_clients s.
Proof.
  eexists. split; [vm_compute; reflexivity|].
  refine (proj1 (proj1 (unregister_spares_newer
            (run (connects 1 "a" ++ connects 2 "a" ++ [AReadError 1])) _ 1
            (Conn "a" Closing true) _ _))); vm_compute; reflexivity.
Defined.

(** ** Races

    Executions of the code in which the status of a device, an event or a
    shutdown goes wrong. *)

(** An execution with every status write taking effect, that has come to rest: each
    connection it has accepted is reading or has ended. *)
Definition write_ok (a : action) : bool :=
  match a with ASetOnline _ ok | AUpdateLastSeen _ _ ok | ASetOffline _ ok => ok | _ => true end.

Definition at_rest (cn : conn) : bool := bool_decide (cn_phase cn ∈ [Running; Gone]).

Definition settles (l : list action) (s : state) : Prop :=
  exec_all l (initial two_devices) = Some s ∧ forallb write_ok l = true ∧
  map_Forall (λ _ cn, at_rest cn = true) (st_conns s).

Lemma settles_run l :
  (match exec_all l (initial two_devices) with
   | Some s => forallb write_ok l && bool_decide (map_Forall (λ _ cn, at_rest cn = true) (st_conns s))
   | None => false
   end) = true → settles l (run l).
Proof.
  unfold settles, run. destruct (exec_all l (initial two_devices)) as [s|]; [|done].
  intros [H1 H2]%andb_true_iff. split_and!; [done|done|]. by apply bool_decide_eq_true_1 in H2.
Qed.

Definition connected (d : string) (s : state) : Prop :=
  ∃ c cn, st_conns s !! c = Some cn ∧ cn_device cn = d ∧ cn_phase cn = Running ∧ cn_closed cn = false.

(** C37: what the interleavings can break.  None of the following is true of every execution
    that has come to rest with all its status writes done: that a device with no
    connection is not recorded online (a heartbeat of a replaced connection may write
    after the replacement's offline write); that a device with a connection is not
    recorded offline (a connection that has unregistered may write after the reconnect);
    that the last event of a device with a connection is its connection (a replaced
    connection announces its end); and that after [CloseAll] every connection accepted
    before it is closed (one that registers after [CloseAll] has read the map is not). *)
Theorem status_races :
  ¬ (∀ l s d, settles l s → has_device d two_devices = true →
       (∀ c cn, st_conns s !! c = Some cn → cn_device cn = d → cn_phase cn = Gone) →
       status_of d (st_db s) ≠ Some StatusOnline) ∧
  ¬ (∀ l s d, settles l s → connected d s → hub_IsConnected d (st_clients s) = true →
       status_of d (st_db s) ≠ Some StatusOffline) ∧
  ¬ (∀ l s d, settles l s → connected d s → last (st_events s) ≠ Some (DeviceDisconnected d)) ∧
  ¬ (∀ l1 l2 s c d cn, settles (l1 ++ ACloseAll :: l2) s → st_shutdown s = ClosingAll [] →
       AAccept c d ∈ l1 → st_conns s !! c = Some cn → cn_phase cn = Gone ∨ cn_closed cn = true).
Proof.
  split_and!; intros H.
  - set (l := connects 1 "a" ++ [AHeartbeat 1] ++ connects 2 "a" ++ disconnects 2 ++
              [AUpdateLastSeen 1 1721570700000000000 true; AReadError 1; AUnregister 1; AWgDone 1; ADisconnected 1]).
    refine (H l (run l) "a" _ eq_refl _ _); [apply settles_run; by vm_compute| |by vm_compute].
    assert (Hall : map_Forall (λ _ cn, cn_phase cn = Gone) (st_conns (run l)))
      by (apply (bool_decide_eq_true_1 _); by vm_compute).
    intros c cn Hc _. by apply (Hall c cn).
  - set (l := connects 1 "a" ++ [AReadError 1; AUnregister 1] ++ connects 2 "a" ++
              [ASetOffline 1 true; AWgDone 1; ADisconnected 1]).
    refine (H l (run l) "a" _ _ _ _); [apply settles_run; by vm_compute| |by vm_compute|by vm_compute].
    exists 2%nat, (Conn "a" Running false). by vm_compute.
  - set (l := connects 1 "a" ++ connects 2 "a" ++ [AReadError 1; AUnregister 1; AWgDone 1; ADisconnected 1]).
    refine (H l (run l) "a" _ _ _); [apply settles_run; by vm_compute| |by vm_compute].
    exists 2%nat, (Conn "a" Running false). by vm_compute.
  - set (l1 := connects 1 "a" ++ [AAccept 2 "b"]).
    set (l2 := [ARegister 2; ACloseOld 2; ASetOnline 2 true; AAnnounce 2; ACloseNext 0] ++ disconnects 1).
    destruct (H l1 l2 (run (l1 ++ ACloseAll :: l2)) 2%nat "b" (Conn "b" Running false)) as [Hg|Hg];
      [apply settles_run; by vm_compute|by vm_compute|set_solver|by vm_compute|done|done].
Qed.

(** ** Connections one after the other *)

(** A device connects again only when its earlier connections have done their
    offline write, and every status write takes effect. *)
Definition past (p : phase) : bool :=
  match p with Finishing | Left | Gone => true | _ => false end.

Definition sequential (a : action) (s : state) : Prop :=
  match a with
  | AAccept _ d => map_Forall (λ _ cn, cn_device cn = d → past (cn_phase cn) = true) (st_conns s)
  | ASetOnline _ ok | AUpdateLastSeen _ _ ok | ASetOffline _ ok => ok = true
  | _ => True
  end.

#[export] Instance sequential_dec a s : Decision (sequential a s).
Proof. destruct a; simpl; apply _. Defined.

Definition seq_step (s s' : state) : Prop := ∃ a, sequential a s ∧ exec a s = Some s'.

Definition seq_reachable (T : Tables Time) : state → Prop := rtc seq_step (initial T).

Lemma seq_reachable_reachable T s : seq_reachable T s → reachable T s.
Proof. apply rtc_subrel. intros x y (a & _ & H). by exists a. Qed.

(** The phases between the online and the offline write. *)
Definition shows_online (p : phase) : bool :=
  match p with Announcing | Running | Seen | Closing | Leaving => true | _ => false end.

Lemma status_written d j f T :
  (∀ r, dr_id (f r) = dr_id r) →
  status_of j (written true (update_device d f) T) =
  dr_status <$> ((if bool_decide (d = j) then f else id) <$> find_device j T).
Proof.
  intros Hf. unfold status_of, written, update_device, find_device. simpl. by rewrite (find_update dr_id).
Qed.

Section device.
Context (d : string).

(** The connections of the device. *)
Definition of_device (s : state) (c : client) (cn : conn) : Prop :=
  st_conns s !! c = Some cn ∧ cn_device cn = d.

Record dev_inv (s : state) : Prop := {
  di_known : is_Some (status_of d (st_db s));
  di_unique c c' cn cn' :
    of_device s c cn → of_device s c' cn' →
    past (cn_phase cn) = false → past (cn_phase cn') = false → c = c';
  di_map c cn :
    of_device s c cn → past (cn_phase cn) = false →
    st_clients s !! d = if in_map (cn_phase cn) then Some c else None;
  di_online c cn :
    of_device s c cn → shows_online (cn_phase cn) = true →
    status_of d (st_db s) = Some StatusOnline;
  di_offline c cn :
    of_device s c cn → (∀ c' cn', of_device s c' cn' → past (cn_phase cn') = true) →
    status_of d (st_db s) = Some StatusOffline ∧ st_clients s !! d = None
}.

(** What does not concern the device: same connections, in the same phases or
    past both times, same entry, same status. *)
Definition same_phase (p q : phase) : Prop := p = q ∨ past p = true ∧ past q = true.

Lemma dev_inv_same s s' :
  dev_inv s →
  (∀ c cn', of_device s' c cn' → ∃ cn, of_device s c cn ∧ same_phase (cn_phase cn) (cn_phase cn')) →
  (∀ c cn, of_device s c cn → ∃ cn', of_device s' c cn' ∧ same_phase (cn_phase cn) (cn_phase cn')) →
  st_clients s' !! d = st_clients s !! d →
  status_of d (st_db s') = status_of d (st_db s) →
  dev_inv s'.
Proof using.
  intros [Hk Hu Hm Ho Hf] Hin Hout Hmap Hdb. split.
  - by rewrite Hdb.
  - intros c c' cn cn' H1 H2 P1 P2. apply Hin in H1 as (cn1 & H1 & [E1|[_ E1]]); [|congruence].
    apply Hin in H2 as (cn2 & H2 & [E2|[_ E2]]); [|congruence]. eapply Hu; [done..| |]; congruence.
  - intros c cn H1 P1. apply Hin in H1 as (cn1 & H1 & [E1|[_ E1]]); [|congruence].
    rewrite Hmap, <-E1. apply Hm; [done|congruence].
  - intros c cn H1 P1. apply Hin in H1 as (cn1 & H1 & [E1|[_ E1]]); [|by destruct (cn_phase cn)].
    rewrite Hdb. eapply Ho; [done|]. congruence.
  - intros c cn H1 Hall. apply Hin in H1 as (cn1 & H1 & _). rewrite Hmap, Hdb. apply (Hf c cn1 H1).
    intros c' cn' H2. destruct (Hout c' cn' H2) as (cn2 & H3 & [E|[E _]]); [|done].
    rewrite E. by eapply Hall.
Qed.

(** A step of a connection of another device, or of one that is past. *)
Lemma dev_inv_elsewhere s s' c cn p :
  dev_inv s → st_conns s !! c = Some cn →
  (cn_device cn ≠ d ∨ past (cn_phase cn) = true ∧ past p = true) →
  st_conns s' = <[c := at_phase p cn]> (st_conns s) →
  st_clients s' !! d = st_clients s !! d →
  status_of d (st_db s') = status_of d (st_db s) →
  dev_inv s'.
Proof using.
  intros Hi Hc Hor Hconns Hmap Hdb. eapply dev_inv_same; [done|..|done|done].
  - intros c' cn' [H1 H2]. rewrite Hconns in H1.
    apply lookup_insert_Some in H1 as [[<- <-]|[Hne H1]].
    + destruct Hor as [Hor|[P1 P2]]; [done|]. exists cn. split; [by split|by right].
    + exists cn'. split; [by split|by left].
  - intros c' cn' [H1 H2]. destruct (decide (c' = c)) as [->|Hne].
    + assert (cn' = cn) as -> by congruence. destruct Hor as [Hor|[P1 P2]]; [done|].
      exists (at_phase p cn).
      split; [|by right]. split; [|done]. rewrite Hconns. apply lookup_insert_eq.
    + exists cn'. split; [|by left]. split; [|done]. by rewrite Hconns, lookup_insert_ne.
Qed.

Lemma close_in_dev c s : dev_inv s → dev_inv (close_in c s).
Proof using.
  intros Hi. unfold close_in. destruct (st_conns s !! c) as [cn|] eqn:Hc; [|done].
  eapply dev_inv_same; [done|..|done|done].
  - intros c' cn' [H1 H2]. simpl in H1. apply lookup_insert_Some in H1 as [[<- <-]|[Hne H1]].
    + exists cn. split; [by split|by left].
    + exists cn'. split; [by split|by left].
  - intros c' cn' [H1 H2]. destruct (decide (c' = c)) as [->|Hne].
    + assert (cn' = cn) as -> by congruence. exists (close_conn cn). split; [|by left]. split; [|done]. apply lookup_insert_eq.
    + exists cn'. split; [|by left]. split; [|done]. simpl. by rewrite lookup_insert_ne.
Qed.

(** A step of the one connection of the device that is not past. *)
Lemma dev_inv_own s s' c cn p :
  dev_inv s → of_device s c cn → past (cn_phase cn) = false →
  (∀ c', c' ≠ c → st_conns s' !! c' = st_conns s !! c') →
  st_conns s' !! c = Some (at_phase p cn) →
  (past p = false → st_clients s' !! d = if in_map p then Some c else None) →
  is_Some (status_of d (st_db s')) →
  (shows_online p = true → status_of d (st_db s') = Some StatusOnline) →
  (past p = true → status_of d (st_db s') = Some StatusOffline ∧ st_clients s' !! d = None) →
  dev_inv s'.
Proof using.
  intros [Hk Hu Hm Ho Hf] [Hc Hd] Hp Hother Hc' Hmap Hknown Hon Hoff.
  assert (Hpast : ∀ c' cn', of_device s' c' cn' → (c' = c ∧ cn' = at_phase p cn) ∨
                    (c' ≠ c ∧ past (cn_phase cn') = true)).
  { intros c' cn' [H1 H2]. destruct (decide (c' = c)) as [->|Hne]; [left; split; congruence|right].
    split; [done|]. rewrite Hother in H1 by done. destruct (past (cn_phase cn')) eqn:E; [done|].
    exfalso. apply Hne. by eapply (Hu c' c cn' cn). }
  split; [done|..].
  - intros c1 c2 cn1 cn2 H1 H2 P1 P2.
    destruct (Hpast _ _ H1) as [[-> _]|[_ E]]; [|congruence].
    destruct (Hpast _ _ H2) as [[-> _]|[_ E]]; [done|congruence].
  - intros c1 cn1 H1 P1. destruct (Hpast _ _ H1) as [[-> ->]|[_ E]]; [by apply Hmap|congruence].
  - intros c1 cn1 H1 P1. destruct (Hpast _ _ H1) as [[-> ->]|[_ E]]; [by apply Hon|].
    by destruct (cn_phase cn1).
  - intros c1 cn1 H1 Hall. apply Hoff. apply (Hall c (at_phase p cn)). by split.
Qed.

Lemma status_elsewhere d' j f T :
  d' ≠ j → (∀ r, dr_id (f r) = dr_id r) →
  status_of j (written true (update_device d' f) T) = status_of j T.
Proof using.
  intros Hne Hf. rewrite status_written, bool_decide_eq_false_2 by done.
  unfold status_of. by destruct (find_device j T).
Qed.

Lemma status_here f T :
  (∀ r, dr_id (f r) = dr_id r) →
  status_of d (written true (update_device d f) T) = (λ r, dr_status (f r)) <$> find_device d T.
Proof using.
  intros Hf. rewrite status_written, bool_decide_eq_true_2 by done. by destruct (find_device d T).
Qed.

Lemma known_here f T st :
  is_Some (status_of d T) → (∀ r, dr_id (f r) = dr_id r) → (∀ r, dr_status (f r) = st) →
  status_of d (written true (update_device d f) T) = Some st.
Proof using.
  intros [x Hx] Hf Hs. rewrite status_here by done. unfold status_of in Hx.
  destruct (find_device d T); [|done]. simpl. by rewrite Hs.
Qed.
End device.

(** A step of a connection that leaves the map and the device table alone. *)
Lemma dev_inv_local d s s' c cn p :
  dev_inv d s → st_conns s !! c = Some cn →
  st_conns s' = <[c := at_phase p cn]> (st_conns s) →
  st_clients s' = st_clients s → st_db s' = st_db s →
  past (cn_phase cn) = false → past p = false → in_map p = in_map (cn_phase cn) →
  (shows_online p = true → shows_online (cn_phase cn) = true) →
  dev_inv d s'.
Proof.
  intros Hi Hc Hconns Hm Hdb P1 P2 Hin Hon. destruct (decide (cn_device cn = d)) as [Hd|Hd].
  - apply (dev_inv_own d s s' c cn p); try done.
    + intros c' Hne. by rewrite Hconns, lookup_insert_ne.
    + rewrite Hconns. apply lookup_insert_eq.
    + intros _. rewrite Hm, Hin. by eapply (di_map d s Hi).
    + rewrite Hdb. apply Hi.
    + intros Hp. rewrite Hdb. eapply (di_online d s Hi); [by split|auto].
    + intros Hp. congruence.
  - eapply (dev_inv_elsewhere d s s' c cn p); try done; [by left|by rewrite Hm|by rewrite Hdb].
Qed.

(** A status write of a connection. *)
Lemma dev_inv_write d s s' c cn p f st :
  dev_inv d s → st_conns s !! c = Some cn →
  (∀ r, dr_id (f r) = dr_id r) → (∀ r : device_row Time, dr_status (f r) = st) →
  st_conns s' = <[c := at_phase p cn]> (st_conns s) →
  st_clients s' = st_clients s →
  st_db s' = written true (update_device (cn_device cn) f) (st_db s) →
  past (cn_phase cn) = false →
  (if past p then in_map (cn_phase cn) = false ∧ st = StatusOffline
   else in_map p = in_map (cn_phase cn) ∧ st = StatusOnline) →
  dev_inv d s'.
Proof.
  intros Hi Hc Hf Hst Hconns Hm Hdb P1 P2. destruct (decide (cn_device cn = d)) as [Hd|Hd].
  - rewrite Hd in Hdb.
    assert (Hs : status_of d (st_db s') = Some st) by (rewrite Hdb; apply known_here; [apply Hi|done..]).
    assert (Hmap : st_clients s !! d = if in_map (cn_phase cn) then Some c else None)
      by (by eapply (di_map d s Hi)).
    apply (dev_inv_own d s s' c cn p); try done.
    + intros c' Hne. by rewrite Hconns, lookup_insert_ne.
    + rewrite Hconns. apply lookup_insert_eq.
    + intros Hp. rewrite Hp in P2. destruct P2 as [P2 _]. by rewrite Hm, P2.
    + intros Hp. rewrite Hs. destruct (past p) eqn:E; [by destruct p|]. by destruct P2 as [_ ->].
    + intros Hp. rewrite Hp in P2. destruct P2 as [P2 ->]. rewrite Hs, Hm, Hmap. by rewrite P2.
  - eapply (dev_inv_elsewhere d s s' c cn p); try done; [by left|by rewrite Hm|].
    rewrite Hdb. by apply status_elsewhere.
Qed.

(** The phase a connection steps to. *)
Tactic Notation "to_phase" uconstr(lem) :=
  match goal with |- context [with_conn _ (at_phase ?p ?cn) _] => eapply (lem p) end.

Lemma conn_step_dev d a c cn s s' :
  state_inv s → dev_inv d s → sequential a s → st_conns s !! c = Some cn →
  conn_step a c cn s = Some s' → dev_inv d s'.
Proof.
  intros Hinv Hi Hseq Hc He. unfold conn_step in He.
  destruct a, (cn_phase cn) as [|old| | | | | | | | |] eqn:Hp; try done; simpl in Hseq; subst;
    try (injection He as <-; to_phase (dev_inv_local d s _ c cn); rewrite ?Hp; done);
    try (injection He as <-;
         match goal with
         | |- context [written true (update_device _ ?f)] =>
             to_phase (λ p, dev_inv_write d s _ c cn p f (dr_status (f (device_named d))))
         end; rewrite ?Hp; done);
    try (injection He as <-; to_phase (dev_inv_elsewhere d s _ c cn); rewrite ?Hp; try done; by right).
  - injection He as <-. destruct (decide (cn_device cn = d)) as [Hd|Hd].
    + to_phase (dev_inv_own d s _ c cn); rewrite ?Hp; simpl; try done.
      * intros c' Hne. by rewrite lookup_insert_ne.
      * by rewrite lookup_insert_eq.
      * intros _. rewrite Hd. by rewrite lookup_insert_eq.
      * apply Hi.
    + to_phase (dev_inv_elsewhere d s _ c cn); try done; [by left|]. simpl. by rewrite lookup_insert_ne.
  - injection He as <-. set (s1 := match old with Some o => close_in o s | None => s end).
    assert (Hi1 : dev_inv d s1) by (unfold s1; destruct old; [by apply close_in_dev|done]).
    assert (Hc1 : st_conns s1 !! c = Some cn).
    { unfold s1. destruct old as [o|]; [|done].
      pose proof (inv_other _ _ _ Hinv c cn o Hc Hp) as Hne. unfold close_in.
      case_match; simpl; [by rewrite lookup_insert_ne|done]. }
    to_phase (dev_inv_local d s1 _ c cn); rewrite ?Hp; done.
  - destruct (cn_closed cn); [done|]. injection He as <-.
    to_phase (dev_inv_local d s _ c cn); rewrite ?Hp; done.
  - destruct (decide (cn_device cn = d)) as [Hd|Hd].
    + pose proof (di_map d s Hi c cn ltac:(by split)) as Hm. rewrite Hp in Hm. specialize (Hm eq_refl).
      unfold hub_Unregister in He. rewrite Hd, Hm, bool_decide_eq_true_2 in He by done.
      injection He as <-. to_phase (dev_inv_own d s _ c cn); rewrite ?Hp; simpl; try done.
      * intros c' Hne. by rewrite lookup_insert_ne.
      * by rewrite lookup_insert_eq.
      * intros _. apply lookup_delete_eq.
      * apply Hi.
      * intros _. eapply (di_online d s Hi c cn); [by split|by rewrite Hp].
    + destruct (hub_Unregister c (cn_device cn) (st_clients s)) as [m r] eqn:Hu. injection He as <-.
      to_phase (dev_inv_elsewhere d s _ c cn); try done; [by left|]. simpl.
      unfold hub_Unregister in Hu. case_bool_decide; simplify_eq; [by rewrite lookup_delete_ne|done].
Qed.

Lemma dev_inv_accept d c d' s :
  state_inv s → dev_inv d s → st_conns s !! c = None → sequential (AAccept c d') s →
  dev_inv d (add_wg 1 (with_conn c (Conn d' Added false) s)).
Proof.
  intros Hinv Hi Hc Hseq. simpl in Hseq. pose proof Hi as [Hk Hu Hm Ho Hf].
  destruct (decide (d' = d)) as [->|Hne].
  - assert (Hnone : st_clients s !! d = None).
    { destruct (st_clients s !! d) as [c'|] eqn:Hd; [|done].
      destruct (inv_map _ _ _ Hinv d c' Hd) as (cn & Hc' & Hdev & Hp).
      specialize (Hseq c' cn Hc' Hdev). by destruct (cn_phase cn). }
    assert (Hof : ∀ c' cn', of_device d (add_wg 1 (with_conn c (Conn d Added false) s)) c' cn' →
              (c' = c ∧ cn' = Conn d Added false) ∨ past (cn_phase cn') = true).
    { intros c' cn' [H1 H2]. simpl in H1. apply lookup_insert_Some in H1 as [[<- <-]|[_ H1]];
        [by left|right]. by eapply Hseq. }
    split; simpl; [done|..].
    + intros c1 c2 cn1 cn2 H1 H2 P1 P2. destruct (Hof _ _ H1) as [[-> _]|E]; [|congruence].
      destruct (Hof _ _ H2) as [[-> _]|E]; [done|congruence].
    + intros c1 cn1 H1 P1. destruct (Hof _ _ H1) as [[-> ->]|E]; [done|congruence].
    + intros c1 cn1 H1 P1. destruct (Hof _ _ H1) as [[-> ->]|E]; [done|by destruct (cn_phase cn1)].
    + intros c1 cn1 H1 Hall. exfalso. specialize (Hall c (Conn d Added false)).
      assert (past Added = true); [|done]. apply Hall. split; [|done]. apply lookup_insert_eq.
  - eapply dev_inv_same; [done|..|done|done].
    + intros c' cn' [H1 H2]. simpl in H1. apply lookup_insert_Some in H1 as [[<- <-]|[_ H1]]; [done|].
      exists cn'. split; [by split|by left].
    + intros c' cn' [H1 H2]. exists cn'. split; [|by left]. split; [|done]. simpl.
      rewrite lookup_insert_ne; [done|]. intros ->. congruence.
Qed.

Lemma exec_dev d a s s' :
  state_inv s → dev_inv d s → sequential a s → exec a s = Some s' → dev_inv d s'.
Proof.
  intros Hinv Hi Hseq He. destruct (action_conn a) as [c|] eqn:Hac.
  { rewrite (exec_conn _ _ _ Hac) in He. destruct (st_conns s !! c) as [cn|] eqn:Hc; [|done].
    by eapply conn_step_dev. }
  destruct a; try done; simpl in He.
  - destruct (st_conns s !! c) eqn:Hc; [done|]. injection He as <-. by apply dev_inv_accept.
  - destruct (st_shutdown s); [|done..]. injection He as <-. by destruct Hi.
  - destruct (st_shutdown s) as [|rest|]; try done. destruct (rest !! i) as [c|]; [|done].
    injection He as <-. apply (close_in_dev d c) in Hi. by destruct Hi.
  - destruct (st_shutdown s) as [|[]|]; try done. case_match; [|done]. injection He as <-.
    by destruct Hi.
  - destruct (st_shutdown s) as [|[]|]; try done. injection He as <-. by destruct Hi.
Qed.

Lemma seq_reachable_dev d T s :
  seq_reachable T s → has_device d T = true → dev_inv d s.
Proof.
  intros Hr Hd. assert (Hi : state_inv (initial T) ∧ dev_inv d (initial T)).
  { split; [apply (reachable_inv T), rtc_refl|]. unfold initial. split; simpl.
    - unfold status_of, find_device. apply has_device_true in Hd.
      apply list_elem_of_fmap in Hd as (r & -> & Hr'). clear Hr.
      induction (devices T) as [|r' l IH]; [set_solver|]. simpl.
      destruct (bool_decide_reflect (dr_id r' = dr_id r)); [by eexists|]. apply IH. set_solver.
    - by intros ???? [H _].
    - by intros ?? [H _].
    - by intros ?? [H _].
    - by intros ?? [H _]. }
  induction Hr as [|x y z (a & Hseq & He) Hr IH]; [apply Hi|]. apply IH. destruct Hi as [H1 H2].
  split; [by eapply exec_hub_inv|by eapply exec_dev].
Qed.

(** C24: the recorded status is right when a device connects again only after its
    last connection is done.  Then, with every status write taking effect, a
    registered device is recorded online from its connection's online write to
    its offline write, is found in the hub while it is registered there, and
    when all its connections have ended it is recorded offline and is not in the
    hub.  (The races above need an overlap.) *)
Theorem sequential_status T s d :
  seq_reachable T s → has_device d T = true →
  (∀ c cn, st_conns s !! c = Some cn → cn_device cn = d → shows_online (cn_phase cn) = true →
     status_of d (st_db s) = Some StatusOnline) ∧
  (∀ c cn, st_conns s !! c = Some cn → cn_device cn = d → in_map (cn_phase cn) = true →
     st_clients s !! d = Some c) ∧
  ((∃ c cn, st_conns s !! c = Some cn ∧ cn_device cn = d) →
   (∀ c cn, st_conns s !! c = Some cn → cn_device cn = d → past (cn_phase cn) = true) →
   status_of d (st_db s) = Some StatusOffline ∧ st_clients s !! d = None).
Proof.
  intros Hr Hd. destruct (seq_reachable_dev d T s Hr Hd) as [Hk Hu Hm Ho Hf]. split_and!.
  - intros c cn H1 H2 H3. by apply (Ho c cn).
  - intros c cn H1 H2 H3. rewrite (Hm c cn) by (by split || by destruct (cn_phase cn)). by rewrite H3.
  - intros (c & cn & H1 & H2) Hall. apply (Hf c cn); [by split|].
    intros c' cn' [H3 H4]. by eapply Hall.
Qed.

(** The execution [l] keeps to [sequential]. *)
Fixpoint seq_all (l : list action) (s : state) : bool :=
  match l with
  | [] => true
  | a :: l =>
      bool_decide (sequential a s) &&
      match exec a s with Some s' => seq_all l s' | None => false end
  end.

Lemma run_seq_reachable l : seq_all l (initial two_devices) = true → seq_reachable two_devices (run l).
Proof.
  unfold seq_reachable, run. generalize (initial two_devices).
  induction l as [|a l IH]; intros s0; simpl; [intros _; apply rtc_refl|].
  intros [Ha Hl]%andb_true_iff. apply bool_decide_eq_true_1 in Ha.
  destruct (exec a s0) as [s1|] eqn:He; [|done]. simpl.
  eapply rtc_l; [by exists a|by apply IH].
Qed.

Definition two_sessions : list action :=
  connects 1 "a" ++ disconnects 1 ++ connects 2 "a" ++ disconnects 2.

Lemma sequential_status_witness :
  status_of "a" (st_db (run two_sessions)) = Some StatusOffline /\
  st_clients (run two_sessions) !! "a" = None.
Proof.
  assert (Hr : seq_reachable two_devices (run two_sessions)).
  { apply run_seq_reachable. vm_compute. reflexivity. }
  refine (proj2 (proj2 (sequential_status two_devices _ "a" Hr eq_refl)) _ _).
  - exists 1%nat, (Conn "a" Gone false). vm_compute. done.
  - intros c cn H _. revert c cn H.
    apply (bool_decide_eq_true_1 (map_Forall (λ _ cn, past (cn_phase cn) = true)
             (st_conns (run two_sessions)))). vm_compute. reflexivity.
Defined.

(** ** What an execution did *)

Lemma exec_all_app l k s : exec_all (l ++ k) s = exec_all l s ≫= exec_all k.
Proof. revert s. induction l as [|a l IH]; intros s; simpl; [done|]. destruct (exec a s); [apply IH|done]. Qed.

Lemma exec_all_snoc l a s s' :
  exec_all (l ++ [a]) s = Some s' ↔ ∃ s1, exec_all l s = Some s1 ∧ exec a s1 = Some s'.
Proof.
  rewrite exec_all_app. destruct (exec_all l s) as [s1|]; cbn [mbind option_bind exec_all].
  - split.
    + destruct (exec a s1) as [s2|] eqn:He; [|done]. intros [= <-]. by exists s1.
    + intros (s2 & [= <-] & He). by rewrite He.
  - split; [done|]. by intros (? & ? & _).
Qed.

(** Connection [c] of device [d] did its offline write in [l]: if the write took effect
    and [T] has the device, the device was offline after it. *)
Definition wrote_offline (T : Tables Time) (l : list action) (c : client) (d : string) : Prop :=
  ∃ l1 ok l2 s, l = l1 ++ ASetOffline c ok :: l2 ∧
    exec_all (l1 ++ [ASetOffline c ok]) (initial T) = Some s ∧
    (ok = true → is_Some (status_of d T) → status_of d (st_db s) = Some StatusOffline).

(** Another connection of [d] registered after [c] had. *)
Definition superseded (l : list action) (c : client) (d : string) : Prop :=
  ∃ l1 c' l2, l = l1 ++ ARegister c' :: l2 ∧ c' ≠ c ∧ ARegister c ∈ l1 ∧ AAccept c' d ∈ l1.

Lemma wrote_offline_snoc T l a c d : wrote_offline T l c d → wrote_offline T (l ++ [a]) c d.
Proof.
  intros (l1 & ok & l2 & s & -> & H). exists l1, ok, (l2 ++ [a]), s. by rewrite <-app_assoc.
Qed.

Lemma superseded_snoc l a c d : superseded l c d → superseded (l ++ [a]) c d.
Proof.
  intros (l1 & c' & l2 & -> & H). exists l1, c', (l2 ++ [a]). by rewrite <-app_assoc.
Qed.

(** What the execution [l] has to show for the state [s] it has led to. *)
Record traced (T : Tables Time) (l : list action) (s : state) : Prop := {
  tr_accept c cn : st_conns s !! c = Some cn → AAccept c (cn_device cn) ∈ l;
  tr_register c cn : st_conns s !! c = Some cn → cn_phase cn ≠ Added → ARegister c ∈ l;
  tr_in_map c cn :
    st_conns s !! c = Some cn → in_map (cn_phase cn) = true →
    st_clients s !! cn_device cn = Some c ∨ superseded l c (cn_device cn);
  tr_done c cn :
    st_conns s !! c = Some cn → cn_phase cn ∈ [Finishing; Left; Gone] →
    wrote_offline T l c (cn_device cn) ∨ superseded l c (cn_device cn);
  tr_known d : is_Some (status_of d T) → is_Some (status_of d (st_db s))
}.

(** How a step finds the connections: as they are, but for the one it is of. *)
Lemma exec_conns a s s' c cn' :
  exec a s = Some s' → st_conns s' !! c = Some cn' →
  (∃ cn, st_conns s !! c = Some cn ∧ cn_device cn' = cn_device cn ∧
     (cn_phase cn' = cn_phase cn ∨ action_conn a = Some c)) ∨
  (a = AAccept c (cn_device cn') ∧ cn_phase cn' = Added).
Proof.
  assert (Hclose : ∀ o t cn1, st_conns (close_in o t) !! c = Some cn1 →
            ∃ cn, st_conns t !! c = Some cn ∧ cn_device cn1 = cn_device cn ∧ cn_phase cn1 = cn_phase cn).
  { intros o t cn1. unfold close_in. destruct (st_conns t !! o) as [cn|] eqn:Ho; [|by exists cn1].
    simpl. intros [[<- <-]|[_ H]]%lookup_insert_Some; [by exists cn|by exists cn1]. }
  intros He Hc. destruct (action_conn a) as [c0|] eqn:Hac.
  - rewrite (exec_conn _ _ _ Hac) in He. destruct (st_conns s !! c0) as [cn|] eqn:Hc0; [|done]. left.
    assert (Hstep : ∃ p t, st_conns s' = <[c0 := at_phase p cn]> (st_conns t) ∧
              (t = s ∨ ∃ o, t = close_in o s)).
    { simpl in He. unfold conn_step in He. destruct a, (cn_phase cn); try done;
        try (destruct (hub_Unregister _ _ _) as [m r]); try (destruct (cn_closed cn); [done|]);
        injection He as <-; simpl; eexists _;
        first [match goal with |- context [match ?o with Some x => close_in x s | None => s end] =>
                 destruct o end; [eexists (close_in _ s)|exists s]; split; eauto
              |exists s; split; eauto]. }
    destruct Hstep as (p & t & Hs' & Ht). rewrite Hs' in Hc.
    apply lookup_insert_Some in Hc as [[<- <-]|[Hne Hc]]; [exists cn; auto|].
    destruct Ht as [->|[o ->]]; [by exists cn'; auto|].
    destruct (Hclose _ _ _ Hc) as (cn1 & ? & ? & ?). eauto.
  - destruct a; try done; simpl in He.
    + destruct (st_conns s !! c0) eqn:Hc0; [done|]. injection He as <-. simpl in Hc.
      apply lookup_insert_Some in Hc as [[<- <-]|[Hne Hc]]; [by right|left; by exists cn'; auto].
    + destruct (st_shutdown s); [|done..]. injection He as <-. left. by exists cn'; auto.
    + destruct (st_shutdown s) as [|rest|]; try done. destruct (rest !! i); [|done].
      injection He as <-. simpl in Hc. destruct (Hclose _ _ _ Hc) as (cn1 & ? & ? & ?). left; eauto.
    + destruct (st_shutdown s) as [|[]|]; try done. case_match; [|done]. injection He as <-.
      left. by exists cn'; auto.
    + destruct (st_shutdown s) as [|[]|]; try done. injection He as <-. left. by exists cn'; auto.
Qed.

Lemma close_in_same o s : st_clients (close_in o s) = st_clients s ∧ st_db (close_in o s) = st_db s.
Proof. unfold close_in. by destruct (st_conns s !! o). Qed.

(** An entry of the map stays, but for a registration of the device or its own end. *)
Lemma exec_clients a s s' d c :
  exec a s = Some s' → st_clients s !! d = Some c →
  st_clients s' !! d = Some c ∨ a = AUnregister c ∨
  ∃ c' cn', a = ARegister c' ∧ st_conns s !! c' = Some cn' ∧ cn_device cn' = d ∧ cn_phase cn' = Added.
Proof.
  intros He Hd. destruct (action_conn a) as [c0|] eqn:Hac.
  - rewrite (exec_conn _ _ _ Hac) in He. destruct (st_conns s !! c0) as [cn|] eqn:Hc0; [|done].
    simpl in He. unfold conn_step in He. destruct a, (cn_phase cn) as [|old| | | | | | | | |] eqn:Hp; try done;
      injection Hac as ->.
    all: try (injection He as <-; by left).
    + injection He as <-. simpl. destruct (decide (cn_device cn = d)) as [Hdev|Hdev].
      * right; right. by exists c0, cn.
      * left. by rewrite lookup_insert_ne.
    + injection He as <-. left. simpl. destruct old as [o|]; [|done]. by destruct (close_in_same o s) as [-> _].
    + destruct (cn_closed cn); [done|]. injection He as <-. by left.
    + unfold hub_Unregister in He. case_bool_decide as Hm; injection He as <-; [|by left]. simpl.
      destruct (decide (cn_device cn = d)) as [<-|Hdev]; [right; left; congruence|].
      left. by rewrite lookup_delete_ne.
  - left. destruct a; try done; simpl in He.
    + destruct (st_conns s !! c0); [done|]. by injection He as <-.
    + destruct (st_shutdown s); [|done..]. by injection He as <-.
    + destruct (st_shutdown s) as [|rest|]; try done. destruct (rest !! i) as [o|]; [|done].
      injection He as <-. simpl. by destruct (close_in_same o s) as [-> _].
    + destruct (st_shutdown s) as [|[]|]; try done. case_match; [|done]. by injection He as <-.
    + destruct (st_shutdown s) as [|[]|]; try done. by injection He as <-.
Qed.

(** Devices are not forgotten. *)
Lemma written_known d ok d' f T :
  (∀ r, dr_id (f r) = dr_id r) →
  is_Some (status_of d T) → is_Some (status_of d (written ok (update_device d' f) T)).
Proof.
  intros Hf Hk. destruct ok; [|done]. rewrite status_written by done. unfold status_of in Hk.
  destruct (find_device d T); [|by destruct Hk]. by eexists.
Qed.

Lemma exec_known a s s' d :
  exec a s = Some s' → is_Some (status_of d (st_db s)) → is_Some (status_of d (st_db s')).
Proof.
  intros He Hk. destruct (action_conn a) as [c0|] eqn:Hac.
  - rewrite (exec_conn _ _ _ Hac) in He. destruct (st_conns s !! c0) as [cn|]; [|done].
    simpl in He. unfold conn_step in He. destruct a, (cn_phase cn) as [|old| | | | | | | | |]; try done.
    all: try (injection He as <-; first [done|by apply written_known]).
    + injection He as <-. simpl. destruct old as [o|]; [|done]. by destruct (close_in_same o s) as [_ ->].
    + destruct (cn_closed cn); [done|]. by injection He as <-.
    + destruct (hub_Unregister _ _ _). by injection He as <-.
  - destruct a; try done; simpl in He.
    + destruct (st_conns s !! c); [done|]. by injection He as <-.
    + destruct (st_shutdown s); [|done..]. by injection He as <-.
    + destruct (st_shutdown s) as [|rest|]; try done. destruct (rest !! i) as [o|]; [|done].
      injection He as <-. simpl. by destruct (close_in_same o s) as [_ ->].
    + destruct (st_shutdown s) as [|[]|]; try done. case_match; [|done]. by injection He as <-.
    + destruct (st_shutdown s) as [|[]|]; try done. by injection He as <-.
Qed.

(** The own steps of a connection that matter here. *)
Lemma own_step a c s s' cn cn' :
  exec a s = Some s' → action_conn a = Some c → st_conns s !! c = Some cn → st_conns s' !! c = Some cn' →
  (cn_phase cn = Added → a = ARegister c ∧ st_clients s' !! cn_device cn = Some c) ∧
  (a = AUnregister c → in_map (cn_phase cn') = false) ∧
  (in_map (cn_phase cn') = true → in_map (cn_phase cn) = false → cn_phase cn = Added) ∧
  (cn_phase cn' ∈ [Finishing; Left; Gone] → cn_phase cn ∉ [Finishing; Left; Gone] →
   (∃ ok, a = ASetOffline c ok ∧
      st_db s' = written ok (update_device (cn_device cn) (set_status StatusOffline)) (st_db s)) ∨
   (cn_phase cn = Closing ∧ st_clients s !! cn_device cn ≠ Some c)).
Proof.
  intros He Hac Hc Hc'. rewrite (exec_conn _ _ _ Hac) in He. rewrite Hc in He. simpl in He.
  unfold conn_step in He. destruct a, (cn_phase cn) as [|old| | | | | | | | |] eqn:Hp; try done;
    injection Hac as ->.
  all: try (unfold hub_Unregister in He; case_bool_decide).
  all: try (destruct (cn_closed cn); [done|]).
  all: injection He as <-; simpl in Hc'; rewrite lookup_insert_eq in Hc'; injection Hc' as <-; simpl;
    split_and!; try done; try (intros _; split; [done|apply lookup_insert_eq]); try set_solver.
Qed.

Lemma traced_step T l a s s' :
  exec_all l (initial T) = Some s → exec a s = Some s' → traced T l s → traced T (l ++ [a]) s'.
Proof.
  intros Hl He [Ha Hr Hm Hd Hk].
  assert (Hsnoc : exec_all (l ++ [a]) (initial T) = Some s') by (apply exec_all_snoc; by exists s).
  split.
  - intros c cn' Hc. rewrite elem_of_app.
    destruct (exec_conns _ _ _ _ _ He Hc) as [(cn & H1 & H2 & _)|[-> _]]; [|set_solver].
    rewrite H2. left. by apply Ha.
  - intros c cn' Hc Hp. rewrite elem_of_app.
    destruct (exec_conns _ _ _ _ _ He Hc) as [(cn & H1 & _ & H3)|[_ Hp']]; [|done].
    destruct (decide (cn_phase cn = Added)) as [Hadd|Hadd]; [|left; by eapply Hr].
    destruct H3 as [H3|H3]; [congruence|].
    destruct (own_step a c s s' cn cn' He H3 H1 Hc) as (Hown & _). destruct (Hown Hadd) as [-> _]. set_solver.
  - intros c cn' Hc Hin.
    destruct (exec_conns _ _ _ _ _ He Hc) as [(cn & H1 & H2 & H3)|[_ Hp']]; [|by rewrite Hp' in Hin].
    rewrite H2. destruct (in_map (cn_phase cn)) eqn:Hcn.
    + destruct (Hm c cn H1 Hcn) as [Hmap|Hsup]; [|right; by apply superseded_snoc].
      destruct (exec_clients _ _ _ _ _ He Hmap) as [?|[->|(c' & cn1 & -> & Hc1 & Hd1 & Hp1)]]; [by left| |].
      * destruct H3 as [H3|H3]; [|].
        -- exfalso. destruct (own_step (AUnregister c) c s s' cn cn' He eq_refl H1 Hc) as (_ & Hu & _).
           by rewrite Hu in Hin.
        -- exfalso. destruct (own_step (AUnregister c) c s s' cn cn' He eq_refl H1 Hc) as (_ & Hu & _).
           by rewrite Hu in Hin.
      * right. exists l, c', []. split; [done|]. split.
        { intros ->. simplify_eq. by rewrite Hp1 in Hcn. }
        split; [eapply Hr; [exact H1|by intros Hx; rewrite Hx in Hcn]|]. rewrite <-Hd1. by apply Ha.
    + destruct H3 as [H3|H3]; [congruence|].
      destruct (own_step a c s s' cn cn' He H3 H1 Hc) as (Hown & _ & Hin' & _).
      left. by apply Hown, Hin'.
  - intros c cn' Hc Hp.
    destruct (exec_conns _ _ _ _ _ He Hc) as [(cn & H1 & H2 & H3)|[_ Hp']]; [|rewrite Hp' in Hp; set_solver].
    rewrite H2. destruct (decide (cn_phase cn ∈ [Finishing; Left; Gone])) as [Hq|Hq].
    { destruct (Hd c cn H1 Hq); [left; by apply wrote_offline_snoc|right; by apply superseded_snoc]. }
    destruct H3 as [H3|H3]; [congruence|].
    destruct (own_step a c s s' cn cn' He H3 H1 Hc) as (_ & _ & _ & Hown).
    destruct (Hown Hp Hq) as [(ok & -> & Hdb)|[Hcl Hne]].
    + left. exists l, ok, [], s'. split; [done|]. split; [done|]. intros -> Hkn. rewrite Hdb.
      by apply known_here; [apply Hk|..].
    + right. apply superseded_snoc. destruct (Hm c cn H1) as [?|?]; [by rewrite Hcl|done|done].
  - intros d Hd'. eapply exec_known; [exact He|auto].
Qed.

Lemma traced_all T l s : exec_all l (initial T) = Some s → traced T l s.
Proof.
  revert s. induction l as [|a l IH] using rev_ind; intros s.
  - intros [= <-]. split; try done; intros c cn; simpl; by rewrite lookup_empty.
  - intros (s1 & H1 & H2)%exec_all_snoc. eapply traced_step; eauto.
Qed.

(** C19: [hub.Wait] waits for everyone.  When it returns nil, no device is in the hub,
    and every connection ever accepted has left the loop and either has done its offline
    write, after which its device was offline if the write took effect, or was superseded,
    by another connection of the device that registered after it. *)
Theorem wait_means_all_done T l s s' :
  exec_all l (initial T) = Some s → exec AWaitDone s = Some s' →
  st_clients s' = ∅ ∧
  ∀ c cn, st_conns s' !! c = Some cn →
    live (cn_phase cn) = false ∧
    (wrote_offline T l c (cn_device cn) ∨ superseded l c (cn_device cn)).
Proof.
  intros Hl He. pose proof (traced_all T l s Hl) as Ht.
  pose proof (reachable_inv T s (exec_all_reachable T l s Hl)) as [Hm Hwg _ _].
  simpl in He. destruct (st_shutdown s) as [|[]|]; try done.
  destruct (Z.eqb_spec (st_wg s) 0) as [Hw|]; [|done]. injection He as <-. simpl. rewrite Hwg in Hw.
  assert (Hz : size (live_conns (st_conns s)) = 0%nat) by lia. apply map_size_empty_inv in Hz.
  assert (Hall : ∀ c cn, st_conns s !! c = Some cn → live (cn_phase cn) = false).
  { intros c cn Hc. destruct (live (cn_phase cn)) eqn:Hlive; [|done]. exfalso.
    assert (Hin : live_conns (st_conns s) !! c = Some cn) by by apply map_lookup_filter_Some.
    by rewrite Hz, lookup_empty in Hin. }
  split.
  - apply map_eq. intros d. rewrite lookup_empty.
    destruct (st_clients s !! d) as [c|] eqn:Hd; [|done]. exfalso.
    destruct (Hm d c Hd) as (cn & Hc & _ & Hp). specialize (Hall c cn Hc). by destruct (cn_phase cn).
  - intros c cn Hc. pose proof (Hall c cn Hc) as Hlive. split; [done|].
    apply (tr_done _ _ _ Ht); [done|]. destruct (cn_phase cn); set_solver.
Qed.

(** The second connection of a device replaces the first, and leaves at the shutdown. *)
Definition replaced_then_shut_down : list action :=
  connects 1 "a" ++ connects 2 "a" ++ [AReadError 1; AUnregister 1; AWgDone 1; ACloseAll; ACloseNext 0] ++
  disconnects 2.

Lemma wait_means_all_done_witness :
  ∃ s', exec AWaitDone (run replaced_then_shut_down) = Some s' ∧ st_clients s' = ∅ ∧
    (wrote_offline two_devices replaced_then_shut_down 2 "a" ∨
     superseded replaced_then_shut_down 2 "a").
Proof.
  assert (Hl : exec_all replaced_then_shut_down (initial two_devices) = Some (run replaced_then_shut_down))
    by (vm_compute; reflexivity).
  eexists. split; [vm_compute; reflexivity|].
  pose proof (λ s' He, wait_means_all_done two_devices _ _ s' Hl He) as H.
  edestruct H as [H1 H2]; [vm_compute; reflexivity|]. split; [exact H1|].
  exact (proj2 (H2 2%nat (Conn "a" Gone true) ltac:(vm_compute; reflexivity))).
Defined.
