(* ===== verification/HubLock.v ===== *)
(** * The lock of the hub (internal/ws/hub.go).

    The hub's methods, one access of the map or one call on [h.mu] at a time, run by any
    number of goroutines.  [h.mu] is a [sync.RWMutex]: a writer announces itself, which
    keeps new readers out, and waits for the readers inside to leave.  What a method does
    after it has unlocked, closing a connection or writing to one, may take any time and
    is a step of its own.

    The methods are atomic for each other: every execution is one in which each takes
    effect at a single moment, as the operations of Hub.v, which is what lets [Hub.exec]
    treat them as single actions.  And nothing that takes time happens under the lock:
    whoever waits for it gets it by steps of the lock's holders alone.

    The loop of [CloseAll] and of [ConnectedDeviceIDs] over the map is one step, which
    the read lock allows; the log lines, with the totals they name, are left out. *)
From S2P Require Import Prelude World Hub.
Local Open Scope nat_scope.

(** The methods, of a client and its device or of a device. *)
Inductive call : Type :=
  | DoRegister (c : client) (deviceID : string)
  | DoUnregister (c : client) (deviceID : string)
  | DoSend (deviceID : string)
  | DoCount
  | DoIsConnected (deviceID : string)
  | DoConnectedDeviceIDs
  | DoCloseAll.

(** What a method has found or computed when it unlocks. *)
Inductive answer : Type :=
  | Existing (old : option client)
  | Removed (b : bool)
  | Connected (b : bool)
  | Found (c : option client)
  | Total (n : nat)
  | Ids (l : list string)
  | Clients (l : list client).

(** [h.mu.Lock], or [h.mu.RLock]. *)
Definition writes (op : call) : bool :=
  match op with DoRegister _ _ | DoUnregister _ _ => true | _ => false end.

(** A method as one action on the map. *)
Definition hub_op (op : call) (m : registry) : registry * answer :=
  match op with
  | DoRegister c d => let '(m, old) := hub_Register c d m in (m, Existing old)
  | DoUnregister c d => let '(m, b) := hub_Unregister c d m in (m, Removed b)
  | DoSend d => (m, Found (hub_Send d m))
  | DoCount => (m, Total (hub_Count m))
  | DoIsConnected d => (m, Connected (hub_IsConnected d m))
  | DoConnectedDeviceIDs => (m, Ids (hub_ConnectedDeviceIDs m))
  | DoCloseAll => (m, Clients (map_to_list m).*2)
  end.

(** The connections to close or write to after the unlock. *)
Definition blocking_calls (op : call) (r : answer) : list client :=
  match op, r with
  | DoRegister _ _, Existing (Some c) => [c]
  | DoSend _, Found (Some c) => [c]
  | DoCloseAll, Clients l => l
  | _, _ => []
  end.

(** Where a goroutine is in a method. *)
Inductive thread : Type :=
  | Calling (op : call)                            (* [Lock] or [RLock] next *)
  | Announced (op : call)                          (* in [Lock], waiting for readers *)
  | Holding (op : call)                            (* has the lock *)
  | Writing (op : call) (existing : option client) (* has read its entry, changes it next *)
  | Unlocking (op : call) (r : answer)
  | Outside (op : call) (r : answer) (todo : list client) (* closing, or writing to, these *)
  | Returned (op : call) (r : answer).

Record hub := MkHub {
  hb_clients : registry;
  hb_writer : option nat;      (* has announced itself, or the lock *)
  hb_readers : gset nat;
  hb_threads : gmap nat thread
}.

(** The step taken: by which goroutine, of what kind. *)
Inductive action : Type :=
  | ACall (t : nat) (op : call)
  | ALock (t : nat)
  | AEnter (t : nat)           (* the readers have left *)
  | ABody (t : nat)
  | AUnlock (t : nat)
  | ABlocking (t : nat) (i : nat) (* a [Close] or a [Write] returns *)
  | AReturn (t : nat).

(** A step of the critical section of [op]. *)
Definition body (op : call) (m : registry) : thread :=
  match op with
  | DoRegister _ d => Writing op (m !! d)
  | DoUnregister c d => if bool_decide (m !! d = Some c) then Writing op (Some c) else Unlocking op (Removed false)
  | _ => Unlocking op (hub_op op m).2
  end.

(** The change of an entry, after [existing] was read. *)
Definition change (op : call) (existing : option client) (m : registry) : registry * answer :=
  match op with
  | DoRegister c d => (<[d := c]> m, Existing existing)
  | DoUnregister _ d => (delete d m, Removed true)
  | _ => (m, Existing existing)
  end.

Definition exec (a : action) (h : hub) : option hub :=
  let '(MkHub m w rs ths) := h in
  match a with
  | ACall t op =>
      match ths !! t with
      | None | Some (Returned _ _) => Some (MkHub m w rs (<[t := Calling op]> ths))
      | _ => None
      end
  | ALock t =>
      match ths !! t, w with
      | Some (Calling op), None =>
          Some (if writes op then MkHub m (Some t) rs (<[t := Announced op]> ths)
                else MkHub m None ({[t]} ∪ rs) (<[t := Holding op]> ths))
      | _, _ => None
      end
  | AEnter t =>
      match ths !! t with
      | Some (Announced op) =>
          if bool_decide (rs = ∅) then Some (MkHub m w rs (<[t := Holding op]> ths)) else None
      | _ => None
      end
  | ABody t =>
      match ths !! t with
      | Some (Holding op) => Some (MkHub m w rs (<[t := body op m]> ths))
      | Some (Writing op existing) =>
          let '(m', r) := change op existing m in Some (MkHub m' w rs (<[t := Unlocking op r]> ths))
      | _ => None
      end
  | AUnlock t =>
      match ths !! t with
      | Some (Unlocking op r) =>
          let ths := <[t := Outside op r (blocking_calls op r)]> ths in
          Some (if writes op then MkHub m None rs ths else MkHub m w (rs ∖ {[t]}) ths)
      | _ => None
      end
  | ABlocking t i =>
      match ths !! t with
      | Some (Outside op r todo) =>
          match todo !! i with
          | Some _ => Some (MkHub m w rs (<[t := Outside op r (delete i todo)]> ths))
          | None => None
          end
      | _ => None
      end
  | AReturn t =>
      match ths !! t with
      | Some (Outside op r []) => Some (MkHub m w rs (<[t := Returned op r]> ths))
      | _ => None
      end
  end.

Definition step (h h' : hub) : Prop := ∃ a, exec a h = Some h'.

Definition new_hub : hub := MkHub ∅ None ∅ ∅.

Definition reachable : hub → Prop := rtc step new_hub.

(** ** The invariant of the lock *)

(** A goroutine that is the announced writer, or has the write lock. *)
Definition is_writer (th : thread) : bool :=
  match th with
  | Announced _ => true
  | Holding op | Unlocking op _ => writes op
  | Writing _ _ => true
  | _ => false
  end.

Definition is_reader (th : thread) : bool :=
  match th with Holding op | Unlocking op _ => negb (writes op) | _ => false end.

(** Within the critical section. *)
Definition inside (th : thread) : bool :=
  match th with Holding _ | Writing _ _ | Unlocking _ _ => true | _ => false end.

(** What a writer has read is still there. *)
Definition up_to_date (m : registry) (th : thread) : Prop :=
  match th with
  | Writing (DoRegister _ d) existing => existing = m !! d
  | Writing (DoUnregister c d) _ => m !! d = Some c
  | Writing _ _ => False
  | Announced op => writes op = true
  | _ => True
  end.

Record hub_ok (h : hub) : Prop := {
  ok_writer t th : hb_threads h !! t = Some th → is_writer th = true → hb_writer h = Some t;
  ok_announced t : hb_writer h = Some t → ∃ th, hb_threads h !! t = Some th ∧ is_writer th = true;
  ok_reader t th : hb_threads h !! t = Some th → is_reader th = true → t ∈ hb_readers h;
  ok_reading t : t ∈ hb_readers h → ∃ th, hb_threads h !! t = Some th ∧ is_reader th = true;
  ok_exclusive t th :
    hb_threads h !! t = Some th → is_writer th = true → inside th = true → hb_readers h = ∅;
  ok_read t th : hb_threads h !! t = Some th → up_to_date (hb_clients h) th
}.

Lemma up_to_date_other m m' th : (∀ op e, th ≠ Writing op e) → up_to_date m th → up_to_date m' th.
Proof. destruct th; simpl; try done. intros H. by destruct (H op existing). Qed.

(** Goroutine [t] goes on as [th'], with the lock as that needs. *)
Lemma hub_ok_set m w rs ths m' w' rs' t th' :
  hub_ok (MkHub m w rs ths) →
  w' = (if is_writer th' then Some t else if decide (w = Some t) then None else w) →
  (is_writer th' = true → w = None ∨ w = Some t) →
  rs' = (if is_reader th' then {[t]} ∪ rs else rs ∖ {[t]}) →
  (is_reader th' = true → t ∈ rs ∨ w = None) →
  (is_writer th' = true → inside th' = true → rs' = ∅) →
  (m' = m ∨ w = Some t) → up_to_date m' th' →
  hub_ok (MkHub m' w' rs' (<[t := th']> ths)).
Proof.
  intros [Hw Ha Hr Hin Hex Hup] -> Hww -> Hrr Hexc Hm Hnew. simpl in *. split; simpl.
  - intros t1 th1. destruct (decide (t1 = t)) as [->|Hne];
      [rewrite lookup_insert_eq|rewrite lookup_insert_ne by done].
    + intros [= <-] ->. done.
    + intros H1 H2. pose proof (Hw _ _ H1 H2) as ->.
      destruct (is_writer th'); [by destruct (Hww eq_refl); simplify_eq|]. by rewrite decide_False by congruence.
  - intros t1 H1. destruct (decide (t1 = t)) as [->|Hne];
      [rewrite lookup_insert_eq|rewrite lookup_insert_ne by done].
    + exists th'. split; [done|]. destruct (is_writer th'); [done|]. by case_decide.
    + apply Ha. destruct (is_writer th'); [congruence|]. by case_decide.
  - intros t1 th1. destruct (decide (t1 = t)) as [->|Hne];
      [rewrite lookup_insert_eq|rewrite lookup_insert_ne by done].
    + intros [= <-] ->. set_solver.
    + intros H1 H2. pose proof (Hr _ _ H1 H2). destruct (is_reader th'); set_solver.
  - intros t1 H1. destruct (decide (t1 = t)) as [->|Hne];
      [rewrite lookup_insert_eq|rewrite lookup_insert_ne by done].
    + exists th'. split; [done|]. destruct (is_reader th'); [done|set_solver].
    + apply Hin. destruct (is_reader th'); set_solver.
  - intros t1 th1. destruct (decide (t1 = t)) as [->|Hne];
      [rewrite lookup_insert_eq|rewrite lookup_insert_ne by done].
    + intros [= <-]. auto.
    + intros H1 H2 H3. pose proof (Hw _ _ H1 H2) as ->. pose proof (Hex _ _ H1 H2 H3) as ->.
      destruct (is_reader th'); [by destruct (Hrr eq_refl)|set_solver].
  - intros t1 th1. destruct (decide (t1 = t)) as [->|Hne];
      [rewrite lookup_insert_eq|rewrite lookup_insert_ne by done].
    + by intros [= <-].
    + intros H1. specialize (Hup _ _ H1). destruct Hm as [->|Hwt]; [done|].
      apply (up_to_date_other m); [|done]. intros op e ->. pose proof (Hw _ _ H1 eq_refl). congruence.
Qed.

(** A goroutine that does not have the lock, and does not take it. *)
Lemma hub_ok_out m w rs ths t th' :
  hub_ok (MkHub m w rs ths) →
  (∀ th, ths !! t = Some th → is_writer th = false ∧ is_reader th = false) →
  is_writer th' = false → is_reader th' = false → up_to_date m th' →
  hub_ok (MkHub m w rs (<[t := th']> ths)).
Proof.
  intros Hok Hout H1 H2 H3.
  assert (w ≠ Some t).
  { intros ->. destruct (ok_announced _ Hok t eq_refl) as (th & Ht & Hth). destruct (Hout _ Ht); congruence. }
  assert (t ∉ rs).
  { intros Hin. destruct (ok_reading _ Hok t Hin) as (th & Ht & Hth). destruct (Hout _ Ht); congruence. }
  eapply hub_ok_set; [exact Hok| | | | | |by left|done].
  - by rewrite H1, decide_False.
  - congruence.
  - rewrite H2. set_solver.
  - congruence.
  - congruence.
Qed.

(** A goroutine that goes on under the lock it has. *)
Lemma hub_ok_hold m w rs ths t th th' m' :
  hub_ok (MkHub m w rs ths) → ths !! t = Some th → inside th = true →
  is_writer th' = is_writer th → is_reader th' = is_reader th →
  (m' = m ∨ is_writer th = true) → up_to_date m' th' →
  hub_ok (MkHub m' w rs (<[t := th']> ths)).
Proof.
  intros Hok Ht Hins H1 H2 Hm Hup. destruct (is_writer th) eqn:Hw.
  - pose proof (ok_writer _ Hok t th Ht Hw) as Hwt. pose proof (ok_exclusive _ Hok t th Ht Hw Hins) as Hrs.
    simpl in Hwt, Hrs. subst w rs.
    assert (is_reader th = false) as Hr by (destruct th; simpl in *; try done; by rewrite Hw).
    eapply hub_ok_set; [exact Hok| | | | | |by right|done].
    + by rewrite H1.
    + by right.
    + rewrite H2, Hr. set_solver.
    + congruence.
    + done.
  - assert (is_reader th = true) as Hr by (destruct th; simpl in *; try done; by rewrite Hw).
    pose proof (ok_reader _ Hok t th Ht Hr) as Hrs. simpl in Hrs. destruct Hm as [->|?]; [|done].
    eapply hub_ok_set; [exact Hok| | | | | |by left|done].
    + rewrite H1, decide_False; [done|]. intros ->.
      destruct (ok_announced _ Hok t eq_refl) as (th1 & H3 & H4). simpl in H3. congruence.
    + congruence.
    + rewrite H2, Hr. set_solver.
    + by left.
    + congruence.
Qed.

Lemma body_writer op m : is_writer (body op m) = writes op ∧ is_reader (body op m) = negb (writes op).
Proof. destruct op; simpl; try done. by case_bool_decide. Qed.

Lemma body_up_to_date op m : up_to_date m (body op m).
Proof. destruct op; simpl; try done. by case_bool_decide. Qed.

Lemma hub_exec_ok a h h' : hub_ok h → exec a h = Some h' → hub_ok h'.
Proof.
  intros Hok He. destruct h as [m w rs ths]. destruct a as [t op|t|t|t|t|t i|t]; simpl in He;
    destruct (ths !! t) as [th|] eqn:Ht; try done.
  - destruct th; try done. injection He as <-. apply hub_ok_out; try done. intros th Hth. by simplify_eq.
  - injection He as <-. apply hub_ok_out; try done. intros th Hth. by simplify_eq.
  - destruct th as [op| | | | | |]; try done. destruct w; [done|]. injection He as <-.
    destruct (writes op) eqn:Hop.
    + eapply hub_ok_set; [exact Hok|done|by left| |done|done|by left|done]. simpl.
      assert (t ∉ rs); [|set_solver]. intros Hin.
      destruct (ok_reading _ Hok t Hin) as (th & H1 & H2). simpl in H1. by simplify_eq.
    + eapply hub_ok_set; [exact Hok| | | |by right| |by left|done]; simpl; by rewrite ?Hop.
  - destruct th as [|op| | | | |]; try done. case_bool_decide as Hrs; [|done]. injection He as <-.
    pose proof (ok_writer _ Hok t _ Ht eq_refl) as Hw. pose proof (ok_read _ Hok t _ Ht) as Hop. simpl in Hw, Hop.
    subst w rs. eapply hub_ok_set; [exact Hok| | | | |done|by left|done]; simpl; rewrite ?Hop; try done.
    + by right.
    + set_solver.
  - destruct th as [| |op|op existing| | |]; try done.
    + injection He as <-. destruct (body_writer op m).
      eapply hub_ok_hold; [exact Hok|exact Ht|done|done|done|by left|apply body_up_to_date].
    + pose proof (ok_read _ Hok t _ Ht) as Hup. simpl in Hup.
      destruct op as [c d|c d| | | | |]; try done; injection He as <-;
        (eapply hub_ok_hold; [exact Hok|exact Ht|done|done|done|by right|done]).
  - destruct th as [| | | |op r| |]; try done. injection He as <-. destruct (writes op) eqn:Hop.
    + pose proof (ok_writer _ Hok t _ Ht Hop) as Hw. pose proof (ok_exclusive _ Hok t _ Ht Hop eq_refl) as Hrs.
      simpl in Hw, Hrs. subst w rs. eapply hub_ok_set; [exact Hok| | | | | |by left|done]; simpl; try done.
      * by rewrite decide_True.
      * set_solver.
    + eapply hub_ok_set; [exact Hok| | | | | |by left|done]; simpl; try done.
      rewrite decide_False; [done|]. intros ->.
      destruct (ok_announced _ Hok t eq_refl) as (th1 & H3 & H4). simpl in H3. rewrite Ht in H3. injection H3 as <-.
      simpl in H4. congruence.
  - destruct th as [| | | | |op r todo|]; try done. destruct (todo !! i); [|done]. injection He as <-.
    apply hub_ok_out; try done. intros th Hth. by simplify_eq.
  - destruct th as [| | | | |op r [|]|]; try done. injection He as <-.
    apply hub_ok_out; try done. intros th Hth. by simplify_eq.
Qed.

Lemma reachable_ok h : reachable h → hub_ok h.
Proof.
  intros Hr. assert (Hok : hub_ok new_hub) by (split; simpl; try done; intros; set_solver).
  induction Hr as [|x y z [a Ha] Hr IH]; [done|]. apply IH. by eapply hub_exec_ok.
Qed.

(** ** Atomic methods

    A goroutine of the atomic machine has called a method; the method has taken effect,
    with an answer; it has returned. *)
Inductive athread : Type :=
  | ACalled (op : call)
  | ADone (op : call) (r : answer)
  | AReturned (op : call) (r : answer).

Inductive astep : registry * gmap nat athread → registry * gmap nat athread → Prop :=
  | astep_call m ths t op :
      match ths !! t with None | Some (AReturned _ _) => True | _ => False end →
      astep (m, ths) (m, <[t := ACalled op]> ths)
  | astep_effect m ths t op :
      ths !! t = Some (ACalled op) →
      astep (m, ths) ((hub_op op m).1, <[t := ADone op (hub_op op m).2]> ths)
  | astep_return m ths t op r :
      ths !! t = Some (ADone op r) → astep (m, ths) (m, <[t := AReturned op r]> ths).

(** A writer has taken effect when it has changed its entry, and any method when it has
    its answer. *)
Definition abs_thread (th : thread) : athread :=
  match th with
  | Calling op | Announced op | Holding op | Writing op _ => ACalled op
  | Unlocking op r | Outside op r _ => ADone op r
  | Returned op r => AReturned op r
  end.

Definition abs (h : hub) : registry * gmap nat athread := (hb_clients h, abs_thread <$> hb_threads h).

(** A step that the atomic machine does not see. *)
Lemma abs_same m w rs w' rs' ths t th th' :
  ths !! t = Some th → abs_thread th' = abs_thread th →
  abs (MkHub m w' rs' (<[t := th']> ths)) = abs (MkHub m w rs ths).
Proof.
  intros Ht Ha. unfold abs. simpl. rewrite fmap_insert, Ha, insert_id; [done|].
  by rewrite lookup_fmap, Ht.
Qed.

Lemma abs_effect m w rs w' rs' ths t th op th' :
  ths !! t = Some th → abs_thread th = ACalled op → abs_thread th' = ADone op (hub_op op m).2 →
  astep (abs (MkHub m w rs ths)) (abs (MkHub (hub_op op m).1 w' rs' (<[t := th']> ths))).
Proof.
  intros Ht Ha Hd. unfold abs. simpl. rewrite fmap_insert, Hd. apply astep_effect. by rewrite lookup_fmap, Ht, <-Ha.
Qed.

Lemma exec_abs a h h' : hub_ok h → exec a h = Some h' → abs h' = abs h ∨ astep (abs h) (abs h').
Proof.
  intros Hok He. destruct h as [m w rs ths]. destruct a as [t op|t|t|t|t|t i|t]; simpl in He;
    destruct (ths !! t) as [th|] eqn:Ht; try done.
  - destruct th; try done. injection He as <-. right. unfold abs. simpl. rewrite fmap_insert.
    apply astep_call. by rewrite lookup_fmap, Ht.
  - injection He as <-. right. unfold abs. simpl. rewrite fmap_insert. apply astep_call. by rewrite lookup_fmap, Ht.
  - destruct th as [op| | | | | |]; try done. destruct w; [done|]. injection He as <-. left.
    destruct (writes op); by eapply abs_same.
  - destruct th as [|op| | | | |]; try done. case_bool_decide; [|done]. injection He as <-. left. by eapply abs_same.
  - destruct th as [| |op|op existing| | |]; try done.
    + injection He as <-. destruct op as [c d|c d|d| |d| |]; simpl.
      1: left; by eapply abs_same.
      2-6: right; by eapply (abs_effect m w rs w rs ths t _ _ _ Ht eq_refl).
      case_bool_decide as Hd; [left; by eapply abs_same|right].
      pose proof (abs_effect m w rs w rs ths t _ (DoUnregister c d) (Unlocking (DoUnregister c d) (Removed false)) Ht eq_refl) as H.
      simpl in H. unfold hub_Unregister in H. rewrite bool_decide_eq_false_2 in H by done. by apply H.
    + pose proof (ok_read _ Hok t _ Ht) as Hup. simpl in Hup.
      destruct op as [c d|c d| | | | |]; try done; injection He as <-; right; subst.
      * exact (abs_effect m w rs w rs ths t _ (DoRegister c d) (Unlocking (DoRegister c d) (Existing (m !! d))) Ht eq_refl eq_refl).
      * pose proof (abs_effect m w rs w rs ths t _ (DoUnregister c d) (Unlocking (DoUnregister c d) (Removed true)) Ht eq_refl) as H.
        simpl in H. unfold hub_Unregister in H. rewrite bool_decide_eq_true_2 in H by done. by apply H.
  - destruct th as [| | | |op r| |]; try done. injection He as <-. left. destruct (writes op); by eapply abs_same.
  - destruct th as [| | | | |op r todo|]; try done. destruct (todo !! i); [|done]. injection He as <-.
    left. by eapply abs_same.
  - destruct th as [| | | | |op r [|]|]; try done. injection He as <-. right. unfold abs. simpl.
    rewrite fmap_insert. apply astep_return. by rewrite lookup_fmap, Ht.
Qed.

(** ** Nobody waits for a close *)

(** The steps of the lock and under it: not a new call, and nothing that may block. *)
Definition internal (a : action) : bool :=
  match a with ACall _ _ | ABlocking _ _ => false | _ => true end.

(** Steps to the return, but for blocking ones. *)
Definition distance (th : thread) : nat :=
  match th with
  | Calling _ => 6 | Announced _ => 5 | Holding _ => 4 | Writing _ _ => 3 | Unlocking _ _ => 2
  | Outside _ _ _ => 1 | Returned _ _ => 0
  end.

Definition work (h : hub) : nat := sum_list_with (λ kt, distance kt.2) (map_to_list (hb_threads h)).

Lemma work_insert m w rs ths t th' m1 w1 rs1 :
  distance th' < match ths !! t with Some th => distance th | None => 0 end →
  work (MkHub m w rs (<[t := th']> ths)) < work (MkHub m1 w1 rs1 ths).
Proof.
  unfold work. simpl. destruct (ths !! t) as [th|] eqn:Ht; [|lia]. intros Hd.
  rewrite <-(insert_id ths t th Ht) at 2. rewrite <-!(insert_delete_eq ths).
  rewrite !map_to_list_insert by apply lookup_delete_eq. simpl. lia.
Qed.

Lemma internal_work a h h' : internal a = true → exec a h = Some h' → work h' < work h.
Proof.
  intros Hi He. destruct h as [m w rs ths]. destruct a as [t op|t|t|t|t|t i|t]; try done; simpl in He;
    destruct (ths !! t) as [th|] eqn:Ht; try done.
  - destruct th as [op| | | | | |]; try done. destruct w; [done|]. injection He as <-.
    destruct (writes op); apply work_insert; rewrite Ht; simpl; lia.
  - destruct th; try done. case_bool_decide; [|done]. injection He as <-. apply work_insert. rewrite Ht. simpl; lia.
  - destruct th as [| |op|op existing| | |]; try done.
    + injection He as <-. apply work_insert. rewrite Ht. destruct op; simpl; try case_bool_decide; simpl; lia.
    + destruct (change op existing m). injection He as <-. apply work_insert. rewrite Ht. simpl; lia.
  - destruct th as [| | | |op r| |]; try done. injection He as <-.
    destruct (writes op); apply work_insert; rewrite Ht; simpl; lia.
  - destruct th as [| | | | |op r [|]|]; try done. injection He as <-. apply work_insert. rewrite Ht. simpl; lia.
Qed.

Lemma distance_bound th : distance th ≤ 6.
Proof. destruct th; simpl; lia. Qed.

Lemma work_bound h : work h ≤ 6 * size (hb_threads h).
Proof.
  unfold work. rewrite <-length_map_to_list. induction (map_to_list (hb_threads h)) as [|[t th] l IH]; simpl; [lia|].
  pose proof (distance_bound th). lia.
Qed.

Fixpoint exec_all (l : list action) (h : hub) : option hub :=
  match l with
  | [] => Some h
  | a :: l => h' ← exec a h; exec_all l h'
  end.

Lemma internal_length l h h' :
  forallb internal l = true → exec_all l h = Some h' → length l + work h' ≤ work h.
Proof.
  revert h. induction l as [|a l IH]; intros h; simpl; [intros _ [= ->]; lia|].
  intros [Ha Hl]%andb_true_iff. destruct (exec a h) as [h1|] eqn:He; [|done]. cbn [mbind option_bind]. intros H.
  pose proof (internal_work a h h1 Ha He). pose proof (IH h1 Hl H). lia.
Qed.

(** Whoever is inside can go on; if nobody is, whoever waits can. *)
Lemma inside_goes_on h t th :
  hb_threads h !! t = Some th → inside th = true → ∃ a h', internal a = true ∧ exec a h = Some h'.
Proof.
  destruct h as [m w rs ths]. simpl. intros Ht Hin. destruct th as [| |op|op e|op r| |]; try done.
  - exists (ABody t). eexists. split; [done|]. simpl. by rewrite Ht.
  - exists (ABody t). simpl. rewrite Ht. destruct (change op e m). by eexists.
  - exists (AUnlock t). eexists. split; [done|]. simpl. by rewrite Ht.
Qed.

Lemma someone_goes_on h t th :
  hub_ok h → hb_threads h !! t = Some th → 2 ≤ distance th →
  ∃ a h', internal a = true ∧ exec a h = Some h'.
Proof.
  intros Hok Ht Hd.
  destruct (decide (map_Forall (λ _ th, inside th = false) (hb_threads h))) as [Hno|Hsome].
  2: { apply map_not_Forall in Hsome as (t1 & th1 & H1 & H2); [|apply _].
       apply (inside_goes_on h t1 th1 H1). by destruct (inside th1). }
  assert (Hrs : hb_readers h = ∅).
  { apply set_eq. intros t1. split; [|set_solver]. intros Hin.
    destruct (ok_reading _ Hok _ Hin) as (th1 & H1 & H2). pose proof (Hno _ _ H1) as H3. by destruct th1. }
  destruct (hb_writer h) as [t1|] eqn:Hw.
  - destruct (ok_announced _ Hok _ Hw) as (th1 & H1 & H2). pose proof (Hno _ _ H1) as H3.
    destruct th1 as [|op| | | | |]; try done. exists (AEnter t1). destruct h as [m w rs ths]. simpl in *.
    rewrite H1, bool_decide_eq_true_2 by done. by eexists.
  - pose proof (Hno _ _ Ht) as H3. destruct th as [op|op| | | | |]; try done; simpl in Hd; try lia.
    + exists (ALock t). destruct h as [m w rs ths]. simpl in *. rewrite Ht, Hw. by eexists.
    + pose proof (ok_writer _ Hok _ _ Ht eq_refl). congruence.
Qed.

(** C18: the hub's methods are atomic, and none is held up by a connection that does not
    close.  Whatever goroutines call, in whatever order their accesses, locks and unlocks
    interleave, every step of the hub is one the atomic machine does not see or does: a
    call, a return, or one method taking effect on the map as the operation of Hub.v, with
    the answer that the goroutine returns.  And whatever closes and writes are under way,
    the steps of the lock alone, no more than six for each goroutine, take every goroutine
    that waits for the lock, or has it, through its critical section. *)
Theorem hub_methods_atomic h :
  reachable h →
  (∀ a h', exec a h = Some h' → abs h' = abs h ∨ astep (abs h) (abs h')) ∧
  (∀ l h', forallb internal l = true → exec_all l h = Some h' → length l ≤ 6 * size (hb_threads h)) ∧
  (∀ l h', forallb internal l = true → exec_all l h = Some h' →
     (∀ a, internal a = true → exec a h' = None) →
     ∀ t th, hb_threads h' !! t = Some th →
       match th with Outside _ _ (_ :: _) | Returned _ _ => True | _ => False end).
Proof.
  intros Hr. pose proof (reachable_ok h Hr) as Hok. split_and!.
  - intros a h' He. by eapply exec_abs.
  - intros l h' Hl He. pose proof (internal_length l h h' Hl He). pose proof (work_bound h). lia.
  - intros l h' Hl He Hend t th Ht.
    assert (Hok' : hub_ok h').
    { clear -Hok He. revert h Hok He. induction l as [|a l IH]; intros h Hok; simpl; [by intros [= <-]|].
      destruct (exec a h) as [h1|] eqn:Ha; [|done]. apply IH. by eapply hub_exec_ok. }
    destruct (le_lt_dec 2 (distance th)) as [Hd|Hd].
    { destruct (someone_goes_on h' t th Hok' Ht Hd) as (a & h2 & Ha & Hx). by rewrite (Hend a Ha) in Hx. }
    destruct th as [| | | | |op r [|c todo]|]; simpl in Hd; try lia; try done.
    specialize (Hend (AReturn t) eq_refl). destruct h' as [m w rs ths]. simpl in *. by rewrite Ht in Hend.
Qed.

(** A connection is replaced, and the close of the old one hangs, while a reader waits for
    a writer that waits for a reader. *)
Definition crowd : list action :=
  [ACall 1 (DoRegister 1 "a"); ALock 1; AEnter 1; ABody 1; ABody 1; AUnlock 1; AReturn 1;
   ACall 1 (DoRegister 2 "a"); ALock 1; AEnter 1; ABody 1; ABody 1; AUnlock 1;
   ACall 2 DoCount; ALock 2; ACall 3 (DoUnregister 2 "a"); ALock 3; ACall 4 (DoSend "a")].

Definition crowded : hub := default new_hub (exec_all crowd new_hub).

Lemma crowded_reachable : reachable crowded.
Proof.
  assert (H : ∀ l h h', exec_all l h = Some h' → rtc step h h').
  { induction l as [|a l IH]; intros h h'; simpl; [intros [= ->]; apply rtc_refl|].
    destruct (exec a h) as [h1|] eqn:He; [|done]. intros H. eapply rtc_l; [by exists a|by apply IH]. }
  apply (H crowd). by vm_compute.
Qed.

Lemma hub_methods_atomic_witness :
  hb_threads crowded !! 1 = Some (Outside (DoRegister 2 "a") (Existing (Some 1)) [1]) ∧
  ∃ h', exec_all [ABody 2; AUnlock 2; AReturn 2; AEnter 3; ABody 3; ABody 3; AUnlock 3; AReturn 3;
                  ALock 4; ABody 4; AUnlock 4; AReturn 4] crowded = Some h' ∧
    hb_threads h' !! 4 = Some (Returned (DoSend "a") (Found None)) ∧
    12 ≤ 6 * size (hb_threads crowded).
Proof.
  destruct (hub_methods_atomic crowded crowded_reachable) as (_ & H & _).
  split; [by vm_compute|]. eexists. split; [vm_compute; reflexivity|]. split; [by vm_compute|].
  refine (H [ABody 2; AUnlock 2; AReturn 2; AEnter 3; ABody 3; ABody 3; AUnlock 3; AReturn 3;
             ALock 4; ABody 4; AUnlock 4; AReturn 4] _ eq_refl _). vm_compute. reflexivity.
Defined.
