(* ===== verification/Broadcaster.v ===== *)
(** * The event broadcaster and the event stream (internal/server/broadcaster.go,
    routes_events.go).

    Each subscriber has a buffered channel of 32 events.  [Publish] never waits:
    an event a full channel cannot take is dropped for that subscriber.  The
    stream handler writes what it receives to its client until a write fails or
    the request ends, and unsubscribes. *)
From S2P Require Import Prelude GoString.

Section broadcaster.
Context {Event : Type}.

(** The buffered events of each subscriber, by identifier. *)
Abbreviation Broadcaster := (gmap string (list Event)).

Definition chan_cap : nat := 32.

Definition NewBroadcaster : Broadcaster := ∅.

Definition Subscribe (id : string) (b : Broadcaster) : Broadcaster := <[id := []]> b.

(** The function [Subscribe] returns. *)
Definition unsubscribe (id : string) (b : Broadcaster) : Broadcaster := delete id b.

(** [select { case ch <- e: default: }] *)
Definition offer (e : Event) (q : list Event) : list Event :=
  if bool_decide (length q < chan_cap) then q ++ [e] else q.

Definition Publish (e : Event) (b : Broadcaster) : Broadcaster := offer e <$> b.

Definition Count (b : Broadcaster) : nat := size b.

(** [e := <-ch], if an event is there. *)
Definition receive (id : string) (b : Broadcaster) : option (Event * Broadcaster) :=
  match b !! id with
  | Some (e :: q) => Some (e, <[id := q]> b)
  | _ => None
  end.

(** ** What a subscriber sees *)

Inductive operation : Type :=
  | OpSubscribe (id : string)
  | OpUnsubscribe (id : string)
  | OpPublish (e : Event)
  | OpReceive (id : string).

(** A receive of an empty channel waits, and is no step. *)
Definition apply (o : operation) (b : Broadcaster) : Broadcaster :=
  match o with
  | OpSubscribe id => Subscribe id b
  | OpUnsubscribe id => unsubscribe id b
  | OpPublish e => Publish e b
  | OpReceive id => match receive id b with Some (_, b') => b' | None => b end
  end.

(** The events subscriber [id] receives in a run. *)
Fixpoint received (id : string) (l : list operation) (b : Broadcaster) : list Event :=
  match l with
  | [] => []
  | o :: l =>
      match o with
      | OpReceive i =>
          if bool_decide (i = id)
          then match receive id b with Some (e, _) => [e] | None => [] end
          else []
      | _ => []
      end ++ received id l (apply o b)
  end.

Definition run (l : list operation) (b : Broadcaster) : Broadcaster := foldl (λ b o, apply o b) b l.

Definition published (l : list operation) : list Event :=
  omap (λ o, match o with OpPublish e => Some e | _ => None end) l.

(** [id] is neither subscribed again nor unsubscribed. *)
Definition keeps (id : string) (o : operation) : Prop :=
  match o with OpSubscribe i | OpUnsubscribe i => i ≠ id | _ => True end.

(** The subscriber's channel has room whenever an event is published. *)
Definition keeps_up_at (id : string) (o : operation) (b : Broadcaster) : Prop :=
  ∀ e q, o = OpPublish e → b !! id = Some q → length q < chan_cap.

Fixpoint keeps_up (id : string) (l : list operation) (b : Broadcaster) : Prop :=
  match l with
  | [] => True
  | o :: l => keeps_up_at id o b ∧ keeps_up id l (apply o b)
  end.

Lemma offer_bound e q : length q ≤ chan_cap → length (offer e q) ≤ chan_cap.
Proof using.
  unfold offer. intros Hq. case_bool_decide; [|done]. rewrite length_app. simpl. lia.
Qed.

Lemma offer_sublist e q : sublist (offer e q) (q ++ [e]).
Proof using.
  unfold offer. case_bool_decide; [done|]. by apply sublist_inserts_r.
Qed.

(** One operation: the events received and those left are, in order, among those
    there were and the one published. *)
Lemma apply_queue id o b q :
  keeps id o → b !! id = Some q →
  ∃ q' r, apply o b !! id = Some q' ∧ received id [o] b = r ∧
    sublist (r ++ q') (q ++ published [o]) ∧
    (keeps_up_at id o b → r ++ q' = q ++ published [o]).
Proof using.
  intros Hk Hq. destruct o as [i|i|e|i]; simpl in *; unfold Subscribe, unsubscribe.
  - exists q, []. rewrite lookup_insert_ne by done. by rewrite app_nil_r.
  - exists q, []. rewrite lookup_delete_ne by done. by rewrite app_nil_r.
  - exists (offer e q), []. unfold Publish. rewrite lookup_fmap, Hq. split_and!; [done..| |].
    + apply offer_sublist.
    + intros Hl. unfold offer. rewrite bool_decide_eq_true_2; [done|]. by apply (Hl e q).
  - rewrite app_nil_r. unfold receive. case_bool_decide as Hi.
    + subst i. rewrite Hq. destruct q as [|e q]; simpl.
      * exists [], []. by rewrite Hq.
      * exists q, [e]. rewrite lookup_insert_eq. simpl. by rewrite app_nil_r.
    + exists q, []. rewrite app_nil_r. simpl.
      destruct (b !! i) as [[|e q']|] eqn:Hb; simpl; try done. by rewrite lookup_insert_ne.
Qed.

Lemma received_cons id o l b : received id (o :: l) b = received id [o] b ++ received id l (apply o b).
Proof using. simpl. by rewrite app_nil_r. Qed.

Lemma published_cons o l : published (o :: l) = published [o] ++ published l.
Proof using. unfold published. simpl. by destruct o. Qed.

Lemma run_queue id l b q :
  Forall (keeps id) l → b !! id = Some q →
  ∃ q', run l b !! id = Some q' ∧ sublist (received id l b ++ q') (q ++ published l) ∧
    (keeps_up id l b → received id l b ++ q' = q ++ published l).
Proof using.
  intros Hl. revert b q. induction Hl as [|o l Ho Hl IH]; intros b q Hq.
  { exists q. simpl. by rewrite app_nil_r. }
  destruct (apply_queue id o b q Ho Hq) as (q1 & r & Hq1 & Hr & Hs & He).
  destruct (IH (apply o b) q1 Hq1) as (q' & Hq' & Hs' & He').
  exists q'. rewrite received_cons, Hr, published_cons. split; [done|]. split.
  - rewrite <-app_assoc. etrans; [apply sublist_app; [done|exact Hs']|].
    rewrite !app_assoc. by apply sublist_app.
  - intros [Hk Hks]. rewrite <-app_assoc, He', app_assoc, He, <-app_assoc by done. done.
Qed.

Definition bounded (b : Broadcaster) : Prop := map_Forall (λ _ q, length q ≤ chan_cap) b.

Lemma apply_bounded o b : bounded b → bounded (apply o b).
Proof using.
  intros Hb. destruct o as [i|i|e|i]; simpl.
  - by apply map_Forall_insert_2; [simpl; lia|].
  - by apply map_Forall_delete.
  - intros i q Hq. unfold Publish in Hq. apply lookup_fmap_Some in Hq as (q0 & <- & Hq).
    apply offer_bound. by apply (Hb i).
  - unfold receive. destruct (b !! i) as [[|e q]|] eqn:Hi; try done.
    apply map_Forall_insert_2; [|done]. specialize (Hb i _ Hi). simpl in *. lia.
Qed.

Lemma run_bounded l b : bounded b → bounded (run l b).
Proof using.
  revert b. induction l as [|o l IH]; intros b Hb; simpl; [done|]. by apply IH, apply_bounded.
Qed.
End broadcaster.

(** C25: a subscriber sees the events in order.  From its subscription on, however
    it and the others receive, subscribe and unsubscribe, the events it receives
    followed by those still buffered are a subsequence of those published since,
    each at most once and in their order, and all of them if its channel never is
    full when one is published.  No channel ever holds more than 32. *)
Theorem subscriber_sees_events {Event} id (l : list (@operation Event)) b :
  bounded b → Forall (keeps id) l →
  ∃ q, run l (Subscribe id b) !! id = Some q ∧
    sublist (received id l (Subscribe id b) ++ q) (published l) ∧
    (keeps_up id l (Subscribe id b) → received id l (Subscribe id b) ++ q = published l) ∧
    bounded (run l (Subscribe id b)).
Proof.
  intros Hb Hl. destruct (run_queue id l (Subscribe id b) [] Hl) as (q & Hq & Hs & He).
  { apply lookup_insert_eq. }
  exists q. split_and!; [done..|]. apply run_bounded, (apply_bounded (OpSubscribe id)), Hb.
Qed.

Definition test_ops : list (@operation nat) :=
  [OpPublish 1; OpSubscribe "b"; OpPublish 2; OpReceive "a"; OpReceive "b"; OpPublish 3].

Lemma subscriber_sees_events_witness :
  exists q, run test_ops (Subscribe "a" ∅) !! "a" = Some q ∧
    sublist (received "a" test_ops (Subscribe "a" ∅) ++ q) (published test_ops).
Proof.
  destruct (subscriber_sees_events (Event := nat) "a" test_ops ∅) as (q & H1 & H2 & _).
  - apply map_Forall_empty.
  - repeat constructor; discriminate.
  - by exists q.
Defined.

(** Subscribers do not disturb each other.  Publishing puts the event in the
    channel of exactly those subscribers that have room, whatever the state of the
    others, and keeps the subscribers; subscribing and unsubscribing change the
    count by one and no other channel. *)
Theorem publish_is_local {Event} (e : Event) b id :
  (Publish e b !! id = offer e <$> b !! id) ∧
  (Count (Publish e b) = Count b) ∧
  (b !! id = None → Count (Subscribe id b) = S (Count b)) ∧
  (is_Some (b !! id) → S (Count (unsubscribe id b)) = Count b) ∧
  (∀ i, i ≠ id → Subscribe id b !! i = b !! i ∧ unsubscribe id b !! i = b !! i).
Proof.
  unfold Publish, Count, Subscribe, unsubscribe. split_and!.
  - apply lookup_fmap.
  - apply map_size_fmap.
  - apply map_size_insert_None.
  - intros Hi. rewrite map_size_delete_Some by done. apply Nat.succ_pred.
    intros Hz%map_size_empty_inv. subst b. by destruct Hi as [? H%lookup_empty_Some].
  - intros i Hi. by rewrite lookup_insert_ne, lookup_delete_ne.
Qed.

(** ** The event stream (handleEvents)

    What the handler's [write] of a line comes to: the line is written and flushed; it
    is not written, or not as a whole; or it is written and the flush fails. *)
Inductive write_outcome : Type := Flushed | WriteFailed | FlushFailed.

(** What the handler's [select] takes next: the end of the request, a tick of the
    keepalive timer, or an event of the channel, with the outcome of the write. *)
Inductive sse_input : Type :=
  | CtxDone
  | Tick (o : write_outcome)
  | Deliver (o : write_outcome).

Section events.
Context {Event : Type} (marshal : Event → option string).

Definition keepalive_line : string := ": keepalive" +:+ String "010" (String "010" "").
Definition data_line (data : string) : string :=
  "data: " +:+ data +:+ String "010" (String "010" "").

(** [handleEvents] from its subscription under [id]: the lines it writes, with
    the events other goroutines publish in between; [true] if it has returned. *)
Fixpoint sse_loop (id : string) (l : list (@operation Event + sse_input))
    (b : gmap string (list Event)) : gmap string (list Event) * list string * bool :=
  match l with
  | [] => (b, [], false)
  | inl o :: l => sse_loop id l (apply o b)
  | inr CtxDone :: _ => (unsubscribe id b, [], true)
  | inr (Tick o) :: l =>
      match o with
      | Flushed => let '(b', lines, returned) := sse_loop id l b in (b', keepalive_line :: lines, returned)
      | FlushFailed => (unsubscribe id b, [keepalive_line], true)
      | WriteFailed => (unsubscribe id b, [], true)
      end
  | inr (Deliver o) :: l =>
      match receive id b with
      | None => sse_loop id l b
      | Some (e, b) =>
          match marshal e with
          | None => sse_loop id l b
          | Some data =>
              match o with
              | Flushed =>
                  let '(b', lines, returned) := sse_loop id l b in (b', data_line data :: lines, returned)
              | FlushFailed => (unsubscribe id b, [data_line data], true)
              | WriteFailed => (unsubscribe id b, [], true)
              end
          end
      end
  end.

Definition handleEvents (id : string) (l : list (@operation Event + sse_input))
    (b : gmap string (list Event)) : gmap string (list Event) * list string * bool :=
  sse_loop id l (Subscribe id b).

(** The lines that carry events. *)
Definition is_data (line : string) : bool := HasPrefix line "data: ".

Definition sse_ops (l : list (@operation Event + sse_input)) : list (@operation Event) :=
  omap (λ x, match x with inl o => Some o | inr _ => None end) l.

Lemma keepalive_not_data : is_data keepalive_line = false.
Proof using. done. Qed.

Lemma data_line_data d : is_data (data_line d) = true.
Proof using. unfold is_data. apply HasPrefix_spec. by eexists. Qed.

Lemma omap_sublist_proper (l k : list Event) : sublist l k → sublist (omap marshal l) (omap marshal k).
Proof using.
  induction 1 as [|x l k Hl IH|x l k Hl IH]; csimpl; [done| |].
  - destruct (marshal x); [by constructor|done].
  - destruct (marshal x); [by constructor|done].
Qed.

Lemma sse_loop_spec id l b q :
  Forall (keeps id) (sse_ops l) → Forall (λ o, o ≠ OpReceive id) (sse_ops l) → b !! id = Some q →
  ∃ es, filter (λ line, is_data line = true) (sse_loop id l b).1.2 = data_line <$> es ∧
    sublist es (omap marshal (q ++ published (sse_ops l))) ∧
    ((sse_loop id l b).2 = true → (sse_loop id l b).1.1 !! id = None).
Proof using.
  revert b q. induction l as [|[o|[|w|w]] l IH]; intros b q Hk Hr Hq.
  - exists []. split_and!; try done. apply sublist_nil_l.
  - change (sse_ops (inl o :: l)) with (o :: sse_ops l) in *.
    change (sse_loop id (inl o :: l) b) with (sse_loop id l (apply o b)).
    inversion Hk as [|? ? Hko Hkl]; subst. inversion Hr as [|? ? Hro Hrl]; subst.
    destruct (apply_queue id o b q Hko Hq) as (q1 & r & Hq1 & Hr1 & Hs & _).
    destruct (IH (apply o b) q1 Hkl Hrl Hq1) as (es & H1 & H2 & H3).
    exists es. split_and!; try done. etrans; [exact H2|]. apply omap_sublist_proper.
    rewrite published_cons, app_assoc. apply sublist_app; [|done].
    etrans; [|exact Hs]. by apply sublist_inserts_l.
  - exists []. split_and!; [done|apply sublist_nil_l|]. intros _. apply lookup_delete_eq.
  - destruct w; simpl.
    + destruct (IH b q Hk Hr Hq) as (es & H1 & H2 & H3).
      destruct (sse_loop id l b) as [[b' lines] returned]. simpl in *.
      by exists es.
    + exists []. split_and!; [done|apply sublist_nil_l|]. intros _. apply lookup_delete_eq.
    + exists []. split_and!; [done|apply sublist_nil_l|]. intros _. apply lookup_delete_eq.
  - simpl. unfold receive. rewrite Hq. destruct q as [|e q]; [by apply IH|].
    assert (Hq' : (<[id := q]> b) !! id = Some q) by apply lookup_insert_eq.
    destruct (IH _ q Hk Hr Hq') as (es & H1 & H2 & H3). csimpl.
    destruct (marshal e) as [data|].
    + destruct w.
      * destruct (sse_loop id l _) as [[b' lines] returned]. simpl in *.
        exists (data :: es). split_and!; try done; [|by constructor].
        rewrite filter_cons, decide_True by apply data_line_data. csimpl. by rewrite H1.
      * exists []. split_and!; [done|apply sublist_nil_l|]. intros _. apply lookup_delete_eq.
      * exists [data]. split_and!; [|by apply sublist_skip, sublist_nil_l|intros _; apply lookup_delete_eq].
        cbn [fst snd]. by rewrite filter_cons, decide_True by apply data_line_data.
    + by exists es.
Qed.
End events.

(** C26: the event stream tells its client the truth.  The data lines the handler
    writes are the encodings of events published after it subscribed, in order and
    without repetition, whatever keepalive lines it writes between them, one that is
    written and not flushed included; and when it returns, because a write or a flush
    failed or the request ended, its subscription is gone. *)
Theorem stream_writes_events {Event} (marshal : Event → option string) id l b :
  Forall (keeps id) (sse_ops l) → Forall (λ o, o ≠ OpReceive id) (sse_ops l) →
  let '(b', lines, returned) := handleEvents marshal id l b in
  ∃ es, filter (λ line, is_data line = true) lines = data_line <$> es ∧
    sublist es (omap marshal (published (sse_ops l))) ∧
    (returned = true → b' !! id = None).
Proof.
  intros Hk Hr. unfold handleEvents.
  destruct (sse_loop_spec marshal id l (Subscribe id b) [] Hk Hr) as (es & H1 & H2 & H3).
  { apply lookup_insert_eq. }
  destruct (sse_loop marshal id l (Subscribe id b)) as [[b' lines] returned]. by exists es.
Qed.

Definition test_stream : list (@operation string + sse_input) :=
  [inl (OpPublish "x"); inr (Deliver Flushed); inr (Tick Flushed); inl (OpPublish "y"); inr (Deliver FlushFailed)].

Lemma stream_writes_events_witness :
  let '(b', lines, returned) := handleEvents Some "s" test_stream ∅ in
  ∃ es, filter (λ line, is_data line = true) lines = data_line <$> es ∧
    sublist es (omap Some (published (sse_ops test_stream))) ∧
    (returned = true → b' !! "s" = None).
Proof. apply stream_writes_events; repeat constructor; discriminate. Defined.
