(* ===== verification/Auth.v ===== *)
(** * Tokens (internal/auth/jwt.go).

    The JWT library is a parameter: signing, parsing with a key function, and the
    signing method a token names in its header.  What the code relies on is named in
    [JwtLaws], as the library documents it: signing succeeds with the ASCII text of a
    compact token; parsing refuses a token whose method the key function refuses, and
    one whose claims have an expiry that has passed (claims without one do not expire);
    a token signed with the key the function returns is read back with its claims until
    their expiry, and refused after it.  Reading back is promised of claims whose texts
    are valid UTF-8 and whose dates a [NumericDate] holds: whole seconds that a float64
    is exact for.  Claims the program does not set are left out. *)
From S2P Require Import Prelude GoString GoTime GoJson World.
Local Open Scope Z_scope.

Definition Role : Type := string.
Definition RoleDevice : Role := "device".
Definition RoleAdmin : Role := "admin".

Record Claims := {
  cl_Subject : string;
  cl_IssuedAt : option Time;
  cl_ExpiresAt : option Time;
  cl_Role : Role
}.

(** The signing method of a token's header. *)
Inductive signing_method : Type :=
  | HMAC (alg : string)
  | OtherMethod (alg : string).

Class Jwt := {
  jwt_sign : signing_method → string → Claims → option string;
  jwt_method : string → signing_method;
  jwt_parse : (signing_method → option string) → Time → string → option Claims
}.

Definition HS256 : signing_method := HMAC "HS256".

(** [exp], when it is there, is the first instant the claims are not good at. *)
Definition alive (now : Time) (c : Claims) : bool :=
  match cl_ExpiresAt c with Some exp => now <? exp | None => true end.

(** An instant whose second a float64 holds: any until the year 285 million. *)
Definition datable (t : Time) : Prop := Z.abs (unix_sec t) <= 2 ^ 53.

(** Claims a token's text keeps. *)
Definition encodable (c : Claims) : Prop :=
  utf8_text (bytes (cl_Subject c)) = true ∧ utf8_text (bytes (cl_Role c)) = true ∧
  ∀ t, cl_IssuedAt c = Some t ∨ cl_ExpiresAt c = Some t → trunc_sec t = t ∧ datable t.

Class JwtLaws (J : Jwt) : Prop := {
  jwt_refused key now tok : key (jwt_method tok) = None → jwt_parse key now tok = None;
  jwt_alive key now tok c : jwt_parse key now tok = Some c → alive now c = true;
  jwt_signs secret c : ∃ tok, jwt_sign HS256 secret c = Some tok ∧ ascii_text (bytes tok);
  jwt_reads key secret now tok c :
    jwt_sign HS256 secret c = Some tok → key HS256 = Some secret → encodable c →
    jwt_parse key now tok = if alive now c then Some c else None
}.

(** [auth.Manager] *)
Record Manager := { mg_secret : string }.

Definition NewManager (secret : string) : res string Manager :=
  if len secret <? 32 then Err "auth: JWT secret must be at least 32 characters"
  else Ok {| mg_secret := secret |}.

Section manager.
Context `{W : World, J : Jwt} {D E : Type}.

(** [Claims{RegisteredClaims: ..., Role: role}] *)
Definition new_claims (subject : string) (role : Role) (now : Time) (expiry : Duration) : Claims :=
  {| cl_Subject := subject; cl_IssuedAt := Some (trunc_sec now);
     cl_ExpiresAt := Some (trunc_sec (now + expiry)); cl_Role := role |}.

Definition issue (m : Manager) (subject : string) (role : Role) (expiry : Duration)
    : Op D E (option string) :=
  now ← time_Now;
  mret (jwt_sign HS256 (mg_secret m) (new_claims subject role now expiry)).

Definition IssueDeviceToken (m : Manager) (deviceID : string) (expiry : Duration)
    : Op D E (option string) := issue m deviceID RoleDevice expiry.

Definition IssueAdminToken (m : Manager) (subject : string) (expiry : Duration)
    : Op D E (option string) := issue m subject RoleAdmin expiry.

(** The function [Validate] gives the parser: the secret, for an HMAC method. *)
Definition signing_key (m : Manager) (method : signing_method) : option string :=
  match method with HMAC _ => Some (mg_secret m) | OtherMethod _ => None end.

Definition Validate (m : Manager) (tokenStr : string) : Op D E (option Claims) :=
  now ← time_Now;
  mret (jwt_parse (signing_key m) now tokenStr).
End manager.

(** What [Validate] makes of the token of these claims at [t]. *)
Definition token_claims (subject : string) (role : Role) (now : Time) (expiry : Duration) (t : Time)
    : option Claims :=
  if t <? trunc_sec (now + expiry) then Some (new_claims subject role now expiry) else None.

(** The token of a subject and role, issued at [now]: the manager reads it back, with
    the claims it was issued for, before the second [now + expiry] falls in, and not
    from then on. *)
Definition token_for `{J : Jwt} (m : Manager) (subject : string) (role : Role) (now : Time)
    (expiry : Duration) (tok : string) : Prop :=
  ascii_text (bytes tok) ∧
  (datable now → datable (now + expiry) →
   ∀ t, jwt_parse (signing_key m) t tok = token_claims subject role now expiry t).

Lemma encodable_new subject role now expiry :
  utf8_text (bytes subject) = true → utf8_text (bytes role) = true → datable now → datable (now + expiry) →
  encodable (new_claims subject role now expiry).
Proof.
  intros Hs Hr Hn He. split; [done|]. split; [done|]. unfold datable.
  intros t [[= <-]|[= <-]]; by rewrite trunc_sec_idem, unix_sec_trunc.
Qed.

Lemma issue_token `{W : World, J : Jwt} `{!JwtLaws J} {D E} m subject role expiry (s : Sys D) :
  utf8_text (bytes subject) = true → utf8_text (bytes role) = true →
  ∃ tok, issue (E := E) m subject role expiry s = (bump s, Ok (Some tok)) ∧
    token_for m subject role (now_at (tick s)) expiry tok.
Proof.
  intros Hs Hr. unfold issue, time_Now, mbind, st_bind, mret, st_ret.
  destruct (jwt_signs (mg_secret m) (new_claims subject role (now_at (tick s)) expiry)) as (tok & Htok & Ha).
  exists tok. rewrite Htok. split; [done|]. split; [done|]. intros Hn He t.
  by rewrite (jwt_reads _ (mg_secret m) t tok _ Htok) by (done || by apply encodable_new).
Qed.

(** C21: a token is good from its issue until it expires, and no longer.  The manager
    issues a token for any subject and role of valid UTF-8.  [Validate] reads it back, with
    that subject and role and the dates of its issue, at every reading of the clock before
    the second in which the expiry asked for has passed since the issue, and refuses it at
    every reading from then on.  A token whose header names a family of signing methods
    other than HMAC is refused always. *)
Theorem issued_token_validates `{W : World, J : Jwt} `{!JwtLaws J} {D E} m subject role expiry
    (s : Sys D) :
  utf8_text (bytes subject) = true → utf8_text (bytes role) = true →
  datable (now_at (tick s)) → datable (now_at (tick s) + expiry) →
  let out := issue (E := E) m subject role expiry s in
  (∃ tok, out = (bump s, Ok (Some tok)) ∧
     ∀ s2 : Sys D,
       (Validate (E := E) m tok s2).2 =
         Ok (if now_at (tick s2) <? trunc_sec (now_at (tick s) + expiry)
             then Some {| cl_Subject := subject; cl_IssuedAt := Some (trunc_sec (now_at (tick s)));
                          cl_ExpiresAt := Some (trunc_sec (now_at (tick s) + expiry)); cl_Role := role |}
             else None)) ∧
  (∀ tok alg (s2 : Sys D), jwt_method tok = OtherMethod alg → (Validate (E := E) m tok s2).2 = Ok None).
Proof.
  intros Hs Hr Hn He out. split.
  - destruct (issue_token (E := E) m subject role expiry s Hs Hr) as (tok & Hi & _ & Ht).
    exists tok. split; [exact Hi|]. intros s2. unfold Validate, time_Now, mbind, st_bind, mret, st_ret.
    simpl. by rewrite Ht.
  - intros tok alg s2 Hm. unfold Validate, time_Now, mbind, st_bind, mret, st_ret. simpl.
    by rewrite jwt_refused by (by rewrite Hm).
Qed.

(** ** A concrete library

    A token is the secret and the claims in the clear, as a binary number. *)
Fixpoint pos_string (p : positive) : string :=
  match p with
  | xH => ""
  | xO p => String "0" (pos_string p)
  | xI p => String "1" (pos_string p)
  end.

Fixpoint string_pos (s : string) : positive :=
  match s with
  | EmptyString => xH
  | String c s => if Ascii.eqb c "0" then xO (string_pos s) else xI (string_pos s)
  end.

Lemma string_pos_string p : string_pos (pos_string p) = p.
Proof. induction p as [p IH|p IH|]; simpl; by rewrite ?IH. Qed.

Definition claims_tuple : Type := string * string * option Z * option Z * string.

Definition toy_sign (m : signing_method) (secret : string) (c : Claims) : option string :=
  Some (pos_string (encode (secret, cl_Subject c, cl_IssuedAt c, cl_ExpiresAt c, cl_Role c))).

(** A token that starts with a letter names another method. *)
Definition toy_method (tok : string) : signing_method :=
  if HasPrefix tok "RS256." then OtherMethod "RS256" else HS256.

Definition toy_parse (key : signing_method → option string) (now : Time) (tok : string)
    : option Claims :=
  secret ← key (toy_method tok);
  t ← decode (A := claims_tuple) (string_pos tok);
  let '(secret', sub, iat, exp, role) := t in
  let c := {| cl_Subject := sub; cl_IssuedAt := iat; cl_ExpiresAt := exp; cl_Role := role |} in
  if bool_decide (secret' = secret) && alive now c then Some c else None.

Definition toy_jwt : Jwt :=
  {| jwt_sign := toy_sign; jwt_method := toy_method; jwt_parse := toy_parse |}.

Lemma toy_method_pos p : toy_method (pos_string p) = HS256.
Proof.
  unfold toy_method. destruct (HasPrefix (pos_string p) "RS256.") eqn:H; [|done].
  apply HasPrefix_spec in H as [t Ht]. by destruct p.
Qed.

Lemma pos_string_ascii p : ascii_text (bytes (pos_string p)).
Proof. induction p as [p IH|p IH|]; simpl; repeat constructor; exact IH. Qed.

#[export] Instance toy_jwt_laws : JwtLaws toy_jwt.
Proof.
  split; simpl.
  - intros key now tok Hk. unfold toy_parse. by rewrite Hk.
  - intros key now tok c. unfold toy_parse. destruct (key _); [|done]. simpl.
    destruct (decode _) as [[[[[secret' sub] iat] exp] role]|]; [|done]. simpl.
    case_match eqn:E; [|done]. intros [= <-]. by bool_prop.
  - intros secret c. eexists. split; [done|apply pos_string_ascii].
  - intros key secret now tok c [= <-] Hk _. unfold toy_parse.
    rewrite toy_method_pos, Hk. simpl. rewrite string_pos_string, decode_encode. simpl.
    rewrite bool_decide_eq_true_2 by done. by destruct c.
Qed.

Definition test_manager : Manager := {| mg_secret := "0123456789abcdef0123456789abcdef" |}.

Lemma issued_token_validates_witness :
  (λ (W : World) (J : Jwt),
    let at_ n := MkSys n () in
    ∃ tok, (issue (E := string) test_manager "u0" RoleDevice Minute (at_ 0%nat)).2 = Ok (Some tok) ∧
      (∃ c, (Validate (E := string) test_manager tok (at_ 59%nat)).2 = Ok (Some c) ∧ cl_Role c = RoleDevice) ∧
      (Validate (E := string) test_manager tok (at_ 60%nat)).2 = Ok None) test_world toy_jwt.
Proof.
  destruct (issued_token_validates (W := test_world) (J := toy_jwt) (E := string) test_manager
    "u0" RoleDevice Minute (MkSys 0%nat ()) eq_refl eq_refl ltac:(done) ltac:(done)) as [(tok & H1 & H2) _].
  exists tok. split; [exact (f_equal snd H1)|]. split; [|exact (H2 (MkSys 60%nat ()))].
  eexists. split; [exact (H2 (MkSys 59%nat ()))|reflexivity].
Defined.
