(* ===== verification/Config.v ===== *)
(** * Server configuration (internal/config/config.go).

    [Load] reads the environment, a function from names to values, and
    [time.ParseDuration] of the standard library with its 64-bit arithmetic.
    Errors are values; their texts are not modelled beyond the variable at fault. *)
From Stdlib Require Import QArith Qround.
From S2P Require Import Prelude GoString GoTime GoFloat Auth.
Local Open Scope Z_scope.

(** ** [time.ParseDuration] *)

(** The number of nanoseconds of a unit; both micro signs are accepted. *)
Definition unit_ns (u : list ascii) : option Z :=
  if bool_decide (u = bytes "ns") then Some Nanosecond
  else if bool_decide (u = bytes "us") then Some Microsecond
  else if bool_decide (u = [byte 194; byte 181; byte 115]) then Some Microsecond
  else if bool_decide (u = [byte 206; byte 188; byte 115]) then Some Microsecond
  else if bool_decide (u = bytes "ms") then Some Millisecond
  else if bool_decide (u = bytes "s") then Some Second
  else if bool_decide (u = bytes "m") then Some Minute
  else if bool_decide (u = bytes "h") then Some Hour
  else None.

(** [leadingInt]: an overflow is an error. *)
Fixpoint leading_int (x : Z) (l : list ascii) : option (Z * list ascii) :=
  match l with
  | c :: k =>
      if is_digit c then
        if x >? 2 ^ 63 / 10 then None
        else let x := x * 10 + (code c - 48) in
             if x >? 2 ^ 63 then None else leading_int x k
      else Some (x, l)
  | [] => Some (x, [])
  end.

(** [leadingFraction]: digits after an overflow are skipped; the value and the
    exponent of its scale. *)
Fixpoint leading_fraction (x scale : Z) (overflow : bool) (l : list ascii)
    : Z * Z * list ascii :=
  match l with
  | c :: k =>
      if is_digit c then
        if overflow then leading_fraction x scale true k
        else if x >? (2 ^ 63 - 1) / 10 then leading_fraction x scale true k
        else let y := x * 10 + (code c - 48) in
             if y >? 2 ^ 63 then leading_fraction x scale true k
             else leading_fraction y (scale * 10) false k
      else (x, scale, l)
  | [] => (x, scale, [])
  end.

Definition is_number_byte (c : ascii) : bool := Ascii.eqb c (byte 46) || is_digit c.

Fixpoint span_unit (l : list ascii) : list ascii * list ascii :=
  match l with
  | c :: k =>
      if is_number_byte c then ([], l) else let '(u, r) := span_unit k in (c :: u, r)
  | [] => ([], [])
  end.

(** [uint64(float64(f) * (float64(unit) / scale))] *)
Definition fraction_ns (f unit scale : Z) : Z :=
  Qfloor (fmul (f_of_Z f) (fdiv (f_of_Z unit) (f_of_Z scale))).

(** One number with its unit: the nanoseconds and the rest. *)
Definition parse_term (l : list ascii) : option (Z * list ascii) :=
  match l with
  | c :: _ =>
      if negb (is_number_byte c) then None else
      '(v, l1) ← leading_int 0 l;
      let pre := negb (Nat.eqb (length l1) (length l)) in
      let '(f, scale, post, l2) :=
        match l1 with
        | p :: k =>
            if Ascii.eqb p (byte 46) then
              let '(f, scale, r) := leading_fraction 0 1 false k in
              (f, scale, negb (Nat.eqb (length r) (length k)), r)
            else (0, 1, false, l1)
        | [] => (0, 1, false, [])
        end in
      if negb pre && negb post then None else
      let '(u, rest) := span_unit l2 in
      unit ← unit_ns u;
      if v >? 2 ^ 63 / unit then None else
      let v := v * unit in
      let v' := if f >? 0 then v + fraction_ns f unit scale else v in
      if v' >? 2 ^ 63 then None else Some (v', rest)
  | [] => None
  end.

(** The loop; a term consumes at least one byte. *)
Fixpoint parse_terms (fuel : nat) (d : Z) (l : list ascii) : option Z :=
  match l with
  | [] => Some d
  | _ =>
      match fuel with
      | O => None
      | S fuel =>
          '(v, rest) ← parse_term l;
          let d := (d + v) mod 2 ^ 64 in
          if d >? 2 ^ 63 then None else parse_terms fuel d rest
      end
  end.

Definition ParseDuration (s : string) : option Duration :=
  let '(neg, l) :=
    match bytes s with
    | c :: k => if Ascii.eqb c (byte 45) then (true, k)
                else if Ascii.eqb c (byte 43) then (false, k)
                else (false, c :: k)
    | [] => (false, [])
    end in
  if bool_decide (l = bytes "0") then Some 0
  else if bool_decide (l = []) then None
  else
    d ← parse_terms (length l) 0 l;
    if neg : bool then Some (wrap64 (- wrap64 d))
    else if d >? 2 ^ 63 - 1 then None else Some d.

Example ParseDuration_90s : ParseDuration "90s" = Some (90 * Second).
Proof. by vm_compute. Qed.
Example ParseDuration_mixed : ParseDuration "-1h30.5m" = Some (- (Hour + 30 * Minute + 30 * Second)).
Proof. by vm_compute. Qed.
Example ParseDuration_bare : ParseDuration "15" = None.
Proof. by vm_compute. Qed.
Example ParseDuration_min : ParseDuration "-9223372036854775808ns" = Some int64_min.
Proof. by vm_compute. Qed.

(** ** The configuration *)

Record Config := {
  HTTPAddr : string;
  TLSCertFile : string;
  TLSKeyFile : string;
  DatabaseURL : string;
  DBPath : string;
  JWTSecret : string;
  AdminSecret : string;
  DeviceTokenExpiry : Duration;
  AdminTokenExpiry : Duration;
  HeartbeatTimeout : Duration;
  DiagnosticTimeout : Duration;
  AllowedOrigins : list string;
  LogFormat : string;
  LogLevel : string;
  OTelEndpoint : string
}.

Inductive config_err : Type :=
  | BadDuration (key : string)
  | TLSHalfSet
  | AdminSecretShort
  | AdminSecretReused
  | NotPositive (key : string).

(** [os.LookupEnv] *)
Definition environ : Type := string → option string.

Definition os_Getenv (e : environ) (key : string) : string := default "" (e key).

Definition env (e : environ) (key fallback : string) : string := default fallback (e key).

Definition envDuration (e : environ) (key : string) (fallback : Duration)
    : res config_err Duration :=
  match e key with
  | None => Ok fallback
  | Some v => match ParseDuration v with Some d => Ok d | None => Err (BadDuration key) end
  end.

Definition comma : ascii := byte 44.

Definition splitAndTrim (s : string) : list string :=
  if bool_decide (s = "") then []
  else filter (λ p, p ≠ "") (TrimSpace <$> Split s comma).

Fixpoint first_not_positive (l : list (string * Duration)) : option string :=
  match l with
  | [] => None
  | (name, value) :: l => if value <=? 0 then Some name else first_not_positive l
  end.

Definition validate (c : Config) : res config_err unit :=
  if negb (Bool.eqb (bool_decide (TLSCertFile c = "")) (bool_decide (TLSKeyFile c = ""))) then
    Err TLSHalfSet
  else if len (AdminSecret c) <? 16 then Err AdminSecretShort
  else if bool_decide (AdminSecret c = JWTSecret c) then Err AdminSecretReused
  else
    match first_not_positive
            [("PULS_DEVICE_TOKEN_EXPIRY", DeviceTokenExpiry c);
             ("PULS_ADMIN_TOKEN_EXPIRY", AdminTokenExpiry c);
             ("PULS_HEARTBEAT_TIMEOUT", HeartbeatTimeout c);
             ("PULS_DIAGNOSTIC_TIMEOUT", DiagnosticTimeout c)] with
    | Some key => Err (NotPositive key)
    | None => Ok ()
    end.

Definition Load (e : environ) : res config_err Config :=
  device ← envDuration e "PULS_DEVICE_TOKEN_EXPIRY" (90 * 24 * Hour);
  admin ← envDuration e "PULS_ADMIN_TOKEN_EXPIRY" (24 * Hour);
  heartbeat ← envDuration e "PULS_HEARTBEAT_TIMEOUT" (90 * Second);
  diagnostic ← envDuration e "PULS_DIAGNOSTIC_TIMEOUT" (60 * Second);
  let c := {|
    HTTPAddr := env e "PULS_HTTP_ADDR" ":8080";
    TLSCertFile := env e "PULS_TLS_CERT" "";
    TLSKeyFile := env e "PULS_TLS_KEY" "";
    DatabaseURL := env e "DATABASE_URL" (env e "PULS_DATABASE_URL" "");
    DBPath := env e "PULS_DB_PATH" ":memory:";
    JWTSecret := env e "PULS_JWT_SECRET" "";
    AdminSecret := env e "PULS_ADMIN_SECRET" "";
    DeviceTokenExpiry := device;
    AdminTokenExpiry := admin;
    HeartbeatTimeout := heartbeat;
    DiagnosticTimeout := diagnostic;
    AllowedOrigins := splitAndTrim (env e "PULS_ALLOWED_ORIGINS" "");
    LogFormat := env e "PULS_LOG_FORMAT" "json";
    LogLevel := env e "PULS_LOG_LEVEL" "info";
    OTelEndpoint := env e "PULS_OTEL_ENDPOINT" (env e "OTEL_EXPORTER_OTLP_ENDPOINT" "")
  |} in
  _ ← validate c;
  Ok c.

Definition TLSEnabled (c : Config) : bool := negb (bool_decide (TLSCertFile c = "")).

(** ** Facts *)

Lemma parse_terms_range fuel d l d' :
  0 <= d <= 2 ^ 63 → parse_terms fuel d l = Some d' → 0 <= d' <= 2 ^ 63.
Proof.
  revert d l. induction fuel as [|fuel IH]; intros d [|c l] Hd; cbn [parse_terms]; try (by intros [= <-]).
  destruct (parse_term (c :: l)) as [[v rest]|]; cbn [mbind option_bind]; [|done].
  pose proof (Z.mod_pos_bound (d + v) (2 ^ 64) ltac:(lia)) as Hm.
  case_match eqn:E; [done|]. apply IH. lia.
Qed.

Lemma ParseDuration_range s d : ParseDuration s = Some d → is_int64 d = true.
Proof.
  unfold ParseDuration. destruct (match bytes s with [] => _ | _ :: _ => _ end) as [neg l].
  case_bool_decide; [by intros [= <-]|]. case_bool_decide; [done|].
  destruct (parse_terms (length l) 0 l) as [d'|] eqn:Ht; cbn [mbind option_bind]; [|done].
  apply parse_terms_range in Ht; [|lia]. destruct neg.
  - intros [= <-]. apply wrap64_range.
  - case_match eqn:E; [done|]. intros [= <-]. unfold is_int64, int64_min, int64_max. lia.
Qed.

(** Durations stay in 64 bits.  Whatever text [time.ParseDuration] accepts,
    the duration it returns is a signed 64-bit number of nanoseconds; in
    particular a validated configuration never holds a wrapped one. *)
Lemma ParseDuration_int64 s d : ParseDuration s = Some d → is_int64 d = true.
Proof. apply ParseDuration_range. Qed.


Lemma leading_int_pad w n acc k :
  0 <= acc → 0 <= n < 10 ^ Z.of_nat w → acc * 10 ^ Z.of_nat w + n <= 2 ^ 63 →
  match k with [] => True | c :: _ => is_digit c = false end →
  leading_int acc (pad w n ++ k) = Some (acc * 10 ^ Z.of_nat w + n, k).
Proof.
  revert n acc. induction w as [|w IH]; intros n acc Ha Hn Hb Hk.
  - simpl in *. assert (n = 0) as -> by lia. rewrite Z.mul_1_r, Z.add_0_r.
    destruct k as [|c k]; simpl; [done|]. by rewrite Hk.
  - cbn [pad app leading_int]. pose proof (pad_head_range w n Hn) as Hd.
    rewrite is_digit_digit by done. rewrite code_digit by done.
    pose proof (pow10_pos w) as Hp. rewrite pow10_succ in Hb, Hn.
    pose proof (Z.div_mod n (10 ^ Z.of_nat w) ltac:(lia)) as Hdm.
    pose proof (Z.mod_pos_bound n (10 ^ Z.of_nat w) Hp) as Hm.
    set (q := n / 10 ^ Z.of_nat w) in *. set (r := n mod 10 ^ Z.of_nat w) in *.
    assert (Hx : acc * 10 + q <= 2 ^ 63) by nia.
    assert (Hacc : acc <= 2 ^ 63 / 10) by (apply Z.div_le_lower_bound; lia).
    replace (acc >? 2 ^ 63 / 10) with false by lia.
    replace (acc * 10 + (48 + q - 48)) with (acc * 10 + q) by lia.
    replace (acc * 10 + q >? 2 ^ 63) with false by lia.
    rewrite IH by (nia || lia || done). f_equal. f_equal. rewrite pow10_succ. nia.
Qed.

Lemma unit_ns_span u k r :
  unit_ns u = Some k → 0 < k ∧ span_unit u = (u, []) ∧
  ∃ c v, u = c :: v ∧ is_number_byte c = false ∧ is_digit c = false ∧ c ≠ byte 46 ∧
         bytes "0" ≠ r ++ u.
Proof.
  unfold unit_ns. intros H.
  assert (Hne : ∀ a v, u = a :: v → is_digit (List.last u (byte 0)) = false → bytes "0" ≠ r ++ u).
  { intros a v -> Hl Heq. pose proof (f_equal length Heq) as Hlen.
    rewrite length_app in Hlen. simpl in Hlen. destruct r; [|simpl in Hlen; lia].
    destruct v; [|simpl in Hlen; lia]. simpl in Heq. by simplify_eq. }
  repeat (case_bool_decide; [simplify_eq; (split; [done|]); split; [done|]; eexists _, _;
    split_and!; try done; by eapply Hne|]). done.
Qed.

(** Durations are read as they are written.  A whole number followed by one of
    the units, "90s" or "-5m", is that many units, for every number and unit whose
    duration fits 64 bits. *)
Lemma ParseDuration_units z u k :
  unit_ns (bytes u) = Some k → Z.abs z * k <= int64_max →
  ParseDuration (Itoa z +:+ u) = Some (z * k).
Proof.
  intros Hu Hz. unfold int64_max in Hz. set (n := Z.abs z) in *. assert (Hn : 0 <= n) by lia.
  set (w := Nat.max 1 (num_digits (Z.to_nat (Z.log2 n)) n)).
  assert (Hw : (1 ≤ w)%nat) by lia. assert (Hnw : 0 <= n < 10 ^ Z.of_nat w).
  { split; [done|]. apply (append_int_width 1 z). }
  destruct (unit_ns_span (bytes u) k (pad w n) Hu) as (Hk & Hspan & c & v & Huc & Hc1 & Hc2 & Hc3 & H0).
  assert (Hd : ∃ d ds, pad w n = d :: ds ∧ is_digit d = true).
  { destruct w as [|w]; [lia|]. simpl. eexists _, _. split; [done|].
    apply is_digit_digit. by apply pad_head_range. }
  destruct Hd as (d & ds & Hpad & Hdig).
  assert (Hterm : parse_term (pad w n ++ bytes u) = Some (n * k, [])).
  { unfold parse_term. rewrite Hpad. cbn [app]. unfold is_number_byte at 1. rewrite Hdig, orb_true_r.
    cbn [negb]. change (d :: ds ++ bytes u) with ((d :: ds) ++ bytes u). rewrite <-Hpad.
    rewrite (leading_int_pad w n 0 (bytes u)) by (lia || (rewrite Huc; done) || nia).
    cbn [mbind option_bind]. rewrite length_app.
    rewrite Huc. rewrite (proj2 (Ascii.eqb_neq _ _) Hc3). rewrite <-Huc.
    replace (Nat.eqb (length (bytes u)) (length (pad w n) + length (bytes u))) with false
      by (symmetry; apply Nat.eqb_neq; rewrite length_pad; lia).
    cbn [negb andb]. rewrite Hspan, Hu. cbn [mbind option_bind].
    replace (0 * 10 ^ Z.of_nat w + n) with n by lia.
    assert (n <= 2 ^ 63 / k) by (apply Z.div_le_lower_bound; lia).
    replace (n >? 2 ^ 63 / k) with false by lia. cbn [Z.gtb Z.compare].
    replace (n * k >? 2 ^ 63) with false by lia. done. }
  assert (Hparse : ∀ fuel, (0 < fuel)%nat → parse_terms fuel 0 (pad w n ++ bytes u) = Some (n * k)).
  { intros [|fuel] Hf; [lia|]. rewrite Hpad. cbn [app parse_terms].
    change (d :: ds ++ bytes u) with ((d :: ds) ++ bytes u). rewrite <-Hpad, Hterm.
    cbn [mbind option_bind]. rewrite Z.add_0_l, Z.mod_small by nia.
    replace (n * k >? 2 ^ 63) with false by lia. by destruct fuel. }
  assert (Hne : pad w n ++ bytes u ≠ []) by (by rewrite Hpad).
  assert (Hlen : (0 < length (pad w n ++ bytes u))%nat) by (rewrite Hpad; simpl; lia).
  unfold ParseDuration. rewrite bytes_app. unfold Itoa. rewrite bytes_unbytes.
  unfold append_int. fold n w. destruct (Z.ltb_spec z 0) as [Hneg|Hpos].
  - cbn [app]. change (Ascii.eqb (byte 45) (byte 45)) with true. cbn match.
    rewrite bool_decide_eq_false_2 by done. rewrite bool_decide_eq_false_2 by done.
    rewrite Hparse by done. cbn [mbind option_bind]. f_equal.
    rewrite (wrap64_id (n * k)) by (unfold is_int64, int64_min, int64_max; lia).
    rewrite wrap64_id by (unfold is_int64, int64_min, int64_max; lia). nia.
  - rewrite Hpad at 1. cbn [app].
    assert (Hd45 : Ascii.eqb d (byte 45) = false ∧ Ascii.eqb d (byte 43) = false).
    { split; apply Ascii.eqb_neq; intros ->; by vm_compute in Hdig. }
    destruct Hd45 as [-> ->]. change (d :: ds ++ bytes u) with ((d :: ds) ++ bytes u).
    rewrite <-Hpad. rewrite bool_decide_eq_false_2 by done. rewrite bool_decide_eq_false_2 by done.
    rewrite Hparse by done. cbn [mbind option_bind].
    replace (n * k >? 2 ^ 63 - 1) with false by lia. f_equal. nia.
Qed.


Lemma strip_runes_subset rs fuel l c : c ∈ strip_runes fuel rs l → c ∈ l.
Proof. destruct (strip_runes_suffix rs fuel l) as [k Hk]. intros Hc. rewrite Hk. set_solver. Qed.

Lemma elem_of_rev {A} (x : A) l : x ∈ rev l ↔ x ∈ l.
Proof. rewrite !list_elem_of_In. symmetry. apply in_rev. Qed.

Lemma trim_space_subset c l : c ∈ trim_space l → c ∈ l.
Proof.
  unfold trim_space, trim_left. rewrite elem_of_rev. intros H%strip_runes_subset.
  rewrite elem_of_rev in H. by eapply strip_runes_subset.
Qed.

(** An entry of the list of origins: nonempty, trimmed, without a comma. *)
Definition origin_ok (o : string) : Prop := o ≠ "" ∧ trimmed (bytes o) ∧ comma ∉ bytes o.

Lemma splitAndTrim_ok s : Forall origin_ok (splitAndTrim s).
Proof.
  unfold splitAndTrim. case_bool_decide; [constructor|]. apply Forall_forall. intros o Ho.
  apply list_elem_of_filter in Ho as [Hne Ho]. apply list_elem_of_fmap in Ho as (p & -> & Hp).
  split_and!; [done|apply TrimSpace_trimmed|]. unfold Split in Hp.
  apply list_elem_of_fmap in Hp as (l & -> & Hl). unfold TrimSpace. rewrite !bytes_unbytes.
  intros Hc%trim_space_subset. pose proof (split_no_sep comma (bytes s)) as Hs.
  rewrite Forall_forall in Hs. by apply (Hs l).
Qed.

Definition duration_ok (d : Duration) : Prop := 0 < d /\ is_int64 d = true.

(** What [Load] checks, and what follows of the origins.  The signing key is not among
    it: [NewManager] refuses one of fewer than 32 bytes, and a configuration without one
    loads. *)
Record config_ok (c : Config) : Prop := {
  co_tls : TLSCertFile c = "" ↔ TLSKeyFile c = "";
  co_admin : 16 <= len (AdminSecret c);
  co_secrets : AdminSecret c ≠ JWTSecret c;
  co_device : duration_ok (DeviceTokenExpiry c);
  co_admin_token : duration_ok (AdminTokenExpiry c);
  co_heartbeat : duration_ok (HeartbeatTimeout c);
  co_diagnostic : duration_ok (DiagnosticTimeout c);
  co_origins : Forall origin_ok (AllowedOrigins c)
}.

(** A duration of the environment: the default if the variable is not set, else what it
    parses to. *)
Definition duration_of (e : environ) (key : string) (fallback d : Duration) : Prop :=
  match e key with None => d = fallback | Some v => ParseDuration v = Some d end.

(** The configuration an environment writes. *)
Record config_of (e : environ) (c : Config) : Prop := {
  cf_addr : HTTPAddr c = default ":8080" (e "PULS_HTTP_ADDR");
  cf_tls : (TLSCertFile c, TLSKeyFile c) = (default "" (e "PULS_TLS_CERT"), default "" (e "PULS_TLS_KEY"));
  cf_url : DatabaseURL c = default (default "" (e "PULS_DATABASE_URL")) (e "DATABASE_URL");
  cf_path : DBPath c = default ":memory:" (e "PULS_DB_PATH");
  cf_secrets : (JWTSecret c, AdminSecret c) = (default "" (e "PULS_JWT_SECRET"), default "" (e "PULS_ADMIN_SECRET"));
  cf_device : duration_of e "PULS_DEVICE_TOKEN_EXPIRY" (90 * 24 * Hour) (DeviceTokenExpiry c);
  cf_admin_token : duration_of e "PULS_ADMIN_TOKEN_EXPIRY" (24 * Hour) (AdminTokenExpiry c);
  cf_heartbeat : duration_of e "PULS_HEARTBEAT_TIMEOUT" (90 * Second) (HeartbeatTimeout c);
  cf_diagnostic : duration_of e "PULS_DIAGNOSTIC_TIMEOUT" (60 * Second) (DiagnosticTimeout c);
  cf_origins : AllowedOrigins c =
    filter (λ o, o ≠ "") (TrimSpace <$> Split (default "" (e "PULS_ALLOWED_ORIGINS")) comma);
  cf_log : (LogFormat c, LogLevel c) = (default "json" (e "PULS_LOG_FORMAT"), default "info" (e "PULS_LOG_LEVEL"));
  cf_otel : OTelEndpoint c =
    default (default "" (e "OTEL_EXPORTER_OTLP_ENDPOINT")) (e "PULS_OTEL_ENDPOINT")
}.

Lemma envDuration_range e key fallback d :
  is_int64 fallback = true → envDuration e key fallback = Ok d → is_int64 d = true.
Proof.
  unfold envDuration. destruct (e key) as [v|]; [|by intros ? [= <-]].
  destruct (ParseDuration v) eqn:Hp; [|done]. intros _ [= <-]. by eapply ParseDuration_range.
Qed.

Lemma envDuration_err e key fallback err :
  envDuration e key fallback = Err err →
  err = BadDuration key ∧ ∃ v, e key = Some v ∧ ParseDuration v = None.
Proof.
  unfold envDuration. destruct (e key) as [v|]; [|done].
  destruct (ParseDuration v) eqn:Hp; [done|]. intros [= <-]. split; [done|by exists v].
Qed.

(** The four durations with the variables and defaults they are read from. *)
Definition durations : list (string * Duration) :=
  [("PULS_DEVICE_TOKEN_EXPIRY", 90 * 24 * Hour); ("PULS_ADMIN_TOKEN_EXPIRY", 24 * Hour);
   ("PULS_HEARTBEAT_TIMEOUT", 90 * Second); ("PULS_DIAGNOSTIC_TIMEOUT", 60 * Second)].

(** Why [Load] may refuse an environment. *)
Definition fault (e : environ) (err : config_err) : Prop :=
  match err with
  | BadDuration key =>
      key ∈ durations.*1 ∧ ∃ v, e key = Some v ∧ ParseDuration v = None
  | TLSHalfSet => ¬ (env e "PULS_TLS_CERT" "" = "" ↔ env e "PULS_TLS_KEY" "" = "")
  | AdminSecretShort => len (env e "PULS_ADMIN_SECRET" "") < 16
  | AdminSecretReused => env e "PULS_ADMIN_SECRET" "" = env e "PULS_JWT_SECRET" ""
  | NotPositive key => ∃ v d, e key = Some v ∧ key ∈ durations.*1 ∧ ParseDuration v = Some d ∧ d <= 0
  end.

Lemma first_not_positive_spec l :
  match first_not_positive l with
  | None => Forall (λ p, 0 < p.2) l
  | Some key => ∃ d, (key, d) ∈ l ∧ d <= 0
  end.
Proof.
  induction l as [|[name value] l IH]; simpl; [done|].
  destruct (Z.leb_spec value 0); [by exists value; split; [left|]|].
  destruct (first_not_positive l); [|by constructor].
  destruct IH as (d & Hd & Hle). exists d. split; [by right|done].
Qed.

Lemma envDuration_not_positive e key fallback d :
  0 < fallback → envDuration e key fallback = Ok d → d <= 0 →
  ∃ v, e key = Some v ∧ ParseDuration v = Some d.
Proof.
  unfold envDuration. destruct (e key) as [v|]; [|intros ? [= <-]; lia].
  destruct (ParseDuration v) eqn:Hp; [|done]. intros _ [= <-] _. by exists v.
Qed.

Lemma validate_spec c :
  match validate c with
  | Ok _ =>
      (TLSCertFile c = "" ↔ TLSKeyFile c = "") ∧ 16 <= len (AdminSecret c) ∧
      AdminSecret c ≠ JWTSecret c ∧ 0 < DeviceTokenExpiry c ∧ 0 < AdminTokenExpiry c ∧
      0 < HeartbeatTimeout c ∧ 0 < DiagnosticTimeout c
  | Err TLSHalfSet => ¬ (TLSCertFile c = "" ↔ TLSKeyFile c = "")
  | Err AdminSecretShort => len (AdminSecret c) < 16
  | Err AdminSecretReused => AdminSecret c = JWTSecret c
  | Err (NotPositive key) =>
      ∃ d, (key, d) ∈ [("PULS_DEVICE_TOKEN_EXPIRY", DeviceTokenExpiry c);
                       ("PULS_ADMIN_TOKEN_EXPIRY", AdminTokenExpiry c);
                       ("PULS_HEARTBEAT_TIMEOUT", HeartbeatTimeout c);
                       ("PULS_DIAGNOSTIC_TIMEOUT", DiagnosticTimeout c)] ∧ d <= 0
  | Err (BadDuration _) => False
  end.
Proof.
  pose proof (first_not_positive_spec
    [("PULS_DEVICE_TOKEN_EXPIRY", DeviceTokenExpiry c);
     ("PULS_ADMIN_TOKEN_EXPIRY", AdminTokenExpiry c);
     ("PULS_HEARTBEAT_TIMEOUT", HeartbeatTimeout c);
     ("PULS_DIAGNOSTIC_TIMEOUT", DiagnosticTimeout c)]) as Hp.
  unfold validate. destruct (negb _) eqn:Ht.
  { repeat case_bool_decide; naive_solver. }
  assert (TLSCertFile c = "" ↔ TLSKeyFile c = "") by (repeat case_bool_decide; naive_solver).
  clear Ht. destruct (Z.ltb_spec (len (AdminSecret c)) 16); [done|].
  case_bool_decide; [done|]. destruct (first_not_positive _); [done|].
  rewrite !Forall_cons in Hp. simpl in Hp. naive_solver.
Qed.

Lemma envDuration_of e key fallback d : envDuration e key fallback = Ok d → duration_of e key fallback d.
Proof.
  unfold envDuration, duration_of. destruct (e key) as [v|]; [|by intros [= <-]].
  by destruct (ParseDuration v); [intros [= <-]|].
Qed.

Lemma env_default e key fallback : env e key fallback = default fallback (e key).
Proof. unfold env. by destruct (e key). Qed.

Lemma splitAndTrim_filter s : splitAndTrim s = filter (λ o, o ≠ "") (TrimSpace <$> Split s comma).
Proof. unfold splitAndTrim. case_bool_decide as H; [by subst s|done]. Qed.

(** What [Load] returns. *)
Lemma load_diagnosis e :
  match Load e with Ok c => config_ok c ∧ config_of e c | Err err => fault e err end.
Proof.
  unfold Load.
  destruct (envDuration e "PULS_DEVICE_TOKEN_EXPIRY" _) as [d1|err] eqn:H1; simpl.
  2: { apply envDuration_err in H1 as [-> H1]. split; [set_solver|done]. }
  destruct (envDuration e "PULS_ADMIN_TOKEN_EXPIRY" _) as [d2|err] eqn:H2; simpl.
  2: { apply envDuration_err in H2 as [-> H2]. split; [set_solver|done]. }
  destruct (envDuration e "PULS_HEARTBEAT_TIMEOUT" _) as [d3|err] eqn:H3; simpl.
  2: { apply envDuration_err in H3 as [-> H3]. split; [set_solver|done]. }
  destruct (envDuration e "PULS_DIAGNOSTIC_TIMEOUT" _) as [d4|err] eqn:H4; simpl.
  2: { apply envDuration_err in H4 as [-> H4]. split; [set_solver|done]. }
  match goal with |- context [validate ?c] => pose proof (validate_spec c) as Hv; destruct (validate c) as [u|err] end;
    simpl in *.
  - destruct Hv as (Ht & Ha & Hs & P1 & P2 & P3 & P4). split.
    + apply envDuration_range in H1, H2, H3, H4; try done.
      split; simpl; try done. apply splitAndTrim_ok.
    + apply envDuration_of in H1, H2, H3, H4.
      by split; simpl; rewrite ?splitAndTrim_filter, ?env_default.
  - destruct err; simpl in *; try done. destruct Hv as (d & Hin & Hle).
    rewrite !elem_of_cons, elem_of_nil in Hin.
    destruct Hin as [[= -> ->]|[[= -> ->]|[[= -> ->]|[[= -> ->]|[]]]]].
    + edestruct envDuration_not_positive as (v & ? & ?); [|exact H1|exact Hle|]; [done|].
      exists v, d1. split_and!; try done. set_solver.
    + edestruct envDuration_not_positive as (v & ? & ?); [|exact H2|exact Hle|]; [done|].
      exists v, d2. split_and!; try done. set_solver.
    + edestruct envDuration_not_positive as (v & ? & ?); [|exact H3|exact Hle|]; [done|].
      exists v, d3. split_and!; try done. set_solver.
    + edestruct envDuration_not_positive as (v & ? & ?); [|exact H4|exact Hle|]; [done|].
      exists v, d4. split_and!; try done. set_solver.
Qed.

(** Checked durations parse, to something positive. *)
Lemma duration_no_fault e key fallback d v :
  duration_of e key fallback d → 0 < d → e key = Some v → ∃ x, ParseDuration v = Some x ∧ 0 < x.
Proof. unfold duration_of. intros Hd Hpos Hk. rewrite Hk in Hd. by exists d. Qed.

Lemma config_no_fault e c err : config_ok c → config_of e c → ¬ fault e err.
Proof.
  intros [Ht Ha Hs [P1 _] [P2 _] [P3 _] [P4 _] _] [_ Htls _ _ Hsec D1 D2 D3 D4 _ _ _].
  injection Htls as Hcert Hkey. injection Hsec as Hjwt Hadmin.
  assert (Hdur : ∀ key v, key ∈ durations.*1 → e key = Some v → ∃ x, ParseDuration v = Some x ∧ 0 < x).
  { intros key v Hk Hv. unfold durations in Hk. cbn in Hk. rewrite !elem_of_cons, elem_of_nil in Hk.
    destruct Hk as [->|[->|[->|[->|[]]]]]; eauto using duration_no_fault. }
  destruct err as [| | | |key]; simpl; rewrite ?env_default, <-?Hcert, <-?Hkey, <-?Hjwt, <-?Hadmin; [|tauto|lia|done|].
  - intros (Hk & v & Hv & Hp). destruct (Hdur _ _ Hk Hv) as (x & Hx & _). congruence.
  - intros (v & d & Hv & Hk & Hp & Hle). destruct (Hdur _ _ Hk Hv) as (x & Hx & Hpos). simplify_eq. lia.
Qed.

(** C35: configuration is what the environment says, and is checked at start.  [Load]
    fails exactly for an environment with a fault, and names one: a duration that does
    not parse or is not positive, one TLS file without the other, an admin secret of
    fewer than 16 bytes or equal to the signing key.  Otherwise every field is the value
    of its variable, or its default (the two database URLs and the two collector
    endpoints in their order of precedence), the durations are positive and in 64 bits,
    and the origins are trimmed and nonempty.  The signing key may be of any length:
    [NewManager] is where one of fewer than 32 bytes stops the server. *)
Theorem Load_diagnosis e :
  match Load e with
  | Ok c => config_ok c ∧ config_of e c ∧ ∀ err, ¬ fault e err
  | Err err => fault e err
  end.
Proof.
  pose proof (load_diagnosis e) as H. destruct (Load e) as [c|err]; [|exact H].
  destruct H as [Hc He]. split; [exact Hc|]. split; [exact He|]. intros err. by eapply config_no_fault.
Qed.

(** An empty [DATABASE_URL] hides [PULS_DATABASE_URL]: the server runs on SQLite. *)
Example empty_database_url :
  let e key := if bool_decide (key = "DATABASE_URL") then Some ""
               else if bool_decide (key = "PULS_DATABASE_URL") then Some "postgres://db/puls"
               else if bool_decide (key = "PULS_ADMIN_SECRET") then Some "sixteen bytes ok"
               else None in
  match Load e with Ok c => DatabaseURL c = "" | Err _ => False end.
Proof. by vm_compute. Qed.
