(* ===== verification/GoNumber.v ===== *)
(** * Go's text of a float32 and a float64 in JSON (encoding/json floatEncoder).

    The shortest decimal that reads back as the number, the closest to it among
    the shortest, written without an exponent from 1e-6 up to 1e21.  Numbers are
    the rationals they are, so there is no negative zero. *)
From Stdlib Require Import QArith Qround Qabs.
From S2P Require Import Prelude GoString GoTime GoFloat GoJson.
Local Open Scope Z_scope.

Definition pow10 (e : Z) : Q := Qpower 10 e.

(** The [k] with [10 ^ (k - 1) <= x < 10 ^ k], searched from [k]. *)
Fixpoint dec_up (fuel : nat) (x : Q) (k : Z) : Z :=
  match fuel with
  | O => k
  | S fuel => if Qle_bool (pow10 k) x then dec_up fuel x (k + 1) else k
  end.

Fixpoint dec_down (fuel : nat) (x : Q) (k : Z) : Z :=
  match fuel with
  | O => k
  | S fuel => if Qle_bool (pow10 (k - 1)) x then k else dec_down fuel x (k - 1)
  end.

Section format.
Context (back : Q → option Q) (span digits : nat).

(** The numbers of the type are, but for zero, between 10 ^ -span and 10 ^ span. *)
Definition dec_exp (x : Q) : Z := dec_down span x (dec_up span x 0).

(** The numbers of [n] digits next to [x], the closest first. *)
Definition neighbours (x : Q) (n k : Z) : list Z :=
  let y := Qmult x (pow10 (n - k)) in
  let f := Qfloor y in
  if Qle_bool (y - inject_Z f) (1 # 2) then [f; f + 1] else [f + 1; f].

Definition reads_back (x : Q) (n k m : Z) : bool :=
  match back (Qmult (inject_Z m) (pow10 (k - n))) with
  | Some r => Qeq_bool r x
  | None => false
  end.

(** [n] digits suffice for the first [n] the search reaches; [digits] always do. *)
Fixpoint shortest (fuel : nat) (x : Q) (n k : Z) : option (Z * Z) :=
  match fuel with
  | O => None
  | S fuel =>
      match List.find (reads_back x n k) (neighbours x n k) with
      | Some m => Some (m, k - n)
      | None => shortest fuel x (n + 1) k
      end
  end.

End format.

(** Digits and the position of the decimal point: [0.d1d2... * 10 ^ dp]. *)
Definition digits_of (m e : Z) : list ascii * Z :=
  let ds := append_int 1 m in
  (rev (trim_zeros (rev ds)), e + Z.of_nat (length ds)).

Definition zeros (n : Z) : list ascii := replicate (Z.to_nat n) (byte 48).

Definition format_f (ds : list ascii) (dp : Z) : list ascii :=
  let n := Z.of_nat (length ds) in
  if dp <=? 0 then byte 48 :: byte 46 :: zeros (- dp) ++ ds
  else if n <=? dp then ds ++ zeros (dp - n)
  else take (Z.to_nat dp) ds ++ byte 46 :: drop (Z.to_nat dp) ds.

Definition format_e (ds : list ascii) (dp : Z) : list ascii :=
  let e := dp - 1 in
  match ds with
  | d :: [] => [d]
  | d :: ds => d :: byte 46 :: ds
  | [] => []
  end ++ byte 101 :: byte (if e <? 0 then 45 else 43) :: append_int 1 (Z.abs e).

(** [back] is the number of the type nearest to a rational. *)
Definition encode_number (back : Q → option Q) (span digits : nat) (x : Q) : option (list ascii) :=
  let a := Qabs.Qabs x in
  if Qle_bool a 0 then Some (bytes "0") else
  '(m, e) ← shortest back digits a 1 (dec_exp span a);
  let '(ds, dp) := digits_of m e in
  let big := Qle_bool (pow10 21) a in
  let small := negb (Qle_bool (default 0%Q (back (pow10 (-6)))) a) in
  let text := if big || small then format_e ds dp else format_f ds dp in
  Some (if Qle_bool 0 x then text else byte 45 :: text).

(** Nine digits tell the float32s apart, which lie between 10 ^ -45 and 10 ^ 39. *)
Definition encode_float32 : Q → option (list ascii) := encode_number to_float32 80 9.

(** Seventeen, and 10 ^ -324 and 10 ^ 309, for float64. *)
Definition encode_float64 : float64 → option (list ascii) := encode_number (λ x, Some (rnd x)) 650 17.

Definition f32 (s : string) : Q := default 0%Q (decode_float32 (bytes s) 0%Q).

Example float_texts :
  (λ s, unbytes <$> encode_float32 (f32 s)) <$>
    ["0"; "12.5"; "0.1"; "99.999"; "16777216"; "1e21"; "3.4028235e38"; "1e-45"; "0.000001"; "-7e-7"] =
  Some <$> ["0"; "12.5"; "0.1"; "99.999"; "16777216"; "1e+21"; "3.4028235e+38"; "1e-45"; "0.000001"; "-7e-7"].
Proof. by vm_compute. Qed.

Example float64_texts :
  (λ q, unbytes <$> encode_float64 (rnd q)) <$> [12.5; 0.1; 1 # 3; 99.999; -7e-7]%Q =
  Some <$> ["12.5"; "0.1"; "0.3333333333333333"; "99.999"; "-7e-7"].
Proof. by vm_compute. Qed.

(** The value the search finds is the number: its digits read back as it. *)
Lemma shortest_reads_back back fuel x n k m e :
  shortest back fuel x n k = Some (m, e) →
  ∃ r, back (Qmult (inject_Z m) (pow10 e)) = Some r ∧ r == x.
Proof.
  revert n. induction fuel as [|fuel IH]; intros n; simpl; [done|].
  destruct (List.find _ _) as [m'|] eqn:Hf; [|apply IH].
  intros [= <- <-]. apply List.find_some in Hf as [_ Hr]. unfold reads_back in Hr.
  destruct (back _) as [r|]; [|done]. exists r. split; [done|]. by apply Qeq_bool_iff.
Qed.
