(* ===== verification/Wire.v ===== *)
(** * The JSON of the program (the struct tags of internal/model/device.go,
    internal/ws/message.go and internal/server/broadcaster.go).

    [None] is an error of [json.Marshal].  A nil slice is [null], and the slices
    the program encodes are nil when they are empty. *)
From Stdlib Require Import QArith.
From S2P Require Import Prelude GoString GoTime GoJson GoNumber Model.
Local Open Scope Z_scope.

Abbreviation json := (option (list ascii)).

(** The members of an object in order, each with its encoded value. *)
Definition json_object (kvs : list (string * json)) : json :=
  encode_object <$> mapM (λ kv, v ← kv.2; Some (bytes kv.1, v)) kvs.

Definition json_string (s : string) : json := Some (encode_string (bytes s)).
Definition json_int (n : Z) : json := Some (encode_int n).

Fixpoint join_values (vs : list (list ascii)) : list ascii :=
  match vs with
  | [] => []
  | [v] => v
  | v :: vs => v ++ byte 44 :: join_values vs
  end.

Definition json_array (vs : list json) : json :=
  match vs with
  | [] => Some (bytes "null")
  | _ => vs ← mapM id vs; Some (byte 91 :: join_values vs ++ [byte 93])
  end.

(** An [omitempty] member that is a nil pointer or an empty string. *)
Definition omit {A} (k : string) (f : A → json) (v : option A) : list (string * json) :=
  match v with Some a => [(k, f a)] | None => [] end.

Definition nonempty (s : string) : option string := if bool_decide (s = "") then None else Some s.

(** ** [json.RawMessage]

    The encoder copies the text without its white space, escaping what an HTML
    page would read; it is an error if the text is not one value. *)
Inductive lex : Type := Outside | InString | Escaped.

Fixpoint compact_bytes (st : lex) (l : list ascii) : list ascii :=
  match l with
  | [] => []
  | c :: k =>
      let n := code c in
      match st with
      | Outside =>
          if is_space c then compact_bytes Outside k
          else c :: compact_bytes (if Ascii.eqb c quote then InString else Outside) k
      | Escaped => c :: compact_bytes InString k
      | InString =>
          if (n =? 38) || (n =? 60) || (n =? 62) then
            backslash :: byte 117 :: byte 48 :: byte 48 :: hex_digit (n / 16) :: hex_digit (n mod 16) ::
            compact_bytes InString k
          else
            match is_line_sep l, k with
            | Some d, _ :: _ :: k' =>
                backslash :: byte 117 :: byte 50 :: byte 48 :: byte 50 :: d :: compact_bytes InString k'
            | _, _ =>
                c :: compact_bytes (if Ascii.eqb c quote then Outside
                                    else if Ascii.eqb c backslash then Escaped else InString) k
            end
      end
  end.

Definition json_raw (s : string) : json :=
  '(_, k) ← raw_value (bytes s);
  match skip_ws k with [] => Some (compact_bytes Outside (bytes s)) | _ => None end.

(** ** Requests and responses *)

Definition register_fields : list string := ["name"; "os"; "arch"; "secret"].

Definition set_register_field (name : string) (raw : list ascii) (r : RegisterRequest)
    : option RegisterRequest :=
  let '(Build_RegisterRequest n o a s) := r in
  if bool_decide (name = "name") then v ← decode_string raw n; Some (Build_RegisterRequest v o a s)
  else if bool_decide (name = "os") then v ← decode_string raw o; Some (Build_RegisterRequest n v a s)
  else if bool_decide (name = "arch") then v ← decode_string raw a; Some (Build_RegisterRequest n o v s)
  else v ← decode_string raw s; Some (Build_RegisterRequest n o a v).

Definition register_request_json (r : RegisterRequest) : json :=
  json_object [("name", json_string (rr_Name r)); ("os", json_string (rr_OS r));
               ("arch", json_string (rr_Arch r)); ("secret", json_string (rr_Secret r))].

Definition register_response_json (r : RegisterResponse) : json :=
  json_object [("deviceId", json_string (rs_DeviceID r)); ("token", json_string (rs_Token r))].

Definition response_fields : list string := ["deviceId"; "token"].

(** Also the fields of the agent's state file. *)
Definition set_response_field (name : string) (raw : list ascii) (r : RegisterResponse)
    : option RegisterResponse :=
  if bool_decide (name = "deviceId")
  then v ← decode_string raw (rs_DeviceID r); Some (Build_RegisterResponse v (rs_Token r))
  else v ← decode_string raw (rs_Token r); Some (Build_RegisterResponse (rs_DeviceID r) v).

Definition device_members (d : Device) : list (string * json) :=
  [("id", json_string (d_ID d)); ("name", json_string (d_Name d)); ("os", json_string (d_OS d));
   ("arch", json_string (d_Arch d)); ("status", json_string (d_Status d));
   ("registeredAt", encode_time (d_RegisteredAt d))] ++
  omit "lastSeenAt" encode_time (d_LastSeenAt d).

Definition device_json (d : Device) : json := json_object (device_members d).

Definition heartbeat_json (h : Heartbeat) : json :=
  json_object
    [("id", json_int (hb_ID h)); ("deviceId", json_string (hb_DeviceID h));
     ("receivedAt", encode_time (hb_ReceivedAt h)); ("cpuPercent", encode_float32 (hb_CPUPercent h));
     ("memoryPercent", encode_float32 (hb_MemoryPercent h));
     ("diskPercent", encode_float32 (hb_DiskPercent h));
     ("uptimeSeconds", json_int (hb_UptimeSeconds h)); ("osVersion", json_string (hb_OSVersion h))].

(** The fields of the embedded [Device] come first. *)
Definition detail_json (d : DeviceDetail) : json :=
  json_object (device_members (dd_Device d) ++
    [("recentHeartbeats", json_array (heartbeat_json <$> dd_RecentHeartbeats d))]).

Definition device_list_json (l : DeviceList) : json :=
  json_object (("devices", json_array (device_json <$> dl_Devices l)) ::
               omit "nextCursor" json_string (nonempty (dl_NextCursor l))).

Definition diagnostic_json (r : DiagnosticResult) : json :=
  json_object
    ([("id", json_int (dg_ID r)); ("deviceId", json_string (dg_DeviceID r));
      ("requestId", json_string (dg_RequestID r)); ("scope", json_string (dg_Scope r));
      ("requestedAt", encode_time (dg_RequestedAt r))] ++
     omit "receivedAt" encode_time (dg_ReceivedAt r) ++
     omit "payload" json_raw (dg_Payload r) ++
     [("status", json_string (dg_Status r))]).

(** [map[string]string{k: v}] *)
Definition one_member (k v : string) : json := json_object [(k, json_string v)].

(** ** WebSocket messages *)

Definition MessageType : Type := string.
Definition TypeHeartbeat : MessageType := "heartbeat".
Definition TypeDiagRequest : MessageType := "diag_request".
Definition TypeDiagResponse : MessageType := "diag_response".
Definition TypeError : MessageType := "error".

Record Envelope := { en_Type : MessageType; en_RequestID : string; en_Data : string }.

Definition empty_envelope : Envelope := {| en_Type := ""; en_RequestID := ""; en_Data := "" |}.

Definition envelope_json (e : Envelope) : json :=
  json_object (("type", json_string (en_Type e)) ::
               omit "requestId" json_string (nonempty (en_RequestID e)) ++
               omit "data" json_raw (nonempty (en_Data e))).

Definition envelope_fields : list string := ["type"; "requestId"; "data"].

Definition set_envelope_field (name : string) (raw : list ascii) (e : Envelope) : option Envelope :=
  let '(Build_Envelope t r d) := e in
  if bool_decide (name = "type") then v ← decode_string raw t; Some (Build_Envelope v r d)
  else if bool_decide (name = "requestId") then v ← decode_string raw r; Some (Build_Envelope t v d)
  else Some (Build_Envelope t r (decode_raw raw)).

Definition decode_envelope (raw : list ascii) : option Envelope :=
  Unmarshal envelope_fields false set_envelope_field raw empty_envelope.

Record HeartbeatData := {
  hd_CPUPercent : float32;
  hd_MemoryPercent : float32;
  hd_DiskPercent : float32;
  hd_UptimeSeconds : Z;
  hd_OSVersion : string
}.

Definition empty_heartbeat : HeartbeatData :=
  {| hd_CPUPercent := 0%Q; hd_MemoryPercent := 0%Q; hd_DiskPercent := 0%Q; hd_UptimeSeconds := 0;
     hd_OSVersion := "" |}.

Definition heartbeat_data_json (h : HeartbeatData) : json :=
  json_object
    [("cpuPercent", encode_float32 (hd_CPUPercent h));
     ("memoryPercent", encode_float32 (hd_MemoryPercent h));
     ("diskPercent", encode_float32 (hd_DiskPercent h));
     ("uptimeSeconds", json_int (hd_UptimeSeconds h)); ("osVersion", json_string (hd_OSVersion h))].

Definition heartbeat_fields : list string :=
  ["cpuPercent"; "memoryPercent"; "diskPercent"; "uptimeSeconds"; "osVersion"].

Definition set_heartbeat_field (name : string) (raw : list ascii) (h : HeartbeatData)
    : option HeartbeatData :=
  let '(Build_HeartbeatData c m d u o) := h in
  if bool_decide (name = "cpuPercent") then
    v ← decode_float32 raw c; Some (Build_HeartbeatData v m d u o)
  else if bool_decide (name = "memoryPercent") then
    v ← decode_float32 raw m; Some (Build_HeartbeatData c v d u o)
  else if bool_decide (name = "diskPercent") then
    v ← decode_float32 raw d; Some (Build_HeartbeatData c m v u o)
  else if bool_decide (name = "uptimeSeconds") then
    v ← decode_int64 raw u; Some (Build_HeartbeatData c m d v o)
  else v ← decode_string raw o; Some (Build_HeartbeatData c m d u v).

Definition decode_heartbeat (data : string) : option HeartbeatData :=
  Unmarshal heartbeat_fields false set_heartbeat_field (bytes data) empty_heartbeat.

(** [DiagRequestData] and [ErrorData] have one field. *)
Definition scope_json (scope : string) : json := one_member "scope" scope.
Definition message_json (message : string) : json := one_member "message" message.

Definition decode_member (name data : string) : option string :=
  Unmarshal [name] false (λ _ raw s, decode_string raw s) (bytes data) "".

Definition Encode (msgType : MessageType) (requestID : string) (data : json) : json :=
  raw ← data;
  envelope_json {| en_Type := msgType; en_RequestID := requestID; en_Data := unbytes raw |}.

Definition EncodeError (requestID message : string) : json :=
  Encode TypeError requestID (message_json message).

(** ** Reading back a message *)

(** Compacting copies [v] and is outside a string after it. *)
Definition compacted (v : list ascii) : Prop :=
  ∀ k, compact_bytes Outside (v ++ k) = v ++ compact_bytes Outside k.

Lemma compacted_app u v : compacted u → compacted v → compacted (u ++ v).
Proof. intros Hu Hv k. by rewrite <-app_assoc, Hu, Hv, <-app_assoc. Qed.

Lemma compacted_byte c : is_space c = false → Ascii.eqb c quote = false → compacted [c].
Proof. intros H1 H2 k. simpl. by rewrite H1, H2. Qed.

Lemma compacted_nil : compacted [].
Proof. by intros k. Qed.

Lemma compact_escape_byte c k :
  in_range 0 127 c = true →
  compact_bytes InString (escape_byte c ++ k) = escape_byte c ++ compact_bytes InString k.
Proof. destruct c as [[] [] [] [] [] [] [] []]; try done; intros _; by destruct k as [|? [|]]. Qed.

Lemma compacted_string l : ascii_text l → compacted (encode_string l).
Proof.
  intros Hl k. unfold encode_string. cbn [app compact_bytes].
  change (is_space quote) with false. rewrite Ascii.eqb_refl. f_equal. rewrite <-!app_assoc.
  cbn [app]. induction Hl as [|c l Hc Hl IH]; cbn [length escape].
  - by destruct k as [|? [|]].
  - by rewrite Hc, <-!app_assoc, compact_escape_byte, IH.
Qed.

Lemma compacted_members kvs :
  Forall (λ kv, ascii_text kv.1 ∧ compacted kv.2) kvs → compacted (encode_members kvs).
Proof.
  induction 1 as [|[key v] kvs [Hk Hv] Hkvs IH]; [apply compacted_nil|]. simpl in Hk, Hv.
  assert (H : ∀ r, compacted r → compacted (encode_string key ++ byte 58 :: v ++ r)).
  { intros r Hr. apply compacted_app; [by apply compacted_string|].
    change (byte 58 :: v ++ r) with ([byte 58] ++ v ++ r).
    repeat apply compacted_app; [by apply compacted_byte|done|done]. }
  destruct kvs as [|kv kvs].
  - cbn [encode_members]. rewrite <-(app_nil_r v). apply H, compacted_nil.
  - apply (H (byte 44 :: encode_members (kv :: kvs))).
    apply (compacted_app [_]); [by apply compacted_byte|done].
Qed.

Lemma compacted_object kvs :
  Forall (λ kv, ascii_text kv.1 ∧ compacted kv.2) kvs → compacted (encode_object kvs).
Proof.
  intros H. apply (compacted_app [_]); [by apply compacted_byte|].
  apply compacted_app; [by apply compacted_members|by apply compacted_byte].
Qed.

(** The text of a value as the encoder writes it. *)
Record json_text (v : list ascii) : Prop := {
  jt_value : json_value v;
  jt_compact : compacted v
}.

Lemma json_raw_text v : json_text v → json_raw (unbytes v) = Some v.
Proof.
  intros [Hv Hc]. unfold json_raw. rewrite bytes_unbytes.
  rewrite <-(app_nil_r v) at 1. rewrite raw_value_app by done. simpl.
  specialize (Hc []). rewrite !app_nil_r in Hc. by rewrite Hc.
Qed.

Lemma skip_encode_members kvs fuel k :
  members_ok kvs → kvs ≠ [] → (length (encode_members kvs) < fuel)%nat →
  skip_members fuel (encode_members kvs ++ byte 125 :: k) = Some k.
Proof.
  intros Hok. revert fuel. induction Hok as [|[key v] kvs [Hk Hv] Hok IH];
    intros [|fuel] Hne Hf; try done; try (simpl in Hf; lia).
  simpl in Hk, Hv. cbn [skip_members].
  assert (Hhead : ∀ r, delimited r → (length v < fuel)%nat →
    ('(_, k0) ← parse_string (skip_ws (encode_string key ++ byte 58 :: v ++ r));
     match skip_ws k0 with
     | c :: k1 =>
         if negb (Ascii.eqb c (byte 58)) then None else
         k2 ← skip_value fuel k1;
         match skip_ws k2 with
         | d :: k3 =>
             if Ascii.eqb d (byte 125) then Some k3
             else if Ascii.eqb d (byte 44) then skip_members fuel k3 else None
         | [] => None
         end
     | [] => None
     end) =
    match skip_ws r with
    | d :: k3 =>
        if Ascii.eqb d (byte 125) then Some k3
        else if Ascii.eqb d (byte 44) then skip_members fuel k3 else None
    | [] => None
    end).
  { intros r Hr Hlen. rewrite skip_ws_encode_string, parse_encode_string by done.
    cbn [mbind option_bind skip_ws]. change (is_space (byte 58)) with false. cbn match.
    change (Ascii.eqb (byte 58) (byte 58)) with true. cbn [negb].
    by rewrite (jv_skip _ Hv). }
  destruct kvs as [|kv kvs]; cbn [encode_members] in *.
  - rewrite <-app_assoc. cbn [app]. rewrite Hhead; [done|simpl; auto|].
    rewrite length_app in Hf. simpl in Hf. lia.
  - rewrite <-app_assoc. cbn [app]. rewrite <-app_assoc. cbn [app].
    rewrite length_app in Hf. cbn [length] in Hf. rewrite length_app in Hf. cbn [length] in Hf.
    rewrite Hhead; [|simpl; auto|lia]. cbn [skip_ws]. change (is_space (byte 44)) with false. cbn match.
    change (Ascii.eqb (byte 44) (byte 125)) with false.
    change (Ascii.eqb (byte 44) (byte 44)) with true. cbn match.
    apply IH; [done|]. lia.
Qed.

Lemma encode_object_value kvs : members_ok kvs → json_value (encode_object kvs).
Proof.
  intros Hok. split; [by eexists _, _|]. intros [|fuel] k Hf _; [simpl in Hf; lia|].
  unfold encode_object in *. cbn [app length] in *. rewrite length_app in Hf.
  cbn [skip_value skip_ws].
  change (is_space (byte 123)) with false. cbn match.
  change (Ascii.eqb (byte 123) quote) with false.
  change (Ascii.eqb (byte 123) (byte 123)) with true. cbn match.
  rewrite <-app_assoc. cbn [app].
  destruct (decide (kvs = [])) as [->|Hne]; [done|].
  destruct (encode_members_head kvs (byte 125 :: k) Hne) as [r Hr].
  rewrite Hr, skip_ws_quote. change (Ascii.eqb quote (byte 125)) with false. cbn match.
  rewrite <-Hr. apply skip_encode_members; [done..|]. simpl in Hf. lia.
Qed.

Definition texts_ok (kvs : list (list ascii * list ascii)) : Prop :=
  Forall (λ kv, ascii_text kv.1 ∧ json_text kv.2) kvs.

Lemma texts_members kvs : texts_ok kvs → members_ok kvs.
Proof. intros H. eapply Forall_impl; [exact H|]. by intros kv [? []]. Qed.

Lemma object_text kvs : texts_ok kvs → json_text (encode_object kvs).
Proof.
  intros H. split; [by apply encode_object_value, texts_members|]. apply compacted_object.
  eapply Forall_impl; [exact H|]. by intros kv [? []].
Qed.

Lemma string_text l : ascii_text l → json_text (encode_string l).
Proof. intros H. split; [by apply encode_string_value|by apply compacted_string]. Qed.

Lemma one_member_text k v :
  ascii_text (bytes k) → ascii_text (bytes v) → ∃ t, one_member k v = Some t ∧ json_text t.
Proof.
  intros Hk Hv. eexists. split; [done|]. apply object_text.
  constructor; [|constructor]. simpl. split; [done|by apply string_text].
Qed.

Lemma json_text_nonempty v : json_text v → unbytes v ≠ "".
Proof. intros [[(c & v' & -> & _) _] _]. done. Qed.

Lemma decode_fields_cons {S} names dis (set : string → list ascii → S → option S) k n raw kvs s :
  match_field names k = Some n →
  decode_fields names dis set ((k, raw) :: kvs) s =
    (s' ← set n raw s; decode_fields names dis set kvs s').
Proof. intros H. simpl. by rewrite H. Qed.

Lemma set_envelope_type t e :
  ascii_text (bytes t) →
  set_envelope_field "type" (encode_string (bytes t)) e =
    Some (Build_Envelope t (en_RequestID e) (en_Data e)).
Proof.
  intros Ht. destruct e. unfold set_envelope_field. rewrite bool_decide_eq_true_2 by done.
  rewrite decode_encode_string by done. simpl. by rewrite unbytes_bytes.
Qed.

Lemma set_envelope_request r e :
  ascii_text (bytes r) →
  set_envelope_field "requestId" (encode_string (bytes r)) e =
    Some (Build_Envelope (en_Type e) r (en_Data e)).
Proof.
  intros Ht. destruct e. unfold set_envelope_field.
  rewrite bool_decide_eq_false_2, bool_decide_eq_true_2 by done.
  rewrite decode_encode_string by done. simpl. by rewrite unbytes_bytes.
Qed.

(** Members with constant names. *)
Ltac texts :=
  repeat (apply Forall_cons_2; [split; [by apply (bool_decide_unpack _)|simpl]|]); try apply Forall_nil;
  try done; try (by apply string_text); try (apply string_text; by apply (bool_decide_unpack _)).

Lemma decode_encode t rid v :
  ascii_text (bytes t) → ascii_text (bytes rid) → json_text v →
  ∃ m, Encode t rid (Some v) = Some m ∧
    decode_envelope m = Some {| en_Type := t; en_RequestID := rid; en_Data := unbytes v |}.
Proof.
  intros Ht Hr Hv. unfold Encode, envelope_json. simpl.
  unfold nonempty at 2. rewrite bool_decide_eq_false_2 by (by apply json_text_nonempty).
  simpl. unfold json_object, decode_envelope.
  assert (Hms : (rid = "" ∧ omit "requestId" json_string (nonempty rid) = []) ∨
    omit "requestId" json_string (nonempty rid) = [("requestId", Some (encode_string (bytes rid)))]).
  { unfold nonempty. case_bool_decide; auto. }
  destruct Hms as [[-> ->]| ->]; simpl; rewrite json_raw_text by done; simpl; eexists;
    (split; [reflexivity|]); rewrite Unmarshal_encode
      by (apply texts_members; texts);
    erewrite decode_fields_cons by (by vm_compute); rewrite set_envelope_type by done;
    cbn [mbind option_bind].
  - by erewrite decode_fields_cons by (by vm_compute).
  - erewrite decode_fields_cons by (by vm_compute). rewrite set_envelope_request by done.
    cbn [mbind option_bind]. by erewrite decode_fields_cons by (by vm_compute).
Qed.

(** C22: a message arrives as it was sent.  [Encode] of any value the encoder can
    write, under a type and a request identifier of ASCII text, succeeds, and
    [Unmarshal] of its bytes into an [Envelope], as the server and the agent read
    every message, gives back the type, the identifier and the text of the value. *)
Theorem envelope_roundtrip t rid v :
  ascii_text (bytes t) → ascii_text (bytes rid) → json_text v →
  ∃ m, Encode t rid (Some v) = Some m ∧
    decode_envelope m = Some {| en_Type := t; en_RequestID := rid; en_Data := unbytes v |}.
Proof. apply decode_encode. Qed.

Lemma envelope_roundtrip_witness :
  ∃ v m, scope_json "full" = Some v ∧ Encode TypeDiagRequest "u7" (Some v) = Some m ∧
    decode_envelope m = Some {| en_Type := TypeDiagRequest; en_RequestID := "u7"; en_Data := unbytes v |}.
Proof.
  destruct (one_member_text "scope" "full") as (v & Hv & Ht); [by apply (bool_decide_unpack _)..|].
  destruct (envelope_roundtrip TypeDiagRequest "u7" v) as (m & H1 & H2);
    [by apply (bool_decide_unpack _)|by apply (bool_decide_unpack _)|exact Ht|].
  exists v, m. split; [exact Hv|]. split; [exact H1|exact H2].
Defined.
