(* ===== verification/Metrics.v ===== *)
(** * Metrics (internal/observability/metrics.go).

    The counters of the registry.  The Prometheus library is outside the program:
    a counter is a number, a labelled one a map from its label values, and a
    histogram the list of its observations.  The two gauges are functions read at
    a scrape, and the scrape itself is the library's. *)
From S2P Require Import Prelude GoString GoTime.

Record Metrics := MkMetrics {
  mx_httpRequestsTotal : gmap (string * string * string) nat;
  mx_httpRequestDuration : gmap (string * string) (list Duration);
  mx_HeartbeatsTotal : nat;
  mx_WSMessagesRejectedTotal : nat
}.

Definition no_metrics : Metrics := MkMetrics ∅ ∅ 0 0.

(** In the order they are registered in. *)
Definition collectors : list string :=
  ["puls_http_requests_total"; "puls_http_request_duration_seconds"; "puls_heartbeats_total";
   "puls_devices_connected"; "puls_ws_messages_rejected_total"; "puls_sse_subscribers"].

(** [reg_Register] is the registry's answer to each; an error of one is an error of all. *)
Definition NewMetrics (reg_Register : string → bool) : option Metrics :=
  if forallb reg_Register collectors then Some no_metrics else None.

Definition IncHeartbeat (m : Metrics) : Metrics :=
  MkMetrics (mx_httpRequestsTotal m) (mx_httpRequestDuration m) (S (mx_HeartbeatsTotal m))
    (mx_WSMessagesRejectedTotal m).

Definition IncWSMessageRejected (m : Metrics) : Metrics :=
  MkMetrics (mx_httpRequestsTotal m) (mx_httpRequestDuration m) (mx_HeartbeatsTotal m)
    (S (mx_WSMessagesRejectedTotal m)).

Definition httpMethodLabel (method : string) : string :=
  if bool_decide (method = "GET") || bool_decide (method = "POST") then method else "other".

(** [httpRequestsTotal.With(labels).Inc()] and
    [httpRequestDuration.With(labels).Observe(elapsed)]. *)
Definition record_request (method route : string) (status : Z) (elapsed : Duration) (m : Metrics)
    : Metrics :=
  let l := (method, route, Itoa status) in
  MkMetrics
    (<[l := S (default 0 (mx_httpRequestsTotal m !! l))]> (mx_httpRequestsTotal m))
    (<[(method, route) := default [] (mx_httpRequestDuration m !! (method, route)) ++ [elapsed]]>
       (mx_httpRequestDuration m))
    (mx_HeartbeatsTotal m) (mx_WSMessagesRejectedTotal m).

(** The method labels there can be. *)
Definition method_labels : list string := ["GET"; "POST"; "other"].

Lemma httpMethodLabel_in method : httpMethodLabel method ∈ method_labels.
Proof.
  unfold httpMethodLabel, method_labels. repeat case_bool_decide; subst; simpl; set_solver.
Qed.
