(* ===== verification/Tracing.v ===== *)
(** * Tracing (internal/observability/tracing.go).

    The OpenTelemetry SDK is a class: whether an exporter can be made of its options, the
    resource's description be built, and the provider be shut down. *)
From S2P Require Import Prelude GoString.

Inductive otlp_option : Type :=
  | WithEndpointURL (url : string)
  | WithEndpoint (hostport : string)
  | WithInsecure.

Class Otel := {
  otlptracehttp_New : list otlp_option → bool;
  resource_New : string → bool;
  tp_Shutdown : list otlp_option → bool
}.

Inductive tracing_err : Type := ErrExporter | ErrResource.

Definition exporter_options (endpoint : string) : list otlp_option :=
  if Contains endpoint "://" then [WithEndpointURL endpoint] else [WithEndpoint endpoint; WithInsecure].

(** What the shutdown it returns will come to: [false] for an error. *)
Definition SetupTracing `{T : Otel} (endpoint : string) : res tracing_err bool :=
  if bool_decide (endpoint = "") then Ok true
  else
    let opts := exporter_options endpoint in
    if negb (otlptracehttp_New opts) then Err ErrExporter
    else if negb (resource_New "puls-server") then Err ErrResource
    else Ok (tp_Shutdown opts).

Example options :
  exporter_options <$> ["https://otel:4318/v1/traces"; "otel:4318"] =
  [[WithEndpointURL "https://otel:4318/v1/traces"]; [WithEndpoint "otel:4318"; WithInsecure]].
Proof. reflexivity. Qed.

Definition test_otel : Otel := {| otlptracehttp_New _ := true; resource_New _ := true; tp_Shutdown _ := true |}.
