(* ===== verification/Http.v ===== *)
(** * net/http as the server uses it.

    A handler runs on the server's state, what it records, and the response being
    written.  A response has the status and headers sent, fixed by the first
    [WriteHeader], and the bytes written; the middlewares that wrap the writer
    each keep the last status they saw.  A run-time panic is the error of the
    monad.  What arrives while a handler reads a WebSocket or an event stream is
    part of the request.  Paths are without percent escapes. *)
From S2P Require Import Prelude GoString GoTime GoJson Wire World Auth Metrics Broadcaster.
Local Open Scope Z_scope.

(** ** Requests *)

(** What an event stream's [select] takes, and what other goroutines do to the
    broadcaster in between. *)
Record Event := { ev_Type : string; ev_Payload : list (string * json) }.

Record Request := MkRequest {
  rq_Method : string;
  rq_Path : string;
  rq_Query : list (string * string);
  rq_Header : list (string * string);
  rq_RemoteAddr : string;
  rq_Body : list ascii;
  rq_limit : option Z;
  rq_id : string;
  rq_claims : option Claims;
  rq_frames : list (list ascii);
  rq_stream : list (@operation Event + sse_input)
}.

Definition first_value (k : string) (l : list (string * string)) : string :=
  default "" (snd <$> List.find (λ kv, bool_decide (kv.1 = k)) l).

(** [r.Header.Get], [r.Header.Values] and [r.URL.Query().Get]; the keys of
    headers are canonical. *)
Definition Header_Get (k : string) (r : Request) : string := first_value k (rq_Header r).
Definition Header_Values (k : string) (r : Request) : list string :=
  (filter (λ kv, kv.1 = k) (rq_Header r)).*2.
Definition Query_Get (k : string) (r : Request) : string := first_value k (rq_Query r).

(** [http.MaxBytesReader] *)
Definition with_limit (n : Z) (r : Request) : Request :=
  MkRequest (rq_Method r) (rq_Path r) (rq_Query r) (rq_Header r) (rq_RemoteAddr r) (rq_Body r)
    (Some n) (rq_id r) (rq_claims r) (rq_frames r) (rq_stream r).

(** [r.SetPathValue("id", id)] *)
Definition with_id (id : string) (r : Request) : Request :=
  MkRequest (rq_Method r) (rq_Path r) (rq_Query r) (rq_Header r) (rq_RemoteAddr r) (rq_Body r)
    (rq_limit r) id (rq_claims r) (rq_frames r) (rq_stream r).

(** [r.WithContext(context.WithValue(ctx, claimsKey, claims))] *)
Definition with_claims (c : Claims) (r : Request) : Request :=
  MkRequest (rq_Method r) (rq_Path r) (rq_Query r) (rq_Header r) (rq_RemoteAddr r) (rq_Body r)
    (rq_limit r) (rq_id r) (Some c) (rq_frames r) (rq_stream r).

Fixpoint ztake (n : Z) (l : list ascii) : list ascii :=
  match l with
  | [] => []
  | c :: l => if n <=? 0 then [] else c :: ztake (n - 1) l
  end.

(** What reading the body gives, and whether it ends with an error. *)
Definition read_body (r : Request) : list ascii * bool :=
  match rq_limit r with
  | Some n => (ztake n (rq_Body r), n <? Z.of_nat (length (rq_Body r)))
  | None => (rq_Body r, false)
  end.

(** [json.NewDecoder(r.Body)] with [DisallowUnknownFields], then [Decode].  A
    value other than an object ends at the byte after it or at a clean end. *)
Definition decode_body {S} (names : list string) (set : string → list ascii → S → option S)
    (r : Request) (init : S) : option S :=
  let '(l, cut) := read_body r in
  '(v, k) ← parse_top l;
  match v, k with
  | TObject _, _ => decode_top names true set v init
  | _, [] => if cut : bool then None else decode_top names true set v init
  | _, _ => decode_top names true set v init
  end.

(** ** Responses *)

Record Writer := MkWriter {
  w_header : gmap string string;
  w_sent : option (Z * gmap string string);
  w_body : list ascii;
  w_captured : list Z
}.

Definition new_writer : Writer := MkWriter ∅ None [] [].

Definition w_SetHeader (k v : string) (w : Writer) : Writer :=
  MkWriter (<[k := v]> (w_header w)) (w_sent w) (w_body w) (w_captured w).

(** The connection's own writer: a second status is ignored. *)
Definition send_header (code : Z) (w : Writer) : option (Z * gmap string string) :=
  match w_sent w with Some p => Some p | None => Some (code, w_header w) end.

(** Through every wrapper. *)
Definition w_WriteHeader (code : Z) (w : Writer) : Writer :=
  MkWriter (w_header w) (send_header code w) (w_body w) ((λ _, code) <$> w_captured w).

(** The wrappers do not see the status 200 a first [Write] sends. *)
Definition w_Write (l : list ascii) (w : Writer) : Writer :=
  MkWriter (w_header w) (send_header 200 w) (w_body w ++ l) (w_captured w).

(** [&captureWriter{ResponseWriter: w, status: http.StatusOK}] *)
Definition w_wrap (w : Writer) : Writer :=
  MkWriter (w_header w) (w_sent w) (w_body w) (200 :: w_captured w).

Definition w_unwrap (w : Writer) : Writer :=
  MkWriter (w_header w) (w_sent w) (w_body w) (tail (w_captured w)).

(** The status of the innermost wrapper. *)
Definition w_status (w : Writer) : Z := default 200 (head (w_captured w)).

(** What the client gets when the handler has returned. *)
Definition final_status (w : Writer) : Z := default 200 (fst <$> w_sent w).

(** ** Handlers *)

Inductive panic : Type := Panic.

Inductive log_line : Type :=
  | LogHttp (method path : string) (status : Z)
  | LogPanic (path : string).

Record Obs := MkObs { ob_metrics : Metrics; ob_log : list log_line }.

Record Ctx (S : Type) := MkCtx {
  cx_srv : S;
  cx_obs : Obs;
  cx_w : Writer;
  cx_pattern : string
}.
Arguments MkCtx {S}. Arguments cx_srv {S}. Arguments cx_obs {S}.
Arguments cx_w {S}. Arguments cx_pattern {S}.

Abbreviation HOp S := (Op (Ctx S) panic).
Abbreviation Handler S := (Request → Op (Ctx S) panic unit).

Section handlers.
Context {S : Type}.

Definition put_srv (v : S) (c : Ctx S) : Ctx S := MkCtx v (cx_obs c) (cx_w c) (cx_pattern c).
Definition put_obs (v : Obs) (c : Ctx S) : Ctx S := MkCtx (cx_srv c) v (cx_w c) (cx_pattern c).
Definition put_w (v : Writer) (c : Ctx S) : Ctx S := MkCtx (cx_srv c) (cx_obs c) v (cx_pattern c).
Definition put_pattern (v : string) (c : Ctx S) : Ctx S := MkCtx (cx_srv c) (cx_obs c) (cx_w c) v.

Definition on_srv {E A} (m : Op S E A) : Op (Ctx S) E A := on_part cx_srv put_srv m.

(** Change the writer. *)
Definition respond (f : Writer → Writer) : HOp S unit :=
  modify_dat (λ c, put_w (f (cx_w c)) c).

Definition log (l : log_line) : HOp S unit :=
  modify_dat (λ c, put_obs (MkObs (ob_metrics (cx_obs c)) (ob_log (cx_obs c) ++ [l])) c).

Definition count (f : Metrics → Metrics) : HOp S unit :=
  modify_dat (λ c, put_obs (MkObs (f (ob_metrics (cx_obs c))) (ob_log (cx_obs c))) c).

(** [defer d()] around [m]: [d] runs however [m] ends. *)
Definition deferred {A} (m : HOp S A) (d : HOp S unit) : HOp S A := λ s,
  let '(s1, r) := m s in
  match d s1 with
  | (s2, Ok _) => (s2, r)
  | (s2, Err e) => (s2, Err e)
  end.

(** A deferred function that calls [recover]. *)
Definition recovered (m d : HOp S unit) : HOp S unit := λ s,
  match m s with
  | (s1, Err _) => d s1
  | p => p
  end.

(** [http.Error] *)
Definition http_Error (msg : string) (code : Z) : HOp S unit :=
  _ ← respond (w_SetHeader "Content-Type" "text/plain; charset=utf-8");
  _ ← respond (w_SetHeader "X-Content-Type-Options" "nosniff");
  _ ← respond (w_WriteHeader code);
  respond (w_Write (bytes msg ++ [byte 10])).
End handlers.

(** ** The mux

    A pattern is a method and segments, of which [None] is the wildcard. *)
Record route (S : Type) := MkRoute {
  rt_Method : string;
  rt_Segments : list (option string);
  rt_Handler : Handler S
}.
Arguments MkRoute {S}. Arguments rt_Method {S}. Arguments rt_Segments {S}. Arguments rt_Handler {S}.

Fixpoint segments_text (l : list (option string)) : string :=
  match l with
  | [] => ""
  | o :: l => "/" +:+ default "{id}" o +:+ segments_text l
  end.

(** [pattern.String()] *)
Definition pattern_text {S} (rt : route S) : string :=
  rt_Method rt +:+ " " +:+ segments_text (rt_Segments rt).

Fixpoint match_segments (pat : list (option string)) (path : list string) : option (option string) :=
  match pat, path with
  | [], [] => Some None
  | Some p :: pat, s :: path => if bool_decide (p = s) then match_segments pat path else None
  | None :: pat, s :: path =>
      if bool_decide (s = "") then None else _ ← match_segments pat path; Some (Some s)
  | _, _ => None
  end.

(** A pattern for GET also takes HEAD. *)
Definition method_matches (m r : string) : bool :=
  bool_decide (m = r) || (bool_decide (m = "GET") && bool_decide (r = "HEAD")).

(** [cleanPath]: the segments of a path, without empty and dot segments, and an
    empty last one for a final slash. *)
Fixpoint clean_segments (acc l : list string) : list string :=
  match l with
  | [] => rev acc
  | s :: l =>
      if bool_decide (s = "") || bool_decide (s = ".") then clean_segments acc l
      else if bool_decide (s = "..") then clean_segments (tail acc) l
      else clean_segments (s :: acc) l
  end.

Definition path_segments (path : string) : list string := tail (Split path (byte 47)).

Definition clean_path (path : string) : list string :=
  let segs := path_segments path in
  let cleaned := clean_segments [] segs in
  match last segs with
  | Some "" => cleaned ++ [""]
  | _ => match cleaned with [] => [""] | _ => cleaned end
  end.

Definition redirect_status : Z := 307.

Section mux.
Context {S : Type} (routes : list (route S)).

Definition find_route (method : string) (segs : list string)
    : option (route S * option string) :=
  List.fold_right (λ rt acc,
    if method_matches (rt_Method rt) method then
      match match_segments (rt_Segments rt) segs with
      | Some id => Some (rt, id)
      | None => acc
      end
    else acc) None routes.

(** Some pattern takes the path under another method. *)
Definition path_known (segs : list string) : bool :=
  existsb (λ rt, match match_segments (rt_Segments rt) segs with Some _ => true | None => false end)
    routes.

(** [ServeMux.ServeHTTP]: the pattern found is recorded in the request. *)
Definition mux : Handler S := λ r,
  let segs := clean_path (rq_Path r) in
  let found := find_route (rq_Method r) segs in
  _ ← modify_dat (put_pattern match found with Some (rt, _) => pattern_text rt | None => "" end);
  if negb (bool_decide (segs = path_segments (rq_Path r))) then
    _ ← respond (w_SetHeader "Location" (segments_text (Some <$> segs)));
    respond (w_WriteHeader redirect_status)
  else
    match found with
    | Some (rt, id) => rt_Handler rt (with_id (default "" id) r)
    | None =>
        if path_known segs then http_Error "Method Not Allowed" 405
        else http_Error "404 page not found" 404
    end.
End mux.
