(* ===== verification/Middleware.v ===== *)
(** * Middleware (internal/server/middleware.go, the middlewares of ratelimit.go
    and of internal/observability/metrics.go, and wrapMiddleware of server.go).

    [responds] is what every handler of the server does with its response: it
    sends at most one status, which every wrapper of the writer sees, and a panic
    comes before the status, never after it. *)
From S2P Require Import Prelude GoString GoTime GoFloat RateLimit GoJson Wire World Auth Metrics Broadcaster Http.
Local Open Scope Z_scope.

Section middleware.
Context `{W : World, J : Jwt} {S : Type}.

Definition newline : list ascii := [byte 10].

(** An encoding error is dropped: nothing is written. *)
Definition writeJSON (status : Z) (v : json) : HOp S unit :=
  _ ← respond (w_SetHeader "Content-Type" "application/json");
  _ ← respond (w_WriteHeader status);
  match v with Some l => respond (w_Write (l ++ newline)) | None => mret () end.

Definition writeError (status : Z) (msg : string) : HOp S unit :=
  writeJSON status (one_member "error" msg).

Definition maxRequestBytes : Z := Z.shiftl 1 20.

Definition maxBytesMiddleware (next : Handler S) : Handler S := λ r,
  next (with_limit maxRequestBytes r).

Definition recoveryMiddleware (next : Handler S) : Handler S := λ r,
  recovered (next r)
    (_ ← log (LogPanic (rq_Path r));
     writeError 500 "internal server error").

Definition get_status : HOp S Z := c ← read_dat; mret (w_status (cx_w c)).

Definition loggingMiddleware (next : Handler S) : Handler S := λ r,
  start ← time_Now;
  _ ← respond w_wrap;
  _ ← next r;
  status ← get_status;
  _ ← log (LogHttp (rq_Method r) (rq_Path r) status);
  respond w_unwrap.

(** [Metrics.Middleware] *)
Definition Middleware (next : Handler S) : Handler S := λ r,
  start ← time_Now;
  _ ← respond w_wrap;
  let method := httpMethodLabel (rq_Method r) in
  deferred (next r)
    (c ← read_dat;
     let route := if bool_decide (cx_pattern c = "") then "unmatched" else cx_pattern c in
     status ← get_status;
     now ← time_Now;
     _ ← count (record_request method route status (time_Sub now start));
     respond w_unwrap).

Definition wrapMiddleware (next : Handler S) : Handler S :=
  loggingMiddleware (Middleware (recoveryMiddleware (maxBytesMiddleware next))).

Definition limiter_allow (get : S → keyedRateLimiter) (put : keyedRateLimiter → S → S) (key : string)
    : HOp S bool :=
  now ← time_Now;
  on_srv (λ s, let '(l, ok) := allow now key (get (dat s)) in
               (MkSys (tick s) (put l (dat s)), Ok ok)).

Definition rateLimit (get : S → keyedRateLimiter) (put : keyedRateLimiter → S → S)
    (next : Handler S) : Handler S := λ r,
  ok ← limiter_allow get put (clientIP (rq_RemoteAddr r));
  if negb ok then
    _ ← respond (w_SetHeader "Retry-After" "1");
    writeError 429 "rate limit exceeded"
  else next r.

Definition requireAuth (m : Manager) (requiredRole : Role) (next : Handler S) : Handler S := λ r,
  let hdr := Header_Get "Authorization" r in
  if bool_decide (hdr = "") then writeError 401 "authorization header required"
  else if negb (HasPrefix hdr "Bearer ") then writeError 401 "missing bearer token"
  else
    claims ← Validate m (TrimPrefix hdr "Bearer ");
    match claims with
    | None => writeError 401 "invalid or expired token"
    | Some c =>
        if negb (bool_decide (requiredRole = "")) && negb (bool_decide (cl_Role c = requiredRole)) then
          writeError 403 "insufficient role"
        else next (with_claims c r)
    end.
End middleware.

(** ** Responses *)

(** Nothing sent: the wrappers have their first status. *)
Definition fresh (w : Writer) : Prop := w_sent w = None ∧ Forall (λ c, c = 200) (w_captured w).

(** The wrappers have the status the client gets. *)
Definition accounted (w : Writer) : Prop := Forall (λ c, c = final_status w) (w_captured w).

(** What a handler leaves to the middleware around it. *)
Definition frame {S} (c c' : Ctx S) : Prop :=
  length (w_captured (cx_w c')) = length (w_captured (cx_w c)) ∧
  ob_log (cx_obs c') = ob_log (cx_obs c) ∧
  mx_httpRequestsTotal (ob_metrics (cx_obs c')) = mx_httpRequestsTotal (ob_metrics (cx_obs c)) ∧
  mx_httpRequestDuration (ob_metrics (cx_obs c')) = mx_httpRequestDuration (ob_metrics (cx_obs c)).

(** The response of a handler: one status at most, seen by every wrapper, and none yet
    when it panics.  The handlers of this server panic before they answer or not at all; one
    that panicked after [WriteHeader(200)] would not be counted as here: the client has its
    200, and the recovery's [WriteHeader(500)] only reaches the wrappers. *)
Definition responds {S} (m : HOp S unit) : Prop := ∀ s,
  fresh (cx_w (dat s)) →
  accounted (cx_w (dat (m s).1)) ∧ frame (dat s) (dat (m s).1) ∧
  ((m s).2 = Err Panic → fresh (cx_w (dat (m s).1))).

(** Nothing is said to the client. *)
Definition quiet {S A} (m : HOp S A) : Prop := ∀ s,
  cx_w (dat (m s).1) = cx_w (dat s) ∧ frame (dat s) (dat (m s).1).

Lemma fresh_accounted w : fresh w → accounted w.
Proof. intros [H1 H2]. unfold accounted, final_status. by rewrite H1. Qed.

Section responses.
Context `{W : World} {S : Type}.
Implicit Types (c : Ctx S).

Lemma frame_refl c : frame c c.
Proof. done. Qed.

Lemma frame_trans c1 c2 c3 : frame c1 c2 → frame c2 c3 → frame c1 c3.
Proof using. intros (?&?&?&?) (?&?&?&?). unfold frame. split_and!; congruence. Qed.

Lemma quiet_ret {A} (a : A) : quiet (S := S) (mret a).
Proof. by intros s. Qed.

Lemma quiet_bind {A B} (m : HOp S A) (f : A → HOp S B) :
  quiet m → (∀ a, quiet (f a)) → quiet (m ≫= f).
Proof using.
  intros Hm Hf s. destruct (Hm s) as [H1 H2]. unfold mbind, st_bind.
  destruct (m s) as [s1 [a|e]]; [|done]. destruct (Hf a s1) as [H3 H4]. simpl in *.
  split; [congruence|]. by eapply frame_trans.
Qed.

Lemma quiet_now : quiet (S := S) time_Now.
Proof. by intros s. Qed.

Lemma quiet_uuid : quiet (S := S) uuid_New.
Proof. by intros s. Qed.

Lemma quiet_read : quiet (S := S) read_dat.
Proof. by intros s. Qed.

Lemma quiet_fail {A} (e : panic) : quiet (S := S) (A := A) (st_fail e).
Proof. by intros s. Qed.

Lemma quiet_srv {A} (m : Op S panic A) : quiet (on_srv m).
Proof. intros s. unfold on_srv, on_part. by destruct (m _) as [s' r]. Qed.

Lemma quiet_pattern p : quiet (S := S) (modify_dat (put_pattern p)).
Proof. by intros s. Qed.

Lemma quiet_heartbeat : quiet (S := S) (count IncHeartbeat).
Proof. by intros s. Qed.

Lemma quiet_rejected : quiet (S := S) (count IncWSMessageRejected).
Proof. by intros s. Qed.

Lemma quiet_limiter get put key : quiet (S := S) (limiter_allow get put key).
Proof. apply quiet_bind; [apply quiet_now|intros now; apply quiet_srv]. Qed.

Lemma quiet_Validate `{J : Jwt} m tok : quiet (S := S) (Validate m tok).
Proof. by intros s. Qed.

Lemma responds_bind {A} (m : HOp S A) (f : A → HOp S unit) :
  quiet m → (∀ a, responds (f a)) → responds (m ≫= f).
Proof using.
  intros Hm Hf s Hs. destruct (Hm s) as [H1 H2]. unfold mbind, st_bind.
  destruct (m s) as [s1 [a|e]]; simpl in *.
  - destruct (Hf a s1) as (H3 & H4 & H5); [by rewrite H1|].
    split_and!; [done|by eapply frame_trans|done].
  - rewrite H1. split_and!; [by apply fresh_accounted|done|done].
Qed.

Lemma responds_quiet (m : HOp S unit) : quiet m → responds m.
Proof using.
  intros Hm s Hs. destruct (Hm s) as [H1 H2]. rewrite H1.
  split_and!; [by apply fresh_accounted|done|done].
Qed.

(** Headers first. *)
Lemma responds_header k v (m : HOp S unit) :
  responds m → responds (_ ← respond (w_SetHeader k v); m).
Proof using. intros Hm s Hs. by apply Hm. Qed.

(** Then one status, and a body. *)
Lemma responds_status code (f : Writer → Writer) :
  (∀ w, w_sent (f w) = w_sent w ∧ w_captured (f w) = w_captured w) →
  responds (S := S) (respond (λ w, f (w_WriteHeader code w))).
Proof using.
  intros Hf s [Hs Hc]. simpl. destruct (Hf (w_WriteHeader code (cx_w (dat s)))) as [H1 H2].
  unfold accounted, final_status, frame, send_header. simpl. rewrite H1, H2. simpl.
  unfold send_header. rewrite Hs, length_fmap. simpl. split_and!; try done.
  by apply Forall_fmap, Forall_true.
Qed.

Lemma responds_body code l :
  responds (S := S) (_ ← respond (w_WriteHeader code); respond (w_Write l)).
Proof using.
  intros s [Hs Hc]. simpl. unfold accounted, final_status, frame, w_Write, w_WriteHeader, send_header. simpl.
  rewrite Hs, length_fmap. simpl. split_and!; try done. by apply Forall_fmap, Forall_true.
Qed.

Lemma responds_writeJSON status v : responds (S := S) (writeJSON status v).
Proof using.
  apply responds_header. destruct v; [apply responds_body|]. 
  intros s Hs. by apply (responds_status status id).
Qed.

Lemma responds_http_Error msg code : responds (S := S) (http_Error msg code).
Proof using. do 2 apply responds_header. apply responds_body. Qed.
End responses.

#[export] Hint Resolve quiet_ret quiet_now quiet_uuid quiet_read quiet_fail quiet_srv quiet_pattern
  quiet_heartbeat quiet_rejected quiet_limiter quiet_Validate responds_writeJSON responds_http_Error : puls.

(** Handlers by their shape: quiet steps, tests, one answer. *)
Ltac respond_tac :=
  repeat first
    [ progress intros
    | solve [auto with puls]
    | apply responds_writeJSON
    | apply responds_header
    | apply responds_bind
    | apply quiet_bind
    | case_match ].

(** ** The chain *)

Definition error_body (msg : string) : list ascii := default [] (one_member "error" msg) ++ newline.

Definition json_headers (h : gmap string string) : gmap string string :=
  <["Content-Type" := "application/json"]> h.

(** The answer of a context. *)
Definition answered {S} (c : Ctx S) (status : Z) (body : json) : Prop :=
  w_sent (cx_w c) = Some (status, json_headers ∅) ∧
  w_body (cx_w c) = match body with Some l => l ++ newline | None => [] end.

Definition failed {S} (c : Ctx S) (status : Z) : Prop := ∃ msg, answered c status (one_member "error" msg).

Section answers.
Context `{W : World} {S : Type}.

(** What [writeJSON] leaves. *)
Lemma writeJSON_eq status v (s : Sys (Ctx S)) :
  cx_w (dat s) = new_writer →
  ∃ c, writeJSON status v s = (MkSys (tick s) c, Ok ()) ∧ answered c status v ∧
    cx_srv c = cx_srv (dat s) ∧ cx_obs c = cx_obs (dat s).
Proof using.
  intros Hw. unfold writeJSON, respond, modify_dat, mbind, st_bind. simpl. rewrite Hw.
  destruct v as [l|]; simpl; eexists; (split; [reflexivity|]); by split_and!.
Qed.

Lemma writeError_eq status msg (s : Sys (Ctx S)) :
  cx_w (dat s) = new_writer →
  ∃ c, writeError status msg s = (MkSys (tick s) c, Ok ()) ∧ failed c status ∧
    cx_srv c = cx_srv (dat s) ∧ cx_obs c = cx_obs (dat s).
Proof using.
  intros Hw. destruct (writeJSON_eq status (one_member "error" msg) s Hw) as (c & H1 & H2 & H3).
  exists c. split; [exact H1|]. split; [by exists msg|exact H3].
Qed.
End answers.

(** Where [next] runs in the chain: two readings of the clock and two wrappers. *)
Definition chained {S} (s : Sys (Ctx S)) : Sys (Ctx S) :=
  MkSys (tick s + 2) (put_w (w_wrap (w_wrap (cx_w (dat s)))) (dat s)).

Section chain.
Context `{W : World} {S : Type}.

(** The route a request is counted under. *)
Definition label_of (c : Ctx S) : string :=
  if bool_decide (cx_pattern c = "") then "unmatched" else cx_pattern c.

Lemma recovered_accounted (next : Handler S) r (s : Sys (Ctx S)) :
  responds (next r) → fresh (cx_w (dat s)) →
  let inner := next r s in
  let c := dat inner.1 in
  let out := recoveryMiddleware next r s in
  out.2 = Ok () ∧ accounted (cx_w (dat out.1)) ∧
  length (w_captured (cx_w (dat out.1))) = length (w_captured (cx_w (dat s))) ∧
  cx_pattern (dat out.1) = cx_pattern c ∧ cx_srv (dat out.1) = cx_srv c ∧
  ob_metrics (cx_obs (dat out.1)) = ob_metrics (cx_obs c) ∧
  mx_httpRequestsTotal (ob_metrics (cx_obs c)) = mx_httpRequestsTotal (ob_metrics (cx_obs (dat s))) ∧
  match inner.2 with
  | Ok _ => cx_w (dat out.1) = cx_w c ∧ ob_log (cx_obs (dat out.1)) = ob_log (cx_obs (dat s))
  | Err _ =>
      w_sent (cx_w (dat out.1)) = Some (500, json_headers (w_header (cx_w c))) ∧
      w_body (cx_w (dat out.1)) = w_body (cx_w c) ++ error_body "internal server error" ∧
      ob_log (cx_obs (dat out.1)) = ob_log (cx_obs (dat s)) ++ [LogPanic (rq_Path r)]
  end.
Proof using.
  intros Hr Hf. destruct (Hr s Hf) as (Ha & (Hl & Hlog & Hm & _) & Hp).
  unfold recoveryMiddleware, recovered. destruct (next r s) as [s1 [[]|[]]]; simpl in *.
  - split_and!; done.
  - destruct (Hp eq_refl) as [Hs Hc]. unfold accounted, final_status, w_Write, w_WriteHeader, send_header.
    simpl. rewrite Hs. simpl. rewrite length_fmap, Hlog. split_and!; try done.
    by apply Forall_fmap, Forall_true.
Qed.
End chain.

(** C15: every request is accounted for, also when its handler panics.  Around a
    handler that sends at most one status, and that panics, if it does, before it,
    [wrapMiddleware] always returns; the
    request is counted once, under its method label, its route and the status the
    client gets, and no other count changes; the same status is logged once, after
    a line for the panic if there was one; and a panic is answered with 500 and a
    JSON error. *)
Theorem requests_accounted `{W : World} {S} (next : Handler S) r (s : Sys (Ctx S)) :
  responds (next (with_limit maxRequestBytes r)) → cx_w (dat s) = new_writer →
  let inner := next (with_limit maxRequestBytes r) (chained s) in
  let out := wrapMiddleware next r s in
  let c := dat out.1 in
  let status := final_status (cx_w c) in
  let l := (httpMethodLabel (rq_Method r), label_of (dat inner.1), Itoa status) in
  let before := mx_httpRequestsTotal (ob_metrics (cx_obs (dat s))) in
  out.2 = Ok () ∧
  mx_httpRequestsTotal (ob_metrics (cx_obs c)) = <[l := Datatypes.S (default 0%nat (before !! l))]> before ∧
  ob_log (cx_obs c) = ob_log (cx_obs (dat s)) ++
    (if is_ok inner.2 then [] else [LogPanic (rq_Path r)]) ++
    [LogHttp (rq_Method r) (rq_Path r) status] ∧
  cx_srv c = cx_srv (dat inner.1) ∧
  match inner.2 with
  | Ok _ => w_sent (cx_w c) = w_sent (cx_w (dat inner.1)) ∧ w_body (cx_w c) = w_body (cx_w (dat inner.1))
  | Err _ => status = 500 ∧ w_body (cx_w c) = w_body (cx_w (dat inner.1)) ++ error_body "internal server error"
  end.
Proof.
  intros Hr Hw inner out.
  destruct (recovered_accounted (maxBytesMiddleware next) r (chained s) Hr) as
    (Hok & Ha & Hlen & Hpat & Hsrv & Hm & Hcnt & Hcase).
  { unfold chained. simpl. rewrite Hw. by repeat constructor. }
  unfold maxBytesMiddleware in *. fold inner in Hpat, Hsrv, Hm, Hcnt, Hcase.
  assert (Hout : out = wrapMiddleware next r s) by done.
  unfold wrapMiddleware, loggingMiddleware, Middleware, deferred, get_status, time_Now, respond,
    modify_dat, mbind, st_bind, mret, st_ret, read_dat, count, log in Hout. simpl in Hout.
  change (maxBytesMiddleware next) with (λ r, next (with_limit maxRequestBytes r)) in Hout.
  replace (MkSys (Datatypes.S (Datatypes.S (tick s))) _) with (chained s) in Hout
    by (unfold chained; f_equal; lia).
  destruct (recoveryMiddleware _ r (chained s)) as [s1 r1]. simpl in *. subst r1.
  rewrite Hw in Hlen. simpl in Hlen.
  destruct s1 as [t1 [srv1 obs1 w1 pat1]]. simpl in *. subst pat1 srv1.
  unfold accounted, final_status in Ha. destruct w1 as [hdr sent body cap]. simpl in *.
  destruct cap as [|c1 [|c2 [|]]]; try done. inversion Ha as [|? ? -> Ha']; subst.
  inversion Ha' as [|? ? -> _]; subst.
  unfold put_w, put_obs, w_unwrap, w_status, label_of, final_status in *. simpl in *.
  rewrite Hout. cbn [fst snd dat cx_obs cx_w cx_srv ob_metrics ob_log mx_httpRequestsTotal record_request w_sent w_body].
  rewrite Hm, Hcnt. split_and!; try done.
  - destruct inner.2 as [u|e]; simpl; destruct Hcase as [H1 H2]; [|destruct H2 as [H2 H3]].
    + by rewrite H2.
    + by rewrite H3, <-app_assoc.
  - destruct inner.2 as [u|e]; [|destruct Hcase as (H1 & H2 & H3)].
    + by destruct Hcase as [<- _].
    + by rewrite H1.
Qed.

Definition test_request : Request :=
  MkRequest "GET" "/healthz" [] [("Authorization", "Bearer t")] "10.0.0.1:4000" [] None "" None [] [].

(** A server that has recorded nothing, and its first reading. *)
Definition fresh_ctx {S} (srv : S) : Sys (Ctx S) :=
  MkSys 0%nat (MkCtx srv (MkObs no_metrics []) new_writer "").

Lemma requests_accounted_witness :
  (λ W : World,
    let out := wrapMiddleware (λ _, st_fail Panic) test_request (fresh_ctx ()) in
    out.2 = Ok () ∧ final_status (cx_w (dat out.1)) = 500 ∧
    mx_httpRequestsTotal (ob_metrics (cx_obs (dat out.1))) !! ("GET", "unmatched", "500") = Some 1%nat)
    test_world.
Proof.
  pose proof (requests_accounted (W := test_world) (λ _, st_fail Panic) test_request (fresh_ctx ()))
    as H.
  destruct H as (H1 & H2 & _ & _ & H3 & _).
  - intros s Hs. split; [by apply fresh_accounted|done].
  - reflexivity.
  - split; [exact H1|]. split; [exact H3|]. rewrite H2, H3. reflexivity.
Defined.

(** With recovery outermost, as the comment of [wrapMiddleware] recalls, a panic
    the client sees as 500 is counted as 200; it is not logged as 200, though, but
    not at all, since the status is logged only when the handler returns. *)
Lemma recovery_outermost `{W : World} {S} (next : Handler S) r (s : Sys (Ctx S)) :
  responds (next (with_limit maxRequestBytes r)) → cx_w (dat s) = new_writer →
  (next (with_limit maxRequestBytes r) (chained s)).2 = Err Panic →
  let inner := next (with_limit maxRequestBytes r) (chained s) in
  let out := recoveryMiddleware (loggingMiddleware (Middleware (maxBytesMiddleware next))) r s in
  let l := (httpMethodLabel (rq_Method r), label_of (dat inner.1), Itoa 200) in
  let before := mx_httpRequestsTotal (ob_metrics (cx_obs (dat s))) in
  final_status (cx_w (dat out.1)) = 500 ∧
  mx_httpRequestsTotal (ob_metrics (cx_obs (dat out.1))) =
    <[l := Datatypes.S (default 0%nat (before !! l))]> before ∧
  ob_log (cx_obs (dat out.1)) = ob_log (cx_obs (dat s)) ++ [LogPanic (rq_Path r)].
Proof.
  intros Hr Hw Hp inner out.
  destruct (Hr (chained s)) as (_ & (Hlen & Hlog & Hm & _) & Hf).
  { unfold chained. simpl. rewrite Hw. by repeat constructor. }
  destruct (Hf Hp) as [Hs Hc]. clear Hf.
  assert (Hout : out = recoveryMiddleware (loggingMiddleware (Middleware (maxBytesMiddleware next))) r s) by done.
  unfold recoveryMiddleware, recovered, loggingMiddleware, Middleware, deferred, get_status, time_Now,
    respond, modify_dat, mbind, st_bind, mret, st_ret, read_dat, count, log, maxBytesMiddleware in Hout.
  simpl in Hout.
  replace (MkSys (Datatypes.S (Datatypes.S (tick s))) _) with (chained s) in Hout
    by (unfold chained; f_equal; lia).
  fold inner in Hp, Hs, Hc, Hlen, Hlog, Hm.
  change (next (with_limit maxRequestBytes r) (chained s)) with inner in Hout.
  unfold chained in Hlen. simpl in Hlen. rewrite Hw in Hlen. simpl in Hlen.
  destruct inner as [[t1 [srv1 obs1 w1 pat1]] r1]. simpl in *. subst r1.
  destruct w1 as [hdr sent body cap]. simpl in *. subst sent.
  destruct cap as [|c1 [|c2 [|]]]; try done. inversion Hc as [|? ? -> Hc']; subst.
  rewrite Hout. simpl. unfold label_of, w_status, final_status. simpl. rewrite Hm.
  split_and!; [done..|]. by rewrite Hlog.
Qed.

(** ** Guards *)

(** The outcome of a refused request: answered with an error of status [code], the
    server's state and what has been logged and counted as they were. *)
Definition refused {S} (s : Sys (Ctx S)) (out : Sys (Ctx S) * res panic ()) (code : Z) : Prop :=
  out.2 = Ok () ∧ failed (dat out.1) code ∧
  cx_srv (dat out.1) = cx_srv (dat s) ∧ cx_obs (dat out.1) = cx_obs (dat s).

Section guard.
Context `{W : World, J : Jwt} {S : Type} (m : Manager) (role : Role) (next : Handler S) (r : Request).

Lemma error_refused code msg (s s1 : Sys (Ctx S)) :
  cx_w (dat s) = new_writer → dat s1 = dat s → refused s (writeError code msg s1) code.
Proof using.
  intros Hw Hs. destruct (writeError_eq code msg s1) as (c & -> & Hf & H1 & H2); [by rewrite Hs|].
  unfold refused. cbn [fst snd dat]. by rewrite H1, H2, Hs.
Qed.

(** With a bearer token. *)
Lemma requireAuth_bearer tok (s : Sys (Ctx S)) :
  Header_Get "Authorization" r = "Bearer " +:+ tok →
  requireAuth m role next r s =
    match jwt_parse (signing_key m) (now_at (tick s)) tok with
    | None => writeError 401 "invalid or expired token" (bump s)
    | Some c =>
        if negb (bool_decide (role = "")) && negb (bool_decide (cl_Role c = role))
        then writeError 403 "insufficient role" (bump s)
        else next (with_claims c r) (bump s)
    end.
Proof using.
  intros Htok. unfold requireAuth. rewrite Htok, bool_decide_eq_false_2 by done.
  rewrite (proj2 (HasPrefix_spec _ _)) by by eexists. cbn [negb]. rewrite TrimPrefix_app.
  unfold Validate, time_Now, mbind, st_bind, mret, st_ret. cbn [bump tick dat].
  destruct (jwt_parse _ _ tok) as [c|]; [|done]. by destruct (_ && _).
Qed.

Lemma requireAuth_other (s : Sys (Ctx S)) :
  cx_w (dat s) = new_writer → (∀ tok, Header_Get "Authorization" r ≠ "Bearer " +:+ tok) →
  refused s (requireAuth m role next r s) 401.
Proof using.
  intros Hw Hn. unfold requireAuth. case_bool_decide; [by apply error_refused|].
  destruct (HasPrefix _ _) eqn:Hp; [|by apply error_refused].
  apply HasPrefix_spec in Hp as [tok Htok]. by destruct (Hn tok).
Qed.
End guard.

(** C10: an admin route is behind a token.  [requireAuth] runs its handler, on the
    request with the token's claims, exactly when the Authorization header bears a token
    that the manager validates at the time and whose role is the required one (or none is
    required); a token of another role gets 403, and no token, or one that does not
    validate, 401, with nothing else changed.  So a token the manager issued opens the
    routes of its role, for its lifetime: it runs the handler if its role is the required
    one and its expiry has not passed, and is refused as said otherwise. *)
Theorem requireAuth_guards `{W : World, J : Jwt} `{!JwtLaws J} {S} m role (next : Handler S) r
    (s : Sys (Ctx S)) :
  cx_w (dat s) = new_writer →
  let hdr := Header_Get "Authorization" r in
  let claims tok := jwt_parse (signing_key m) (now_at (tick s)) tok in
  let allowed c := role = "" ∨ cl_Role c = role in
  let out := requireAuth m role next r s in
  (∀ tok c, hdr = "Bearer " +:+ tok → claims tok = Some c → allowed c →
     out = next (with_claims c r) (bump s)) ∧
  (∀ tok c, hdr = "Bearer " +:+ tok → claims tok = Some c → ¬ allowed c → refused s out 403) ∧
  ((∀ tok, hdr = "Bearer " +:+ tok → claims tok = None) → refused s out 401) ∧
  (∀ (D E : Type) sub role' expiry (s0 s1 : Sys D) tok,
     utf8_text (bytes sub) = true → utf8_text (bytes role') = true →
     datable (now_at (tick s0)) → datable (now_at (tick s0) + expiry) →
     issue (E := E) m sub role' expiry s0 = (s1, Ok (Some tok)) → hdr = "Bearer " +:+ tok →
     if negb (now_at (tick s) <? trunc_sec (now_at (tick s0) + expiry)) then refused s out 401
     else if bool_decide (role = "" ∨ role' = role)
     then out = next (with_claims (new_claims sub role' (now_at (tick s0)) expiry) r) (bump s)
     else refused s out 403).
Proof.
  intros Hw hdr claims allowed out.
  assert (Hrun : ∀ tok c, hdr = "Bearer " +:+ tok → claims tok = Some c → allowed c →
            out = next (with_claims c r) (bump s)).
  { intros tok c Hh Hc Ha. unfold out. rewrite (requireAuth_bearer m role next r tok s Hh).
    unfold claims in Hc. rewrite Hc. destruct Ha as [Ha|Ha].
    - by rewrite bool_decide_eq_true_2.
    - by rewrite (bool_decide_eq_true_2 (cl_Role c = role)), andb_false_r by done. }
  assert (H403 : ∀ tok c, hdr = "Bearer " +:+ tok → claims tok = Some c → ¬ allowed c → refused s out 403).
  { intros tok c Hh Hc Ha. unfold out. rewrite (requireAuth_bearer m role next r tok s Hh).
    unfold claims in Hc. rewrite Hc. rewrite !bool_decide_eq_false_2 by (intros ?; apply Ha; by constructor).
    by apply error_refused. }
  assert (H401 : (∀ tok, hdr = "Bearer " +:+ tok → claims tok = None) → refused s out 401).
  { intros Hn. destruct (HasPrefix hdr "Bearer ") eqn:Hp.
    - apply HasPrefix_spec in Hp as [tok Hh]. unfold out. rewrite (requireAuth_bearer m role next r tok s Hh).
      specialize (Hn tok Hh). unfold claims in Hn. rewrite Hn. by apply error_refused.
    - apply requireAuth_other; [done|]. intros tok Hh. enough (HasPrefix hdr "Bearer " = true) by congruence.
      apply HasPrefix_spec. by exists tok. }
  split_and!; [exact Hrun|exact H403|exact H401|].
  intros D E sub role' expiry s0 s1 tok Hs Hr Hd He Hi Hh.
  destruct (issue_token (E := E) m sub role' expiry s0 Hs Hr) as (tok' & Hi' & _ & Ht).
  rewrite Hi in Hi'. injection Hi' as _ <-. specialize (Ht Hd He (now_at (tick s))).
  unfold token_claims in Ht. destruct (now_at (tick s) <? _); cbn [negb].
  - case_bool_decide as Hrole; [by eapply Hrun|by eapply H403].
  - apply H401. intros tok2 Hh2. assert (tok2 = tok) as ->; [|done].
    apply (f_equal (λ h, TrimPrefix h "Bearer ")) in Hh2. rewrite Hh, !TrimPrefix_app in Hh2. done.
Qed.

Lemma requireAuth_guards_witness :
  (λ (W : World) (J : Jwt),
    let at_ n := MkSys n (dat (fresh_ctx (S := ()) ())) in
    ∃ tok c,
      let r := MkRequest "GET" "/api/v1/devices" [] [("Authorization", "Bearer " +:+ tok)] "10.0.0.1:4000" [] None "" None [] [] in
      let next : Handler () := λ _, respond (w_WriteHeader 204) in
      requireAuth test_manager RoleAdmin next r (at_ 59%nat) = next (with_claims c r) (at_ 60%nat) ∧
      refused (at_ 60%nat) (requireAuth test_manager RoleAdmin next r (at_ 60%nat)) 401 ∧
      refused (at_ 59%nat) (requireAuth test_manager RoleDevice next r (at_ 59%nat)) 403) test_world toy_jwt.
Proof.
  cbv beta zeta.
  destruct (issue (W := test_world) (J := toy_jwt) (E := panic) test_manager "admin" RoleAdmin Minute (MkSys 0%nat ()))
    as [s1 [[tok|]|]] eqn:Hi; [|discriminate Hi..].
  exists tok, (new_claims "admin" RoleAdmin (now_at (World := test_world) 0%nat) Minute).
  set (at_ n := MkSys n (dat (fresh_ctx (S := ()) ()))).
  set (r := MkRequest _ _ _ _ _ _ _ _ _ _ _). set (next := λ _ : Request, respond _).
  pose proof (λ role s Hw, requireAuth_guards (W := test_world) (J := toy_jwt) test_manager role next r s Hw)
    as H.
  split_and!.
  - exact (proj2 (proj2 (proj2 (H RoleAdmin (at_ 59%nat) eq_refl))) unit panic "admin" RoleAdmin Minute
      (MkSys 0%nat ()) s1 tok eq_refl eq_refl ltac:(done) ltac:(done) Hi eq_refl).
  - exact (proj2 (proj2 (proj2 (H RoleAdmin (at_ 60%nat) eq_refl))) unit panic "admin" RoleAdmin Minute
      (MkSys 0%nat ()) s1 tok eq_refl eq_refl ltac:(done) ltac:(done) Hi eq_refl).
  - exact (proj2 (proj2 (proj2 (H RoleDevice (at_ 59%nat) eq_refl))) unit panic "admin" RoleAdmin Minute
      (MkSys 0%nat ()) s1 tok eq_refl eq_refl ltac:(done) ltac:(done) Hi eq_refl).
Defined.
