(* ===== verification/Server.v ===== *)
(** * The server's state (internal/server/server.go).

    What [Server] holds, over a store whose database is in state [D].  The hub is
    its map, its wait group and what has been written to and closed of its
    connections; a connection is a number.  The libraries the handlers call are in
    [Lib]; the WebSocket writes fail or not as the world's round trips do. *)
From S2P Require Import Prelude GoString GoTime GoFloat RateLimit GoJson Model World Sql Store Hub Broadcaster Auth Config Wire Metrics Http Middleware.
Local Open Scope Z_scope.

Record Srv (D : Type) := MkSrv {
  sv_db : D;
  sv_hub : registry;
  sv_wg : Z;
  sv_next : client;
  sv_written : list (client * list ascii);
  sv_closed : list client;
  sv_bus : gmap string (list Event);
  sv_wsLimiter : keyedRateLimiter;
  sv_publicLimiter : keyedRateLimiter;
  sv_metricsLimiter : keyedRateLimiter
}.
Arguments MkSrv {D}. Arguments sv_db {D}. Arguments sv_hub {D}. Arguments sv_wg {D}.
Arguments sv_next {D}. Arguments sv_written {D}. Arguments sv_closed {D}. Arguments sv_bus {D}.
Arguments sv_wsLimiter {D}. Arguments sv_publicLimiter {D}. Arguments sv_metricsLimiter {D}.

(** What the server is built with. *)
Record Server := MkServer { cfg : Config; jwtMgr : Manager }.

(** The libraries: the text of a JSON decoding error, the WebSocket upgrade (the
    status and body it refuses with), the Prometheus scrape; and the embedded file. *)
Class Lib := {
  json_error : list ascii → string;
  ws_accept : Request → list string → list string → res (Z * list ascii) unit;
  scrape : Metrics → nat → nat → list ascii;
  openapiSpec : list ascii
}.

Section setters.
Context {D : Type}.

Definition put_db (v : D) (s : Srv D) : Srv D :=
  MkSrv v (sv_hub s) (sv_wg s) (sv_next s) (sv_written s) (sv_closed s) (sv_bus s) (sv_wsLimiter s)
    (sv_publicLimiter s) (sv_metricsLimiter s).
Definition put_hub (v : registry) (s : Srv D) : Srv D :=
  MkSrv (sv_db s) v (sv_wg s) (sv_next s) (sv_written s) (sv_closed s) (sv_bus s) (sv_wsLimiter s)
    (sv_publicLimiter s) (sv_metricsLimiter s).
Definition put_wg (v : Z) (s : Srv D) : Srv D :=
  MkSrv (sv_db s) (sv_hub s) v (sv_next s) (sv_written s) (sv_closed s) (sv_bus s) (sv_wsLimiter s)
    (sv_publicLimiter s) (sv_metricsLimiter s).
Definition put_next (v : client) (s : Srv D) : Srv D :=
  MkSrv (sv_db s) (sv_hub s) (sv_wg s) v (sv_written s) (sv_closed s) (sv_bus s) (sv_wsLimiter s)
    (sv_publicLimiter s) (sv_metricsLimiter s).
Definition put_written (v : list (client * list ascii)) (s : Srv D) : Srv D :=
  MkSrv (sv_db s) (sv_hub s) (sv_wg s) (sv_next s) v (sv_closed s) (sv_bus s) (sv_wsLimiter s)
    (sv_publicLimiter s) (sv_metricsLimiter s).
Definition put_closed (v : list client) (s : Srv D) : Srv D :=
  MkSrv (sv_db s) (sv_hub s) (sv_wg s) (sv_next s) (sv_written s) v (sv_bus s) (sv_wsLimiter s)
    (sv_publicLimiter s) (sv_metricsLimiter s).
Definition put_bus (v : gmap string (list Event)) (s : Srv D) : Srv D :=
  MkSrv (sv_db s) (sv_hub s) (sv_wg s) (sv_next s) (sv_written s) (sv_closed s) v (sv_wsLimiter s)
    (sv_publicLimiter s) (sv_metricsLimiter s).
Definition put_wsLimiter (v : keyedRateLimiter) (s : Srv D) : Srv D :=
  MkSrv (sv_db s) (sv_hub s) (sv_wg s) (sv_next s) (sv_written s) (sv_closed s) (sv_bus s) v
    (sv_publicLimiter s) (sv_metricsLimiter s).
Definition put_publicLimiter (v : keyedRateLimiter) (s : Srv D) : Srv D :=
  MkSrv (sv_db s) (sv_hub s) (sv_wg s) (sv_next s) (sv_written s) (sv_closed s) (sv_bus s)
    (sv_wsLimiter s) v (sv_metricsLimiter s).
Definition put_metricsLimiter (v : keyedRateLimiter) (s : Srv D) : Srv D :=
  MkSrv (sv_db s) (sv_hub s) (sv_wg s) (sv_next s) (sv_written s) (sv_closed s) (sv_bus s)
    (sv_wsLimiter s) (sv_publicLimiter s) v.
End setters.

Section steps.
Context `{W : World} {D : Type}.

Abbreviation SOp := (HOp (Srv D)).

(** A call of the store: its error is a value, but for a panic. *)
Definition store {A} (m : Op D store_err A) : SOp (res store_err A) := λ s,
  let '(s', r) := on_srv (on_part sv_db put_db m) s in
  match r with
  | Err Panicked => (s', Err Panic)
  | r => (s', Ok r)
  end.

Definition get_srv : SOp (Srv D) := c ← read_dat; mret (cx_srv c).
Definition modify_srv (f : Srv D → Srv D) : SOp unit := modify_dat (λ c, put_srv (f (cx_srv c)) c).

(** [s.hub.IsConnected], [s.hub.ConnectedDeviceIDs] *)
Definition hub_connected (deviceID : string) : SOp bool :=
  s ← get_srv; mret (hub_IsConnected deviceID (sv_hub s)).
Definition hub_connected_ids : SOp (list string) :=
  s ← get_srv; mret (hub_ConnectedDeviceIDs (sv_hub s)).

(** [conn.Write]: it fails on a closed connection; one that is interrupted may
    have sent the message. *)
Definition conn_write (c : client) (msg : list ascii) : SOp bool := λ s,
  let sv := cx_srv (dat s) in
  let sent := put_srv (put_written (sv_written sv ++ [(c, msg)]) sv) (dat s) in
  if bool_decide (c ∈ sv_closed sv) then (bump s, Ok false)
  else match io_at (tick s) with
       | IoOk => (MkSys (S (tick s)) sent, Ok true)
       | IoUnacked => (MkSys (S (tick s)) sent, Ok false)
       | IoLost => (bump s, Ok false)
       end.

(** [Hub.Send]: [false] is its error. *)
Definition send (deviceID : string) (msg : list ascii) : SOp bool :=
  s ← get_srv;
  match hub_Send deviceID (sv_hub s) with
  | None => mret false
  | Some c => conn_write c msg
  end.

(** [s.broadcaster.Publish] *)
Definition publish (e : Event) : SOp unit := modify_srv (λ s, put_bus (Publish e (sv_bus s)) s).

Lemma quiet_store {A} (m : Op D store_err A) : quiet (store m).
Proof.
  intros s. unfold store, on_srv, on_part. by destruct (m _) as [s' [a|[]]].
Qed.

Lemma quiet_modify_srv f : quiet (modify_srv f).
Proof. by intros s. Qed.

Lemma quiet_get_srv : quiet get_srv.
Proof. by intros s. Qed.

Lemma quiet_conn_write c msg : quiet (conn_write c msg).
Proof. intros s. unfold conn_write. case_bool_decide; [done|]. by destruct (io_at (tick s)). Qed.

Lemma quiet_connected id : quiet (hub_connected id).
Proof. by intros s. Qed.

Lemma quiet_connected_ids : quiet hub_connected_ids.
Proof. by intros s. Qed.

Lemma quiet_publish e : quiet (publish e).
Proof. by intros s. Qed.

Lemma quiet_send id msg : quiet (send id msg).
Proof.
  apply quiet_bind; [apply quiet_get_srv|]. intros sv. case_match; [apply quiet_conn_write|apply quiet_ret].
Qed.
End steps.

#[export] Hint Resolve quiet_store quiet_modify_srv quiet_get_srv quiet_conn_write quiet_connected
  quiet_connected_ids quiet_publish quiet_send : puls.

(** ** A concrete server *)

Definition test_config : Config := {|
  HTTPAddr := ":8080"; TLSCertFile := ""; TLSKeyFile := ""; DatabaseURL := ""; DBPath := ":memory:";
  JWTSecret := mg_secret test_manager; AdminSecret := "an admin secret.";
  DeviceTokenExpiry := 90 * 24 * Hour; AdminTokenExpiry := 24 * Hour;
  HeartbeatTimeout := 90 * Second; DiagnosticTimeout := 60 * Second; AllowedOrigins := [];
  LogFormat := "json"; LogLevel := "info"; OTelEndpoint := ""
|}.

Definition test_server : Server := MkServer test_config test_manager.

Definition test_lib : Lib := {|
  json_error _ := "unexpected EOF"; ws_accept _ _ _ := Ok (); scrape _ _ _ := []; openapiSpec := bytes "{}"
|}.

(** A request with a body, for a path with or without an identifier. *)
Definition body_request (method path id body : string) : Request :=
  MkRequest method path [] [] "10.0.0.1:4000" (bytes body) None id None [] [].
