(* ===== verification/Devices.v ===== *)
(** * Device endpoints (internal/server/routes_device.go). *)
From Stdlib Require Import QArith.
From S2P Require Import Prelude GoString GoTime GoFloat RateLimit GoJson Model World Sql Store Hub Broadcaster Auth Config Wire Metrics Http Middleware Server.
Local Open Scope Z_scope.

Definition defaultDeviceListLimit : Z := 50.
Definition maxDeviceListLimit : Z := 200.

(** The request is trimmed in place; the error's text. *)
Definition validateRegisterRequest (req : RegisterRequest) : RegisterRequest * option string :=
  let req := Build_RegisterRequest (TrimSpace (rr_Name req)) (rr_OS req) (rr_Arch req)
               (TrimSpace (rr_Secret req)) in
  (req,
   if bool_decide (rr_Name req = "") then Some "name is required"
   else if negb (bool_decide (rr_OS req = OSWindows)) && negb (bool_decide (rr_OS req = OSLinux))
   then Some "os must be 'windows' or 'linux'"
   else if bool_decide (rr_Arch req = "") then Some "arch is required"
   else if len (rr_Secret req) <? 16 then Some "secret must be at least 16 characters"
   else None).

(** [limit] of the query: [None] is the 400. *)
Definition list_limit (raw : string) : option Z :=
  if bool_decide (raw = "") then Some defaultDeviceListLimit
  else
    match Atoi raw with
    | None => None
    | Some n => if n <=? 0 then None else Some (if maxDeviceListLimit <? n then maxDeviceListLimit else n)
    end.

(** The hub's live connections over the database's status. *)
Definition overlay (connected : list string) (d : Device) : Device :=
  if bool_decide (d_ID d ∈ connected) then with_status StatusOnline d else d.

Section devices.
Context `{W : World, J : Jwt, L : Lib} {D : Type} `{St : Store D} (srv : Server).

Abbreviation H := (Handler (Srv D)).

Definition handleAdminToken : H := λ r,
  match decode_body ["secret"] (λ _ raw s, decode_string raw s) r "" with
  | None => writeError 400 "secret required"
  | Some secret =>
      if bool_decide (secret = "") then writeError 400 "secret required"
      else if negb (bool_decide (secret = AdminSecret (cfg srv))) then writeError 401 "invalid secret"
      else
        token ← IssueAdminToken (jwtMgr srv) "admin" (AdminTokenExpiry (cfg srv));
        match token with
        | None => writeError 500 "failed to issue token"
        | Some token => writeJSON 200 (one_member "token" token)
        end
  end.

Definition handleRegister : H := λ r,
  match decode_body register_fields set_register_field r (Build_RegisterRequest "" "" "" "") with
  | None => writeError 400 ("invalid request body: " +:+ json_error (rq_Body r))
  | Some req =>
      let '(req, err) := validateRegisterRequest req in
      match err with
      | Some msg => writeError 422 msg
      | None =>
          device ← store (CreateDevice req);
          match device with
          | Err _ => writeError 500 "failed to register device"
          | Ok device =>
              token ← IssueDeviceToken (jwtMgr srv) (d_ID device) (DeviceTokenExpiry (cfg srv));
              match token with
              | None => writeError 500 "failed to issue token"
              | Some token =>
                  writeJSON 201 (register_response_json (Build_RegisterResponse (d_ID device) token))
              end
          end
      end
  end.

Definition handleListDevices : H := λ r,
  match list_limit (Query_Get "limit" r) with
  | None => writeError 400 "limit must be a positive integer"
  | Some limit =>
      page ← store (ListDevices limit (Query_Get "cursor" r));
      match page with
      | Err ErrInvalidCursor => writeError 400 "invalid cursor"
      | Err _ => writeError 500 "failed to list devices"
      | Ok (devices, nextCursor) =>
          connected ← hub_connected_ids;
          writeJSON 200 (device_list_json {| dl_Devices := overlay connected <$> devices;
                                             dl_NextCursor := nextCursor |})
      end
  end.

Definition handleGetDevice : H := λ r,
  let id := rq_id r in
  device ← store (GetDevice id);
  match device with
  | Err ErrNotFound => writeError 404 "device not found"
  | Err _ => writeError 500 "failed to get device"
  | Ok device =>
      heartbeats ← store (ListHeartbeats id 20);
      let heartbeats := match heartbeats with Ok l => l | Err _ => [] end in
      connected ← hub_connected id;
      let device := if connected : bool then with_status StatusOnline device else device in
      writeJSON 200 (detail_json {| dd_Device := device; dd_RecentHeartbeats := heartbeats |})
  end.
End devices.
