(* ===== verification/Diagnostics.v ===== *)
(** * Diagnostic endpoints (internal/server/routes_diagnostics.go). *)
From Stdlib Require Import QArith.
From S2P Require Import Prelude GoString GoTime GoFloat RateLimit GoJson Model World Sql Store Hub Broadcaster Auth Config Wire Metrics Http Middleware Server.
Local Open Scope Z_scope.

Definition scopes : list DiagnosticScope := [ScopeFull; ScopeNetwork; ScopeProcesses; ScopeStorage].

(** At an instant [now]: [time.Since(t)] is [now - t]. *)
Definition diagnosticStatus (now : Time) (d : DiagnosticResult) (timeout : Duration)
    : DiagnosticRequestStatus :=
  match dg_Payload d with
  | Some _ => DiagnosticCompleted
  | None =>
      if timeout <? time_Sub now (dg_RequestedAt d) then DiagnosticTimedOut else DiagnosticPending
  end.

Section diagnostics.
Context `{W : World, L : Lib} {D : Type} `{St : Store D} (srv : Server).

Abbreviation H := (Handler (Srv D)).

(** A failure to delete is logged. *)
Definition deleteOrphanedDiagnosticRequest (requestID : string) : HOp (Srv D) unit :=
  _ ← store (DeleteDiagnosticRequest requestID); mret ().

Definition handleRequestDiagnostics : H := λ r,
  let deviceID := rq_id r in
  connected ← hub_connected deviceID;
  if negb connected then writeError 503 "device is not connected"
  else
    match decode_body ["scope"] (λ _ raw s, decode_string raw s) r ScopeFull with
    | None => writeError 400 ("invalid request body: " +:+ json_error (rq_Body r))
    | Some scope =>
        if negb (bool_decide (scope ∈ scopes)) then writeError 422 "invalid scope"
        else
          requestID ← uuid_New;
          result ← store (CreateDiagnosticRequest deviceID requestID scope);
          match result with
          | Err _ => writeError 500 "failed to create diagnostic request"
          | Ok result =>
              match Encode TypeDiagRequest requestID (scope_json scope) with
              | None =>
                  _ ← deleteOrphanedDiagnosticRequest requestID;
                  writeError 500 "failed to encode request"
              | Some msg =>
                  sent ← send deviceID msg;
                  if negb sent then
                    _ ← deleteOrphanedDiagnosticRequest requestID;
                    writeError 503 "failed to deliver request to device"
                  else writeJSON 202 (diagnostic_json (with_diag_status DiagnosticPending result))
              end
          end
    end.

(** The clock is read for each result without a payload. *)
Fixpoint with_statuses (timeout : Duration) (l : list DiagnosticResult)
    : HOp (Srv D) (list DiagnosticResult) :=
  match l with
  | [] => mret []
  | d :: l =>
      now ← match dg_Payload d with None => time_Now | Some _ => mret zero_time end;
      l ← with_statuses timeout l;
      mret (with_diag_status (diagnosticStatus now d timeout) d :: l)
  end.

Definition handleListDiagnostics : H := λ r,
  results ← store (ListDiagnosticResults (rq_id r) 50);
  match results with
  | Err _ => writeError 500 "failed to list diagnostics"
  | Ok results =>
      results ← with_statuses (DiagnosticTimeout (cfg srv)) results;
      writeJSON 200 (json_array (diagnostic_json <$> results))
  end.
End diagnostics.
