(* ===== verification/Sockets.v ===== *)
(** * WebSocket connections, one at a time (internal/server/routes_ws.go and
    internal/ws/client.go).

    What one connection does to the server's state, from its token to its end.
    Hub.v has the same goroutines interleaved; here each stage runs alone, with
    its messages and its answers. *)
From Stdlib Require Import QArith.
From S2P Require Import Prelude GoString GoTime GoFloat RateLimit GoJson GoNumber Model World Sql Store Hub Broadcaster Auth Config Wire Metrics Http Middleware Server.
Local Open Scope Z_scope.

Definition wsBearerSubprotocol : string := "puls.bearer".

Definition comma_byte : ascii := byte 44.

(** The value after the first sentinel that has one. *)
Fixpoint after_sentinel (protocols : list string) : string :=
  match protocols with
  | p :: ((tok :: _) as l) =>
      if bool_decide (p = wsBearerSubprotocol) then tok else after_sentinel l
  | _ => ""
  end.

Definition subprotocolToken (r : Request) : string :=
  after_sentinel
    (v ← Header_Values "Sec-Websocket-Protocol" r; TrimSpace <$> Split v comma_byte).

Definition wsToken (r : Request) : string :=
  let h := Header_Get "Authorization" r in
  if HasPrefix h "Bearer " then TrimSpace (TrimPrefix h "Bearer ")
  else
    let tok := subprotocolToken r in
    if negb (bool_decide (tok = "")) then tok else Query_Get "token" r.

(** [map[string]any]: the keys are sorted. *)
Definition connected_event (deviceID : string) : Event :=
  {| ev_Type := "device.connected"; ev_Payload := [("id", json_string deviceID)] |}.
Definition disconnected_event (deviceID : string) : Event :=
  {| ev_Type := "device.disconnected"; ev_Payload := [("id", json_string deviceID)] |}.
Definition heartbeat_event (deviceID : string) (d : HeartbeatData) : Event :=
  {| ev_Type := "device.heartbeat";
     ev_Payload := [("cpuPercent", encode_float32 (hd_CPUPercent d));
                    ("diskPercent", encode_float32 (hd_DiskPercent d));
                    ("id", json_string deviceID);
                    ("memoryPercent", encode_float32 (hd_MemoryPercent d))] |}.

Section sockets.
Context `{W : World, J : Jwt, L : Lib} {D : Type} `{St : Store D} (srv : Server).

Abbreviation SOp := (HOp (Srv D)).

(** ** Messages: [false] is an error the client's loop logs *)

Definition handleHeartbeat (deviceID : string) (env : Envelope) : SOp bool :=
  match decode_heartbeat (en_Data env) with
  | None => mret false
  | Some data =>
      let hb := {| hb_ID := 0; hb_DeviceID := deviceID; hb_ReceivedAt := zero_time;
                   hb_CPUPercent := hd_CPUPercent data; hb_MemoryPercent := hd_MemoryPercent data;
                   hb_DiskPercent := hd_DiskPercent data; hb_UptimeSeconds := hd_UptimeSeconds data;
                   hb_OSVersion := hd_OSVersion data |} in
      inserted ← store (InsertHeartbeat hb);
      if negb (is_ok inserted) then mret false
      else
        _ ← count IncHeartbeat;
        _ ← store (UpdateLastSeen deviceID);
        _ ← publish (heartbeat_event deviceID data);
        mret true
  end.

Definition handleDiagResponse (env : Envelope) : SOp bool :=
  if bool_decide (en_RequestID env = "") then mret true
  else
    saved ← store (SaveDiagnosticResult (en_RequestID env) (en_Data env));
    mret (is_ok saved).

Definition handleWSMessage (deviceID : string) (env : Envelope) : SOp bool :=
  if bool_decide (en_Type env = TypeHeartbeat) then handleHeartbeat deviceID env
  else if bool_decide (en_Type env = TypeDiagResponse) then handleDiagResponse env
  else mret true.

(** The [allowMessage] given to [NewClient]. *)
Definition allowMessage (deviceID : string) : SOp bool :=
  ok ← limiter_allow sv_wsLimiter put_wsLimiter deviceID;
  if ok : bool then mret true else _ ← count IncWSMessageRejected; mret false.

Definition error_message (requestID message : string) : list ascii :=
  default [] (EncodeError requestID message).

(** The body of the loop of [Client.Run], for one message read. *)
Definition client_message (c : client) (deviceID : string) (raw : list ascii) : SOp unit :=
  match decode_envelope raw with
  | None => _ ← conn_write c (error_message "" "malformed message"); mret ()
  | Some env =>
      allowed ← allowMessage deviceID;
      if negb allowed then
        _ ← conn_write c (error_message (en_RequestID env) "rate limit exceeded"); mret ()
      else _ ← handleWSMessage deviceID env; mret ()
  end.

Fixpoint client_loop (c : client) (deviceID : string) (frames : list (list ascii)) : SOp unit :=
  match frames with
  | [] => mret ()
  | raw :: frames => _ ← client_message c deviceID raw; client_loop c deviceID frames
  end.

(** The deferred calls of [Client.Run]. *)
Definition client_close (c : client) (deviceID : string) : SOp unit :=
  s ← get_srv;
  let '(m, removed) := hub_Unregister c deviceID (sv_hub s) in
  _ ← modify_srv (put_hub m);
  _ ← (if removed : bool then _ ← store (SetDeviceStatus deviceID StatusOffline); mret ()
       else mret ());
  modify_srv (λ s, put_wg (sv_wg s - 1) s).

Definition Run (c : client) (deviceID : string) (frames : list (list ascii)) : SOp unit :=
  deferred (client_loop c deviceID frames) (client_close c deviceID).

(** [NewClient], and [Hub.Register] with the close of the connection replaced. *)
Definition NewClient (deviceID : string) : SOp client :=
  s ← get_srv;
  let c := sv_next s in
  let '(m, old) := hub_Register c deviceID (sv_hub s) in
  _ ← modify_srv (λ s,
        put_next (S c) (put_wg (sv_wg s + 1) (put_hub m
          (put_closed (sv_closed s ++ match old with Some o => [o] | None => [] end) s))));
  mret c.

(** From the accepted upgrade to the loop. *)
Definition client_open (deviceID : string) : SOp client :=
  c ← NewClient deviceID;
  _ ← store (SetDeviceStatus deviceID StatusOnline);
  _ ← publish (connected_event deviceID);
  mret c.

Definition handleWebSocket : Handler (Srv D) := λ r,
  let tokenStr := wsToken r in
  if bool_decide (tokenStr = "") then writeError 401 "missing token"
  else
    claims ← Validate (jwtMgr srv) tokenStr;
    match claims with
    | None => writeError 401 "invalid or expired token"
    | Some claims =>
        if negb (bool_decide (cl_Role claims = RoleDevice)) then writeError 403 "device token required"
        else
          let deviceID := cl_Subject claims in
          match ws_accept r (AllowedOrigins (cfg srv)) [wsBearerSubprotocol] with
          | Err (code, body) =>
              _ ← respond (w_WriteHeader code); respond (w_Write body)
          | Ok _ =>
              _ ← respond (w_WriteHeader 101);
              c ← client_open deviceID;
              _ ← Run c deviceID (rq_frames r);
              publish (disconnected_event deviceID)
          end
    end.

Lemma quiet_deferred {A} (m : SOp A) d : quiet m → quiet d → quiet (deferred m d).
Proof using.
  intros Hm Hd s. destruct (Hm s) as [H1 H2]. unfold deferred. destruct (m s) as [s1 r].
  destruct (Hd s1) as [H3 H4]. destruct (d s1) as [s2 [|]]; simpl in *;
    (split; [congruence|by eapply frame_trans]).
Qed.

Lemma quiet_message c id raw : quiet (client_message c id raw).
Proof using.
  unfold client_message, allowMessage, handleWSMessage, handleHeartbeat, handleDiagResponse.
  respond_tac.
Qed.

Lemma quiet_loop c id frames : quiet (client_loop c id frames).
Proof using.
  induction frames as [|raw frames IH]; simpl; [apply quiet_ret|].
  apply quiet_bind; [apply quiet_message|done].
Qed.

Lemma quiet_close c id : quiet (client_close c id).
Proof using. unfold client_close. respond_tac. Qed.

Lemma quiet_Run c id frames : quiet (Run c id frames).
Proof using. apply quiet_deferred; [apply quiet_loop|apply quiet_close]. Qed.

Lemma quiet_open id : quiet (client_open id).
Proof using. unfold client_open, NewClient. respond_tac. Qed.
End sockets.

#[export] Hint Resolve quiet_message quiet_loop quiet_close quiet_Run quiet_open : puls.
