(* ===== verification/Routes.v ===== *)
(** * The routes and the server's handler (registerRoutes, handleReadyz and New of
    internal/server/server.go, handleEvents of routes_events.go). *)
From Stdlib Require Import QArith.
From S2P Require Import Prelude GoString GoTime GoFloat RateLimit GoJson GoNumber Model World Sql Store Hub Broadcaster Auth Config Wire Metrics Http Middleware Server Devices Diagnostics Sockets.
Local Open Scope Z_scope.

Definition event_json (e : Event) : json :=
  json_object [("type", json_string (ev_Type e)); ("payload", json_object (ev_Payload e))].

Definition marshal_event (e : Event) : option string := unbytes <$> event_json e.

Section routes.
Context `{W : World, J : Jwt, L : Lib} {D : Type} `{St : Store D} (srv : Server).

Abbreviation H := (Handler (Srv D)).

(** The stream: what the request's connection and the other goroutines do is
    [rq_stream], after which the request ends. *)
Definition handleEvents : H := λ r,
  _ ← respond (w_SetHeader "Content-Type" "text/event-stream");
  _ ← respond (w_SetHeader "Cache-Control" "no-cache");
  _ ← respond (w_SetHeader "Connection" "keep-alive");
  id ← uuid_New;
  s ← get_srv;
  let '(bus, lines, _) :=
    Broadcaster.handleEvents marshal_event id (rq_stream r ++ [inr CtxDone]) (sv_bus s) in
  _ ← modify_srv (put_bus bus);
  match lines with
  | [] => mret ()
  | _ => respond (w_Write (bytes (String.concat "" lines)))
  end.

Definition handleReadyz : H := λ r,
  ping ← store Ping;
  match ping with
  | Err _ => writeError 503 "not ready"
  | Ok _ => writeJSON 200 (one_member "status" "ready")
  end.

Definition handleHealthz : H := λ r, writeJSON 200 (one_member "status" "ok").

Definition handleOpenapi : H := λ r,
  _ ← respond (w_SetHeader "Content-Type" "application/json");
  _ ← respond (w_WriteHeader 200);
  respond (w_Write openapiSpec).

(** [Metrics.HTTPHandler]: the gauges are read at the scrape. *)
Definition HTTPHandler : H := λ r,
  c ← read_dat;
  _ ← respond (w_WriteHeader 200);
  respond (w_Write (scrape (ob_metrics (cx_obs c)) (hub_Count (sv_hub (cx_srv c)))
                      (Count (sv_bus (cx_srv c))))).

Definition adminAuth : H → H := requireAuth (jwtMgr srv) RoleAdmin.
Definition public : H → H := rateLimit sv_publicLimiter put_publicLimiter.

Definition api (l : list (option string)) : list (option string) := Some "api" :: Some "v1" :: l.
Definition devices_path (l : list (option string)) : list (option string) := api (Some "devices" :: l).

(** [registerRoutes] *)
Definition registerRoutes : list (route (Srv D)) :=
  [ MkRoute "POST" (api [Some "auth"; Some "admin-token"]) (public (handleAdminToken srv));
    MkRoute "POST" (devices_path [Some "register"]) (public (handleRegister srv));
    MkRoute "GET" (devices_path []) (adminAuth handleListDevices);
    MkRoute "GET" (devices_path [None]) (adminAuth handleGetDevice);
    MkRoute "POST" (devices_path [None; Some "diagnose"]) (adminAuth handleRequestDiagnostics);
    MkRoute "GET" (devices_path [None; Some "diagnostics"]) (adminAuth (handleListDiagnostics srv));
    MkRoute "GET" (api [Some "ws"]) (handleWebSocket srv);
    MkRoute "GET" (api [Some "events"]) (adminAuth handleEvents);
    MkRoute "GET" [Some "openapi.json"] handleOpenapi;
    MkRoute "GET" [Some "healthz"] handleHealthz;
    MkRoute "GET" [Some "readyz"] handleReadyz;
    MkRoute "GET" [Some "metrics"] (rateLimit sv_metricsLimiter put_metricsLimiter HTTPHandler) ].

(** The handler [New] gives to the HTTP server, without tracing. *)
Definition handler : H := wrapMiddleware (mux registerRoutes).
End routes.

(** [NewHub], [NewBroadcaster] and the limiters at the start. *)
Definition new_srv {D} (db : D) (now : Time) : Srv D :=
  MkSrv db ∅ 0 0%nat [] [] NewBroadcaster (newRateLimiter now 5%Q 20) (newRateLimiter now 1%Q 5)
    (newRateLimiter now 2%Q 10).
