(* ===== verification/Logic.v ===== *)
(** * A program logic for handlers.

    [post P m Q]: from a context where [P] holds, [m] returns a value, without a
    panic, and [Q] holds of it and of the context it leaves.  [keeps P m] is an
    invariant.  [Calls P] lists what an invariant owes to the store; every other
    step of the server keeps what is blind to it. *)
From Stdlib Require Import QArith.
From S2P Require Import Prelude GoString GoTime GoFloat RateLimit GoJson Model World Sql Store StoreFacts Hub Broadcaster Auth Config Wire Metrics Http Middleware Server Devices Diagnostics Sockets Routes.
Local Open Scope Z_scope.

Definition post {S A} (P : Ctx S → Prop) (m : HOp S A) (Q : A → Ctx S → Prop) : Prop :=
  ∀ s, P (dat s) → ∃ a, (m s).2 = Ok a ∧ Q a (dat (m s).1).

Definition keeps {S A} (P : Ctx S → Prop) (m : HOp S A) : Prop := post P m (λ _, P).

Section rules.
Context `{W : World} {S : Type}.
Implicit Types P : Ctx S → Prop.

Lemma post_ret {A} P (Q : A → Ctx S → Prop) a : (∀ c, P c → Q a c) → post P (mret a) Q.
Proof. intros H s Hs. exists a. split; [done|by apply H]. Qed.

Lemma post_bind {A B} P (R : A → Ctx S → Prop) (Q : B → Ctx S → Prop) (m : HOp S A)
    (f : A → HOp S B) :
  post P m R → (∀ a, post (R a) (f a) Q) → post P (m ≫= f) Q.
Proof using.
  intros Hm Hf s Hs. destruct (Hm s Hs) as (a & Ha & HR). unfold mbind, st_bind.
  destruct (m s) as [s1 r]. simpl in *. subst r. by apply Hf.
Qed.

Lemma post_weaken {A} P P' (Q Q' : A → Ctx S → Prop) (m : HOp S A) :
  post P m Q → (∀ c, P' c → P c) → (∀ a c, Q a c → Q' a c) → post P' m Q'.
Proof using. intros Hm HP HQ s Hs. destruct (Hm s (HP _ Hs)) as (a & ? & ?). eauto. Qed.

Lemma keeps_ret {A} P (a : A) : keeps P (mret a).
Proof. by apply post_ret. Qed.

Lemma keeps_bind {A B} P (m : HOp S A) (f : A → HOp S B) :
  keeps P m → (∀ a, keeps P (f a)) → keeps P (m ≫= f).
Proof using. intros Hm Hf. by eapply post_bind. Qed.

Lemma keeps_now P : keeps P time_Now.
Proof. intros s Hs. by eexists. Qed.

Lemma keeps_uuid P : keeps P uuid_New.
Proof. intros s Hs. by eexists. Qed.

Lemma keeps_read P : keeps P read_dat.
Proof. intros s Hs. by eexists. Qed.

Lemma keeps_modify P f : (∀ c, P c → P (f c)) → keeps P (modify_dat f).
Proof. intros Hf s Hs. exists (). split; [done|by apply Hf]. Qed.

Lemma keeps_Validate `{J : Jwt} P m tok : keeps P (Validate m tok).
Proof. apply keeps_bind; [apply keeps_now|intros; apply keeps_ret]. Qed.

Lemma keeps_issue `{J : Jwt} P m sub role d : keeps P (issue m sub role d).
Proof. apply keeps_bind; [apply keeps_now|intros; apply keeps_ret]. Qed.

Lemma keeps_deferred {A} P (m : HOp S A) d : keeps P m → keeps P d → keeps P (deferred m d).
Proof using.
  intros Hm Hd s Hs. destruct (Hm s Hs) as (a & Ha & Hc). unfold deferred.
  destruct (m s) as [s1 r]. simpl in *. subst r. destruct (Hd s1 Hc) as ([] & Hu & Hc').
  destruct (d s1) as [s2 r]. simpl in *. subst r. by exists a.
Qed.
End rules.

(** ** Invariants of the server *)

(** [P] does not look at what messages change besides the database: the response,
    the records, the subscribers, the limiters, what is written to sockets. *)
Class Blind {D} (P : Ctx (Srv D) → Prop) : Prop := {
  blind_w c w : P c → P (put_w w c);
  blind_obs c o : P c → P (put_obs o c);
  blind_traffic c sv :
    sv_db sv = sv_db (cx_srv c) → sv_hub sv = sv_hub (cx_srv c) → sv_wg sv = sv_wg (cx_srv c) →
    sv_next sv = sv_next (cx_srv c) → sv_closed sv = sv_closed (cx_srv c) →
    P c → P (put_srv sv c)
}.

(** Nor at the connections. *)
Class HubBlind {D} (P : Ctx (Srv D) → Prop) : Prop := {
  blind_conns c sv :
    sv_db sv = sv_db (cx_srv c) → sv_written sv = sv_written (cx_srv c) →
    sv_bus sv = sv_bus (cx_srv c) → sv_wsLimiter sv = sv_wsLimiter (cx_srv c) →
    sv_publicLimiter sv = sv_publicLimiter (cx_srv c) →
    sv_metricsLimiter sv = sv_metricsLimiter (cx_srv c) →
    P c → P (put_srv sv c)
}.

Class Calls {D} `{W : World} `{St : Store D} (P : Ctx (Srv D) → Prop) : Prop := {
  calls_blind :: Blind P;
  calls_hub_blind :: HubBlind P;
  calls_Ping : keeps P (store Ping);
  calls_CreateDevice req : keeps P (store (CreateDevice req));
  calls_GetDevice id : keeps P (store (GetDevice id));
  calls_ListDevices limit cursor : 0 < limit → keeps P (store (ListDevices limit cursor));
  calls_SetDeviceStatus id st : keeps P (store (SetDeviceStatus id st));
  calls_UpdateLastSeen id : keeps P (store (UpdateLastSeen id));
  calls_InsertHeartbeat hb : keeps P (store (InsertHeartbeat hb));
  calls_ListHeartbeats id limit : keeps P (store (ListHeartbeats id limit));
  calls_CreateDiagnosticRequest id req sc : keeps P (store (CreateDiagnosticRequest id req sc));
  calls_DeleteDiagnosticRequest req : keeps P (store (DeleteDiagnosticRequest req));
  calls_SaveDiagnosticResult req p : keeps P (store (SaveDiagnosticResult req p));
  calls_ListDiagnosticResults id limit : keeps P (store (ListDiagnosticResults id limit))
}.

Lemma list_limit_range raw limit : list_limit raw = Some limit → 1 <= limit <= maxDeviceListLimit.
Proof.
  unfold list_limit, maxDeviceListLimit. case_bool_decide; [by intros [= <-]|].
  destruct (Atoi raw) as [n|]; [|done]. destruct (Z.leb_spec n 0); [done|].
  intros [= <-]. case_match; bool_prop; lia.
Qed.

Section handlers.
Context `{W : World, J : Jwt, L : Lib} {D : Type}.
Context (P : Ctx (Srv D) → Prop) `{HP : !Blind P}.

Lemma keeps_respond f : keeps P (respond f).
Proof using HP. apply keeps_modify. intros c Hc. by apply blind_w. Qed.

Lemma keeps_log l : keeps P (log l).
Proof using HP. apply keeps_modify. intros c Hc. by apply blind_obs. Qed.

Lemma keeps_count f : keeps P (count f).
Proof using HP. apply keeps_modify. intros c Hc. by apply blind_obs. Qed.

Lemma keeps_conns `{HQ : !HubBlind P} f :
  (∀ sv, sv_db (f sv) = sv_db sv ∧ sv_written (f sv) = sv_written sv ∧ sv_bus (f sv) = sv_bus sv ∧
     sv_wsLimiter (f sv) = sv_wsLimiter sv ∧ sv_publicLimiter (f sv) = sv_publicLimiter sv ∧
     sv_metricsLimiter (f sv) = sv_metricsLimiter sv) →
  keeps P (modify_srv f).
Proof using.
  intros Hf. apply keeps_modify. intros c Hc. destruct (Hf (cx_srv c)) as (?&?&?&?&?&?).
  by apply blind_conns.
Qed.

Lemma keeps_put_bus (f : Srv D → gmap string (list Event)) : keeps P (modify_srv (λ s, put_bus (f s) s)).
Proof using HP. apply keeps_modify. intros c Hc. by apply blind_traffic. Qed.

Lemma keeps_set_bus b : keeps P (modify_srv (put_bus b)).
Proof using HP. apply keeps_modify. intros c Hc. by apply blind_traffic. Qed.

Lemma keeps_get_srv : keeps P get_srv.
Proof using HP. apply keeps_bind; [apply keeps_read|intros; apply keeps_ret]. Qed.

Lemma keeps_publish e : keeps P (publish e).
Proof using HP. apply keeps_put_bus. Qed.

Lemma keeps_limiter get put key :
  (∀ l c, P c → P (put_srv (put l (cx_srv c)) c)) → keeps P (limiter_allow get put key).
Proof using.
  intros Hput. apply keeps_bind; [apply keeps_now|]. intros now s Hs. unfold on_srv, on_part.
  cbn [tick dat]. destruct (allow now key _) as [l ok]. exists ok. split; [reflexivity|].
  apply Hput, Hs.
Qed.

Lemma keeps_wsLimiter key : keeps P (limiter_allow sv_wsLimiter put_wsLimiter key).
Proof using HP. apply keeps_limiter. intros l c Hc. by apply blind_traffic. Qed.

Lemma keeps_publicLimiter key : keeps P (limiter_allow sv_publicLimiter put_publicLimiter key).
Proof using HP. apply keeps_limiter. intros l c Hc. by apply blind_traffic. Qed.

Lemma keeps_metricsLimiter key : keeps P (limiter_allow sv_metricsLimiter put_metricsLimiter key).
Proof using HP. apply keeps_limiter. intros l c Hc. by apply blind_traffic. Qed.

Lemma keeps_conn_write c msg : keeps P (conn_write c msg).
Proof using HP.
  intros s Hs. unfold conn_write. case_bool_decide; [eexists; split; [reflexivity|exact Hs]|].
  destruct (io_at (tick s)); (eexists; split; [reflexivity|]);
    first [exact Hs|apply blind_traffic; [reflexivity..|exact Hs]].
Qed.

Lemma keeps_send id msg : keeps P (send id msg).
Proof using HP.
  apply keeps_bind; [apply keeps_get_srv|]. intros sv.
  case_match; [apply keeps_conn_write|apply keeps_ret].
Qed.

Lemma keeps_connected id : keeps P (hub_connected id).
Proof using HP. apply keeps_bind; [apply keeps_get_srv|intros; apply keeps_ret]. Qed.

Lemma keeps_connected_ids : keeps P hub_connected_ids.
Proof using HP. apply keeps_bind; [apply keeps_get_srv|intros; apply keeps_ret]. Qed.

Lemma keeps_writeJSON code v : keeps P (writeJSON code v).
Proof using HP.
  do 2 (apply keeps_bind; [apply keeps_respond|intros _]).
  destruct v; [apply keeps_respond|apply keeps_ret].
Qed.
End handlers.

#[export] Hint Resolve keeps_ret keeps_now keeps_uuid keeps_read keeps_Validate keeps_issue
  keeps_respond keeps_log keeps_count keeps_put_bus keeps_set_bus keeps_get_srv keeps_publish keeps_conn_write keeps_send
  keeps_connected keeps_connected_ids keeps_writeJSON calls_Ping calls_CreateDevice calls_GetDevice
  calls_SetDeviceStatus calls_UpdateLastSeen calls_InsertHeartbeat calls_ListHeartbeats
  calls_CreateDiagnosticRequest calls_DeleteDiagnosticRequest calls_SaveDiagnosticResult
  calls_ListDiagnosticResults : puls.

(** Handlers by their shape, as [respond_tac] does. *)
Ltac keeps_tac :=
  repeat first
    [ progress intros
    | solve [eauto with puls typeclass_instances]
    | apply keeps_conns; [typeclasses eauto|intros ?; split_and!; reflexivity]
    | apply keeps_bind
    | case_match ].

Section routes.
Context `{W : World, J : Jwt, L : Lib} {D : Type} `{St : Store D} (srv : Server).
Context (P : Ctx (Srv D) → Prop) `{HP : !Calls P}.

Lemma keeps_handleAdminToken r : keeps P (handleAdminToken srv r).
Proof using HP. unfold handleAdminToken, writeError, IssueAdminToken. keeps_tac. Qed.

Lemma keeps_handleRegister r : keeps P (handleRegister srv r).
Proof using HP. unfold handleRegister, writeError, IssueDeviceToken. keeps_tac. Qed.

Lemma keeps_handleListDevices r : keeps P (handleListDevices r).
Proof using HP.
  unfold handleListDevices, writeError. destruct (list_limit _) as [limit|] eqn:Hl; [|keeps_tac].
  apply list_limit_range in Hl. apply keeps_bind; [apply calls_ListDevices; lia|]. keeps_tac.
Qed.

Lemma keeps_handleGetDevice r : keeps P (handleGetDevice r).
Proof using HP. unfold handleGetDevice, writeError. keeps_tac. Qed.

Lemma keeps_handleRequestDiagnostics r : keeps P (handleRequestDiagnostics r).
Proof using HP.
  unfold handleRequestDiagnostics, writeError, deleteOrphanedDiagnosticRequest. keeps_tac.
Qed.

Lemma keeps_with_statuses t l : keeps P (with_statuses t l).
Proof using HP. induction l as [|d l IH]; simpl; keeps_tac. Qed.

Lemma keeps_handleListDiagnostics r : keeps P (handleListDiagnostics srv r).
Proof using HP.
  unfold handleListDiagnostics, writeError. pose proof keeps_with_statuses. keeps_tac.
Qed.

Lemma keeps_allowMessage id : keeps P (allowMessage id).
Proof using HP.
  unfold allowMessage. apply keeps_bind; [apply (keeps_wsLimiter P)|]. keeps_tac.
Qed.

Lemma keeps_message c id raw : keeps P (client_message c id raw).
Proof using HP.
  pose proof keeps_allowMessage.
  unfold client_message, handleWSMessage, handleHeartbeat, handleDiagResponse. keeps_tac.
Qed.

Lemma keeps_loop c id frames : keeps P (client_loop c id frames).
Proof using HP.
  induction frames as [|raw frames IH]; simpl; [keeps_tac|].
  apply keeps_bind; [apply keeps_message|done].
Qed.

Lemma keeps_close c id : keeps P (client_close c id).
Proof using HP. unfold client_close. keeps_tac. Qed.

Lemma keeps_open id : keeps P (client_open id).
Proof using HP. unfold client_open, NewClient. keeps_tac. Qed.

Lemma keeps_Run c id frames : keeps P (Run c id frames).
Proof using HP. apply keeps_deferred; [apply keeps_loop|apply keeps_close]. Qed.

Lemma keeps_handleWebSocket r : keeps P (handleWebSocket srv r).
Proof using HP.
  unfold handleWebSocket, writeError. pose proof keeps_open. pose proof keeps_Run. keeps_tac.
Qed.

Lemma keeps_handleEvents r : keeps P (handleEvents r).
Proof using HP. unfold Routes.handleEvents. keeps_tac. Qed.

Lemma keeps_handleReadyz r : keeps P (handleReadyz r).
Proof using HP. unfold handleReadyz, writeError. keeps_tac. Qed.

Lemma keeps_requireAuth m role (next : Handler (Srv D)) r :
  (∀ r, keeps P (next r)) → keeps P (requireAuth m role next r).
Proof using HP. intros Hn. unfold requireAuth, writeError. keeps_tac. Qed.

Lemma keeps_rateLimit get put (next : Handler (Srv D)) r :
  (∀ key, keeps P (limiter_allow get put key)) → (∀ r, keeps P (next r)) →
  keeps P (rateLimit get put next r).
Proof using HP.
  intros Hput Hn. unfold rateLimit, writeError. apply keeps_bind; [apply Hput|]. keeps_tac.
Qed.

(** Every route keeps [P], and so returns. *)
Lemma keeps_routes : Forall (λ rt, ∀ r, keeps P (rt_Handler rt r)) (registerRoutes srv).
Proof using HP.
  assert (Hpub : ∀ next : Handler (Srv D), (∀ r, keeps P (next r)) → ∀ r, keeps P (public next r)).
  { intros next Hn r. apply keeps_rateLimit; [apply (keeps_publicLimiter P)|done]. }
  assert (Hadm : ∀ next : Handler (Srv D), (∀ r, keeps P (next r)) → ∀ r, keeps P (adminAuth srv next r)).
  { intros next Hn r. by apply keeps_requireAuth. }
  unfold registerRoutes. repeat apply Forall_cons_2; [..|apply Forall_nil; done]; cbn [rt_Handler].
  - apply Hpub, keeps_handleAdminToken.
  - apply Hpub, keeps_handleRegister.
  - apply Hadm, keeps_handleListDevices.
  - apply Hadm, keeps_handleGetDevice.
  - apply Hadm, keeps_handleRequestDiagnostics.
  - apply Hadm, keeps_handleListDiagnostics.
  - apply keeps_handleWebSocket.
  - apply Hadm, keeps_handleEvents.
  - intros r. unfold handleOpenapi. keeps_tac.
  - intros r. unfold handleHealthz. keeps_tac.
  - apply keeps_handleReadyz.
  - intros r. apply keeps_rateLimit; [apply (keeps_metricsLimiter P)|]. intros r'. unfold HTTPHandler. keeps_tac.
Qed.
End routes.
