(* ===== verification/ServerFacts.v ===== *)
(** * The whole server.

    Over a store that meets the specification, every request is answered,
    whatever it is, and the tables keep their integrity; and what is counted of
    requests stays within fixed labels. *)
From Stdlib Require Import QArith.
From S2P Require Import Prelude GoString GoTime GoFloat RateLimit GoJson Model World Sql Store StoreFacts Hub Broadcaster Auth Config Wire Metrics Http Middleware Server Devices Diagnostics Sockets Routes Logic.
Local Open Scope Z_scope.

(** ** No call of the specification panics *)

Definition sane {D A} (m : Op D store_err A) : Prop := ∀ s, (m s).2 ≠ Err Panicked.

Section sane.
Context `{W : World} {D : Type}.

Lemma sane_ret {A} (a : A) : sane (D := D) (mret a).
Proof. done. Qed.

Lemma sane_fail {A} e : e ≠ Panicked → sane (D := D) (A := A) (st_fail e).
Proof. intros He s. simpl. congruence. Qed.

Lemma sane_bind {A B} (m : Op D store_err A) (f : A → Op D store_err B) :
  sane m → (∀ a, sane (f a)) → sane (m ≫= f).
Proof using.
  intros Hm Hf s. specialize (Hm s). unfold mbind, st_bind. destruct (m s) as [s1 [a|e]]; [apply Hf|].
  simpl in *. congruence.
Qed.

Lemma sane_now : sane (D := D) time_Now.
Proof. done. Qed.

Lemma sane_uuid : sane (D := D) uuid_New.
Proof. done. Qed.

Lemma sane_wrap {A} what (m : Op D store_err A) : sane m → sane (wrap what m).
Proof using. intros Hm s. specialize (Hm s). unfold wrap. by destruct (m s) as [s1 [a|[]]]. Qed.
End sane.

Section sane_spec.
Context `{W : World} (round : Time → Time) (collate : string → string → comparison)
  (accepts : string → bool).

Lemma sane_hash secret : sane (hash_secret (C := Time) secret).
Proof. intros s. unfold hash_secret. simpl. by destruct (bcrypt_at _ _). Qed.

Lemma sane_affected n : sane (require_affected (C := Time) n).
Proof. unfold require_affected. case_match; [by apply sane_fail|apply sane_ret]. Qed.

Lemma sane_query {R} args (q : nat → Tables Time → R) : sane (query accepts args q).
Proof.
  unfold query. case_match; [|by intros s]. intros s. unfold db_query. by destruct (io_at _).
Qed.

Lemma sane_exec_insert args skip f : sane (exec_insert accepts args skip f).
Proof.
  unfold exec_insert. case_match; [|by intros s]. intros s. unfold db_exec_insert.
  by destruct (io_at _), (f (dat s)) as [[]|].
Qed.

Lemma sane_exec args f : sane (Store.exec accepts args f).
Proof. apply sane_exec_insert. Qed.

Lemma sane_page_start cursor : sane (D := Tables Time) (st_lift (page_start cursor)).
Proof.
  intros s. simpl. unfold page_start. case_bool_decide; [done|].
  unfold Cursor.decodeDeviceCursor. by repeat case_match; simplify_eq.
Qed.

Lemma sane_cut_page limit l : 0 < limit → sane (cut_page (C := Time) limit l).
Proof.
  intros Hl. unfold cut_page. destruct (Z.leb_spec (Z.of_nat (length l)) limit); [apply sane_ret|].
  rewrite (proj2 (Z.ltb_ge limit 0)) by lia.
  destruct (last _) as [d|] eqn:Hlast; [apply sane_ret|].
  apply last_None in Hlast. apply (f_equal length) in Hlast. rewrite length_take in Hlast. simpl in Hlast. lia.
Qed.
End sane_spec.

#[export] Hint Resolve sane_ret sane_now sane_uuid sane_wrap sane_hash sane_affected sane_query
  sane_exec sane_exec_insert sane_page_start : puls.

Ltac sane_tac :=
  repeat first
    [ progress intros
    | solve [eauto with puls]
    | by apply sane_fail
    | apply sane_wrap
    | apply sane_bind
    | case_match ].

(** ** Invariants of the tables are invariants of the server *)

Definition on_db (Q : Tables Time → Prop) (p : string) (c : Ctx (Srv (Tables Time))) : Prop :=
  Q (sv_db (cx_srv c)) ∧ cx_pattern c = p.

#[export] Instance on_db_blind Q p : Blind (on_db Q p).
Proof. split; intros c; unfold on_db; [done..|]. intros sv Hsv _ _ _ _ [HQ Hp]. simpl. by rewrite Hsv. Qed.

#[export] Instance on_db_hub_blind Q p : HubBlind (on_db Q p).
Proof. split; intros c sv Hsv _ _ _ _ _ [HQ Hp]. unfold on_db. simpl. by rewrite Hsv. Qed.

Section invariants.
Context `{W : World} (round : Time → Time) (collate : string → string → comparison)
  (accepts : string → bool) (Q : Tables Time → Prop) (Hok : step_ok round accepts Q) (p : string).

Lemma store_keeps {A} (m : Op (Tables Time) store_err A) :
  preserves Q m → sane m → keeps (on_db Q p) (store m).
Proof using.
  intros Hp Hs [t c] [HQ Hpat]. unfold store, on_srv, on_part. cbn [tick dat].
  specialize (Hp (MkSys t (sv_db (cx_srv c))) HQ). specialize (Hs (MkSys t (sv_db (cx_srv c)))).
  destruct (m _) as [[t' T'] [a|e]]; simpl in *.
  - by exists (Ok a).
  - destruct e; try done; by eexists.
Qed.

(** [call] of a call does to the tables what the call does. *)
Lemma preserves_call {A} (m : Op (Tables Time) store_err A) :
  preserves Q (_ ← m; mret ()) → preserves Q m.
Proof using.
  intros H s HQ. specialize (H s HQ). unfold mbind, st_bind in H. by destruct (m s) as [s' [a|e]].
Qed.

Abbreviation spec := (Spec round collate accepts).

Lemma spec_preserves c : preserves Q (call (H := spec) c).
Proof using Hok. by apply call_preserves. Qed.

Lemma spec_calls : Calls (St := spec) (on_db Q p).
Proof using Hok.
  split.
  - apply on_db_blind.
  - apply on_db_hub_blind.
  - apply store_keeps; [apply (spec_preserves CallPing)|]. apply sane_query with (accepts := λ _, true) (args := []).
  - intros req. apply store_keeps; [apply preserves_call, (spec_preserves (CallCreateDevice req))|].
    simpl. unfold spec_CreateDevice. sane_tac.
  - intros id. apply store_keeps; [apply preserves_call, (spec_preserves (CallGetDevice id))|].
    simpl. unfold spec_GetDevice. sane_tac.
  - intros limit cursor Hl.
    apply store_keeps; [apply preserves_call, (spec_preserves (CallListDevices limit cursor))|].
    simpl. unfold spec_ListDevices. apply sane_bind; [apply sane_page_start|]. intros k.
    apply sane_bind; [apply sane_wrap, sane_query|]. intros rows. by apply sane_cut_page.
  - intros id st. apply store_keeps; [apply (spec_preserves (CallSetDeviceStatus id st))|].
    simpl. unfold spec_SetDeviceStatus. sane_tac.
  - intros id. apply store_keeps; [apply (spec_preserves (CallUpdateLastSeen id))|].
    simpl. unfold spec_UpdateLastSeen. sane_tac.
  - intros hb. apply store_keeps; [apply (spec_preserves (CallInsertHeartbeat hb))|].
    simpl. unfold spec_InsertHeartbeat. sane_tac.
  - intros id n. apply store_keeps; [apply preserves_call, (spec_preserves (CallListHeartbeats id n))|].
    simpl. unfold spec_ListHeartbeats. sane_tac.
  - intros id req sc.
    apply store_keeps; [apply preserves_call, (spec_preserves (CallCreateDiagnosticRequest id req sc))|].
    simpl. unfold spec_CreateDiagnosticRequest. sane_tac.
  - intros req. apply store_keeps; [apply (spec_preserves (CallDeleteDiagnosticRequest req))|].
    simpl. unfold spec_DeleteDiagnosticRequest. sane_tac.
  - intros req pl. apply store_keeps; [apply (spec_preserves (CallSaveDiagnosticResult req pl))|].
    simpl. unfold spec_SaveDiagnosticResult. sane_tac.
  - intros id n. apply store_keeps; [apply preserves_call, (spec_preserves (CallListDiagnosticResults id n))|].
    simpl. unfold spec_ListDiagnosticResults. sane_tac.
Qed.
End invariants.

(** ** Answers *)

Section answers.
Context `{W : World} {S : Type}.

Lemma responds_write l : responds (S := S) (respond (w_Write l)).
Proof using.
  intros s [Hs Hc].
  cbn [respond modify_dat fst snd dat put_w cx_w]. unfold accounted, final_status, w_Write, send_header.
  cbn [w_sent w_captured]. rewrite Hs. split; [exact Hc|]. split; [|discriminate]. repeat split.
Qed.

Lemma responds_only_status code : responds (S := S) (respond (w_WriteHeader code)).
Proof using. intros s Hs. by apply (responds_status code id). Qed.

(** Silent work after the answer, if it does not panic. *)
Lemma responds_then (m : HOp S unit) (k : HOp S unit) :
  responds m → quiet k → keeps (λ _, True) k → responds (_ ← m; k).
Proof using.
  intros Hm Hq Hk s Hs. destruct (Hm s Hs) as (H1 & H2 & H3). unfold mbind, st_bind.
  destruct (m s) as [s1 [u|e]]; simpl in *; [|by split_and!].
  destruct (Hk s1 I) as (v & Hv & _). destruct (Hq s1) as [H4 H5]. rewrite H4, Hv.
  split_and!; [done|by eapply frame_trans|done].
Qed.

Lemma responds_requireAuth `{J : Jwt} m role (next : Handler S) r :
  (∀ r, responds (next r)) → responds (requireAuth m role next r).
Proof using. intros Hn. unfold requireAuth, writeError. respond_tac. Qed.

Lemma responds_rateLimit get put (next : Handler S) r :
  (∀ r, responds (next r)) → responds (rateLimit get put next r).
Proof using.
  intros Hn. unfold rateLimit, writeError. apply responds_bind; [apply quiet_limiter|]. intros [].
  - apply Hn.
  - apply responds_header, responds_writeJSON.
Qed.

Lemma find_route_in (routes : list (route S)) method segs rt id :
  find_route routes method segs = Some (rt, id) → rt ∈ routes.
Proof using.
  induction routes as [|rt' routes IH]; simpl; [done|]. intros H.
  destruct (method_matches _ _); [|right; auto].
  destruct (match_segments _ _) as [o|]; [|right; auto]. simplify_eq. left.
Qed.

Lemma responds_mux (routes : list (route S)) r :
  Forall (λ rt, ∀ r, responds (rt_Handler rt r)) routes → responds (mux routes r).
Proof using.
  intros Hr. unfold mux. apply responds_bind; [apply quiet_pattern|]. intros _.
  case_match; [apply responds_header, responds_only_status|].
  destruct (find_route _ _ _) as [[rt id]|] eqn:Hf.
  - apply find_route_in in Hf. rewrite Forall_forall in Hr. by apply Hr.
  - case_match; apply responds_http_Error.
Qed.
End answers.

Section route_answers.
Context `{W : World, J : Jwt, L : Lib} {D : Type} `{St : Store D} (srv : Server).
Context `{Hc : !Calls (D := D) (λ _, True)}.

Lemma quiet_with_statuses t l : quiet (with_statuses (D := D) t l).
Proof. induction l as [|d l IH]; simpl; respond_tac. Qed.

Lemma responds_handleWebSocket r : responds (handleWebSocket srv r).
Proof using Hc.
  unfold handleWebSocket, writeError. case_match; [apply responds_writeJSON|].
  apply responds_bind; [apply quiet_Validate|]. intros [claims|]; [|apply responds_writeJSON].
  case_match; [apply responds_writeJSON|]. destruct (ws_accept _ _ _) as [u|[code body]].
  - apply responds_then; [apply responds_only_status|respond_tac|].
    pose proof (keeps_open (λ _, True)). pose proof (keeps_Run (λ _, True)). keeps_tac.
  - apply responds_body.
Qed.

Lemma responds_handleEvents r : responds (handleEvents (D := D) r).
Proof using.
  unfold Routes.handleEvents. do 3 apply responds_header.
  apply responds_bind; [apply quiet_uuid|intros id]. apply responds_bind; [apply quiet_get_srv|intros sv].
  destruct (Broadcaster.handleEvents _ _ _ _) as [[bus lines] returned].
  apply responds_bind; [apply quiet_modify_srv|]. intros _.
  destruct lines; [apply responds_quiet, quiet_ret|apply responds_write].
Qed.

Lemma responds_routes : Forall (λ rt, ∀ r, responds (rt_Handler rt r)) (registerRoutes srv).
Proof using Hc.
  assert (Hpub : ∀ next : Handler (Srv D), (∀ r, responds (next r)) → ∀ r, responds (public next r)).
  { intros next Hn r. by apply responds_rateLimit. }
  assert (Hadm : ∀ next : Handler (Srv D), (∀ r, responds (next r)) → ∀ r, responds (adminAuth srv next r)).
  { intros next Hn r. by apply responds_requireAuth. }
  unfold registerRoutes. repeat apply Forall_cons_2; [..|apply Forall_nil; done]; cbn [rt_Handler].
  - apply Hpub. intros r. unfold handleAdminToken, writeError, IssueAdminToken, issue. respond_tac.
  - apply Hpub. intros r. unfold handleRegister, writeError, IssueDeviceToken, issue. respond_tac.
  - apply Hadm. intros r. unfold handleListDevices, writeError. respond_tac.
  - apply Hadm. intros r. unfold handleGetDevice, writeError. respond_tac.
  - apply Hadm. intros r.
    unfold handleRequestDiagnostics, writeError, deleteOrphanedDiagnosticRequest. respond_tac.
  - apply Hadm. intros r. unfold handleListDiagnostics, writeError. pose proof quiet_with_statuses. respond_tac.
  - apply responds_handleWebSocket.
  - apply Hadm, responds_handleEvents.
  - intros r. unfold handleOpenapi. apply responds_header, responds_body.
  - intros r. unfold handleHealthz. apply responds_writeJSON.
  - intros r. unfold handleReadyz, writeError. respond_tac.
  - intros r. apply responds_rateLimit. intros r'. unfold HTTPHandler.
    apply responds_bind; [apply quiet_read|intros c]. apply responds_body.
Qed.
End route_answers.

(** ** The patterns *)

Definition patterns : list string :=
  ["POST /api/v1/auth/admin-token"; "POST /api/v1/devices/register"; "GET /api/v1/devices";
   "GET /api/v1/devices/{id}"; "POST /api/v1/devices/{id}/diagnose";
   "GET /api/v1/devices/{id}/diagnostics"; "GET /api/v1/ws"; "GET /api/v1/events";
   "GET /openapi.json"; "GET /healthz"; "GET /readyz"; "GET /metrics"].

Definition route_labels : list string := "unmatched" :: patterns.

Lemma patterns_eq `{W : World, J : Jwt, L : Lib} {D} `{St : Store D} srv :
  pattern_text <$> registerRoutes srv = patterns.
Proof. reflexivity. Qed.

Section serving.
Context `{W : World, J : Jwt, L : Lib} (round : Time → Time) (collate : string → string → comparison)
  (accepts : string → bool) (Q : Tables Time → Prop) (Hok : step_ok round accepts Q) (srv : Server).

Abbreviation spec := (Spec round collate accepts).

Lemma mux_post r p0 :
  post (on_db Q p0) (mux (registerRoutes (St := spec) srv) r)
    (λ _ c, Q (sv_db (cx_srv c)) ∧ (cx_pattern c = "" ∨ cx_pattern c ∈ patterns)).
Proof using Hok.
  unfold mux.
  set (found := find_route _ _ _).
  set (p := match found with Some (rt, _) => pattern_text rt | None => "" end).
  assert (Hp : p = "" ∨ p ∈ patterns).
  { unfold p. destruct found as [[rt id]|] eqn:Hf; [|by left]. right. apply find_route_in in Hf.
    rewrite <-(patterns_eq (St := spec) srv). by apply list_elem_of_fmap_2. }
  pose proof (spec_calls round collate accepts Q Hok p) as Hcalls.
  eapply post_bind with (R := λ _, on_db Q p).
  { intros s [HQ _]. exists (). split; [done|by split]. }
  intros _. eapply post_weaken with (Q := λ _, on_db Q p); [|done|].
  2: { intros _ c [HQ Hc]. by rewrite Hc. }
  change (keeps (on_db Q p) (if negb (bool_decide (clean_path (rq_Path r) = path_segments (rq_Path r)))
    then _ ← respond (w_SetHeader "Location" (segments_text (Some <$> clean_path (rq_Path r))));
         respond (w_WriteHeader redirect_status)
    else match found with
         | Some (rt, id) => rt_Handler rt (with_id (default "" id) r)
         | None => if path_known (registerRoutes (St := spec) srv) (clean_path (rq_Path r))
                   then http_Error "Method Not Allowed" 405
                   else http_Error "404 page not found" 404
         end)).
  assert (Herr : ∀ msg code, keeps (on_db Q p) (http_Error msg code)) by (unfold http_Error; keeps_tac).
  case_match; [keeps_tac|].
  destruct found as [[rt id]|] eqn:Hf; [|case_match; apply Herr].
  apply find_route_in in Hf.
  pose proof (keeps_routes (St := spec) srv (on_db Q p)) as Hk. rewrite Forall_forall in Hk. by apply Hk.
Qed.
End serving.
