(* ===== verification/Service.v ===== *)
(** * The server over time.

    What reaches a running server, one input after the other: HTTP requests, and
    the stages of WebSocket connections between them.  The theorems hold for
    every sequence of inputs and every world: failing databases, any clock and
    identifiers that formats can hold. *)
From Stdlib Require Import QArith.
From S2P Require Import Prelude GoString GoTime GoFloat RateLimit GoJson Model World Sql Store StoreFacts Hub Broadcaster Auth Config Wire Metrics Http Middleware Server Devices Diagnostics Sockets Routes Logic ServerFacts.
Local Open Scope Z_scope.

Inductive input : Type :=
  | HttpRequest (r : Request)
  | SocketOpen (deviceID : string)
  | SocketMessage (c : client) (deviceID : string) (raw : list ascii)
  | SocketClose (c : client) (deviceID : string).

(** Each request has a writer of its own, and no pattern yet. *)
Definition reset {S} (c : Ctx S) : Ctx S := MkCtx (cx_srv c) (cx_obs c) new_writer "".

Section service.
Context `{W : World, J : Jwt, L : Lib} {D : Type} `{St : Store D} (srv : Server).

Definition serve (s : Sys (Ctx (Srv D))) (i : input) : Sys (Ctx (Srv D)) :=
  let s := MkSys (tick s) (reset (dat s)) in
  match i with
  | HttpRequest r => (handler srv r s).1
  | SocketOpen id => (client_open id s).1
  | SocketMessage c id raw => (client_message c id raw s).1
  | SocketClose c id => (client_close c id s).1
  end.

Definition serve_all (l : list input) (s : Sys (Ctx (Srv D))) : Sys (Ctx (Srv D)) := foldl serve s l.
End service.

(** The label values of the histogram of durations. *)
Definition labels_ok (m : Metrics) : Prop :=
  ∀ l, is_Some (mx_httpRequestDuration m !! l) → l.1 ∈ method_labels ∧ l.2 ∈ route_labels.

(** The requests of a list of inputs, and the lines logged of requests. *)
Definition requests (l : list input) : list Request :=
  omap (λ i, match i with HttpRequest r => Some r | _ => None end) l.

Definition logged (l : list log_line) : list (option (string * string)) :=
  (λ x, match x with LogHttp m p _ => Some (m, p) | LogPanic _ => None end) <$> l.

Section steps.
Context `{W : World, J : Jwt, L : Lib} (round : Time → Time) (collate : string → string → comparison)
  (accepts : string → bool) (Q : Tables Time → Prop) (Hok : step_ok round accepts Q) (srv : Server).

Abbreviation spec := (Spec round collate accepts).

Lemma true_calls : Calls (St := spec) (λ _, True).
Proof using.
  assert (H : step_ok round accepts (λ _, True)) by by split.
  pose proof (λ p, spec_calls round collate accepts (λ _, True) H p) as HC.
  assert (HK : ∀ A (m : HOp (Srv (Tables Time)) A),
    (∀ p, keeps (on_db (λ _, True) p) m) → keeps (λ _, True) m).
  { intros A m Hm s _. destruct (Hm (cx_pattern (dat s)) s) as (a & Ha & _); [by split|]. by exists a. }
  split; [by split|by split|..]; intros; apply HK; intros pat; destruct (HC pat); auto.
Qed.

(** One request, from a context with a new writer. *)
Lemma handler_step r (s : Sys (Ctx (Srv (Tables Time)))) :
  Q (sv_db (cx_srv (dat s))) → cx_w (dat s) = new_writer → cx_pattern (dat s) = "" →
  let out := handler (St := spec) srv r s in
  out.2 = Ok () ∧ Q (sv_db (cx_srv (dat out.1))) ∧
  ob_log (cx_obs (dat out.1)) =
    ob_log (cx_obs (dat s)) ++ [LogHttp (rq_Method r) (rq_Path r) (final_status (cx_w (dat out.1)))] ∧
  (labels_ok (ob_metrics (cx_obs (dat s))) → labels_ok (ob_metrics (cx_obs (dat out.1)))).
Proof using Hok.
  intros HQ Hw Hp out. pose proof true_calls as HT.
  set (next := mux (registerRoutes (St := spec) srv)).
  assert (Hr : responds (next (with_limit maxRequestBytes r))).
  { apply responds_mux. exact (responds_routes (St := spec) srv). }
  destruct (mux_post round collate accepts Q Hok srv (with_limit maxRequestBytes r) "" (chained s))
    as (u & Hu & HQ' & Hpat); [by split|]. fold next in Hu, HQ', Hpat.
  destruct (Hr (chained s)) as (Hacc & (Hlen & Hlog & Hm & Hd) & _).
  { unfold chained. simpl. rewrite Hw. by repeat constructor. }
  destruct (recovered_accounted (maxBytesMiddleware next) r (chained s) Hr) as (Hok1 & Hacc1 & Hlen1 & Hpat1 & Hsrv & Hmet & _ & Hcase).
  { unfold chained. simpl. rewrite Hw. by repeat constructor. }
  unfold maxBytesMiddleware in *. rewrite Hu in Hcase. destruct Hcase as [Hw1 Hlog1].
  assert (Hout : out = wrapMiddleware next r s) by done.
  unfold wrapMiddleware, loggingMiddleware, Middleware, deferred, get_status, time_Now, respond,
    modify_dat, mbind, st_bind, mret, st_ret, read_dat, count, log in Hout. cbn [tick dat] in Hout.
  change (maxBytesMiddleware next) with (λ r, next (with_limit maxRequestBytes r)) in Hout.
  replace (MkSys (S (S (tick s))) _) with (chained s) in Hout by (unfold chained, bump; simpl; f_equal; lia).
  destruct (recoveryMiddleware _ r (chained s)) as [s1 r1].
  cbn [fst snd] in Hok1, Hacc1, Hlen1, Hpat1, Hsrv, Hmet, Hw1, Hlog1. subst r1.
  destruct s1 as [t1 [srv1 obs1 w1 pat1]]. cbn [dat cx_pattern cx_srv cx_w cx_obs] in *. subst srv1 w1 pat1.
  set (inner := next (with_limit maxRequestBytes r) (chained s)) in *. clearbody inner.
  unfold chained in Hlen. simpl in Hlen. rewrite Hw in Hlen. simpl in Hlen.
  destruct inner as [[t2 [srv2 obs2 [hdr sent body cap] pat2]] r2].
  cbn [fst snd dat cx_w cx_srv cx_pattern w_captured cx_obs] in *.
  destruct cap as [|c1 [|c2 [|]]]; try done. inversion Hacc as [|? ? Hc1 Hc2]; subst.
  inversion Hc2 as [|? ? Hc3 _]; subst. 
  rewrite Hout. cbn. unfold final_status in *. cbn in *.
  split_and!; [done|done| |].
  - by rewrite Hlog1, Hc3.
  - intros Hlab [method route] Hl. cbn in Hl. rewrite Hmet, Hd in Hl.
    destruct (decide ((httpMethodLabel (rq_Method r),
      if bool_decide (pat2 = "") then "unmatched" else pat2) = (method, route))) as [[= <- <-]|Hne].
    + split; [apply httpMethodLabel_in|]. unfold route_labels. cbn [snd].
      destruct Hpat as [->|Hpat]; [by left|]. case_bool_decide; [by left|by right].
    + rewrite lookup_insert_ne in Hl by done. apply (Hlab _ Hl).
Qed.

(** From [c] to [c'], having served the requests [rs]. *)
Definition served (rs : list Request) (c c' : Ctx (Srv (Tables Time))) : Prop :=
  (Q (sv_db (cx_srv c)) → Q (sv_db (cx_srv c'))) ∧
  (Q (sv_db (cx_srv c)) → logged (ob_log (cx_obs c')) =
     logged (ob_log (cx_obs c)) ++ ((λ r, Some (rq_Method r, rq_Path r)) <$> rs)) ∧
  (Q (sv_db (cx_srv c)) → labels_ok (ob_metrics (cx_obs c)) → labels_ok (ob_metrics (cx_obs c'))).

Lemma serve_step i (s : Sys (Ctx (Srv (Tables Time)))) :
  served (requests [i]) (dat s) (dat (serve (St := spec) srv s i)).
Proof using Hok.
  set (s0 := MkSys (tick s) (reset (dat s))).
  assert (Hq : ∀ A (m : HOp (Srv (Tables Time)) A), quiet m → keeps (on_db Q "") m →
    served [] (dat s) (dat (m s0).1)).
  { intros A m Hm Hk. destruct (Hm s0) as (_ & _ & Hlog & _ & Hd).
    unfold served. rewrite Hlog, app_nil_r. split_and!; [|done|].
    - intros HQ. destruct (Hk s0) as (a & _ & HQ1 & _); [by split|done].
    - intros _ Hlab l Hl. rewrite Hd in Hl. by apply Hlab. }
  pose proof (spec_calls round collate accepts Q Hok "") as HC.
  destruct i as [r|id|c id raw|c id]; simpl.
  - unfold served. pose proof (λ HQ, handler_step r s0 HQ eq_refl eq_refl) as H. fold s0.
    split_and!; intros HQ; destruct (H HQ) as (_ & H1 & H2 & H3); [done| |done].
    rewrite H2. unfold logged. by rewrite fmap_app.
  - apply (Hq _ (client_open (St := spec) id)); [apply quiet_open|by apply keeps_open].
  - apply (Hq _ (client_message (St := spec) c id raw)); [apply quiet_message|by apply keeps_message].
  - apply (Hq _ (client_close (St := spec) c id)); [apply quiet_close|by apply keeps_close].
Qed.

Lemma serve_all_steps l (s : Sys (Ctx (Srv (Tables Time)))) :
  served (requests l) (dat s) (dat (serve_all (St := spec) srv l s)).
Proof using Hok.
  revert s. induction l as [|i l IH]; intros s; [by unfold served; simpl; rewrite app_nil_r|].
  destruct (serve_step i s) as (H1 & H2 & H3).
  destruct (IH (serve (St := spec) srv s i)) as (H4 & H5 & H6). split_and!; [auto| |auto].
  intros HQ. change (serve_all (St := spec) srv (i :: l) s) with (serve_all (St := spec) srv l (serve (St := spec) srv s i)).
  rewrite H5, H2, <-app_assoc by auto. f_equal. rewrite <-fmap_app. f_equal. by destruct i.
Qed.
End steps.

Definition label_pairs : list (string * string) := list_prod method_labels route_labels.

Lemma labels_size m : labels_ok m → (size (mx_httpRequestDuration m) ≤ length label_pairs)%nat.
Proof.
  intros Hm. rewrite <-size_dom. transitivity (size (list_to_set label_pairs : gset (string * string))).
  - apply subseteq_size. intros l Hl. apply elem_of_dom, Hm in Hl as [H1 H2].
    apply elem_of_list_to_set, list_elem_of_In. destruct l. apply in_prod; by apply list_elem_of_In.
  - by rewrite size_list_to_set by (by apply (bool_decide_unpack _)).
Qed.

Lemma true_step_ok `{W : World} round accepts : step_ok round accepts (λ _, True).
Proof. by split. Qed.

(** C16: every request is answered.  Whatever reaches the server, in whatever state
    its database, its clients, its limiters and its subscribers are, and whatever
    round trips fail: no handler panics, and exactly one line is logged for each
    request, in order, with its method and path. *)
Theorem server_answers `{W : World, J : Jwt, L : Lib} round collate accepts srv l
    (s : Sys (Ctx (Srv (Tables Time)))) :
  let s' := serve_all (St := Spec round collate accepts) srv l s in
  logged (ob_log (cx_obs (dat s'))) =
    logged (ob_log (cx_obs (dat s))) ++ ((λ r, Some (rq_Method r, rq_Path r)) <$> requests l).
Proof. by apply (serve_all_steps round collate accepts _ (true_step_ok round accepts) srv l s). Qed.

(** C30: clients cannot grow the metrics.  However many requests of whatever methods
    and paths a new server gets, their durations are kept under the labels of its
    three methods and its routes alone: no more than 39 series. *)
Theorem labels_bounded `{W : World, J : Jwt, L : Lib} round collate accepts srv l n
    (sv : Srv (Tables Time)) :
  let s := MkSys n (MkCtx sv (MkObs no_metrics []) new_writer "") in
  let m := ob_metrics (cx_obs (dat (serve_all (St := Spec round collate accepts) srv l s))) in
  (∀ p, is_Some (mx_httpRequestDuration m !! p) → p.1 ∈ method_labels ∧ p.2 ∈ route_labels) ∧
  (size (mx_httpRequestDuration m) ≤ 39)%nat.
Proof.
  intros s m.
  destruct (serve_all_steps round collate accepts _ (true_step_ok round accepts) srv l s) as (_ & _ & H).
  assert (Hl : labels_ok m) by (apply H; [done|]; intros p [v Hv]; destruct (lookup_empty_Some p v Hv)).
  split; [exact Hl|]. by apply labels_size.
Qed.

(** C3: the whole server keeps the tables sound.  Through every sequence of requests
    and socket messages, with requests malformed, oversized or unauthorized, round
    trips lost or unacknowledged: identifiers stay unique, heartbeats and
    diagnostics belong to registered devices, a payload is there exactly when a
    time of receipt is, and no registered device is lost. *)
Theorem server_keeps_integrity `{W : World, J : Jwt, L : Lib} round `{!RoundLaws round} collate accepts
    srv l (s : Sys (Ctx (Srv (Tables Time)))) :
  rfc_clock W → ascii_uuids W → tables_wf round accepts (sv_db (cx_srv (dat s))) →
  let s' := serve_all (St := Spec round collate accepts) srv l s in
  tables_wf round accepts (sv_db (cx_srv (dat s'))) ∧
  device_key <$> devices (sv_db (cx_srv (dat s))) ⊆ device_key <$> devices (sv_db (cx_srv (dat s'))).
Proof.
  intros Hc Hu Hwf. split.
  - by apply (serve_all_steps round collate accepts _ (wf_steps round accepts Hc Hu) srv l s).
  - set (K := device_key <$> devices (sv_db (cx_srv (dat s)))).
    by apply (serve_all_steps round collate accepts _ (grow_steps round accepts K) srv l s).
Qed.

Lemma server_keeps_integrity_witness :
  (λ (W : World) (J : Jwt) (L : Lib),
    let s := fresh_ctx (new_srv empty_tables 0) in
    let s' := serve_all (St := Spec trunc_sec String.compare (λ _, true)) test_server
                [HttpRequest (body_request "POST" "/api/v1/devices/register" "" "{}");
                 SocketOpen "u0"; SocketMessage 0 "u0" (bytes "{}"); SocketClose 0 "u0"] s in
    tables_wf trunc_sec (λ _, true) (sv_db (cx_srv (dat s'))) ∧
    device_key <$> devices (sv_db (cx_srv (dat s))) ⊆ device_key <$> devices (sv_db (cx_srv (dat s'))))
    test_world toy_jwt test_lib.
Proof.
  exact (server_keeps_integrity (W := test_world) (J := toy_jwt) (L := test_lib) trunc_sec String.compare
           (λ _, true) test_server _ (fresh_ctx (new_srv empty_tables 0))
           test_world_clock test_world_uuids (empty_wf _ _)).
Defined.
