(* ===== verification/EndpointFacts.v ===== *)
(** * What the endpoints do. *)
From Stdlib Require Import QArith.
From S2P Require Import Prelude GoString GoTime GoFloat RateLimit GoJson Model World Sql Store Pagination StoreFacts Hub Broadcaster Auth Config Wire Metrics Http Middleware Server Devices Diagnostics Sockets Routes Logic ServerFacts.
Local Open Scope Z_scope.

(** C29: an admin token costs the admin secret.  [handleAdminToken] answers 200 only to a
    body whose secret is the configured one, and then with a token of the admin role
    that validates until it expires; a body without a secret gets 400, any other
    secret 401, and nothing of the server changes.  The token's lifetime is the configured
    one, from the time of the request. *)
Theorem admin_token_needs_secret `{W : World, J : Jwt} `{!JwtLaws J} {D} srv r
    (s : Sys (Ctx (Srv D))) :
  cx_w (dat s) = new_writer →
  let secret := decode_body ["secret"] (λ _ raw s, decode_string raw s) r "" in
  let out := handleAdminToken srv r s in
  let c := dat out.1 in
  out.2 = Ok () ∧ cx_srv c = cx_srv (dat s) ∧
  ((∃ tok, answered c 200 (one_member "token" tok) ∧ secret = Some (AdminSecret (cfg srv)) ∧
      AdminSecret (cfg srv) ≠ "" ∧ token_for (jwtMgr srv) "admin" RoleAdmin (now_at (tick s)) (AdminTokenExpiry (cfg srv)) tok) ∨
   (failed c 400 ∧ (secret = None ∨ secret = Some "")) ∨
   (failed c 401 ∧ ∃ x, secret = Some x ∧ x ≠ AdminSecret (cfg srv))).
Proof.
  intros Hw secret out. unfold handleAdminToken in out. fold secret in out. subst out.
  assert (Herr : ∀ code msg, let out := writeError code msg s in
    out.2 = Ok () ∧ cx_srv (dat out.1) = cx_srv (dat s) ∧ failed (dat out.1) code).
  { intros code msg. destruct (writeError_eq code msg s Hw) as (c & -> & Hf & Hs & _). by split_and!. }
  destruct secret as [x|]; [|destruct (Herr 400 "secret required") as (?&?&?); split_and!; auto].
  case_bool_decide as H1;
    [destruct (Herr 400 "secret required") as (?&?&?); split_and!; [done..|]; subst x; auto|].
  case_bool_decide as H2; cbn [negb];
    [|destruct (Herr 401 "invalid secret") as (?&?&?); split_and!; [done..|]; right; right; eauto].
  unfold IssueAdminToken. destruct (issue_token (E := panic) (jwtMgr srv) "admin" RoleAdmin (AdminTokenExpiry (cfg srv)) s)
    as (tok & Hi & Ht); [done..|]. erewrite st_bind_ok by exact Hi.
  destruct (writeJSON_eq 200 (one_member "token" tok) (bump s) Hw) as (c & -> & Ha & Hs & _).
  split_and!; [done..|]. left. exists tok. subst x. by split_and!.
Qed.

Definition json_text_of (v : json) : string := unbytes (default [] v).

Lemma admin_token_needs_secret_witness :
  (λ (W : World) (J : Jwt),
    let r := body_request "POST" "/api/v1/auth/admin-token" "" (json_text_of (one_member "secret" "wrong")) in
    let s := fresh_ctx (new_srv () 0) in
    failed (dat (handleAdminToken test_server r s).1) 401) test_world toy_jwt.
Proof.
  set (r := body_request _ _ _ _). cbv zeta.
  assert (Hd : decode_body ["secret"] (λ _ raw s, decode_string raw s) r "" = Some "wrong") by reflexivity.
  destruct (admin_token_needs_secret (W := test_world) (J := toy_jwt) test_server r
              (fresh_ctx (new_srv () 0)) eq_refl)
    as (_ & _ & [(tok & _ & H & _)|[[_ [H|H]]|[H _]]]).
  - rewrite Hd in H. discriminate H.
  - rewrite Hd in H. discriminate H.
  - rewrite Hd in H. discriminate H.
  - exact H.
Defined.

(** ** Registration *)

(** A request a device may be registered with, after trimming. *)
Record registration_ok (req : RegisterRequest) : Prop := {
  ro_name : rr_Name req ≠ "" ∧ trimmed (bytes (rr_Name req));
  ro_os : rr_OS req = OSWindows ∨ rr_OS req = OSLinux;
  ro_arch : rr_Arch req ≠ "";
  ro_secret : 16 <= len (rr_Secret req) ∧ trimmed (bytes (rr_Secret req))
}.

Definition trim_request (req : RegisterRequest) : RegisterRequest :=
  Build_RegisterRequest (TrimSpace (rr_Name req)) (rr_OS req) (rr_Arch req) (TrimSpace (rr_Secret req)).

Lemma validate_register_spec req :
  ∃ err, validateRegisterRequest req = (trim_request req, err) ∧
    (err = None ↔ registration_ok (trim_request req)).
Proof.
  unfold validateRegisterRequest. eexists. split; [reflexivity|]. cbn [rr_Name rr_OS rr_Arch rr_Secret].
  pose proof (TrimSpace_trimmed (rr_Name req)). pose proof (TrimSpace_trimmed (rr_Secret req)).
  case_bool_decide as H1; [split; [done|intros [[Hn _] _ _ _]; by destruct (Hn H1)]|].
  destruct (negb (bool_decide (rr_OS req = OSWindows)) && negb (bool_decide (rr_OS req = OSLinux))) eqn:H2.
  { bool_prop. split; [done|]. intros [_ [Ho|Ho] _ _]; simpl in Ho; congruence. }
  assert (Hos : rr_OS req = OSWindows ∨ rr_OS req = OSLinux).
  { apply andb_false_iff in H2 as [H2|H2]; bool_prop; auto. }
  clear H2. case_bool_decide as H3; [split; [done|intros [_ _ Ha _]; by destruct (Ha H3)]|].
  destruct (Z.ltb_spec (len (TrimSpace (rr_Secret req))) 16).
  { split; [done|]. intros [_ _ _ [? _]]. simpl in *. lia. }
  split; [|done]. intros _. by split.
Qed.

(** What becomes of a row an INSERT stores, at round trip [n]: stored and acknowledged,
    stored without the program learning it, or not stored, because the trip was lost or
    because the row was not [possible]. *)
Inductive stored (R : Type) : Type :=
  | Stored (row : R)
  | Unacked (row : R)
  | NotStored.
Arguments Stored {R} row. Arguments Unacked {R} row. Arguments NotStored {R}.

Definition storing `{W : World} {R} (n : nat) (possible : bool) (row : R) : stored R :=
  if possible then
    match io_at n with IoOk => Stored row | IoUnacked => Unacked row | IoLost => NotStored end
  else NotStored.

(** A registration, from the reading [n] of the oracles on: the secret is hashed, a new
    identifier drawn and the clock read, and a row for them stored, if bcrypt took the
    secret, the database the texts, and no device had the identifier. *)
Definition registering `{W : World} (round : Time → Time) (accepts : string → bool) (n : nat)
    (req : RegisterRequest) (T : Tables Time) : stored (device_row Time) :=
  let id := uuid_at (S n) in
  match bcrypt_at n (rr_Secret req) with
  | None => NotStored
  | Some hash =>
      storing (3 + n) (forallb accepts [id; rr_Name req; rr_OS req; rr_Arch req] && negb (has_device id T))
        (DeviceRow id (rr_Name req) (rr_OS req) (rr_Arch req) hash StatusUnknown (round (now_at (2 + n))) None)
  end.

Lemma registering_row `{W : World} round accepts n req T row :
  registering round accepts n req T = Stored row →
  dr_id row = uuid_at (S n) ∧ (dr_name row, dr_os row, dr_arch row) = (rr_Name req, rr_OS req, rr_Arch req).
Proof.
  unfold registering, storing. destruct (bcrypt_at _ _); [|done]. case_match; [|done].
  destruct (io_at _); [|done..]. by intros [= <-].
Qed.

Definition add_device (row : device_row Time) (T : Tables Time) : Tables Time :=
  with_devices (λ l, l ++ [row]) T.

Lemma create_device_cases `{W : World} round accepts req s :
  let out := spec_CreateDevice round accepts req s in
  match registering round accepts (tick s) req (dat s) with
  | Stored row =>
      ∃ d, out = (MkSys (4 + tick s) (add_device row (dat s)), Ok d) ∧ d_ID d = dr_id row ∧
        dr_id row = uuid_at (S (tick s))
  | Unacked row => ∃ e, out.2 = Err e ∧ e ≠ Panicked ∧ dat out.1 = add_device row (dat s)
  | NotStored => ∃ e, out.2 = Err e ∧ e ≠ Panicked ∧ dat out.1 = dat s
  end.
Proof.
  destruct s as [t T]. unfold spec_CreateDevice, hash_secret, uuid_New, time_Now, mbind, st_bind, registering.
  cbn [tick dat bump]. destruct (bcrypt_at t (rr_Secret req)) as [hash|]; [|by eexists].
  unfold wrap, Store.exec, exec_insert, db_exec_insert, storing.
  destruct (forallb accepts _); cbn [andb]; [|by eexists].
  unfold insert_device. cbn [tick dat bump]. cbn [Nat.add].
  destruct (has_device (uuid_at (S t)) T); cbn [negb]; [destruct (io_at _); by eexists|].
  destruct (io_at _); cbn; by eexists.
Qed.

(** A call of the store that does not panic, on the server's state. *)
Lemma store_eq `{W : World} {A} (m : Op (Tables Time) store_err A) (s : Sys (Ctx (Srv (Tables Time)))) :
  let out := m (MkSys (tick s) (sv_db (cx_srv (dat s)))) in
  out.2 ≠ Err Panicked →
  store m s = (MkSys (tick out.1) (put_srv (put_db (dat out.1) (cx_srv (dat s))) (dat s)), Ok out.2).
Proof.
  intros out Hout. unfold store, on_srv, on_part. cbn [tick dat]. fold out. clearbody out.
  destruct out as [[t T] [a|e]]; simpl in *; [done|]. by destruct e.
Qed.

(** The outcomes of [handleRegister]. *)
Lemma register_cases `{W : World, J : Jwt, L : Lib} `{!JwtLaws J} round collate accepts
    srv r (s : Sys (Ctx (Srv (Tables Time)))) :
  cx_w (dat s) = new_writer → ascii_uuids W →
  let req := decode_body register_fields set_register_field r (Build_RegisterRequest "" "" "" "") in
  let out := handleRegister (St := Spec round collate accepts) srv r s in
  let T := sv_db (cx_srv (dat s)) in
  let c := dat out.1 in
  let T' := sv_db (cx_srv c) in
  out.2 = Ok () ∧
  match req with
  | None => failed c 400 ∧ T' = T
  | Some req =>
      let req := trim_request req in
      (¬ registration_ok req ∧ failed c 422 ∧ T' = T) ∨
      (registration_ok req ∧
       match registering round accepts (tick s) req T with
       | Stored row =>
           T' = add_device row T ∧
           ∃ tok, answered c 201 (register_response_json (Build_RegisterResponse (dr_id row) tok)) ∧
             token_for (jwtMgr srv) (dr_id row) RoleDevice (now_at (4 + tick s)) (DeviceTokenExpiry (cfg srv)) tok
       | Unacked row => failed c 500 ∧ T' = add_device row T
       | NotStored => failed c 500 ∧ T' = T
       end)
  end.
Proof.
  intros Hw Huuid req out. unfold handleRegister in out. fold req in out. subst out.
  destruct req as [req|].
  2: { destruct (writeError_eq 400 ("invalid request body: " +:+ json_error (rq_Body r)) s Hw)
         as (c & -> & Hf & Hs & _). cbn [fst snd dat]. by rewrite Hs. }
  destruct (validate_register_spec req) as (err & -> & Herr). cbv zeta.
  destruct err as [msg|].
  { destruct (writeError_eq 422 msg s Hw) as (c & -> & Hf & Hs & _). cbn [fst snd dat].
    split; [done|]. left. rewrite Hs. split; [|done]. by intros H%Herr. }
  assert (Hreg : registration_ok (trim_request req)) by by apply Herr.
  set (m := CreateDevice (Store := Spec round collate accepts) (trim_request req)).
  pose proof (create_device_cases round accepts (trim_request req) (MkSys (tick s) (sv_db (cx_srv (dat s)))))
    as Hc. change (spec_CreateDevice round accepts (trim_request req)) with m in Hc. cbv zeta in Hc.
  pose proof (store_eq m s) as Hst. cbv zeta in Hst. cbn [tick dat] in Hc.
  assert (Hfail : ∀ t T' e, store m s = (MkSys t (put_srv (put_db T' (cx_srv (dat s))) (dat s)), Ok (Err e)) →
    ∃ c, (device ← store m;
          match device with
          | Err _ => writeError 500 "failed to register device"
          | Ok device =>
              token ← IssueDeviceToken (jwtMgr srv) (d_ID device) (DeviceTokenExpiry (cfg srv));
              match token with
              | None => writeError 500 "failed to issue token"
              | Some token => writeJSON 201 (register_response_json (Build_RegisterResponse (d_ID device) token))
              end
          end) s = (MkSys t c, Ok ()) ∧ failed c 500 ∧ sv_db (cx_srv c) = T').
  { intros t T' e He. erewrite st_bind_ok by exact He.
    match type of He with _ = (?s1, _) =>
      destruct (writeError_eq 500 "failed to register device" s1 Hw) as (c & -> & Hf & Hs & _) end.
    exists c. split; [done|]. split; [done|]. by rewrite Hs. }
  destruct (registering _ _ _ _ _) as [row|row|].
  - destruct Hc as (d & Hm & Hid & Hrow). rewrite Hm in Hst. cbn [fst snd tick dat] in Hst.
    erewrite st_bind_ok by (by apply Hst). unfold IssueDeviceToken.
    match goal with |- context [st_bind _ _ ?s1] => set (s2 := s1) | |- context [mbind _ _ ?s1] => set (s2 := s1) end.
    destruct (issue_token (E := panic) (jwtMgr srv) (d_ID d) RoleDevice (DeviceTokenExpiry (cfg srv)) s2)
      as (tok & Hi & Ht); [rewrite Hid, Hrow; apply ascii_utf8, Huuid|done|].
    erewrite st_bind_ok by exact Hi.
    destruct (writeJSON_eq 201 (register_response_json (Build_RegisterResponse (d_ID d) tok)) (bump s2) Hw)
      as (c & -> & Ha & Hs & _). cbn [fst snd dat]. split; [done|]. right. split; [done|].
    rewrite Hs. split; [done|]. exists tok. rewrite <-Hid. by split.
  - destruct Hc as (e & He & Hp & HT). destruct (m _) as [[t T'] res]. cbn [fst snd tick dat] in *. subst res T'.
    destruct (Hfail t (add_device row (sv_db (cx_srv (dat s)))) e) as (c & -> & Hf & Hs); [apply Hst; congruence|].
    split; [done|]. right. by split_and!.
  - destruct Hc as (e & He & Hp & HT). destruct (m _) as [[t T'] res]. cbn [fst snd tick dat] in *. subst res T'.
    destruct (Hfail t (sv_db (cx_srv (dat s))) e) as (c & -> & Hf & Hs); [apply Hst; congruence|].
    split; [done|]. right. by split_and!.
Qed.

(** C7: exactly the valid devices are registered.  A malformed body gets 400, and a
    request 422 whose trimmed name or architecture is empty, whose system is neither
    windows nor linux or whose trimmed secret has fewer than 16 bytes; the tables are as
    they were.  Any other request is registered under a new identifier, with the hash of
    its secret, and answered 201 with that identifier and a device token for it of the
    configured lifetime, unless one of the following happened, when the answer is 500:
    bcrypt refused the secret, the database a text, the identifier was in use, or the
    INSERT was lost, and then the tables are as they were; or the INSERT took effect and
    was not acknowledged, and then the device is there. *)
Theorem register_adds_valid_device `{W : World, J : Jwt, L : Lib} `{!JwtLaws J} round collate accepts
    srv r (s : Sys (Ctx (Srv (Tables Time)))) :
  cx_w (dat s) = new_writer → ascii_uuids W →
  let req := decode_body register_fields set_register_field r (Build_RegisterRequest "" "" "" "") in
  let out := handleRegister (St := Spec round collate accepts) srv r s in
  let T := sv_db (cx_srv (dat s)) in
  let c := dat out.1 in
  let T' := sv_db (cx_srv c) in
  out.2 = Ok () ∧
  match req with
  | None => failed c 400 ∧ T' = T
  | Some req =>
      let req := trim_request req in
      (¬ registration_ok req ∧ failed c 422 ∧ T' = T) ∨
      (registration_ok req ∧
       match registering round accepts (tick s) req T with
       | Stored row =>
           T' = add_device row T ∧
           ∃ tok, answered c 201 (register_response_json (Build_RegisterResponse (dr_id row) tok)) ∧
             token_for (jwtMgr srv) (dr_id row) RoleDevice (now_at (4 + tick s)) (DeviceTokenExpiry (cfg srv)) tok
       | Unacked row => failed c 500 ∧ T' = add_device row T
       | NotStored => failed c 500 ∧ T' = T
       end)
  end.
Proof. apply register_cases. Qed.

Lemma register_adds_valid_device_witness :
  (λ (W : World) (J : Jwt) (L : Lib),
    let r := body_request "POST" "/api/v1/devices/register" ""
               (json_text_of (register_request_json
                  (Build_RegisterRequest " n " "linux" "amd64" "0123456789abcdef"))) in
    let s := fresh_ctx (new_srv empty_tables 0) in
    let out := handleRegister (St := Spec trunc_sec String.compare (λ _, true)) test_server r s in
    ∃ row tok, sv_db (cx_srv (dat out.1)) = add_device row empty_tables ∧ dr_name row = "n" ∧
      answered (dat out.1) 201 (register_response_json (Build_RegisterResponse (dr_id row) tok)))
    test_world toy_jwt test_lib.
Proof.
  set (r := body_request _ _ _ _). cbv beta zeta.
  assert (Hd : decode_body register_fields set_register_field r (Build_RegisterRequest "" "" "" "") =
               Some (Build_RegisterRequest " n " "linux" "amd64" "0123456789abcdef")) by (vm_compute; reflexivity).
  pose proof (register_adds_valid_device (W := test_world) (J := toy_jwt) (L := test_lib) trunc_sec
                String.compare (λ _, true) test_server r (fresh_ctx (new_srv empty_tables 0)) eq_refl
                test_world_uuids) as H.
  cbv zeta in H. rewrite Hd in H.
  set (req := trim_request _) in H.
  assert (Hreq : req = Build_RegisterRequest "n" "linux" "amd64" "0123456789abcdef") by reflexivity.
  rewrite Hreq in H. clear req Hreq. destruct H as [_ [(Hbad & _)|(_ & HT & tok & Ha & _)]].
  - exfalso. apply Hbad. split; simpl; [by split; [|by apply (bool_decide_unpack _)]|by right|done|].
    split; [done|by apply (bool_decide_unpack _)].
  - eexists _, tok. split; [exact HT|]. split; [reflexivity|exact Ha].
Defined.

(** ** Diagnostic requests *)

(** A diagnostic request being stored, from the reading [n] of the oracles on: its time
    is that reading's, and it can be stored if the database takes its texts, the device is
    registered and the identifier new. *)
Definition requesting `{W : World} (round : Time → Time) (accepts : string → bool) (n : nat)
    (dev req : string) (scope : DiagnosticScope) (T : Tables Time) : stored (diag_row Time) :=
  storing (S n) (forallb accepts [dev; req; scope] && (has_device dev T && negb (has_request req T)))
    (DiagRow (diagnostics_seq T) dev req scope (round (now_at n)) None None).

(** What becomes of a message written to connection [c], at reading [n]. *)
Definition writing `{W : World} {D} (n : nat) (c : client) (sv : Srv D) : io :=
  if bool_decide (c ∈ sv_closed sv) then IoLost else io_at n.

Definition stored_requests (sv : Srv (Tables Time)) : list (diag_row Time) := diagnostic_results (sv_db sv).

Section diagnose.
Context `{W : World, J : Jwt, L : Lib}
  (round : Time → Time) (collate : string → string → comparison) (accepts : string → bool).

Abbreviation spec := (Spec round collate accepts).
Abbreviation SSt := (Sys (Ctx (Srv (Tables Time)))).

Lemma create_request_cases dev req sc (s : Sys (Tables Time)) :
  let out := spec_CreateDiagnosticRequest round accepts dev req sc s in
  match requesting round accepts (tick s) dev req sc (dat s) with
  | Stored row =>
      out.2 = Ok (new_request dev req sc (now_at (tick s))) ∧ tick out.1 = (2 + tick s)%nat ∧
      diagnostic_results (dat out.1) = diagnostic_results (dat s) ++ [row] ∧
      gr_request_id row = req ∧ accepts req = true ∧ has_request req (dat s) = false
  | Unacked row =>
      (∃ what, out.2 = Err (ErrOther what)) ∧
      diagnostic_results (dat out.1) = diagnostic_results (dat s) ++ [row]
  | NotStored =>
      (∃ what, out.2 = Err (ErrOther what)) ∧ diagnostic_results (dat out.1) = diagnostic_results (dat s)
  end.
Proof using.
  destruct s as [t T]. unfold spec_CreateDiagnosticRequest, time_Now, wrap, mbind, st_bind, requesting, storing.
  cbn [tick dat bump]. unfold exec_insert.
  destruct (forallb accepts [dev; req; sc]) eqn:Ha; cbn [andb]; [|by cbn; split; [eexists|]].
  unfold db_exec_insert, insert_diagnostic. cbn [tick dat bump].
  destruct (has_device dev T); cbn [andb]; [|destruct (io_at _); by cbn; split; [eexists|]].
  destruct (has_request req T) eqn:Hq; cbn [andb negb]; [destruct (io_at _); by cbn; split; [eexists|]|].
  destruct (io_at _); [|by cbn; split; [eexists|]..].
  simpl in Ha. bool_prop. by split_and!.
Qed.

Lemma send_eq dev msg (s : SSt) c :
  sv_hub (cx_srv (dat s)) !! dev = Some c →
  let sv := cx_srv (dat s) in
  let sent := put_srv (put_written (sv_written sv ++ [(c, msg)]) sv) (dat s) in
  send dev msg s =
    match writing (tick s) c sv with
    | IoOk => (MkSys (S (tick s)) sent, Ok true)
    | IoUnacked => (MkSys (S (tick s)) sent, Ok false)
    | IoLost => (bump s, Ok false)
    end.
Proof using.
  intros Hc sv sent. unfold send, get_srv, read_dat, mbind, st_bind, mret, st_ret, hub_Send. simpl. rewrite Hc.
  unfold conn_write, writing. subst sv sent. by case_bool_decide.
Qed.

(** Deleting a request just made leaves the requests there were, if the trip is not lost. *)
Lemma delete_orphan_eq req (s : SSt) rows row :
  accepts req = true → stored_requests (cx_srv (dat s)) = rows ++ [row] →
  gr_request_id row = req → req ∉ gr_request_id <$> rows →
  ∃ s', deleteOrphanedDiagnosticRequest (St := spec) req s = (s', Ok ()) ∧
    stored_requests (cx_srv (dat s')) = (if decide (io_at (tick s) = IoLost) then rows ++ [row] else rows) ∧
    cx_w (dat s') = cx_w (dat s) ∧ sv_written (cx_srv (dat s')) = sv_written (cx_srv (dat s)).
Proof using.
  intros Ha Hrows Hrow Hnew. unfold deleteOrphanedDiagnosticRequest.
  set (m := DeleteDiagnosticRequest (Store := spec) req).
  set (T := sv_db (cx_srv (dat s))).
  set (T' := with_diagnostics (filter (λ r, gr_request_id r ≠ req)) T).
  assert (Hm : let out := m (MkSys (tick s) T) in
    out.2 ≠ Err Panicked ∧ dat out.1 = if decide (io_at (tick s) = IoLost) then T else T').
  { change m with (spec_DeleteDiagnosticRequest accepts req). unfold spec_DeleteDiagnosticRequest, wrap, mbind, st_bind, Store.exec, exec_insert.
    cbn [forallb]. rewrite Ha. cbn [andb]. unfold db_exec_insert, delete_diagnostic. cbn [tick dat].
    by destruct (io_at (tick s)). }
  destruct Hm as [Hp Hd]. pose proof (store_eq m s Hp) as Hs.
  erewrite st_bind_ok by exact Hs. eexists. split; [reflexivity|]. split; [|by split].
  unfold stored_requests. cbn [bump dat fst mret st_ret put_srv put_db sv_db cx_srv]. fold T. rewrite Hd.
  unfold stored_requests in Hrows. fold T in Hrows.
  destruct (decide _); [exact Hrows|]. unfold T'. cbn [with_diagnostics diagnostic_results].
  rewrite Hrows, filter_app, filter_cons, decide_False by auto. rewrite filter_nil, app_nil_r.
  apply filter_all. intros x Hx Hxr. apply Hnew. rewrite <-Hxr. by apply list_elem_of_fmap_2.
Qed.

Lemma scope_ascii sc : sc ∈ scopes → ascii_text (bytes sc).
Proof using.
  intros H. apply (bool_decide_unpack _). unfold scopes in H.
  repeat (apply elem_of_cons in H as [->|H]; [done|]). by apply elem_of_nil in H.
Qed.

(** The message a device gets. *)
Lemma request_message req sc :
  ascii_text (bytes req) → sc ∈ scopes →
  ∃ data msg, Encode TypeDiagRequest req (scope_json sc) = Some msg ∧
    decode_envelope msg = Some {| en_Type := TypeDiagRequest; en_RequestID := req; en_Data := data |} ∧
    decode_member "scope" data = Some sc.
Proof using.
  intros Hr Hs. apply scope_ascii in Hs.
  destruct (one_member_text "scope" sc) as (v & Hv & Ht); [by apply (bool_decide_unpack _)|done|].
  destruct (decode_encode TypeDiagRequest req v) as (msg & H1 & H2);
    [by apply (bool_decide_unpack _)|done|done|].
  exists (unbytes v), msg. unfold scope_json. rewrite Hv. split; [done|]. split; [done|].
  unfold decode_member. rewrite bytes_unbytes.
  assert (Hvo : v = encode_object [(bytes "scope", encode_string (bytes sc))]).
  { unfold one_member, json_object, json_string in Hv. simpl in Hv. by simplify_eq. }
  rewrite Hvo, Unmarshal_encode by (apply texts_members; texts).
  erewrite decode_fields_cons by (by vm_compute). rewrite decode_encode_string by done.
  simpl. by rewrite unbytes_bytes.
Qed.
End diagnose.

(** C6: a diagnostic request is delivered, or leaves a trace only where a round trip failed.
    [handleRequestDiagnostics] answers 503 for a device not connected, 400 for a bad body
    and 422 for a scope there is not, and stores and sends nothing.  Otherwise it stores a
    new unanswered request and sends the device's active connection one message, from
    which the device reads the stored identifier and scope, and answers 202 with the
    request, pending.  When the request is not stored the answer is 500 and nothing is
    sent; its row stays only if the INSERT was not acknowledged.  When the message cannot
    be written, to a closed connection or because the write fails, the answer is 503 and
    the row is deleted again; it stays only if the trip that deletes it is lost, as the
    comment of [deleteOrphanedDiagnosticRequest] allows, and the device has the message
    only if the write was not acknowledged. *)
Theorem diagnose_outcomes `{W : World, L : Lib} round collate accepts r
    (s : Sys (Ctx (Srv (Tables Time)))) :
  ascii_uuids W → cx_w (dat s) = new_writer →
  let out := handleRequestDiagnostics (St := Spec round collate accepts) r s in
  let sv := cx_srv (dat s) in
  let c := dat out.1 in
  let rows := stored_requests sv in
  let rows' := stored_requests (cx_srv c) in
  let sent := sv_written sv in
  let sent' := sv_written (cx_srv c) in
  let scope := decode_body ["scope"] (λ _ raw s, decode_string raw s) r ScopeFull in
  let req := uuid_at (tick s) in
  out.2 = Ok () ∧
  match sv_hub sv !! rq_id r, scope with
  | None, _ => failed c 503 ∧ rows' = rows ∧ sent' = sent
  | _, None => failed c 400 ∧ rows' = rows ∧ sent' = sent
  | Some conn, Some sc =>
      if negb (bool_decide (sc ∈ scopes)) then failed c 422 ∧ rows' = rows ∧ sent' = sent
      else
        match requesting round accepts (1 + tick s) (rq_id r) req sc (sv_db sv) with
        | NotStored => failed c 500 ∧ rows' = rows ∧ sent' = sent
        | Unacked row => failed c 500 ∧ rows' = rows ++ [row] ∧ sent' = sent
        | Stored row =>
            ∃ data msg,
              decode_envelope msg = Some {| en_Type := TypeDiagRequest; en_RequestID := req; en_Data := data |} ∧
              decode_member "scope" data = Some sc ∧
              match writing (3 + tick s) conn sv with
              | IoOk =>
                  answered c 202 (diagnostic_json (with_diag_status DiagnosticPending
                    (new_request (rq_id r) req sc (now_at (1 + tick s))))) ∧
                  rows' = rows ++ [row] ∧ sent' = sent ++ [(conn, msg)]
              | w =>
                  failed c 503 ∧
                  rows' = (if decide (io_at (4 + tick s) = IoLost) then rows ++ [row] else rows) ∧
                  sent' = sent ++ (if decide (w = IoUnacked) then [(conn, msg)] else [])
              end
        end
  end.
Proof.
  intros Huuid Hw out sv c rows rows' sent sent' scope req. subst c rows' sent' out.
  assert (Hfail : ∀ code msg (s1 : Sys (Ctx (Srv (Tables Time)))), cx_w (dat s1) = new_writer →
    let out := writeError code msg s1 in
    out.2 = Ok () ∧ failed (dat out.1) code ∧
      stored_requests (cx_srv (dat out.1)) = stored_requests (cx_srv (dat s1)) ∧
      sv_written (cx_srv (dat out.1)) = sv_written (cx_srv (dat s1))).
  { intros code msg s1 Hw1. destruct (writeError_eq code msg s1 Hw1) as (c & -> & Hf & Hs & _).
    cbn [fst snd dat]. by rewrite Hs. }
  unfold handleRequestDiagnostics.
  assert (Hcon : hub_connected (rq_id r) s = (s, Ok (hub_IsConnected (rq_id r) (sv_hub sv)))) by reflexivity.
  erewrite st_bind_ok by exact Hcon. clear Hcon. unfold hub_IsConnected.
  destruct (sv_hub sv !! rq_id r) as [conn|] eqn:Hconn.
  2: { rewrite bool_decide_eq_false_2 by (intros [? [=]]). by apply (Hfail 503). }
  rewrite bool_decide_eq_true_2 by by eexists. cbn [negb]. fold scope.
  destruct scope as [sc|]; [|by apply (Hfail 400)].
  case_bool_decide as Hsc; cbn [negb]; [|by apply (Hfail 422)].
  assert (Hid : uuid_New (E := panic) s = (bump s, Ok req)) by reflexivity.
  erewrite st_bind_ok by exact Hid. clear Hid.
  set (m := CreateDiagnosticRequest (Store := Spec round collate accepts) (rq_id r) req sc).
  pose proof (create_request_cases round accepts (rq_id r) req sc (MkSys (tick (bump s)) (sv_db sv))) as Hc.
  change (spec_CreateDiagnosticRequest round accepts (rq_id r) req sc) with m in Hc.
  pose proof (store_eq m (bump s)) as Hst. cbv zeta in Hc, Hst. cbn [bump tick dat] in Hc, Hst.
  change (1 + tick s)%nat with (S (tick s)). fold sv in Hst.
  destruct (m _) as [[t T'] res]. cbn [fst snd tick dat] in *.
  set (s1 := MkSys t (put_srv (put_db T' sv) (dat s))) in *.
  destruct (requesting _ _ _ _ _ _ _) as [row|row|].
  2,3: destruct Hc as [[what ->] HT]; erewrite st_bind_ok by (by apply Hst);
       destruct (Hfail 500 "failed to create diagnostic request" s1 Hw) as (H1 & H2 & H3 & H4);
       (split; [exact H1|]); (split; [exact H2|]); (split; [by rewrite H3|exact H4]).
  destruct Hc as (-> & -> & HT & Hrow & Ha & Hnew). erewrite st_bind_ok by (by apply Hst). cbn match.
  destruct (request_message req sc (proj2 (Huuid _)) Hsc) as (data & msg & -> & Hmsg & Hdata).
  pose proof (send_eq (rq_id r) msg s1 conn Hconn) as Hsend. cbv zeta in Hsend.
  change (writing (tick s1) conn (cx_srv (dat s1))) with (writing (3 + tick s) conn sv) in Hsend.
  assert (Hdel : ∀ s2, tick s2 = (4 + tick s)%nat → stored_requests (cx_srv (dat s2)) = rows ++ [row] →
    cx_w (dat s2) = new_writer →
    let out := (_ ← deleteOrphanedDiagnosticRequest (St := Spec round collate accepts) req;
                writeError 503 "failed to deliver request to device") s2 in
    out.2 = Ok () ∧ failed (dat out.1) 503 ∧
    stored_requests (cx_srv (dat out.1)) = (if decide (io_at (4 + tick s) = IoLost) then rows ++ [row] else rows) ∧
    sv_written (cx_srv (dat out.1)) = sv_written (cx_srv (dat s2))).
  { intros s2 Ht2 Hr2 Hw2.
    destruct (delete_orphan_eq round collate accepts req s2 rows row Ha Hr2 Hrow) as (s3 & H1 & H2 & H3 & H4);
      [by apply has_request_false|].
    erewrite st_bind_ok by exact H1. rewrite <-Ht2, <-H2, <-H4. apply Hfail. congruence. }
  destruct (writing (3 + tick s) conn sv) eqn:Hwr; erewrite st_bind_ok by exact Hsend; cbn [negb].
  - match goal with |- context [writeJSON 202 ?v ?st] =>
      destruct (writeJSON_eq 202 v st Hw) as (c & -> & Hans & Hsv & _) end.
    cbn [fst snd dat]. rewrite Hsv. split; [done|]. exists data, msg. by split_and!.
  - destruct (Hdel (bump s1)) as (H1 & H2 & H3 & H4); [done..|].
    split; [exact H1|]. exists data, msg. split_and!; try done. by rewrite H4, app_nil_r.
  - match type of Hsend with _ = (?s2, _) => destruct (Hdel s2) as (H1 & H2 & H3 & H4); [done..|] end.
    split; [exact H1|]. exists data, msg. by split_and!.
Qed.

Lemma diagnose_outcomes_witness :
  (λ (W : World) (L : Lib),
    let r := body_request "POST" "/api/v1/devices/a/diagnose" "a" "{}" in
    let sv := put_hub {["a" := 5%nat]} (new_srv (walk_tables 0) 0) in
    let out := handleRequestDiagnostics (St := Spec trunc_sec String.compare (λ _, true)) r (fresh_ctx sv) in
    final_status (cx_w (dat out.1)) = 202 ∧
    gr_device_id <$> stored_requests (cx_srv (dat out.1)) = ["a"] ∧
    (sv_written (cx_srv (dat out.1))).*1 = [5%nat])
    test_world test_lib.
Proof.
  cbv beta zeta. set (r := body_request _ _ _ _). set (sv := put_hub _ _).
  assert (Hd : decode_body ["scope"] (λ _ raw s, decode_string raw s) r ScopeFull = Some ScopeFull)
    by (vm_compute; reflexivity).
  pose proof (diagnose_outcomes (W := test_world) (L := test_lib) trunc_sec String.compare (λ _, true)
              r (fresh_ctx sv) test_world_uuids eq_refl) as H.
  cbv zeta in H. rewrite Hd in H. destruct H as (_ & data & msg & _ & _ & [Hs _] & Hr & Hw).
  split; [|split].
  - unfold final_status. by rewrite Hs.
  - rewrite Hr. reflexivity.
  - rewrite Hw. reflexivity.
Defined.
