(* ===== verification/SocketFacts.v ===== *)
(** * What WebSocket connections do. *)
From Stdlib Require Import QArith.
From S2P Require Import Prelude GoString GoTime GoFloat RateLimit GoJson Model World Sql Store StoreFacts Hub Broadcaster Auth Config Wire Metrics Http Middleware Server Devices Diagnostics Sockets Routes Logic ServerFacts Service EndpointFacts.
Local Open Scope Z_scope.

(** ** A session and the hub *)

(** The connections of a server. *)
Definition conns_are {D} (m : registry) (wg : Z) (next : client) (closed : list client)
    (c : Ctx (Srv D)) : Prop :=
  sv_hub (cx_srv c) = m ∧ sv_wg (cx_srv c) = wg ∧ sv_next (cx_srv c) = next ∧
  sv_closed (cx_srv c) = closed.

#[export] Instance conns_blind {D} m wg next closed : Blind (D := D) (conns_are m wg next closed).
Proof.
  split; intros c; unfold conns_are; [done..|]. intros sv _ H1 H2 H3 H4. simpl. by rewrite H1, H2, H3, H4.
Qed.

Section session.
Context `{W : World, J : Jwt, L : Lib} {D : Type} `{St : Store D} (srv : Server).
Context `{HT : !Calls (D := D) (λ _, True)}.

(** A call of the store leaves the connections alone. *)
Lemma store_conns {A} (m : Op D store_err A) n wg next closed :
  keeps (λ _, True) (store m) → keeps (conns_are (D := D) n wg next closed) (store m).
Proof using.
  intros Hm s Hs. destruct (Hm s I) as (a & Ha & _). exists a. split; [exact Ha|].
  unfold store, on_srv, on_part. by destruct (m _) as [s' [v|[]]].
Qed.

Lemma message_conns c id raw n wg next closed :
  keeps (conns_are n wg next closed) (client_message c id raw).
Proof using HT.
  pose proof (keeps_wsLimiter (conns_are (D := D) n wg next closed)) as Hlim.
  pose proof (λ hb, store_conns _ n wg next closed (calls_InsertHeartbeat hb)) as H1.
  pose proof (λ id, store_conns _ n wg next closed (calls_UpdateLastSeen id)) as H2.
  pose proof (λ req p, store_conns _ n wg next closed (calls_SaveDiagnosticResult req p)) as H3.
  unfold client_message, allowMessage, handleWSMessage, handleHeartbeat, handleDiagResponse. keeps_tac.
Qed.

Lemma loop_conns c id frames n wg next closed :
  keeps (conns_are n wg next closed) (client_loop c id frames).
Proof using HT.
  induction frames as [|raw frames IH]; simpl; [apply keeps_ret|].
  apply keeps_bind; [apply message_conns|done].
Qed.

Lemma close_conns c id m wg next closed :
  m !! id = Some c →
  post (conns_are m wg next closed) (client_close c id)
    (λ _, conns_are (delete id m) (wg - 1) next closed).
Proof using HT.
  intros Hm s (Hh & Hwg & Hn & Hc). unfold client_close.
  erewrite st_bind_ok by reflexivity. rewrite Hh. unfold hub_Unregister.
  rewrite bool_decide_eq_true_2 by done.
  match goal with |- ∃ a, (?f s).2 = _ ∧ _ =>
    assert (post (conns_are m wg next closed) f (λ _, conns_are (delete id m) (wg - 1) next closed))
      as Hpost; [|by apply Hpost] end.
  eapply post_bind with (R := λ _, conns_are (delete id m) wg next closed).
  - intros t (H1 & H2 & H3 & H4). by exists ().
  - intros _. eapply post_bind with (R := λ _, conns_are (delete id m) wg next closed).
    + apply keeps_bind; [apply store_conns, calls_SetDeviceStatus|intros; apply keeps_ret].
    + intros _ t (H1 & H2 & H3 & H4). exists (). unfold conns_are. simpl. by rewrite H1, H2, H3, H4.
Qed.

Lemma open_conns id m wg next closed :
  post (conns_are m wg next closed) (client_open id)
    (λ c, λ ctx, c = next ∧ conns_are (<[id := next]> m) (wg + 1) (S next)
                  (closed ++ match m !! id with Some o => [o] | None => [] end) ctx).
Proof using HT.
  unfold client_open.
  set (closed' := closed ++ match m !! id with Some o => [o] | None => [] end).
  eapply post_bind with (R := λ c, λ ctx, c = next ∧ conns_are (<[id := next]> m) (wg + 1) (S next) closed' ctx).
  - intros s (H1 & H2 & H3 & H4). exists next.
    unfold NewClient, get_srv, read_dat, modify_srv, modify_dat, hub_Register, mbind, st_bind, mret, st_ret.
    simpl. rewrite H3. split; [done|]. split; [done|]. unfold conns_are. simpl. by rewrite H1, H2, H4.
  - intros c.
    set (P := λ ctx : Ctx (Srv D), c = next ∧ conns_are (<[id := next]> m) (wg + 1) (S next) closed' ctx).
    assert (Hk : ∀ A (k : HOp (Srv D) A), keeps (conns_are (<[id := next]> m) (wg + 1) (S next) closed') k → keeps P k).
    { intros A k Hk s [Hc Hs]. destruct (Hk s Hs) as (a & ? & ?). by exists a. }
    eapply post_bind with (R := λ _, P).
    { apply Hk, store_conns, calls_SetDeviceStatus. }
    intros _. eapply post_bind with (R := λ _, P).
    { apply Hk, keeps_publish, conns_blind. }
    intros _ s [-> Hs]. by exists next.
Qed.

(** From the upgrade on. *)
Lemma session_conns r id m wg next closed :
  post (conns_are m wg next closed)
    (c ← client_open id; _ ← Run c id (rq_frames r); publish (disconnected_event id))
    (λ _, conns_are (delete id m) wg (S next)
            (closed ++ match m !! id with Some o => [o] | None => [] end)).
Proof using HT.
  set (closed' := closed ++ match m !! id with Some o => [o] | None => [] end).
  eapply post_bind; [apply open_conns|]. intros c. fold closed'.
  eapply post_bind with (R := λ _, conns_are (delete id m) wg (S next) closed').
  - intros s [-> Hs]. unfold Run, deferred.
    destruct (loop_conns next id (rq_frames r) _ _ _ _ s Hs) as ([] & Hl & Hs1).
    destruct (client_loop next id (rq_frames r) s) as [s1 r1]. cbn [fst snd] in *. subst r1.
    destruct (close_conns next id (<[id := next]> m) (wg + 1) (S next) closed' (lookup_insert_eq _ _ _) s1 Hs1)
      as ([] & Hc & Hs2).
    destruct (client_close next id s1) as [s2 r2]. cbn [fst snd] in *. subst r2.
    exists (). split; [done|]. rewrite delete_insert_eq in Hs2. by replace (wg + 1 - 1) with wg in Hs2 by lia.
  - intros _. apply keeps_publish, conns_blind.
Qed.
End session.

(** C8: a connection takes its place in the hub and gives it up.  [handleWebSocket]
    never panics.  Without a token of the device role that validates, or when the
    upgrade is refused, nothing of the server changes; otherwise the client gets 101,
    the connection of this device that was there is closed, and when the loop has
    ended the device is out of the hub, every other device's connection is there
    still, and the wait group is back where it was. *)
Theorem socket_session `{W : World, J : Jwt, L : Lib} {D} `{St : Store D} `{!Calls (D := D) (λ _, True)}
    srv r (s : Sys (Ctx (Srv D))) :
  cx_w (dat s) = new_writer →
  let sv := cx_srv (dat s) in
  let claims := jwt_parse (signing_key (jwtMgr srv)) (now_at (tick s)) (wsToken r) in
  let upgrade := ws_accept r (AllowedOrigins (cfg srv)) [wsBearerSubprotocol] in
  let out := handleWebSocket srv r s in
  let c := dat out.1 in
  out.2 = Ok () ∧
  ((cx_srv c = sv ∧
    (failed c 401 ∧ (wsToken r = "" ∨ claims = None) ∨
     failed c 403 ∧ (∃ cl, claims = Some cl ∧ cl_Role cl ≠ RoleDevice) ∨
     ∃ code body, upgrade = Err (code, body) ∧ final_status (cx_w c) = code ∧ w_body (cx_w c) = body)) ∨
   ∃ cl, wsToken r ≠ "" ∧ claims = Some cl ∧ cl_Role cl = RoleDevice ∧ upgrade = Ok () ∧
     final_status (cx_w c) = 101 ∧
     conns_are (delete (cl_Subject cl) (sv_hub sv)) (sv_wg sv) (S (sv_next sv))
       (sv_closed sv ++ match sv_hub sv !! cl_Subject cl with Some o => [o] | None => [] end) c).
Proof.
  intros Hw sv claims upgrade out. unfold handleWebSocket in out. fold upgrade in out. subst out. cbv zeta.
  case_bool_decide as Htok.
  { destruct (writeError_eq 401 "missing token" s Hw) as (c & -> & Hf & Hs & _). split; [done|]. left. auto. }
  assert (Hv : Validate (E := panic) (jwtMgr srv) (wsToken r) s = (bump s, Ok claims)) by reflexivity.
  erewrite st_bind_ok by exact Hv. destruct claims as [cl|] eqn:Hcl.
  2: { destruct (writeError_eq 401 "invalid or expired token" (bump s) Hw) as (c & -> & Hf & Hs & _).
       split; [done|]. left. auto. }
  case_bool_decide as Hrole; cbn [negb].
  2: { destruct (writeError_eq 403 "device token required" (bump s) Hw) as (c & -> & Hf & Hs & _).
       split; [done|]. left. split; [done|]. right. left. split; [done|]. by exists cl. }
  destruct upgrade as [[]|[code body]] eqn:Hup.
  - set (s1 := (respond (w_WriteHeader 101) (bump s)).1).
    erewrite st_bind_ok by (exact (eq_refl : respond (w_WriteHeader 101) (bump s) = (s1, Ok ()))).
    match goal with |- context [(?k s1).2] => set (m := k) end.
    assert (Hq : quiet m) by (subst m; respond_tac).
    destruct (session_conns r (cl_Subject cl) (sv_hub sv) (sv_wg sv) (sv_next sv) (sv_closed sv) s1)
      as ([] & Hm & Hc); [by split_and!|].
    split; [exact Hm|]. right. exists cl. split_and!; [done..| |exact Hc].
    destruct (Hq s1) as [Hf _]. rewrite Hf.
    change (final_status (w_WriteHeader 101 (cx_w (dat s))) = 101). by rewrite Hw.
  - split; [reflexivity|]. left. split; [reflexivity|]. right. right. exists code, body. split; [done|].
    change (final_status (w_Write body (w_WriteHeader code (cx_w (dat s)))) = code ∧
            w_body (w_Write body (w_WriteHeader code (cx_w (dat s)))) = body). by rewrite Hw.
Qed.

Lemma socket_session_witness :
  (λ (W : World) (J : Jwt) (L : Lib),
    let r := test_request in
    let s := fresh_ctx (new_srv empty_tables 0) in
    let out := handleWebSocket (St := Spec trunc_sec String.compare (λ _, true)) test_server r s in
    out.2 = Ok () ∧ failed (dat out.1) 401) test_world toy_jwt test_lib.
Proof.
  cbv beta zeta.
  pose proof (true_calls (W := test_world) trunc_sec String.compare (λ _, true)) as Hcalls.
  destruct (socket_session (W := test_world) (J := toy_jwt) (L := test_lib) (D := Tables Time)
              (St := Spec (W := test_world) trunc_sec String.compare (λ _, true)) test_server
              test_request (fresh_ctx (new_srv empty_tables 0)) eq_refl)
    as [H [(_ & [[Hf _]|[[_ (cl & Hcl & _)]|(code & body & H' & _)]])|(cl & _ & Hcl & _)]].
  - split; [exact H|exact Hf].
  - vm_compute in Hcl. discriminate Hcl.
  - discriminate H'.
  - vm_compute in Hcl. discriminate Hcl.
Defined.

(** ** What a device can change *)

(** [T'] is what the traffic of device [id] may have made of [T]: the other devices'
    rows are as they were and its own keeps what it was registered with, there are more
    heartbeats, its own, and some requests have been answered. *)
Record confined (id : string) (T T' : Tables Time) : Prop := {
  cf_devices : Forall2 (λ d d', d' = d ∨ dr_id d = id ∧
      (dr_id d', dr_name d', dr_os d', dr_arch d', dr_secret_hash d', dr_registered_at d') =
      (dr_id d, dr_name d, dr_os d, dr_arch d, dr_secret_hash d, dr_registered_at d))
    (devices T) (devices T');
  cf_heartbeats : ∃ new, heartbeats T' = heartbeats T ++ new ∧ Forall (λ h, hr_device_id h = id) new;
  cf_requests : Forall2 (λ g g', g' = g ∨ is_Some (gr_received_at g') ∧ is_Some (gr_payload g') ∧
      (gr_id g', gr_device_id g', gr_request_id g', gr_scope g', gr_requested_at g') =
      (gr_id g, gr_device_id g, gr_request_id g, gr_scope g, gr_requested_at g))
    (diagnostic_results T) (diagnostic_results T')
}.

Lemma Forall2_same {A} (R : A → A → Prop) (l : list A) : (∀ x, R x x) → Forall2 R l l.
Proof. intros HR. induction l; constructor; auto. Qed.

Lemma Forall2_if {A} (R : A → A → Prop) (p : A → bool) f (l : list A) :
  (∀ x, R x x) → (∀ x, p x = true → R x (f x)) → Forall2 R l ((λ x, if p x then f x else x) <$> l).
Proof.
  intros HR Hf. induction l as [|x l IH]; simpl; constructor; auto.
  destruct (p x) eqn:Hp; auto.
Qed.

Lemma confined_refl id T : confined id T T.
Proof.
  split; [apply Forall2_same; auto| |apply Forall2_same; auto].
  exists []. by rewrite app_nil_r.
Qed.

Lemma confined_trans id T1 T2 T3 : confined id T1 T2 → confined id T2 T3 → confined id T1 T3.
Proof.
  intros [A1 (n1 & B1 & C1) D1] [A2 (n2 & B2 & C2) D2]. split.
  - eapply Forall2_trans; [|exact A1|exact A2]. intros d d' d''; simpl.
    intros [->|[H1 H2]] [->|[H3 H4]]; auto. right. split; [done|congruence].
  - exists (n1 ++ n2). rewrite B2, B1, app_assoc. split; [done|]. by apply Forall_app.
  - eapply Forall2_trans; [|exact D1|exact D2]. intros g g' g''; simpl.
    intros [->|(H1 & H2 & H3)] [->|(H4 & H5 & H6)]; auto.
    right. split_and!; [done..|congruence].
Qed.

Lemma confined_device id f T :
  (∀ d : device_row Time,
     (dr_id (f d), dr_name (f d), dr_os (f d), dr_arch (f d), dr_secret_hash (f d), dr_registered_at (f d)) =
     (dr_id d, dr_name d, dr_os d, dr_arch d, dr_secret_hash d, dr_registered_at d)) →
  ∀ T' k, update_device id f T = Some (T', k) → confined id T T'.
Proof.
  intros Hf T' k [= <- <-]. split; simpl.
  - apply Forall2_if; [auto|]. intros d Hd. bool_prop. right. by split.
  - exists []. by rewrite app_nil_r.
  - apply Forall2_same. auto.
Qed.

Lemma confined_heartbeat id at_ cpu mem disk up osv T T' k :
  insert_heartbeat id at_ cpu mem disk up osv T = Some (T', k) → confined id T T'.
Proof.
  unfold insert_heartbeat. case_match; [|done]. intros [= <- <-]. split; simpl.
  - apply Forall2_same. auto.
  - eexists [_]. split; [done|]. by constructor.
  - apply Forall2_same. auto.
Qed.

Lemma confined_skip id k T : confined id T (skip_heartbeats k T).
Proof.
  split; simpl; [by apply Forall2_same; auto| |by apply Forall2_same; auto].
  exists []. by rewrite app_nil_r.
Qed.

Lemma confined_answer id req at_ p T T' k :
  update_diagnostic req (answer at_ p) T = Some (T', k) → confined id T T'.
Proof.
  intros [= <- <-]. split; simpl.
  - apply Forall2_same. auto.
  - exists []. by rewrite app_nil_r.
  - apply Forall2_if; [auto|]. intros d _. right. by split_and!.
Qed.

Section confined.
Context `{W : World, J : Jwt, L : Lib} (round : Time → Time) (collate : string → string → comparison)
  (accepts : string → bool) (id : string) (T0 : Tables Time) (p : string).

Abbreviation spec := (Spec round collate accepts).
Abbreviation inv := (on_db (confined id T0) p).

Lemma preserves_statement args f :
  (∀ T T' n, f T = Some (T', n) → confined id T T') →
  preserves (confined id T0) (Store.exec accepts args f).
Proof using.
  intros Hf. apply preserves_exec. intros T T' n _ HT HC. eapply confined_trans; [exact HC|eauto].
Qed.

Lemma keeps_own_status st : keeps inv (store (SetDeviceStatus (Store := spec) id st)).
Proof using.
  apply store_keeps; [|simpl; unfold spec_SetDeviceStatus; sane_tac].
  apply preserves_bind; [|intros; apply preserves_affected].
  apply preserves_wrap, preserves_statement. intros T T' n. by apply confined_device.
Qed.

Lemma keeps_own_seen : keeps inv (store (UpdateLastSeen (Store := spec) id)).
Proof using.
  apply store_keeps; [|simpl; unfold spec_UpdateLastSeen; sane_tac].
  apply preserves_now; intros m. apply preserves_bind; [|intros; apply preserves_ret].
  apply preserves_statement. intros T T' n. by apply confined_device.
Qed.

Lemma keeps_own_heartbeat hb :
  hb_DeviceID hb = id → keeps inv (store (InsertHeartbeat (Store := spec) hb)).
Proof using.
  intros Hid. apply store_keeps; [|simpl; unfold spec_InsertHeartbeat; sane_tac].
  apply preserves_now; intros m. apply preserves_bind; [|intros; apply preserves_ret].
  apply preserves_exec_insert; [intros k T HC; eapply confined_trans; [exact HC|apply confined_skip]|].
  intros T T' n _ HT HC. rewrite Hid in HT. eapply confined_trans; [exact HC|by eapply confined_heartbeat].
Qed.

Lemma keeps_answer req payload : keeps inv (store (SaveDiagnosticResult (Store := spec) req payload)).
Proof using.
  apply store_keeps; [|simpl; unfold spec_SaveDiagnosticResult; sane_tac].
  apply preserves_now; intros m. apply preserves_bind; [|intros; apply preserves_affected].
  apply preserves_wrap, preserves_statement. intros T T' n. by apply confined_answer.
Qed.

Lemma keeps_traffic c raw : keeps inv (client_message (St := spec) c id raw).
Proof using.
  pose proof (keeps_wsLimiter inv). pose proof keeps_own_seen. pose proof keeps_own_heartbeat.
  pose proof keeps_answer.
  unfold client_message, allowMessage, handleWSMessage, handleHeartbeat, handleDiagResponse. keeps_tac.
Qed.

Lemma keeps_session r :
  keeps inv (c ← client_open (St := spec) id;
    _ ← Run (St := spec) c id (rq_frames r); publish (disconnected_event id)).
Proof using.
  pose proof keeps_own_status.
  apply keeps_bind; [unfold client_open, NewClient; keeps_tac|]. intros c.
  apply keeps_bind; [|keeps_tac]. apply keeps_deferred; [|unfold client_close; keeps_tac].
  induction (rq_frames r) as [|raw frames IH]; simpl; [apply keeps_ret|].
  apply keeps_bind; [apply keeps_traffic|done].
Qed.
End confined.

(** C20: a device's connection changes the device's own data.  Whatever request opens
    it and whatever messages come over it, the tables are as they were unless the token
    validates as a device's, and then only that device's row has another status or time
    it was last seen, the heartbeats added are all its own, and no request is added,
    removed or altered but in being answered. *)
Theorem device_traffic_confined `{W : World, J : Jwt, L : Lib} round collate accepts srv r
    (s : Sys (Ctx (Srv (Tables Time)))) :
  let T := sv_db (cx_srv (dat s)) in
  let T' := sv_db (cx_srv (dat (handleWebSocket (St := Spec round collate accepts) srv r s).1)) in
  T' = T ∨
  ∃ cl, jwt_parse (signing_key (jwtMgr srv)) (now_at (tick s)) (wsToken r) = Some cl ∧
    cl_Role cl = RoleDevice ∧ confined (cl_Subject cl) T T'.
Proof.
  intros T T'. subst T'. unfold handleWebSocket. case_bool_decide; [by left|].
  assert (Hv : Validate (E := panic) (jwtMgr srv) (wsToken r) s =
    (bump s, Ok (jwt_parse (signing_key (jwtMgr srv)) (now_at (tick s)) (wsToken r)))) by reflexivity.
  erewrite st_bind_ok by exact Hv. destruct (jwt_parse _ _ _) as [cl|]; [|by left].
  case_bool_decide as Hrole; cbn [negb]; [|by left]. destruct (ws_accept _ _ _) as [[]|[code body]]; [|by left].
  right. exists cl. split; [done|]. split; [done|].
  assert (Hk : keeps (on_db (confined (cl_Subject cl) T) (cx_pattern (dat s)))
    (_ ← respond (w_WriteHeader 101); c ← client_open (St := Spec round collate accepts) (cl_Subject cl);
     _ ← Run (St := Spec round collate accepts) c (cl_Subject cl) (rq_frames r); publish (disconnected_event (cl_Subject cl)))).
  { apply keeps_bind; [apply keeps_respond, on_db_blind|intros _; apply keeps_session]. }
  destruct (Hk (bump s)) as (a & _ & Hc & _); [split; [apply confined_refl|done]|]. exact Hc.
Qed.

(** ** One message *)

(** What a connection gets of a message written at reading [n]: nothing if it is closed
    or the write is lost. *)
Definition delivered `{W : World} {D} (n : nat) (c : client) (msg : list ascii) (sv : Srv D)
    : list (client * list ascii) :=
  if decide (writing n c sv = IoLost) then [] else [(c, msg)].

(** C31: the limiter stands between the envelope and the handler.  A message that is no
    envelope is answered with an error and changes nothing else, the limiter's count of
    the device included; an envelope takes one token of its device's bucket, and is handled
    if there was one; if not, it is counted and answered with an error under its own request
    identifier, and neither the tables nor the subscribers see it.  The answers reach the
    connection unless it is closed or the write is lost. *)
Theorem message_gate `{W : World} {D} `{St : Store D} c id raw (s : Sys (Ctx (Srv D))) :
  let out := client_message c id raw s in
  let sv := cx_srv (dat s) in
  match decode_envelope raw with
  | None =>
      out.2 = Ok () ∧ cx_obs (dat out.1) = cx_obs (dat s) ∧
      cx_srv (dat out.1) =
        put_written (sv_written sv ++ delivered (tick s) c (error_message "" "malformed message") sv) sv
  | Some env =>
      let '(lim, allowed) := allow (now_at (tick s)) id (sv_wsLimiter sv) in
      let sv' := put_wsLimiter lim sv in
      if allowed : bool
      then out = (_ ← handleWSMessage id env; mret ())
                   (MkSys (S (tick s)) (put_srv sv' (dat s)))
      else
        out.2 = Ok () ∧
        ob_metrics (cx_obs (dat out.1)) = IncWSMessageRejected (ob_metrics (cx_obs (dat s))) ∧
        cx_srv (dat out.1) =
          put_written (sv_written sv ++
            delivered (1 + tick s) c (error_message (en_RequestID env) "rate limit exceeded") sv) sv'
  end.
Proof.
  assert (Hwrite : ∀ msg (t : Sys (Ctx (Srv D))),
    let out := (_ ← conn_write c msg; mret ()) t in
    let sv := cx_srv (dat t) in
    out.2 = Ok () ∧ cx_obs (dat out.1) = cx_obs (dat t) ∧
    cx_srv (dat out.1) = put_written (sv_written sv ++ delivered (tick t) c msg sv) sv).
  { intros msg [t [sv obs w p]]. cbv zeta. unfold conn_write, delivered, writing, mbind, st_bind.
    cbn [dat tick cx_srv].
    assert (Hnil : sv = put_written (sv_written sv ++ []) sv) by (rewrite app_nil_r; by destruct sv).
    case_bool_decide; [|destruct (io_at t)]; cbn [fst snd dat cx_obs cx_srv put_srv]; by split_and!. }
  intros out sv. unfold client_message in out. destruct (decode_envelope raw) as [env|]; [|apply Hwrite].
  subst out.
  assert (Hl : ∀ lim allowed, allow (now_at (tick s)) id (sv_wsLimiter sv) = (lim, allowed) →
    limiter_allow sv_wsLimiter put_wsLimiter id s =
      (MkSys (S (tick s)) (put_srv (put_wsLimiter lim sv) (dat s)), Ok allowed)).
  { intros lim allowed Ha. unfold limiter_allow, time_Now, mbind, st_bind, on_srv, on_part.
    cbn [tick dat bump]. fold sv. by rewrite Ha. }
  destruct (allow _ id _) as [lim allowed]. specialize (Hl lim allowed eq_refl). cbv zeta.
  set (s1 := MkSys (S (tick s)) (put_srv (put_wsLimiter lim sv) (dat s))) in *.
  assert (Hgate : allowMessage id s = (if allowed then mret true else _ ← count IncWSMessageRejected; mret false) s1)
    by (unfold allowMessage; by erewrite st_bind_ok by exact Hl).
  destruct allowed.
  - by erewrite st_bind_ok by exact Hgate.
  - erewrite st_bind_ok by exact Hgate. destruct (Hwrite (error_message (en_RequestID env) "rate limit exceeded")
      (count IncWSMessageRejected s1).1) as (H1 & H2 & H3). split_and!; [exact H1| |exact H3].
    exact (f_equal ob_metrics H2).
Qed.

(** C38: an answer goes to the request it names, whichever device sends it.  Over a
    working database, a diag_response with a request identifier writes its data and the
    time into every request of that identifier, of any device, replacing what an earlier
    answer left there; it is an error exactly when there is no such request. *)
Theorem diag_response_answers `{W : World} round collate accepts id env (s : Sys (Ctx (Srv (Tables Time)))) :
  reliable W → en_Type env = TypeDiagResponse → en_RequestID env ≠ "" →
  accepts (en_Data env) = true → accepts (en_RequestID env) = true →
  let out := handleWSMessage (St := Spec round collate accepts) id env s in
  let T := sv_db (cx_srv (dat s)) in
  out.2 = Ok (has_request (en_RequestID env) T) ∧
  cx_srv (dat out.1) = put_db (with_diagnostics (fmap (λ g,
      if bool_decide (gr_request_id g = en_RequestID env)
      then answer (round (now_at (tick s))) (en_Data env) g else g)) T) (cx_srv (dat s)).
Proof.
  intros Hio Htype Hreq Ha1 Ha2 out T.
  set (m := SaveDiagnosticResult (Store := Spec round collate accepts) (en_RequestID env) (en_Data env)).
  assert (Hout : out = (saved ← store m; mret (is_ok saved)) s).
  { subst out. unfold handleWSMessage, handleDiagResponse. rewrite Htype.
    by rewrite bool_decide_eq_false_2, bool_decide_eq_true_2, bool_decide_eq_false_2 by done. }
  pose proof (store_eq m s) as Hst. cbv zeta in Hst. fold T in Hst.
  set (T' := with_diagnostics _ T) in *.
  assert (Hm : ∃ t r, m (MkSys (tick s) T) = (MkSys t T', r) ∧ r ≠ Err Panicked ∧
    is_ok r = has_request (en_RequestID env) T).
  { subst m. simpl. unfold spec_SaveDiagnosticResult, time_Now, wrap, mbind, st_bind, Store.exec, exec_insert.
    cbn [forallb]. rewrite Ha1, Ha2. cbn [andb]. unfold db_exec_insert. rewrite Hio. cbn.
    unfold require_affected. rewrite affected_none. change (existsb _ _) with (has_request (en_RequestID env) T).
    destruct (has_request (en_RequestID env) T); cbn; eauto. }
  destruct Hm as (t & res & Hm & Hp & Hr). rewrite Hm in Hst. cbn [fst snd tick dat] in Hst.
  rewrite Hout. erewrite st_bind_ok by (by apply Hst). cbn. by rewrite Hr.
Qed.

Lemma diag_response_answers_witness :
  (λ W : World,
    let s := fresh_ctx (new_srv (MkTables [] [] [DiagRow 1 "b" "q" "" 0 None None] 1 2) 0) in
    let out := handleWSMessage (St := Spec trunc_sec String.compare (λ _, true)) "a"
                 (Build_Envelope TypeDiagResponse "q" "{}") s in
    out.2 = Ok true) test_world.
Proof.
  apply (diag_response_answers (W := test_world) trunc_sec String.compare (λ _, true) "a"
           (Build_Envelope TypeDiagResponse "q" "{}")
           (fresh_ctx (new_srv (MkTables [] [] [DiagRow 1 "b" "q" "" 0 None None] 1 2) 0))
           test_world_reliable eq_refl); [discriminate|reflexivity|reflexivity].
Defined.
