(* ===== verification/Schema.v ===== *)
(** * Schema scripts (internal/store/schema*.sql).

    A catalog is what the scripts build: tables with the names of their columns, and
    indexes, of which one whose concurrent build was interrupted is there but not
    valid.  Sql.v has the tables' contents. *)
From S2P Require Import Prelude World.
Local Open Scope Z_scope.

Record catalog := MkCatalog {
  ct_tables : gmap string (list string);
  ct_indexes : gmap string bool
}.

Definition empty_catalog : catalog := MkCatalog ∅ ∅.

Inductive ddl : Type :=
  | PragmaForeignKeys            (* no effect within a transaction *)
  | CreateTable (name : string) (cols : list string)
  | CreateIndex (concurrently : bool) (name table : string) (cols : list string).

(** Every statement says [IF NOT EXISTS]. *)
Definition run_ddl (d : ddl) (c : catalog) : option catalog :=
  match d with
  | PragmaForeignKeys => Some c
  | CreateTable name cols =>
      Some (match ct_tables c !! name with
            | Some _ => c
            | None => MkCatalog (<[name := cols]> (ct_tables c)) (ct_indexes c)
            end)
  | CreateIndex _ name table cols =>
      match ct_tables c !! table, ct_indexes c !! name with
      | None, _ => None
      | Some _, Some _ => Some c
      | Some have, None =>
          if bool_decide (cols ⊆ have)
          then Some (MkCatalog (ct_tables c) (<[name := true]> (ct_indexes c)))
          else None
      end
  end.

(** What is left of a concurrent build that died. *)
Definition half_ddl (d : ddl) (c : catalog) : catalog :=
  match d with
  | CreateIndex true name table _ =>
      match ct_tables c !! table, ct_indexes c !! name with
      | Some _, None => MkCatalog (ct_tables c) (<[name := false]> (ct_indexes c))
      | _, _ => c
      end
  | _ => c
  end.

Definition half_script (l : list ddl) (c : catalog) : catalog :=
  match l with [d] => half_ddl d c | _ => c end.

Definition run_script (l : list ddl) (c : catalog) : option catalog :=
  foldl (λ c d, c ≫= run_ddl d) (Some c) l.

Definition devices_columns : list string :=
  ["id"; "name"; "os"; "arch"; "secret_hash"; "status"; "registered_at"; "last_seen_at"].
Definition heartbeats_columns : list string :=
  ["id"; "device_id"; "received_at"; "cpu_percent"; "memory_percent"; "disk_percent";
   "uptime_seconds"; "os_version"].
Definition diagnostic_results_columns : list string :=
  ["id"; "device_id"; "request_id"; "scope"; "requested_at"; "received_at"; "payload"].

Definition schemaPostgresV1 : list ddl :=
  [CreateTable "devices" devices_columns; CreateTable "heartbeats" heartbeats_columns;
   CreateTable "diagnostic_results" diagnostic_results_columns].
Definition schemaV1 : list ddl := PragmaForeignKeys :: schemaPostgresV1.

Definition devices_index : string := "idx_devices_registered_at_id".

Definition schemaV2 : list ddl :=
  [CreateIndex false devices_index "devices" ["registered_at"; "id"]].
Definition schemaPostgresV2 : list ddl :=
  [CreateIndex true devices_index "devices" ["registered_at"; "id"]].

(** ** The catalogs they build *)

Definition tables_catalog : catalog := MkCatalog
  (<["diagnostic_results" := diagnostic_results_columns]>
     (<["heartbeats" := heartbeats_columns]> (<["devices" := devices_columns]> ∅))) ∅.

Definition indexed_catalog (valid : bool) : catalog :=
  MkCatalog (ct_tables tables_catalog) {[devices_index := valid]}.

Lemma run_v1 : run_script schemaPostgresV1 empty_catalog = Some tables_catalog.
Proof. reflexivity. Qed.

Lemma run_sqlite_v1 : run_script schemaV1 empty_catalog = Some tables_catalog.
Proof. reflexivity. Qed.

Lemma run_sqlite_v2 : run_script schemaV2 tables_catalog = Some (indexed_catalog true).
Proof. reflexivity. Qed.

Lemma run_v2 : run_script schemaPostgresV2 tables_catalog = Some (indexed_catalog true).
Proof. reflexivity. Qed.

Lemma run_v2_again b : run_script schemaPostgresV2 (indexed_catalog b) = Some (indexed_catalog b).
Proof. by destruct b. Qed.

Lemma half_v2 : half_script schemaPostgresV2 tables_catalog = indexed_catalog false.
Proof. reflexivity. Qed.

Lemma half_v2_again b : half_script schemaPostgresV2 (indexed_catalog b) = indexed_catalog b.
Proof. by destruct b. Qed.
