(* ===== verification/SQLiteMigrate.v ===== *)
(** * Migrations of SQLite (internal/store/sqlite.go).

    The file has its catalog and its [user_version]; a transaction works on a copy that
    its commit puts in place.  Each statement is a round trip of World.v, which may be
    lost, or done and reported as failed: either is also what a restart looks like from
    the file's side, as a start that fails ends the process. *)
From Stdlib Require Import Sorted.
From S2P Require Import Prelude World Schema.
Local Open Scope Z_scope.

Record sqlite_file := MkFile { sf_catalog : catalog; sf_version : Z }.

(** The database and its one connection: the pragmas set on it, the transaction. *)
Record sqlite_db := MkSqlite {
  sq_file : sqlite_file;
  sq_tx : option sqlite_file;
  sq_pragmas : gmap string string
}.

Record migration := MkMigration { mi_version : Z; mi_stmts : list ddl }.

Definition migrations : list migration := [MkMigration 1 schemaV1; MkMigration 2 schemaV2].

Inductive migrate_err : Type :=
  | ErrPragma (p : string) | ErrReadVersion | ErrBegin (v : Z) | ErrApply (v : Z)
  | ErrSetVersion (v : Z) | ErrCommit (v : Z).

Section migrate.
Context `{W : World}.

Abbreviation MOp := (Op sqlite_db migrate_err).

(** [ExecContext]: [f] is the statement, [None] its error. *)
Definition exec_stmt (err : migrate_err) (f : sqlite_db → option sqlite_db) : MOp unit := λ s,
  match io_at (tick s), f (dat s) with
  | IoOk, Some d => (MkSys (S (tick s)) d, Ok ())
  | IoUnacked, Some d => (MkSys (S (tick s)) d, Err err)
  | _, _ => (bump s, Err err)
  end.

Definition query_version : MOp Z := λ s,
  match io_at (tick s) with
  | IoOk => (bump s, Ok (sf_version (sq_file (dat s))))
  | _ => (bump s, Err ErrReadVersion)
  end.

Definition set_pragma (k v : string) (d : sqlite_db) : option sqlite_db :=
  Some (MkSqlite (sq_file d) (sq_tx d) (<[k := v]> (sq_pragmas d))).

Definition pragmas : list (string * string) :=
  [("busy_timeout", "5000"); ("journal_mode", "WAL"); ("synchronous", "NORMAL"); ("foreign_keys", "ON")].

Fixpoint exec_pragmas (l : list (string * string)) : MOp unit :=
  match l with
  | [] => mret ()
  | (k, v) :: l => _ ← exec_stmt (ErrPragma k) (set_pragma k v); exec_pragmas l
  end.

Definition applyPragmas : MOp unit := exec_pragmas pragmas.

(** [BeginTx]: a transaction whose begin is reported as failed is not used, even if it
    is open. *)
Definition begin_tx (v : Z) : MOp unit :=
  exec_stmt (ErrBegin v) (λ d, Some (MkSqlite (sq_file d) (Some (sq_file d)) (sq_pragmas d))).

(** A statement on the transaction's copy. *)
Definition in_tx (f : sqlite_file → option sqlite_file) (d : sqlite_db) : option sqlite_db :=
  t ← sq_tx d; t' ← f t; Some (MkSqlite (sq_file d) (Some t') (sq_pragmas d)).

Definition no_tx (d : sqlite_db) : sqlite_db := MkSqlite (sq_file d) None (sq_pragmas d).

(** [tx.Rollback], whose error is ignored: one that is lost leaves the transaction open. *)
Definition or_rollback (m : MOp unit) : MOp unit := λ s,
  match m s with
  | (s', Err e) =>
      (match io_at (tick s') with IoLost => bump s' | _ => MkSys (S (tick s')) (no_tx (dat s')) end, Err e)
  | p => p
  end.

(** [tx.Commit]: nothing rolls back a transaction it could not commit. *)
Definition commit_tx (v : Z) : MOp unit :=
  exec_stmt (ErrCommit v) (λ d, t ← sq_tx d; Some (MkSqlite t None (sq_pragmas d))).

Definition apply_stmts (l : list ddl) (f : sqlite_file) : option sqlite_file :=
  c ← run_script l (sf_catalog f); Some (MkFile c (sf_version f)).

Definition set_version (v : Z) (f : sqlite_file) : option sqlite_file := Some (MkFile (sf_catalog f) v).

(** The body of the loop, for a migration that is newer. *)
Definition apply_migration (m : migration) : MOp unit :=
  _ ← begin_tx (mi_version m);
  _ ← or_rollback (exec_stmt (ErrApply (mi_version m)) (in_tx (apply_stmts (mi_stmts m))));
  _ ← or_rollback (exec_stmt (ErrSetVersion (mi_version m)) (in_tx (set_version (mi_version m))));
  commit_tx (mi_version m).

Fixpoint apply_migrations (current : Z) (l : list migration) : MOp unit :=
  match l with
  | [] => mret ()
  | m :: l =>
      if mi_version m <=? current then apply_migrations current l
      else _ ← apply_migration m; apply_migrations current l
  end.

(** Over the list of migrations, for what the next release may make of it. *)
Definition migrate_with (l : list migration) : MOp unit :=
  current ← query_version; apply_migrations current l.

Definition NewSQLite_with (l : list migration) : MOp unit := _ ← applyPragmas; migrate_with l.

Definition migrate : MOp unit := migrate_with migrations.
Definition NewSQLite : MOp unit := NewSQLite_with migrations.
End migrate.

(** ** What a start leaves *)

Definition apply_one (m : migration) (f : sqlite_file) : option sqlite_file :=
  apply_stmts (mi_stmts m) f ≫= set_version (mi_version m).

Fixpoint apply_all (l : list migration) (f : sqlite_file) : option sqlite_file :=
  match l with [] => Some f | m :: l => apply_one m f ≫= apply_all l end.

Definition pending (v : Z) (l : list migration) : list migration := filter (λ m, v < mi_version m) l.

(** [d'] is [d] with the migrations [done] applied, each as a whole. *)
Definition advanced (done : list migration) (d d' : sqlite_db) : Prop :=
  apply_all done (sq_file d) = Some (sq_file d') ∧ sq_pragmas d' = sq_pragmas d.

Lemma apply_all_app l l' f : apply_all (l ++ l') f = apply_all l f ≫= apply_all l'.
Proof. revert f. induction l as [|m l IH]; intros f; simpl; [done|]. destruct (apply_one m f); simpl; auto. Qed.

Lemma advanced_trans done done' d1 d2 d3 :
  advanced done d1 d2 → advanced done' d2 d3 → advanced (done ++ done') d1 d3.
Proof.
  intros (H1 & H2) (H3 & H4). split; [by rewrite apply_all_app, H1|congruence].
Qed.

(** Releases only append migrations, with greater versions. *)
Definition ascending (l : list migration) : Prop :=
  StronglySorted (λ a b, mi_version a < mi_version b) l.

Lemma apply_all_version l f f' :
  apply_all l f = Some f' → sf_version f' = from_option mi_version (sf_version f) (last l).
Proof.
  revert f. induction l as [|m l IH]; intros f; simpl; [by intros [= <-]|].
  unfold apply_one. destruct (apply_stmts (mi_stmts m) f) as [f1|]; [|done]. intros H.
  rewrite (IH _ H). change (from_option mi_version (mi_version m) (last l) = from_option mi_version (sf_version f) (last (m :: l))).
  rewrite last_cons. by destruct (last l).
Qed.

Lemma sorted_pending v l : ascending l → ascending (pending v l).
Proof.
  unfold ascending, pending. induction 1 as [|m l Hl IH Hm]; [constructor|]. rewrite filter_cons.
  case_decide; [|done]. constructor; [done|]. rewrite Forall_forall in *. intros x Hx.
  apply list_elem_of_filter in Hx as [_ Hx]. by apply Hm.
Qed.

Lemma pending_after l f done todo f' :
  ascending l → pending (sf_version f) l = done ++ todo → apply_all done f = Some f' →
  pending (sf_version f') l = todo.
Proof.
  intros Hl Hp Ha. apply apply_all_version in Ha.
  assert (Hs : StronglySorted (λ a b, mi_version a < mi_version b) (done ++ todo)).
  { rewrite <-Hp. by apply sorted_pending. }
  assert (Hall : Forall (λ m, sf_version f < mi_version m) (done ++ todo)).
  { rewrite <-Hp. apply Forall_forall. intros m Hm. apply list_elem_of_filter in Hm. tauto. }
  destruct (last done) as [m|] eqn:Hlast; simpl in Ha.
  2: { apply last_None in Hlast as ->. by rewrite Ha. }
  apply last_Some in Hlast as [done' ->]. rewrite <-app_assoc in *. simpl in *.
  apply Forall_app in Hall as [_ Hall]. apply Forall_cons in Hall as [Hm _].
  assert (Hp' : pending (sf_version f') l = pending (sf_version f') (done' ++ m :: todo)).
  { rewrite <-Hp. unfold pending. rewrite list_filter_filter. apply list_filter_iff. intros x. lia. }
  rewrite Hp'. unfold pending. rewrite filter_app, filter_cons, decide_False by lia.
  assert (Hdt : ∀ x, (x ∈ done' → mi_version x < mi_version m) ∧ (x ∈ todo → mi_version m < mi_version x)).
  { intros x. split; intros Hx.
    - apply (StronglySorted_app_1_elem_of _ _ _ _ _ Hs Hx). by left.
    - apply StronglySorted_app_1_r in Hs. apply StronglySorted_inv in Hs as [_ Hs].
      rewrite Forall_forall in Hs. by apply Hs. }
  rewrite filter_none, filter_all; [done|..]; intros x Hx; apply Hdt in Hx; lia.
Qed.

Section facts.
Context `{W : World}.

(** A statement of a transaction: on its copy, or a failure that leaves the file alone. *)
Lemma tx_stmt err f n file t pr :
  let out := or_rollback (exec_stmt err (in_tx f)) (MkSys n (MkSqlite file (Some t) pr)) in
  (∃ m t', f t = Some t' ∧ out = (MkSys m (MkSqlite file (Some t') pr), Ok ())) ∨
  (∃ m tx, out = (MkSys m (MkSqlite file tx pr), Err err)).
Proof using.
  unfold or_rollback, exec_stmt, in_tx. simpl.
  destruct (f t) as [t'|]; simpl; destruct (io_at n); simpl;
    first [left; by eexists _, _|right; destruct (io_at (S n)); by eexists _, _].
Qed.

Lemma begin_cases v n file pr :
  let out := begin_tx v (MkSys n (MkSqlite file None pr)) in
  out = (MkSys (S n) (MkSqlite file (Some file) pr), Ok ()) ∨
  (∃ tx, out = (MkSys (S n) (MkSqlite file tx pr), Err (ErrBegin v))).
Proof using. unfold begin_tx, exec_stmt. simpl. destruct (io_at n); [by left|right; by eexists..]. Qed.

Lemma commit_cases v n file t pr :
  let out := commit_tx v (MkSys n (MkSqlite file (Some t) pr)) in
  (∃ r, out = (MkSys (S n) (MkSqlite t None pr), r)) ∨
  out = (MkSys (S n) (MkSqlite file (Some t) pr), Err (ErrCommit v)).
Proof using. unfold commit_tx, exec_stmt. simpl. destruct (io_at n); [left; by eexists|by right|left; by eexists]. Qed.

(** One migration: nothing of it, or all of it. *)
Lemma migration_step m s :
  sq_tx (dat s) = None →
  let out := apply_migration m s in
  (advanced [m] (dat s) (dat out.1) ∨ (advanced [] (dat s) (dat out.1) ∧ out.2 ≠ Ok ())) ∧
  (out.2 = Ok () → sq_tx (dat out.1) = None).
Proof using.
  destruct s as [t [f tx pr]]. simpl. intros ->. unfold advanced, apply_migration, mbind, st_bind.
  destruct (begin_cases (mi_version m) t f pr) as [->|[tx ->]]; [|by split; [right|]].
  destruct (tx_stmt (ErrApply (mi_version m)) (apply_stmts (mi_stmts m)) (S t) f f pr)
    as [(n1 & f1 & Hf1 & ->)|(n1 & tx & ->)]; [|by split; [right|]].
  destruct (tx_stmt (ErrSetVersion (mi_version m)) (set_version (mi_version m)) n1 f f1 pr)
    as [(n2 & f2 & [= <-] & ->)|(n2 & tx & ->)]; [|by split; [right|]].
  assert (Hone : apply_all [m] f = Some (MkFile (sf_catalog f1) (mi_version m)))
    by (cbn [apply_all]; unfold apply_one; by rewrite Hf1).
  by destruct (commit_cases (mi_version m) n2 f (MkFile (sf_catalog f1) (mi_version m)) pr) as [[r ->]| ->];
    (split; [|done]); [left|right].
Qed.

Lemma apply_migrations_spec current l s :
  sq_tx (dat s) = None →
  let out := apply_migrations current l s in
  ∃ done todo, pending current l = done ++ todo ∧ advanced done (dat s) (dat out.1) ∧
    (out.2 = Ok () → todo = [] ∧ sq_tx (dat out.1) = None).
Proof using.
  revert s. induction l as [|m l IH]; intros s Hs; simpl; [by exists [], []|].
  unfold pending. rewrite filter_cons. destruct (Z.leb_spec (mi_version m) current).
  { rewrite decide_False by lia. by apply IH. }
  rewrite decide_True by lia. fold (pending current l).
  pose proof (migration_step m s Hs) as Hm. cbv zeta in Hm.
  unfold mbind, st_bind. destruct (apply_migration m s) as [s1 [[]|e]]; simpl in *.
  - destruct Hm as [[Hm|[_ Hm]] Htx]; [|done].
    destruct (IH s1) as (done & todo & H1 & H2 & H3); [by apply Htx|].
    exists (m :: done), todo. rewrite H1. split; [done|]. split; [|done]. by apply (advanced_trans [m] done _ (dat s1)).
  - destruct Hm as [[Hm|[Hm _]] _]; [exists [m], (pending current l)|exists [], (m :: pending current l)]; by split_and!.
Qed.
End facts.

(** ** Starts *)

Section starts.
Context `{W : World}.

(** A start of a release and the end of its process, however it went: the connection
    ends with it, and with the connection a transaction left open. *)
Definition run_release (s : Sys sqlite_db) (l : list migration) : Sys sqlite_db :=
  let s' := (NewSQLite_with l s).1 in MkSys (tick s') (MkSqlite (sq_file (dat s')) None ∅).

Lemma pragmas_spec l s :
  let out := exec_pragmas l s in
  sq_file (dat out.1) = sq_file (dat s) ∧ sq_tx (dat out.1) = sq_tx (dat s) ∧
  (out.2 = Ok () → sq_pragmas (dat out.1) = foldl (λ p kv, <[kv.1 := kv.2]> p) (sq_pragmas (dat s)) l).
Proof using.
  revert s. induction l as [|[k v] l IH]; intros s; simpl; [done|].
  unfold mbind, st_bind, exec_stmt. destruct (io_at (tick s)); simpl; [|done..].
  destruct (IH (MkSys (S (tick s)) (MkSqlite (sq_file (dat s)) (sq_tx (dat s)) (<[k := v]> (sq_pragmas (dat s))))))
    as (H1 & H2 & H3). by split_and!.
Qed.

Lemma start_spec l s :
  sq_tx (dat s) = None →
  let out := NewSQLite_with l s in
  ∃ done todo, pending (sf_version (sq_file (dat s))) l = done ++ todo ∧
    apply_all done (sq_file (dat s)) = Some (sq_file (dat out.1)) ∧
    (out.2 = Ok () → todo = [] ∧ sq_tx (dat out.1) = None ∧ sq_pragmas (dat out.1) !! "foreign_keys" = Some "ON").
Proof using.
  intros Hs. pose proof (pragmas_spec pragmas s) as Hp. unfold NewSQLite_with, applyPragmas.
  cbv zeta in *. unfold mbind, st_bind. destruct (exec_pragmas pragmas s) as [s1 [[]|e]]; simpl in *.
  - destruct Hp as (<- & Htx & Hp). specialize (Hp eq_refl). rewrite Hs in Htx.
    unfold migrate_with, mbind, st_bind, query_version.
    destruct (io_at (tick s1)); simpl;
      [|by exists [], (pending (sf_version (sq_file (dat s1))) l)..].
    destruct (apply_migrations_spec (sf_version (sq_file (dat s1))) l (bump s1) Htx)
      as (done & todo & H1 & (H2 & H3) & H4).
    exists done, todo. split_and!; [done..|]. intros Hok. destruct (H4 Hok) as [-> Htx']. split_and!; [done..|].
    rewrite H3. simpl. by rewrite Hp, lookup_insert_eq.
  - destruct Hp as (<- & Htx & _). by exists [], (pending (sf_version (sq_file (dat s1))) l).
Qed.

Lemma releases_spec l ls s :
  ascending l → Forall (λ l', l' `prefix_of` l) ls → sq_tx (dat s) = None →
  let s' := foldl run_release s ls in
  ∃ done todo, pending (sf_version (sq_file (dat s))) l = done ++ todo ∧
    apply_all done (sq_file (dat s)) = Some (sq_file (dat s')) ∧ sq_tx (dat s') = None.
Proof using.
  intros Hl Hls. revert s. induction Hls as [|l' ls [k ->] _ IH]; intros s Hs; simpl.
  { by exists [], (pending (sf_version (sq_file (dat s))) l). }
  destruct (start_spec l' s Hs) as (done & todo & H1 & H2 & _).
  destruct (IH (run_release s l') eq_refl) as (done' & todo' & H4 & H5 & H6). simpl in H4, H5.
  assert (H : pending (sf_version (sq_file (dat s))) (l' ++ k) =
              done ++ (todo ++ pending (sf_version (sq_file (dat s))) k)).
  { unfold pending in *. by rewrite filter_app, H1, app_assoc. }
  rewrite (pending_after _ _ _ _ _ Hl H H2) in H4. exists (done ++ done'), todo'.
  rewrite H, H4, app_assoc. split_and!; [done| |done]. by rewrite apply_all_app, H2.
Qed.
End starts.

(** C14: upgrades of SQLite can be interrupted anywhere.  Whatever releases were started
    before, each with a first part of this release's migrations, and however their starts
    and this one go, the file always holds the first of the pending migrations, each
    applied as a whole with its version; a start that succeeds has applied them all, once
    and in order, leaves no transaction open, and foreign keys are on. *)
Theorem sqlite_upgrades_resume `{W : World} l ls s :
  ascending l → Forall (λ l', l' `prefix_of` l) ls → sq_tx (dat s) = None →
  let file := sq_file (dat s) in
  let out := NewSQLite_with l (foldl run_release s ls) in
  ∃ done todo, pending (sf_version file) l = done ++ todo ∧
    apply_all done file = Some (sq_file (dat out.1)) ∧
    (out.2 = Ok () →
     todo = [] ∧ sq_tx (dat out.1) = None ∧ sq_pragmas (dat out.1) !! "foreign_keys" = Some "ON").
Proof.
  intros Hl Hls Hs file. cbv zeta.
  destruct (releases_spec l ls s Hl Hls Hs) as (done & todo & H1 & H2 & H3).
  destruct (start_spec l _ H3) as (done' & todo' & H4 & H5 & H6).
  rewrite (pending_after _ _ _ _ _ Hl H1 H2) in H4. exists (done ++ done'), todo'.
  fold file in H1, H2. rewrite H1, H4, app_assoc. split_and!; [done| |exact H6]. by rewrite apply_all_app, H2.
Qed.

(** A start of the program over a new file that works, after one that could not commit. *)
Definition shaky_world : World := {|
  now_at := @now_at test_world; uuid_at := @uuid_at test_world;
  io_at n := if bool_decide (n = 8%nat) then IoUnacked else IoOk;
  bcrypt_at := @bcrypt_at test_world; order_at := @order_at test_world;
  gap_at := @gap_at test_world
|}.

Lemma sqlite_upgrades_resume_witness :
  (λ W : World,
    let s := MkSys 0 (MkSqlite (MkFile empty_catalog 0) None ∅) in
    sf_version (sq_file (dat (foldl run_release s [migrations]))) = 1 ∧
    sq_file (dat (NewSQLite (foldl run_release s [migrations])).1) = MkFile (indexed_catalog true) 2)
    shaky_world.
Proof.
  split; [reflexivity|].
  destruct (sqlite_upgrades_resume (W := shaky_world) migrations [migrations]
              (MkSys 0 (MkSqlite (MkFile empty_catalog 0) None ∅))) as (done & todo & H1 & H2 & H3).
  - repeat constructor.
  - by repeat constructor.
  - reflexivity.
  - destruct H3 as [-> _]; [reflexivity|]. rewrite app_nil_r in H1. subst done.
    assert (E : ∀ f, apply_all (pending 0 migrations) (MkFile empty_catalog 0) = Some f →
                     f = MkFile (indexed_catalog true) 2) by (intros f [= <-]; reflexivity).
    apply E. exact H2.
Defined.

(** Over a database that answers, a start fails only on a script that does. *)
Lemma start_succeeds `{W : World} l s f :
  reliable W → sq_tx (dat s) = None →
  apply_all (pending (sf_version (sq_file (dat s))) l) (sq_file (dat s)) = Some f →
  (NewSQLite_with l s).2 = Ok ().
Proof.
  intros Hio Hs Ha. pose proof (pragmas_spec pragmas s) as Hp. unfold NewSQLite_with, applyPragmas.
  assert (Hok : ∀ l s, (exec_pragmas l s).2 = Ok ()).
  { clear -Hio. induction l as [|[k v] l IH]; intros s; simpl; [done|].
    unfold mbind, st_bind, exec_stmt. rewrite Hio. simpl. apply IH. }
  specialize (Hok pragmas s). unfold mbind, st_bind. destruct (exec_pragmas pragmas s) as [s1 r]. simpl in *. subst r.
  destruct Hp as (Hfile & Htx & _). rewrite Hs in Htx. rewrite <-Hfile in Ha. clear s Hs Hfile.
  unfold migrate_with, mbind, st_bind, query_version. rewrite Hio. simpl.
  revert Ha Htx. generalize (sf_version (sq_file (dat s1))) as v. intros v.
  change (sq_file (dat s1)) with (sq_file (dat (bump s1))). change (sq_tx (dat s1)) with (sq_tx (dat (bump s1))).
  generalize (bump s1) as s. clear s1. unfold pending.
  induction l as [|m l IH]; intros s Ha Htx; simpl; [done|]. rewrite filter_cons in Ha.
  destruct (Z.leb_spec (mi_version m) v); [rewrite decide_False in Ha by lia; by apply IH|].
  rewrite decide_True in Ha by lia. simpl in Ha. destruct s as [t [file tx pr]]. simpl in *. subst tx.
  unfold apply_one in Ha. destruct (apply_stmts (mi_stmts m) file) as [f1|] eqn:Hf1; [|done].
  set (f2 := MkFile (sf_catalog f1) (mi_version m)).
  assert (Hm : apply_migration m (MkSys t (MkSqlite file None pr)) =
               (MkSys (S (S (S (S t)))) (MkSqlite f2 None pr), Ok ())).
  { unfold apply_migration, begin_tx, or_rollback, commit_tx, exec_stmt, in_tx, mbind, st_bind. simpl.
    repeat (rewrite ?Hio, ?Hf1; simpl). done. }
  unfold mbind, st_bind. rewrite Hm. by apply IH.
Qed.

(** The program's own migrations work.  Over a database that answers, a start on a
    new file, or on one an earlier start left at either version, succeeds and leaves all
    the tables and the index at version 2. *)
Theorem sqlite_start_succeeds `{W : World} s :
  reliable W → sq_tx (dat s) = None →
  sq_file (dat s) ∈ [MkFile empty_catalog 0; MkFile tables_catalog 1; MkFile (indexed_catalog true) 2] →
  let out := NewSQLite s in
  out.2 = Ok () ∧ sq_file (dat out.1) = MkFile (indexed_catalog true) 2.
Proof.
  intros Hio Hs Hf out.
  assert (Ha : apply_all (pending (sf_version (sq_file (dat s))) migrations) (sq_file (dat s)) =
               Some (MkFile (indexed_catalog true) 2)).
  { set_unfold in Hf. destruct Hf as [->|[->|[->|[]]]]; vm_compute; reflexivity. }
  pose proof (start_succeeds migrations s _ Hio Hs Ha) as Hok. split; [exact Hok|].
  destruct (start_spec migrations s Hs) as (done & todo & H1 & H2 & H3).
  destruct (H3 Hok) as [-> _]. rewrite app_nil_r in H1. rewrite <-H1, Ha in H2. injection H2 as H2. exact (eq_sym H2).
Qed.

Lemma sqlite_start_succeeds_witness :
  (λ W : World, (NewSQLite (MkSys 0 (MkSqlite (MkFile empty_catalog 0) None ∅))).2 = Ok ()) test_world.
Proof.
  destruct (sqlite_start_succeeds (W := test_world) (MkSys 0 (MkSqlite (MkFile empty_catalog 0) None ∅))
              test_world_reliable eq_refl (list_elem_of_here _ _)) as [H _].
  exact H.
Defined.
