(* ===== verification/PostgresMigrate.v ===== *)
(** * Migrations of Postgres (internal/store/postgres.go).

    Several instances of the program may start on one database, and each may die, or
    lose its session, anywhere.  [migrate] is a program whose every step is one round trip;
    the database has the disk all sessions see and the advisory lock, which ends with the
    session of its holder.  A transaction is the list of its statements, put on disk by
    its commit.

    What Postgres does about deadlocks is in the outcomes of the round trips: an instance
    that waits in [pg_advisory_lock] has a snapshot, for which a [CREATE INDEX
    CONCURRENTLY] of the holder waits, and Postgres ends one of the two with an error, the
    waiter's trip (not [Acked], while the lock is held) or the build's ([Halfway], which
    leaves an invalid index). *)
From S2P Require Import Prelude World Schema.
Local Open Scope Z_scope.

(** The catalog, and the rows of [puls_schema_version] once it exists. *)
Record pg_disk := MkDisk { pd_catalog : catalog; pd_versions : option (list Z) }.

Inductive pg_stmt : Type :=
  | CreateVersionTable
  | Script (l : list ddl)
  | InsertVersion (v : Z).

Definition run_stmt (st : pg_stmt) (d : pg_disk) : option pg_disk :=
  match st with
  | CreateVersionTable => Some (MkDisk (pd_catalog d) (Some (default [] (pd_versions d))))
  | Script l => c ← run_script l (pd_catalog d); Some (MkDisk c (pd_versions d))
  | InsertVersion v =>
      match pd_versions d with
      | None => None
      | Some l => if bool_decide (v ∈ l) then None   (* PRIMARY KEY *)
                  else Some (MkDisk (pd_catalog d) (Some (l ++ [v])))
      end
  end.

Definition run_stmts (l : list pg_stmt) (d : pg_disk) : option pg_disk :=
  foldl (λ d st, d ≫= run_stmt st) (Some d) l.

(** [SELECT COALESCE(MAX(version), 0)] *)
Definition max_version (l : list Z) : Z := foldr Z.max 0 l.

(** A round trip: answered; done, or not, and reported as failed; or a concurrent build
    that died on the way. *)
Inductive trip : Type := Acked | Unacked | Dropped | Halfway.

#[export] Instance trip_eq_dec : EqDecision trip.
Proof. solve_decision. Defined.

Definition acked (o : trip) : bool := bool_decide (o = Acked).

(** A statement outside a transaction, and whether it succeeds. *)
Definition autocommit (o : trip) (st : pg_stmt) (d : pg_disk) : pg_disk * bool :=
  match o, run_stmt st d with
  | Acked, Some d' => (d', true)
  | Unacked, Some d' => (d', false)
  | Halfway, _ =>
      (match st with
       | Script l => MkDisk (half_script l (pd_catalog d)) (pd_versions d)
       | _ => d
       end, false)
  | _, _ => (d, false)
  end.

Record pg_migration := MkPgMigration { pm_version : Z; pm_stmts : list ddl; pm_concurrent : bool }.

Definition pgMigrations : list pg_migration :=
  [MkPgMigration 1 schemaPostgresV1 false; MkPgMigration 2 schemaPostgresV2 true].

Record pg_db := MkPg { pg_on_disk : pg_disk; pg_lock : option nat }.

(** A session that ends takes its lock with it. *)
Definition end_session (i : nat) (db : pg_db) : pg_db :=
  MkPg (pg_on_disk db) (if bool_decide (pg_lock db = Some i) then None else pg_lock db).

(** Where an instance is in [migrate].  [PcDone] has returned: without an error, or with
    one, which ends the process. *)
Inductive pc : Type :=
  | PcConn | PcLock | PcCreate | PcRead
  | PcLoop (current : Z) (todo : list pg_migration)
  | PcApply (current : Z) (m : pg_migration) (todo : list pg_migration)
  | PcInsert (current : Z) (m : pg_migration) (todo : list pg_migration)
  | PcCommit (current : Z) (m : pg_migration) (todo : list pg_migration)
  | PcRecord (current : Z) (m : pg_migration) (todo : list pg_migration)
  | PcUnlock (ok : bool)
  | PcDone (ok : bool).

(** The statements of a migration's transaction. *)
Definition in_transaction (m : pg_migration) : list pg_stmt :=
  [Script (pm_stmts m); InsertVersion (pm_version m)].

(** The next step of instance [me] of [migrate]; [None] where it has to wait. *)
Definition migrate_step (me : nat) (o : trip) (p : pc) (db : pg_db) : option (pc * pg_db) :=
  let d := pg_on_disk db in
  let go ok p' := Some (if ok : bool then p' else PcUnlock false, db) in
  match p with
  | PcConn => Some (if acked o then PcLock else PcDone false, db)
  | PcLock =>
      match pg_lock db with
      | Some _ => if acked o then None else Some (PcDone false, db)   (* the deadline, or a deadlock *)
      | None =>
          Some match o with
               | Acked => (PcCreate, MkPg d (Some me))
               | Unacked => (PcDone false, MkPg d (Some me))   (* not unlocked *)
               | _ => (PcDone false, db)
               end
      end
  | PcCreate =>
      let '(d', ok) := autocommit o CreateVersionTable d in
      Some (if ok then PcRead else PcUnlock false, MkPg d' (pg_lock db))
  | PcRead =>
      match pd_versions d with
      | Some l => go (acked o) (PcLoop (max_version l) pgMigrations)
      | None => go false PcRead
      end
  | PcLoop _ [] => go true (PcUnlock true)
  | PcLoop current (m :: todo) =>
      if pm_version m <=? current then go true (PcLoop current todo)
      else if pm_concurrent m then
        let '(d', ok) := autocommit o (Script (pm_stmts m)) d in
        Some (if ok then PcRecord current m todo else PcUnlock false, MkPg d' (pg_lock db))
      else go (acked o) (PcApply current m todo)
  | PcApply current m todo =>
      go (acked o && bool_decide (is_Some (run_stmts (take 1 (in_transaction m)) d)))
        (PcInsert current m todo)
  | PcInsert current m todo =>
      go (acked o && bool_decide (is_Some (run_stmts (in_transaction m) d))) (PcCommit current m todo)
  | PcCommit current m todo =>
      let done := MkPg (default d (run_stmts (in_transaction m) d)) (pg_lock db) in
      match o with
      | Acked => Some (PcLoop current todo, done)
      | Unacked => Some (PcUnlock false, done)
      | _ => go false (PcUnlock false)
      end
  | PcRecord current m todo =>
      let '(d', ok) := autocommit o (InsertVersion (pm_version m)) d in
      Some (if ok then PcLoop current todo else PcUnlock false, MkPg d' (pg_lock db))
  | PcUnlock ok =>   (* its error is ignored *)
      Some (PcDone ok, match o with Acked | Unacked => end_session me db | _ => db end)
  | PcDone _ => None
  end.

(** ** Instances *)

(** The database, the instances, and those of them whose session is lost: their
    connection is pinned, and every further round trip of theirs fails. *)
Record fleet := MkFleet { fl_db : pg_db; fl_pcs : gmap nat pc; fl_lost : gset nat }.

Definition new_fleet : fleet := MkFleet (MkPg (MkDisk empty_catalog None) None) ∅ ∅.

(** Between the lock and the unlock. *)
Definition critical (p : pc) : bool :=
  match p with PcConn | PcLock | PcDone _ => false | _ => true end.

Inductive fleet_step : option trip → fleet → fleet → Prop :=
  | fleet_trip i o p p' db db' pcs lost :
      pcs !! i = Some p → (i ∈ lost → o = Dropped) → migrate_step i o p db = Some (p', db') →
      fleet_step (Some o) (MkFleet db pcs lost) (MkFleet db' (<[i := p']> pcs) lost)
  | fleet_lose i p db pcs lost :
      pcs !! i = Some p →
      fleet_step None (MkFleet db pcs lost) (MkFleet (end_session i db) pcs ({[i]} ∪ lost))
  | fleet_die i p db pcs lost :
      pcs !! i = Some p →
      fleet_step None (MkFleet db pcs lost) (MkFleet (end_session i db) (<[i := PcDone false]> pcs) lost)
  | fleet_start i db pcs lost :
      (∀ p, pcs !! i = Some p → ∃ ok, p = PcDone ok) →
      fleet_step None (MkFleet db pcs lost)
        (MkFleet (end_session i db) (<[i := PcConn]> pcs) (lost ∖ {[i]})).

Inductive fleet_run : list (option trip) → fleet → Prop :=
  | run_new : fleet_run [] new_fleet
  | run_step l o f f' : fleet_run l f → fleet_step o f f' → fleet_run (o :: l) f'.

(** ** Levels *)

(** [level b n d]: [n] migrations are recorded on disk [d]; an index there is valid if [b]. *)
Inductive level (b : bool) : nat → pg_disk → Prop :=
  | level_new : level b 0 (MkDisk empty_catalog None)
  | level_0 : level b 0 (MkDisk empty_catalog (Some []))
  | level_1 : level b 1 (MkDisk tables_catalog (Some [1]))
  | level_1_index v : (b = true → v = true) → level b 1 (MkDisk (indexed_catalog v) (Some [1]))
  | level_2 v : (b = true → v = true) → level b 2 (MkDisk (indexed_catalog v) (Some [1; 2])).

Lemma level_weaken b n d : level b n d → level false n d.
Proof. destruct 1; constructor; done. Qed.

(** What an instance in its critical section knows of the disk. *)
Definition knows (n : nat) (d : pg_disk) (current : Z) (todo : list pg_migration) : Prop :=
  is_Some (pd_versions d) ∧
  ∃ k, (k <= 2)%nat ∧ todo = drop k pgMigrations ∧ 0 <= current <= 2 ∧ Z.of_nat n = Z.max (Z.of_nat k) current.

Definition pc_ok (n : nat) (d : pg_disk) (p : pc) : Prop :=
  match p with
  | PcRead => is_Some (pd_versions d)
  | PcLoop current todo => knows n d current todo
  | PcApply current m todo | PcInsert current m todo | PcCommit current m todo =>
      knows n d current (m :: todo) ∧ current < pm_version m ∧ pm_concurrent m = false
  | PcRecord current m todo =>
      knows n d current (m :: todo) ∧ current < pm_version m ∧ pm_concurrent m = true ∧
      ∃ v, pd_catalog d = indexed_catalog v
  | PcUnlock true | PcDone true => n = 2%nat
  | _ => True
  end.

(** What remains true of any instance, also when others migrate after it lost its session. *)
Definition stale (n : nat) (p : pc) : Prop :=
  match p with
  | PcLoop current todo =>
      ∃ k, (k <= 2)%nat ∧ todo = drop k pgMigrations ∧ 0 <= current ∧ Z.max (Z.of_nat k) current <= Z.of_nat n
  | PcUnlock true | PcDone true => n = 2%nat
  | _ => True
  end.

Definition halfway (l : list (option trip)) : bool := bool_decide (Some Halfway ∈ l).

Record fleet_ok (b : bool) (f : fleet) : Prop := {
  fo_level : ∃ n, level b n (pg_on_disk (fl_db f)) ∧
    ∀ i p, fl_pcs f !! i = Some p →
      stale n p ∧ (critical p = true → i ∉ fl_lost f → pc_ok n (pg_on_disk (fl_db f)) p);
  fo_lock i p : fl_pcs f !! i = Some p → critical p = true → i ∉ fl_lost f → pg_lock (fl_db f) = Some i;
  fo_holder i : pg_lock (fl_db f) = Some i →
    i ∉ fl_lost f ∧ ∃ p, fl_pcs f !! i = Some p ∧ p ≠ PcConn ∧ p ≠ PcLock
}.

(** The place of a migration is told by what is left to do. *)
Lemma knows_cases n d current m todo :
  knows n d current (m :: todo) → current < pm_version m →
  is_Some (pd_versions d) ∧ 0 <= current ∧
  ((n = 0%nat ∧ m = MkPgMigration 1 schemaPostgresV1 false ∧ todo = drop 1 pgMigrations ∧ current = 0) ∨
   (n = 1%nat ∧ m = MkPgMigration 2 schemaPostgresV2 true ∧ todo = [] ∧ current <= 1)).
Proof.
  intros (Hv & k & Hk & Ht & Hc & Hn) Hm. split; [done|]. split; [lia|].
  destruct k as [|[|[|k]]]; [..|lia]; simpl in *; simplify_eq; simpl in *.
  - left. split_and!; [lia|done..|lia].
  - right. split_and!; [lia|done..|lia].
Qed.

Lemma create_level b n d d' :
  level b n d → run_stmt CreateVersionTable d = Some d' → level b n d' ∧ is_Some (pd_versions d').
Proof. intros [] [= <-]; (split; [by constructor|by eexists]). Qed.

Lemma index_level b d :
  level b 1 d → is_Some (pd_versions d) →
  ∃ d' v, run_stmt (Script schemaPostgresV2) d = Some d' ∧ level b 1 d' ∧
    is_Some (pd_versions d') ∧ pd_catalog d' = indexed_catalog v.
Proof.
  intros Hl _. inversion Hl as [| | |v Hv|]; subst.
  - exists (MkDisk (indexed_catalog true) (Some [1])), true. unfold run_stmt. simpl. rewrite run_v2. by repeat constructor.
  - exists (MkDisk (indexed_catalog v) (Some [1])), v. unfold run_stmt. simpl. rewrite run_v2_again. by repeat constructor.
Qed.

Lemma half_level d :
  level false 1 d →
  level false 1 (MkDisk (half_script schemaPostgresV2 (pd_catalog d)) (pd_versions d)).
Proof.
  inversion 1 as [| | |v Hv|]; subst; cbn [pd_catalog pd_versions].
  - rewrite half_v2. by constructor.
  - rewrite half_v2_again. by constructor.
Qed.

Lemma record_level b d v :
  level b 1 d → pd_catalog d = indexed_catalog v →
  ∃ d', run_stmt (InsertVersion 2) d = Some d' ∧ level b 2 d' ∧ is_Some (pd_versions d').
Proof.
  inversion 1 as [| | |v' Hv|]; subst; simpl; [done|]. intros _.
  eexists. split; [reflexivity|]. split; [by constructor|by eexists].
Qed.

Lemma tables_level b d :
  level b 0 d → is_Some (pd_versions d) →
  is_Some (run_stmts [Script schemaPostgresV1] d) ∧
  ∃ d', run_stmts [Script schemaPostgresV1; InsertVersion 1] d = Some d' ∧ level b 1 d' ∧
    is_Some (pd_versions d').
Proof.
  inversion 1; subst; intros Hv; [by destruct Hv|]. split; [by eexists|].
  exists (MkDisk tables_catalog (Some [1])). split; [reflexivity|]. split; [constructor|by eexists].
Qed.

Lemma level_versions b n d l : level b n d → pd_versions d = Some l → max_version l = Z.of_nat n.
Proof. by destruct 1; intros [= <-]. Qed.

Lemma level_bound b n d : level b n d → (n <= 2)%nat.
Proof. destruct 1; lia. Qed.

Lemma pc_ok_stale n d p : pc_ok n d p → stale n p.
Proof.
  destruct p as [| | | |cur todo| | | | |[]|[]]; simpl; try done.
  intros (_ & k & Hk & Ht & Hc & Hn). exists k. split_and!; [done|done|lia..].
Qed.

Lemma stale_known n d p : stale n p → (critical p = true → pc_ok n d p) → pc_ok n d p.
Proof. destruct p as [| | | |cur todo| | | | |[]|[]]; simpl; auto. Qed.

Lemma stale_later n n' p : stale n p → (n <= n')%nat → (n' <= 2)%nat → stale n' p.
Proof.
  destruct p as [| | | |cur todo| | | | |[]|[]]; simpl; try done; [|lia..].
  intros (k & Hk & Ht & Hc & Hn). exists k. split_and!; [done|done|lia..].
Qed.

(** An instance that has lost its session changes nothing. *)
Lemma stale_step n i p p' db db' :
  (n <= 2)%nat → stale n p → migrate_step i Dropped p db = Some (p', db') →
  db' = db ∧ stale n p' ∧ p' ≠ PcConn ∧ (p' = PcLock → p = PcConn).
Proof.
  intros Hn2 Hp Hstep. destruct db as [d lk].
  destruct p as [| | | |cur [|m todo]|cur m todo|cur m todo|cur m todo|cur m todo|ok|ok];
    cbn [migrate_step acked] in Hstep; try (injection Hstep as <- <-; by split_and!); try done.
  - destruct lk; injection Hstep as <- <-; by split_and!.
  - unfold migrate_step in Hstep. cbn [pg_on_disk] in Hstep.
    destruct (pd_versions d); injection Hstep as <- <-; by split_and!.
  - injection Hstep as <- <-. split_and!; [done| |done..]. destruct Hp as (k & Hk & Ht & Hc & Hn).
    simpl. destruct k as [|[|[|k]]]; try done; lia.
  - unfold migrate_step in Hstep. cbn [pg_on_disk pg_lock] in Hstep.
    destruct (Z.leb_spec (pm_version m) cur) as [Hm|Hm].
    + injection Hstep as <- <-. split_and!; [done| |done..]. destruct Hp as (k & Hk & Ht & Hc & Hn). exists (S k).
      destruct k as [|[|[|k]]]; [..|lia]; simpl in *; simplify_eq; simpl in *; split_and!; try lia; done.
    + destruct (pm_concurrent m); injection Hstep as <- <-; by split_and!.
Qed.

(** What a step from [p] to [p'] of an instance with a session does: the disk advances
    under the lock only, the lock is held through the critical section, and an answered
    step does not fail. *)
Record moves (b : bool) (n i : nat) (o : trip) (db : pg_db) (p p' : pc) (db' : pg_db) : Prop := {
  mv_level : ∃ n', level b n' (pg_on_disk db') ∧ (n <= n')%nat ∧ pc_ok n' (pg_on_disk db') p' ∧
    (critical p = false → n' = n ∧ pg_on_disk db' = pg_on_disk db);
  mv_lock : if critical p' then pg_lock db' = Some i ∧ (critical p = true ∨ pg_lock db = None)
            else pg_lock db' = pg_lock db ∨ (pg_lock db' = None ∧ pg_lock db = Some i) ∨
                 (pg_lock db' = Some i ∧ pg_lock db = None);
  mv_next : p' ≠ PcConn ∧ (p' = PcLock → p = PcConn ∧ pg_lock db' = pg_lock db);
  mv_acked : o = Acked → p ≠ PcUnlock false → p' ≠ PcUnlock false ∧ p' ≠ PcDone false
}.

Section moves.
Context (b : bool) (n : nat) (i : nat) (o : trip) (db : pg_db).
Context (Hl : level b n (pg_on_disk db)).

Lemma moves_within p p' d' n' :
  critical p = true → critical p' = true → pg_lock db = Some i →
  level b n' d' → (n <= n')%nat → pc_ok n' d' p' → (o = Acked → p' ≠ PcUnlock false) →
  moves b n i o db p p' (MkPg d' (pg_lock db)).
Proof using.
  intros Hp Hp' Hlock Hl' Hn Hpc Ha. split.
  - exists n'. split_and!; try done. by rewrite Hp.
  - rewrite Hp'. auto.
  - split; [by intros ->|by intros ->].
  - intros Hack _. split; [auto|]. by intros ->.
Qed.

Lemma moves_stay p p' :
  critical p = true → critical p' = true → pg_lock db = Some i →
  pc_ok n (pg_on_disk db) p' → (o = Acked → p' ≠ PcUnlock false) → moves b n i o db p p' db.
Proof using Hl.
  intros Hp Hp' Hlock Hpc Ha.
  pose proof (moves_within p p' (pg_on_disk db) n Hp Hp' Hlock Hl (le_n n) Hpc Ha) as M. by destruct db.
Qed.

(** A round trip that is not answered. *)
Lemma moves_fail p :
  critical p = true → pg_lock db = Some i → acked o = false → moves b n i o db p (PcUnlock false) db.
Proof using Hl. intros Hp Hlock Ha. apply moves_stay; [done..|]. by intros ->. Qed.

(** A step out of, or before, the critical section, that leaves the disk alone. *)
Lemma moves_outside p p' lk :
  critical p' = false → pc_ok n (pg_on_disk db) p' → p' ≠ PcConn →
  (p' = PcLock → p = PcConn ∧ lk = pg_lock db) →
  (o = Acked → p ≠ PcUnlock false → p' ≠ PcDone false) →
  (lk = pg_lock db ∨ (lk = None ∧ pg_lock db = Some i) ∨ (lk = Some i ∧ pg_lock db = None)) →
  moves b n i o db p p' (MkPg (pg_on_disk db) lk).
Proof using Hl.
  intros Hc Hpc H1 H2 H3 Hlk. split; [by exists n|by rewrite Hc|done|].
  intros Ha Hp. split; [by intros ->|auto].
Qed.
End moves.

Section step.
Context (b : bool) (n : nat) (i : nat) (o : trip) (db : pg_db).
Context (Hl : level b n (pg_on_disk db)) (Ho : o = Halfway → b = false).

(** A statement that works, outside a transaction. *)
Lemma moves_autocommit p p' st d1 n1 :
  critical p = true → critical p' = true → pg_lock db = Some i → p' ≠ PcUnlock false →
  run_stmt st (pg_on_disk db) = Some d1 → level b n1 d1 → (n <= n1)%nat → pc_ok n1 d1 p' →
  (o = Halfway → level b n (autocommit Halfway st (pg_on_disk db)).1) →
  moves b n i o db p (if (autocommit o st (pg_on_disk db)).2 then p' else PcUnlock false)
    (MkPg (autocommit o st (pg_on_disk db)).1 (pg_lock db)).
Proof using Hl Ho.
  intros Hp Hp' Hlock Hne Hst Hl1 Hn Hpc Hhalf. unfold autocommit in *. rewrite Hst in *.
  destruct o; simpl in *.
  - by apply moves_within with n1.
  - by apply moves_within with n1.
  - by apply moves_within with n.
  - apply moves_within with n; try done. by apply Hhalf.
Qed.

End step.

Lemma step_moves b n i o db p p' db' :
  level b n (pg_on_disk db) → (o = Halfway → b = false) →
  pc_ok n (pg_on_disk db) p → (critical p = true → pg_lock db = Some i) →
  migrate_step i o p db = Some (p', db') → moves b n i o db p p' db'.
Proof.
  intros Hl Ho Hp Hlock Hstep.
  destruct p as [| | | |cur [|m todo]|cur m todo|cur m todo|cur m todo|cur m todo|ok|ok];
    unfold migrate_step in Hstep; cbv beta zeta iota in Hstep.
  - destruct db as [d lk]. destruct o; injection Hstep as <- <-; apply (moves_outside b n i _ (MkPg d lk) Hl); auto; done.
  - destruct db as [d [j|]].
    { destruct o; [done|..]; injection Hstep as <- <-; apply (moves_outside b n i _ (MkPg d (Some j)) Hl); auto; done. }
    destruct o; injection Hstep as <- <-; [split; [by exists n|simpl; auto|done|done]|..];
      apply (moves_outside b n i _ (MkPg d None) Hl); auto; done.
  - destruct (run_stmt CreateVersionTable (pg_on_disk db)) as [d1|] eqn:Hst; [|done].
    destruct (create_level _ _ _ _ Hl Hst) as [Hl1 Hv].
    rewrite (surjective_pairing (autocommit _ _ _)) in Hstep. injection Hstep as <- <-.
    eapply moves_autocommit; eauto.
  - destruct Hp as [l Hv]. rewrite Hv in Hstep. injection Hstep as <- <-.
    destruct (acked o) eqn:Ha; [|apply moves_fail; auto].
    apply moves_stay; [done|done|done|auto| |done]. split; [by eexists|]. exists 0%nat.
    pose proof (level_versions _ _ _ _ Hl Hv). pose proof (level_bound _ _ _ Hl). split_and!; [lia|done|lia..].
  - injection Hstep as <- <-. apply moves_stay; [done|done|done|auto| |done]. simpl.
    destruct Hp as (_ & k & Hk & Ht & Hc & Hn). destruct k as [|[|[|k]]]; try done; lia.
  - destruct (Z.leb_spec (pm_version m) cur) as [Hm|Hm].
    { injection Hstep as <- <-. apply moves_stay; [done|done|done|auto| |done]. split; [apply Hp|].
      destruct Hp as (_ & k & Hk & Ht & Hc & Hn). exists (S k).
      destruct k as [|[|[|k]]]; [..|lia]; simpl in *; simplify_eq; simpl in *; split_and!; try lia; done. }
    destruct (knows_cases _ _ _ _ _ Hp Hm) as (Hv & Hc & [(Hn & -> & -> & ->)|(Hn & -> & -> & Hc1)]);
      cbn [pm_concurrent pm_stmts] in Hstep.
    + injection Hstep as <- <-. destruct (acked o) eqn:Ha; [|apply moves_fail; auto].
      apply moves_stay; [done|done|done|auto| |done]. by split_and!.
    + rewrite (surjective_pairing (autocommit _ _ _)) in Hstep. injection Hstep as <- <-.
      subst n. destruct (index_level _ _ Hl Hv) as (d1 & v & Hst & Hl1 & Hv1 & Hcat).
      apply moves_autocommit with d1 1%nat; try done; [auto|..].
      * split_and!; [|done|done|by eexists]. split; [done|]. apply Hp.
      * intros Hh. rewrite (Ho Hh) in *. by apply (half_level (pg_on_disk db)).
  - destruct Hp as (Hk & Hm & Hcon).
    destruct (knows_cases _ _ _ _ _ Hk Hm) as (Hv & Hc & [(Hn & -> & -> & ->)|(Hn & -> & _)]); [|done].
    subst n. destruct (tables_level _ _ Hl Hv) as [Hst _].
    cbn [take in_transaction pm_stmts pm_version] in Hstep. rewrite (bool_decide_eq_true_2 _ Hst), andb_true_r in Hstep.
    injection Hstep as <- <-. destruct (acked o) eqn:Ha; [|apply moves_fail; auto].
    apply moves_stay; [done|done|done|auto| |done]. by split_and!.
  - destruct Hp as (Hk & Hm & Hcon).
    destruct (knows_cases _ _ _ _ _ Hk Hm) as (Hv & Hc & [(Hn & -> & -> & ->)|(Hn & -> & _)]); [|done].
    subst n. destruct (tables_level _ _ Hl Hv) as [_ (d1 & Hst & _)].
    change (in_transaction _) with [Script schemaPostgresV1; InsertVersion 1] in Hstep. rewrite Hst in Hstep.
    rewrite bool_decide_eq_true_2, andb_true_r in Hstep by by eexists.
    injection Hstep as <- <-. destruct (acked o) eqn:Ha; [|apply moves_fail; auto].
    apply moves_stay; [done|done|done|auto| |done]. by split_and!.
  - destruct Hp as (Hk & Hm & Hcon).
    destruct (knows_cases _ _ _ _ _ Hk Hm) as (Hv & Hc & [(Hn & -> & -> & ->)|(Hn & -> & _)]); [|done].
    subst n. destruct (tables_level _ _ Hl Hv) as [_ (d1 & Hst & Hl1 & Hv1)].
    change (in_transaction _) with [Script schemaPostgresV1; InsertVersion 1] in Hstep. rewrite Hst in Hstep. cbn [default] in Hstep.
    assert (Hk1 : knows 1 d1 0 (drop 1 pgMigrations)).
    { split; [done|]. exists 1%nat. split_and!; [lia|done|lia..]. }
    destruct o; injection Hstep as <- <-.
    + apply moves_within with 1%nat; auto; done.
    + apply moves_within with 1%nat; auto; done.
    + apply moves_stay; auto; done.
    + apply moves_stay; auto; done.
  - destruct Hp as (Hk & Hm & Hcon & v & Hcat).
    destruct (knows_cases _ _ _ _ _ Hk Hm) as (Hv & Hc & [(Hn & -> & _)|(Hn & -> & -> & Hc1)]); [done|].
    subst n. cbn [pm_version] in Hstep.
    rewrite (surjective_pairing (autocommit _ _ _)) in Hstep. injection Hstep as <- <-.
    destruct (record_level _ _ _ Hl Hcat) as (d1 & Hst & Hl1 & Hv1).
    apply moves_autocommit with d1 2%nat; try done; [auto|lia|]. split; [done|]. exists 2%nat. split_and!; [lia|done|lia..].
  - destruct db as [d lk]. specialize (Hlock eq_refl). cbn [pg_lock] in Hlock. subst lk.
    destruct o; injection Hstep as <- <-; unfold end_session; cbn [pg_lock pg_on_disk];
      rewrite ?bool_decide_eq_true_2 by done;
      (apply (moves_outside b n i _ (MkPg d (Some i)) Hl); [done|by destruct ok|done|done|by destruct ok|by auto]).
  - done.
Qed.

(** ** Every fleet *)

Lemma fleet_new b : fleet_ok b new_fleet.
Proof.
  split; simpl; [|done|done]. exists 0%nat. split; [constructor|]. intros i p. by rewrite lookup_empty.
Qed.

Lemma fleet_weaken b f : fleet_ok b f → fleet_ok false f.
Proof.
  intros [(n & Hl & Hp) H2 H3]. split; [|done|done]. exists n. split; [by eapply level_weaken|done].
Qed.

(** A step of one instance that keeps the levels, what it knows, and the lock's holder. *)
Lemma fleet_update b n n' db db' pcs lost i p p' :
  fleet_ok b (MkFleet db pcs lost) → pcs !! i = Some p →
  level b n (pg_on_disk db) →
  (∀ j q, pcs !! j = Some q → stale n q ∧ (critical q = true → j ∉ lost → pc_ok n (pg_on_disk db) q)) →
  level b n' (pg_on_disk db') → (n <= n')%nat → pc_ok n' (pg_on_disk db') p' →
  (critical p = false → n' = n ∧ pg_on_disk db' = pg_on_disk db) → i ∉ lost →
  (if critical p' then pg_lock db' = Some i ∧ (critical p = true ∨ pg_lock db = None)
   else pg_lock db' = pg_lock db ∨ (pg_lock db' = None ∧ pg_lock db = Some i) ∨
        (pg_lock db' = Some i ∧ pg_lock db = None)) →
  p' ≠ PcConn → (p' = PcLock → p = PcConn ∧ pg_lock db' = pg_lock db) →
  fleet_ok b (MkFleet db' (<[i := p']> pcs) lost).
Proof.
  intros [_ Hlock Hheld] Hi Hl Hpc Hl' Hn Hpc' Hsame Hlost Hlk H1 H2. simpl in *.
  pose proof (level_bound _ _ _ Hl') as Hb.
  assert (Hone : ∀ j q, j ≠ i → pcs !! j = Some q → critical q = true → j ∉ lost →
            critical p = false ∧ pg_lock db' = pg_lock db).
  { intros j q Hj Hq Hcq Hjl. pose proof (Hlock _ _ Hq Hcq Hjl) as Hjlk.
    destruct (critical p) eqn:Hcp; [pose proof (Hlock _ _ Hi Hcp Hlost); congruence|]. split; [done|].
    destruct (critical p'); [destruct Hlk as [_ [?|?]]; congruence|].
    destruct Hlk as [?|[[_ ?]|[_ ?]]]; congruence. }
  split; simpl.
  - exists n'. split; [done|]. intros j q. destruct (decide (j = i)) as [->|Hj].
    + rewrite lookup_insert_eq. intros [= <-]. split; [by eapply pc_ok_stale|done].
    + rewrite lookup_insert_ne by done. intros Hq. destruct (Hpc _ _ Hq) as [Hst Hok].
      split; [by eapply stale_later|]. intros Hcq Hjl. destruct (Hone _ _ Hj Hq Hcq Hjl) as [Hcp _].
      destruct (Hsame Hcp) as [-> ->]. auto.
  - intros j q. destruct (decide (j = i)) as [->|Hj].
    + rewrite lookup_insert_eq. intros [= <-] Hc _. rewrite Hc in Hlk. apply Hlk.
    + rewrite lookup_insert_ne by done. intros Hq Hcq Hjl. destruct (Hone _ _ Hj Hq Hcq Hjl) as [_ ->]. eauto.
  - intros j Hj. destruct (decide (j = i)) as [->|Hne].
    + split; [done|]. exists p'. rewrite lookup_insert_eq. split_and!; [done..|].
      intros Hp'. destruct (H2 Hp') as [-> Heq]. rewrite Heq in Hj.
      destruct (Hheld _ Hj) as (_ & q & Hq & Hq1 & _). congruence.
    + rewrite lookup_insert_ne by done. apply Hheld. destruct (critical p'); [destruct Hlk; congruence|].
      destruct Hlk as [?|[[? _]|[? _]]]; congruence.
Qed.

Lemma fleet_step_ok b o f f' :
  fleet_ok b f → (o = Some Halfway → b = false) → fleet_step o f f' → fleet_ok b f'.
Proof.
  intros Hf Ho Hstep. pose proof Hf as [(n & Hl & Hpc) Hlock Hheld].
  destruct Hstep as [i o p p' db db' pcs lost Hi Hlost Hstep|i p db pcs lost Hi|i p db pcs lost Hi|i db pcs lost Hi];
    simpl in *.
  - destruct (decide (i ∈ lost)) as [Hil|Hil].
    + rewrite (Hlost Hil) in Hstep. destruct (Hpc _ _ Hi) as [Hst _].
      destruct (stale_step _ _ _ _ _ _ (level_bound _ _ _ Hl) Hst Hstep) as (-> & Hst' & H1 & H2).
      split; simpl.
      * exists n. split; [done|]. intros j q. destruct (decide (j = i)) as [->|Hj].
        -- rewrite lookup_insert_eq. intros [= <-]. by split.
        -- rewrite lookup_insert_ne by done. apply Hpc.
      * intros j q. destruct (decide (j = i)) as [->|Hj]; [done|]. rewrite lookup_insert_ne by done. apply Hlock.
      * intros j Hj. destruct (Hheld _ Hj) as (Hjl & q & Hq). split; [done|]. exists q.
        by rewrite lookup_insert_ne by (intros ->; done).
    + assert (Hp : pc_ok n (pg_on_disk db) p) by (apply stale_known; [apply (Hpc _ _ Hi)|intros Hc; exact (proj2 (Hpc _ _ Hi) Hc Hil)]).
      assert (Hm : moves b n i o db p p' db').
      { eapply step_moves; eauto. intros ->. auto. }
      destruct Hm as [(n' & Hl' & Hn & Hpc' & Hsame) Hlk [H1 H2] _].
      by eapply (fleet_update b n n' db db' pcs lost i p p').
  - split; simpl.
    + exists n. split; [done|]. intros j q Hq. destruct (Hpc _ _ Hq) as [H1 H2]. split; [done|].
      intros Hc Hj. apply H2; [done|set_solver].
    + intros j q Hq Hc Hj. assert (j ≠ i ∧ j ∉ lost) as [Hji Hjl] by set_solver.
      rewrite (Hlock _ _ Hq Hc Hjl). rewrite bool_decide_eq_false_2; [done|congruence].
    + intros j. case_bool_decide as Hd; [done|]. intros Hj. destruct (Hheld _ Hj) as [Hjl Hp].
      split; [|done]. assert (j ≠ i) by congruence. set_solver.
  - split; simpl.
    + exists n. split; [done|]. intros j q. destruct (decide (j = i)) as [->|Hj];
        [rewrite lookup_insert_eq; by intros [= <-]|rewrite lookup_insert_ne by done; eauto].
    + intros j q. destruct (decide (j = i)) as [->|Hj]; [rewrite lookup_insert_eq; by intros [= <-]|].
      rewrite lookup_insert_ne by done. intros Hq Hcq Hjl. pose proof (Hlock _ _ Hq Hcq Hjl) as ->.
      rewrite bool_decide_eq_false_2; congruence.
    + intros j. case_bool_decide as Hd; [done|]. intros Hj. rewrite lookup_insert_ne by congruence. eauto.
  - split; simpl.
    + exists n. split; [done|]. intros j q. destruct (decide (j = i)) as [->|Hj];
        [rewrite lookup_insert_eq; by intros [= <-]|rewrite lookup_insert_ne by done].
      intros Hq. destruct (Hpc _ _ Hq) as [H1 H2]. split; [done|]. intros Hc Hjl. apply H2; [done|set_solver].
    + intros j q. destruct (decide (j = i)) as [->|Hj]; [rewrite lookup_insert_eq; by intros [= <-]|].
      rewrite lookup_insert_ne by done. intros Hq Hcq Hjl. assert (j ∉ lost) as Hjl' by set_solver.
      rewrite (Hlock _ _ Hq Hcq Hjl'). rewrite bool_decide_eq_false_2; [done|congruence].
    + intros j. case_bool_decide as Hd; [done|]. intros Hj. rewrite lookup_insert_ne by congruence.
      destruct (Hheld _ Hj) as [Hjl Hp]. split; [set_solver|done].
Qed.

Lemma fleet_run_ok l f : fleet_run l f → fleet_ok (negb (halfway l)) f.
Proof.
  induction 1 as [|l o f f' _ IH Hstep]; [apply fleet_new|]. unfold halfway in *.
  destruct (decide (o = Some Halfway)) as [->|Ho].
  - rewrite bool_decide_eq_true_2 by by left. eapply fleet_step_ok; [by eapply fleet_weaken|done|done].
  - rewrite (bool_decide_ext _ (Some Halfway ∈ l)); [|set_solver].
    by eapply fleet_step_ok.
Qed.

(** C9: instances that start together migrate once.  However many instances start, are
    interrupted, lose their session and start again, at every moment at most one with a
    session is between the lock and the unlock, and one without changes nothing; the disk
    holds the first migrations, each with its record and none recorded twice; an instance
    that has returned without an error leaves the whole schema; and a step the database
    answers never fails.  The index is valid unless a concurrent build has died. *)
Theorem pg_migrations_serial l f :
  fleet_run l f →
  let disk := pg_on_disk (fl_db f) in
  let valid := negb (halfway l) in
  (∃ n, level valid n disk) ∧
  (∀ i j p q, fl_pcs f !! i = Some p → fl_pcs f !! j = Some q → i ∉ fl_lost f → j ∉ fl_lost f →
     critical p = true → critical q = true → i = j) ∧
  (∀ i p p' db', fl_pcs f !! i = Some p → migrate_step i Dropped p (fl_db f) = Some (p', db') →
     i ∈ fl_lost f → db' = fl_db f) ∧
  (∀ i, fl_pcs f !! i = Some (PcDone true) → level valid 2 disk) ∧
  (∀ i p p' db', fl_pcs f !! i = Some p → i ∉ fl_lost f →
     migrate_step i Acked p (fl_db f) = Some (p', db') →
     p ≠ PcUnlock false → p' ≠ PcUnlock false ∧ p' ≠ PcDone false).
Proof.
  intros Hrun disk valid. destruct (fleet_run_ok _ _ Hrun) as [(n & Hl & Hpc) Hlock Hheld].
  fold valid disk in Hl, Hpc. split_and!.
  - by exists n.
  - intros i j p q Hi Hj Hil Hjl Hp Hq. pose proof (Hlock _ _ Hi Hp Hil). pose proof (Hlock _ _ Hj Hq Hjl). congruence.
  - intros i p p' db' Hi Hstep _. destruct (Hpc _ _ Hi) as [Hst _].
    by apply (stale_step n i p p' _ _ (level_bound _ _ _ Hl) Hst Hstep).
  - intros i Hi. destruct (Hpc _ _ Hi) as [Hn _]. simpl in Hn. by subst n.
  - intros i p p' db' Hi Hil Hstep Hp.
    assert (Hm : moves valid n i Acked (fl_db f) p p' db').
    { eapply step_moves; eauto; [done|]. apply stale_known; [apply (Hpc _ _ Hi)|intros Hc; exact (proj2 (Hpc _ _ Hi) Hc Hil)]. }
    by apply (mv_acked _ _ _ _ _ _ _ _ Hm).
Qed.

(** Two instances are started, the first takes the lock and loses its session, and the
    second takes the lock. *)
Definition two_instances : fleet :=
  MkFleet (MkPg (MkDisk empty_catalog None) (Some 1%nat)) (<[1%nat := PcCreate]> (<[1%nat := PcLock]>
    (<[0%nat := PcCreate]> (<[0%nat := PcLock]> (<[1%nat := PcConn]> (<[0%nat := PcConn]> ∅))))))
    ({[0%nat]} ∪ (∅ ∖ {[0%nat]}) ∖ {[1%nat]}).

Lemma two_instances_run :
  fleet_run [Some Acked; Some Acked; None; Some Acked; Some Acked; None; None] two_instances.
Proof.
  eapply run_step; [eapply run_step; [eapply run_step; [eapply run_step; [eapply run_step; [eapply run_step; [eapply run_step; [apply run_new|]|]|]|]|]|]|].
  - by apply (fleet_start 0).
  - by apply (fleet_start 1).
  - by apply (fleet_trip 0 Acked PcConn).
  - by apply (fleet_trip 0 Acked PcLock).
  - by apply (fleet_lose 0 PcCreate).
  - by apply (fleet_trip 1 Acked PcConn).
  - by apply (fleet_trip 1 Acked PcLock).
Qed.

Lemma pg_migrations_serial_witness :
  (∃ n, level true n (pg_on_disk (fl_db two_instances))) ∧
  (∀ p' db', migrate_step 0 Dropped PcCreate (fl_db two_instances) = Some (p', db') → db' = fl_db two_instances).
Proof.
  destruct (pg_migrations_serial _ _ two_instances_run) as (H1 & _ & H2 & _). split; [exact H1|].
  intros p' db' H. apply (H2 0%nat PcCreate p' db' eq_refl H). set_solver.
Defined.

(** [migrate] of one instance, undisturbed, and with every round trip answered. *)
Fixpoint run_alone (fuel : nat) (me : nat) (p : pc) (db : pg_db) : pc * pg_db :=
  match fuel, migrate_step me Acked p db with
  | S fuel, Some (p', db') => run_alone fuel me p' db'
  | _, _ => (p, db)
  end.

(** C32: a later start of Postgres completes the migrations.  Whatever instances were
    started and however they ended, let one start that nothing interleaves with, while no
    session holds the lock, and whose round trips are answered.  It returns without an
    error within 12 steps, with both migrations recorded and their tables and index
    there, and has let go of the lock.  The index is valid if no concurrent build has died;
    after one that has, the start completes over the invalid index, which only an operator
    can replace. *)
Theorem pg_start_completes l f i :
  fleet_run l f → pg_lock (fl_db f) = None →
  let '(p, db) := run_alone 12 i PcConn (fl_db f) in
  p = PcDone true ∧ level (negb (halfway l)) 2 (pg_on_disk db) ∧ pg_lock db = None.
Proof.
  intros Hrun Hlock. destruct (fleet_run_ok _ _ Hrun) as [(n & Hl & _) _ _].
  destruct (fl_db f) as [d lk]. cbn [pg_on_disk pg_lock] in *. subst lk.
  assert (Hrun' : ∃ d', run_alone 12 i PcConn (MkPg d None) = (PcDone true, end_session i (MkPg d' (Some i))) ∧
                  level (negb (halfway l)) 2 d').
  { destruct Hl as [| | |v Hv|v Hv]; try destruct v.
    all: first [exists (MkDisk (indexed_catalog true) (Some [1; 2])); split; [reflexivity|by constructor]
               |exists (MkDisk (indexed_catalog false) (Some [1; 2])); split; [reflexivity|by constructor]]. }
  destruct Hrun' as (d' & -> & Hd'). unfold end_session. cbn [pg_lock pg_on_disk].
  by rewrite bool_decide_eq_true_2.
Qed.

Lemma pg_start_completes_witness :
  (run_alone 12 2 PcConn (fl_db new_fleet)).1 = PcDone true.
Proof.
  pose proof (pg_start_completes [] new_fleet 2 run_new eq_refl) as H.
  destruct (run_alone 12 2 PcConn (fl_db new_fleet)) as [p db]. exact (proj1 H).
Defined.
