(* ===== verification/HostStats.v ===== *)
(** * Host statistics (cmd/puls-agent/stats.go).

    What the agent reports of its machine.  gopsutil is a parameter: what each of its
    calls returns, [None] for an error.  A number that is no finite float32 or float64
    cannot be encoded, so a sample has one as [None]. *)
From Stdlib Require Import QArith Sorted.
From S2P Require Import Prelude GoString GoTime GoFloat GoJson GoNumber Model World Wire.
Local Open Scope Z_scope.

Record VirtualMemory := { vm_Total : Z; vm_UsedPercent : float64 }.
Record DiskUsage := { du_UsedPercent : float64; du_Total : Z }.
Record HostInfo := {
  hi_Hostname : string; hi_Platform : string; hi_PlatformVersion : string;
  hi_KernelVersion : string; hi_Uptime : Z
}.
Record Interface := { if_Name : string; if_Addrs : list string }.
Record Partition := { pt_Device : string; pt_Mountpoint : string; pt_Fstype : string }.

(** A process, and what reading its name, CPU and memory share gives; the last two are 0
    where there is an error. *)
Record Process := {
  pr_Pid : Z; pr_Name : option string; pr_CPUPercent : float64; pr_MemoryPercent : float32
}.

Class Host := {
  cpu_Percent : nat → option (list float64);
  cpu_Counts : nat → option Z;
  mem_VirtualMemory : nat → option VirtualMemory;
  disk_Usage : nat → string → option DiskUsage;
  disk_Partitions : nat → option (list Partition);
  host_Info : nat → option HostInfo;
  net_Interfaces : nat → option (list Interface);
  process_Processes : nat → option (list Process);
  goos_windows : bool
}.

(** ** JSON of maps and slices *)

(** [map[string]any]: the encoder sorts the keys. *)
Definition json_map (kvs : list (string * json)) : json :=
  json_object (sort_rows (λ a b, String.leb a.1 b.1) kvs).

(** A slice that is nil, or made and perhaps empty. *)
Definition json_slice (vs : option (list json)) : json :=
  match vs with
  | None => Some (bytes "null")
  | Some vs => vs ← mapM id vs; Some (byte 91 :: join_values vs ++ [byte 93])
  end.

(** A conversion to float32; beyond its range it is an infinity. *)
Definition float32_of (x : float64) : option float32 := to_float32 x.

Section stats.
Context `{W : World, H : Host}.

Definition diskRoot : string := if goos_windows then "C:\" else "/".

(** One sample, at reading [n] of the host.  [None]: a number no JSON has. *)
Definition heartbeatData (n : nat) : option HeartbeatData :=
  cpu ← match cpu_Percent n with Some (p :: _) => float32_of p | _ => Some 0%Q end;
  mem ← match mem_VirtualMemory n with Some vm => float32_of (vm_UsedPercent vm) | None => Some 0%Q end;
  dsk ← match disk_Usage n diskRoot with Some du => float32_of (du_UsedPercent du) | None => Some 0%Q end;
  Some match host_Info n with
       | Some info => Build_HeartbeatData cpu mem dsk (wrap64 (hi_Uptime info))
                        (hi_Platform info +:+ " " +:+ hi_PlatformVersion info)
       | None => Build_HeartbeatData cpu mem dsk 0 ""
       end.

Definition networkInterfaces (n : nat) : option (list json) :=
  fmap (M := list) (λ i, json_map [("name", json_string (if_Name i));
                        ("addrs", json_slice (Some (json_string <$> if_Addrs i)))]) <$> net_Interfaces n.

Record procStat := MkProcStat { ps_pid : Z; ps_name : string; ps_cpuPct : float64; ps_memPct : float32 }.

Definition proc_stat (p : Process) : option procStat :=
  name ← pr_Name p; Some (MkProcStat (pr_Pid p) name (pr_CPUPercent p) (pr_MemoryPercent p)).

(** Not before: [sort.Slice] leaves processes of the same share in some order. *)
Definition cpu_ge (a b : procStat) : bool := Qle_bool (ps_cpuPct b) (ps_cpuPct a).

Definition top_stats (n : nat) (limit : nat) (procs : list Process) : list procStat :=
  take limit (order_rows n cpu_ge (omap (M := list) proc_stat procs)).

Definition topProcesses (n : nat) (limit : nat) : option (list json) :=
  procs ← process_Processes n;
  Some (fmap (M := list) (λ s, json_map [("pid", json_int (ps_pid s)); ("name", json_string (ps_name s));
                        ("cpuPercent", encode_float64 (ps_cpuPct s));
                        ("memPercent", encode_float32 (ps_memPct s))]) (top_stats n limit procs)).

Definition storagePartitions (n : nat) : option (list json) :=
  partitions ← disk_Partitions n;
  Some (omap (M := list) (λ p,
    if bool_decide (pt_Mountpoint p = "") then None
    else Some (json_map
      ([("device", json_string (pt_Device p)); ("mountpoint", json_string (pt_Mountpoint p));
        ("fstype", json_string (pt_Fstype p))] ++
       match disk_Usage n (pt_Mountpoint p) with
       | Some u => [("usedPercent", encode_float64 (du_UsedPercent u)); ("totalBytes", json_int (du_Total u))]
       | None => []
       end))) partitions).

Definition diagnosticPayload (n : nat) (scope : DiagnosticScope) : list (string * json) :=
  match host_Info n with
  | Some info => [("hostname", json_string (hi_Hostname info));
                  ("platform", json_string (hi_Platform info +:+ " " +:+ hi_PlatformVersion info));
                  ("kernelVersion", json_string (hi_KernelVersion info));
                  ("uptimeSeconds", json_int (hi_Uptime info))]
  | None => []
  end ++
  match cpu_Counts n with Some cores => [("cpuCores", json_int cores)] | None => [] end ++
  match mem_VirtualMemory n with
  | Some vm => [("memoryTotalBytes", json_int (vm_Total vm));
                ("memoryUsedPercent", encode_float64 (vm_UsedPercent vm))]
  | None => []
  end ++
  if bool_decide (scope = ScopeNetwork) then [("interfaces", json_slice (networkInterfaces n))]
  else if bool_decide (scope = ScopeProcesses) then [("processes", json_slice (topProcesses n 10))]
  else if bool_decide (scope = ScopeStorage) then [("partitions", json_slice (storagePartitions n))]
  else [("interfaces", json_slice (networkInterfaces n)); ("processes", json_slice (topProcesses n 5));
        ("partitions", json_slice (storagePartitions n))].

(** ** The busiest processes *)

(** How a process is reported: its identifier, name, and share of CPU and of memory. *)
Definition process_json (p : Process) : json :=
  json_object [("cpuPercent", encode_float64 (pr_CPUPercent p)); ("memPercent", encode_float32 (pr_MemoryPercent p));
               ("name", json_string (default "" (pr_Name p))); ("pid", json_int (pr_Pid p))].

Definition busier (a b : Process) : Prop := (pr_CPUPercent b <= pr_CPUPercent a)%Q.
Definition busier_bool (a b : Process) : bool := Qle_bool (pr_CPUPercent b) (pr_CPUPercent a).

Lemma busier_total a b : busier_bool a b = true ∨ busier_bool b a = true.
Proof.
  unfold busier_bool. rewrite !Qle_bool_iff.
  destruct (Qlt_le_dec (pr_CPUPercent a) (pr_CPUPercent b)); auto using Qlt_le_weak.
Qed.

Lemma busier_trans a b c : busier_bool a b = true → busier_bool b c = true → busier_bool a c = true.
Proof. unfold busier_bool. rewrite !Qle_bool_iff. intros H1 H2. by eapply Qle_trans. Qed.

Lemma sorted_impl {A} (R S : A → A → Prop) l :
  (∀ a b, R a b → S a b) → StronglySorted R l → StronglySorted S l.
Proof. intros HRS. induction 1; constructor; [done|]. eapply Forall_impl; eauto. Qed.

(** The entry of a process that has a name. *)
Definition stat_of (p : Process) : procStat :=
  MkProcStat (pr_Pid p) (default "" (pr_Name p)) (pr_CPUPercent p) (pr_MemoryPercent p).

Lemma proc_stats procs :
  omap (M := list) proc_stat procs = stat_of <$> filter (λ p, is_Some (pr_Name p)) procs.
Proof using.
  induction procs as [|p procs IH]; [done|]. rewrite filter_cons.
  destruct (decide (is_Some (pr_Name p))) as [[name Hp]|Hp]; csimpl; unfold proc_stat at 1.
  - unfold stat_of at 1. rewrite Hp. simpl. by f_equal.
  - apply eq_None_not_Some in Hp. by rewrite Hp.
Qed.

(** C39: the agent reports the busiest processes.  When the processes cannot be listed,
    [topProcesses] reports none.  Otherwise it reports processes that have a name, with
    their own identifier, name, CPU share and memory share, in an order of descending CPU
    share: as many as the limit, or all of them if they are fewer, each once; and none it
    leaves out has a greater share than one it lists. *)
Theorem busiest_processes n limit :
  match process_Processes n with
  | None => topProcesses n limit = None
  | Some procs =>
      let named := filter (λ p, is_Some (pr_Name p)) procs in
      ∃ chosen rest,
        topProcesses n limit = Some (process_json <$> chosen) ∧
        chosen ++ rest ≡ₚ named ∧
        length chosen = Nat.min limit (length named) ∧
        StronglySorted busier chosen ∧
        ∀ a b, a ∈ chosen → b ∈ rest → busier a b
  end.
Proof using.
  unfold topProcesses. destruct (process_Processes n) as [procs|]; [|done].
  set (named := filter (λ p, is_Some (pr_Name p)) procs).
  set (l := order_rows n busier_bool named).
  assert (Hs : StronglySorted busier (take limit l ++ drop limit l)).
  { rewrite take_drop. eapply sorted_impl; [|apply order_rows_sorted; [apply busier_total|apply busier_trans]].
    intros a b Hab. by apply Qle_bool_iff. }
  exists (take limit l), (drop limit l). split_and!.
  - cbn [mbind option_bind]. unfold top_stats.
    rewrite proc_stats, (order_rows_fmap stat_of n busier_bool cpu_ge), <-fmap_take, <-list_fmap_compose by done.
    do 2 f_equal.
  - rewrite take_drop. apply order_rows_perm.
  - rewrite length_take. unfold l. by rewrite order_rows_perm.
  - by apply StronglySorted_app_1_l in Hs.
  - intros a b Ha Hb. exact (StronglySorted_app_1_elem_of _ _ _ _ _ Hs Ha Hb).
Qed.
End stats.
