(* ===== verification/AgentState.v ===== *)
(** * The agent's saved registration (cmd/puls-agent/state.go).

    The state file is its contents, if it exists.  Each call of the operating system
    works or fails as the oracle says; a write that fails may have written the beginning
    of the file. *)
From S2P Require Import Prelude GoString GoTime GoJson Model World Wire.
Local Open Scope Z_scope.

Inductive os_result : Type :=
  | OsOk
  | OsErr (written : option nat).

Class OsWorld := { os_at : nat → os_result }.

(** Why an operation failed. *)
Inductive os_err : Type := ErrRead | ErrParse | ErrMkdir | ErrEncode | ErrWrite | ErrRemove.

Record state := MkState { st_DeviceID : string; st_Token : string }.

Definition state_fields : list string := ["deviceId"; "token"].

Definition set_state_field (name : string) (raw : list ascii) (s : state) : option state :=
  if bool_decide (name = "deviceId")
  then v ← decode_string raw (st_DeviceID s); Some (MkState v (st_Token s))
  else v ← decode_string raw (st_Token s); Some (MkState (st_DeviceID s) v).

(** ** [json.MarshalIndent(s, "", "  ")] of a struct of strings *)

Definition newline_indent : list ascii := [byte 10; byte 32; byte 32].

Fixpoint indent_members (kvs : list (list ascii * list ascii)) : list ascii :=
  match kvs with
  | [] => []
  | (k, v) :: kvs =>
      newline_indent ++ encode_string k ++ byte 58 :: byte 32 :: encode_string v ++
      match kvs with [] => [byte 10] | _ => byte 44 :: indent_members kvs end
  end.

Definition indent_object (kvs : list (list ascii * list ascii)) : list ascii :=
  byte 123 :: indent_members kvs ++ [byte 125].

Definition state_text (s : state) : list ascii :=
  indent_object [(bytes "deviceId", bytes (st_DeviceID s)); (bytes "token", bytes (st_Token s))].

(** ** [filepath.Dir], where the separator is a slash *)

Fixpoint clean_elements (rooted : bool) (acc l : list string) : list string :=
  match l with
  | [] => rev acc
  | e :: l =>
      if bool_decide (e = "") || bool_decide (e = ".") then clean_elements rooted acc l
      else if bool_decide (e = "..") then
        match acc with
        | [] => clean_elements rooted (if rooted then [] else [".."]) l
        | a :: acc' =>
            if bool_decide (a = "..") then clean_elements rooted (".." :: acc) l
            else clean_elements rooted acc' l
        end
      else clean_elements rooted (e :: acc) l
  end.

Definition filepath_Dir (path : string) : string :=
  let rooted := HasPrefix path "/" in
  let l := clean_elements rooted [] (removelast (Split path (byte 47))) in
  let text := String.concat "/" l in
  if rooted then "/" +:+ text else if bool_decide (l = []) then "." else text.

Example dirs :
  filepath_Dir <$> ["state.json"; "./state.json"; "a/../state.json"; "/state.json"; "a/b/state.json";
                    "../x"; "/etc/../x/y"] =
  ["."; "."; "."; "/"; "a/b"; ".."; "/x"].
Proof. by vm_compute. Qed.

Section files.
Context `{O : OsWorld}.

(** Over the contents of the state file. *)
Abbreviation FOp := (Op (option (list ascii)) os_err).

Definition os_do (err : os_err) (f : option (list ascii) → option (list ascii)) : FOp unit := λ s,
  match os_at (tick s) with
  | OsOk => (MkSys (S (tick s)) (f (dat s)), Ok ())
  | OsErr _ => (bump s, Err err)
  end.

(** [None] where the file does not exist. *)
Definition os_ReadFile : FOp (option (list ascii)) := λ s,
  match os_at (tick s) with
  | OsOk => (bump s, Ok (dat s))
  | OsErr _ => (bump s, Err ErrRead)
  end.

Definition os_WriteFile (raw : list ascii) : FOp unit := λ s,
  match os_at (tick s) with
  | OsOk => (MkSys (S (tick s)) (Some raw), Ok ())
  | OsErr None => (bump s, Err ErrWrite)
  | OsErr (Some n) => (MkSys (S (tick s)) (Some (take n raw)), Err ErrWrite)
  end.

Definition loadState : FOp (option state) :=
  raw ← os_ReadFile;
  match raw with
  | None => mret None
  | Some raw =>
      match Unmarshal state_fields false set_state_field raw (MkState "" "") with
      | None => st_fail ErrParse
      | Some s =>
          if bool_decide (st_DeviceID s = "") || bool_decide (st_Token s = "") then mret None
          else mret (Some s)
      end
  end.

Definition saveState (path : string) (s : state) : FOp unit :=
  _ ← (if bool_decide (filepath_Dir path = ".") then mret () else os_do ErrMkdir id);
  os_WriteFile (state_text s).

(** A file that does not exist is no error. *)
Definition clearState : FOp unit := λ s,
  match dat s with
  | None => (bump s, Ok ())
  | Some _ => os_do ErrRemove (λ _, None) s
  end.
End files.

(** ** Reading back what was saved *)

Lemma skip_encode_string fuel l k :
  ascii_text l → skip_value (S fuel) (encode_string l ++ k) = Some k.
Proof.
  intros Hl. unfold encode_string. cbn [app skip_value skip_ws].
  change (is_space quote) with false. cbn match. rewrite Ascii.eqb_refl, <-app_assoc.
  cbn [app]. rewrite scan_string_escape; [done|done|].
  rewrite !length_app. pose proof (escape_length l Hl). simpl. lia.
Qed.

Lemma raw_encode_string l k : ascii_text l → raw_value (encode_string l ++ k) = Some (encode_string l, k).
Proof.
  intros Hl. unfold raw_value. rewrite skip_ws_encode_string, skip_encode_string by done.
  cbn [mbind option_bind]. by rewrite length_app, Nat.add_sub, take_app_length.
Qed.

Lemma scan_indent_members kvs fuel k :
  Forall (λ kv, ascii_text kv.1 ∧ ascii_text kv.2) kvs → kvs ≠ [] → (length kvs ≤ fuel)%nat →
  scan_members fuel (indent_members kvs ++ byte 125 :: k) =
    Some ((λ kv, (kv.1, encode_string kv.2)) <$> kvs, k).
Proof.
  intros Hok. revert fuel. induction Hok as [|[key v] kvs [Hk Hv] Hok IH];
    intros [|fuel] Hne Hf; try done; try (simpl in Hf; lia).
  simpl in Hk, Hv. cbn [indent_members scan_members].
  rewrite <-!app_assoc. change (skip_ws (newline_indent ++ ?x)) with (skip_ws x).
  rewrite skip_ws_encode_string, parse_encode_string by done.
  cbn [mbind option_bind app skip_ws]. change (is_space (byte 58)) with false. cbn match.
  change (Ascii.eqb (byte 58) (byte 58)) with true. cbn [negb].
  change (raw_value (byte 32 :: ?x)) with (raw_value x).
  rewrite <-app_assoc, raw_encode_string by done. cbn [mbind option_bind].
  destruct kvs as [|kv kvs].
  - cbn [app skip_ws]. change (is_space (byte 10)) with true. cbn match.
    change (is_space (byte 125)) with false. cbn match. by rewrite Ascii.eqb_refl.
  - cbn [app skip_ws]. change (is_space (byte 44)) with false. cbn match.
    change (Ascii.eqb (byte 44) (byte 125)) with false.
    change (Ascii.eqb (byte 44) (byte 44)) with true. cbn match.
    by rewrite IH by (done || (simpl in *; lia)).
Qed.

Lemma state_text_parsed id tok :
  ascii_text (bytes id) → ascii_text (bytes tok) →
  Unmarshal state_fields false set_state_field (state_text (MkState id tok)) (MkState "" "") =
    Some (MkState id tok).
Proof.
  intros Hi Ht. unfold Unmarshal, state_text, indent_object, parse_top. cbn [st_DeviceID st_Token skip_ws].
  change (is_space (byte 123)) with false. cbn match. rewrite Ascii.eqb_refl.
  set (kvs := [_; _]). set (text := indent_members kvs ++ [byte 125]).
  assert (Hws : ∃ r, skip_ws text = quote :: r) by by eexists.
  destruct Hws as [r ->]. change (Ascii.eqb quote (byte 125)) with false. cbn match.
  assert (Hkvs : Forall (λ kv, ascii_text kv.1 ∧ ascii_text kv.2) kvs).
  { repeat apply Forall_cons_2; [..|apply Forall_nil; done]; (split; [by apply (bool_decide_unpack _)|done]). }
  unfold text. rewrite scan_indent_members; [|done|done|unfold text; rewrite length_app; simpl; lia].
  cbn [mbind option_bind skip_ws decode_top]. clear text r.
  assert (Hset : ∀ v s, ascii_text (bytes v) →
    set_state_field "deviceId" (encode_string (bytes v)) s = Some (MkState v (st_Token s)) ∧
    set_state_field "token" (encode_string (bytes v)) s = Some (MkState (st_DeviceID s) v)).
  { intros v s Hv. unfold set_state_field.
    split; [rewrite bool_decide_eq_true_2 by done|rewrite bool_decide_eq_false_2 by done];
      rewrite decode_encode_string by done; cbn; by rewrite unbytes_bytes. }
  transitivity (decode_fields state_fields false set_state_field
    [(bytes "deviceId", encode_string (bytes id)); (bytes "token", encode_string (bytes tok))] (MkState "" ""));
    [reflexivity|].
  rewrite (decode_fields_cons _ _ _ _ "deviceId"), (proj1 (Hset _ _ Hi)) by reflexivity. cbn [mbind option_bind].
  by rewrite (decode_fields_cons _ _ _ _ "token"), (proj2 (Hset _ _ Ht)) by reflexivity.
Qed.

(** C34: a registration that was saved is found again.  When [saveState] returns nil for
    an identifier and a token of ASCII text, neither of them empty, [loadState] of the
    file returns the same registration, if the file can be read. *)
Theorem state_roundtrip `{O : OsWorld} path id tok s :
  ascii_text (bytes id) → ascii_text (bytes tok) → id ≠ "" → tok ≠ "" →
  let saved := saveState path (MkState id tok) s in
  saved.2 = Ok () → os_at (tick saved.1) = OsOk →
  (loadState saved.1).2 = Ok (Some (MkState id tok)).
Proof.
  intros Hi Ht Hid Htok. cbv zeta. intros Hok Hread.
  assert (Hdat : dat (saveState path (MkState id tok) s).1 = Some (state_text (MkState id tok))).
  { revert Hok. unfold saveState, mbind, st_bind, os_WriteFile, os_do, mret, st_ret.
    repeat (case_match; simplify_eq/=; try done). }
  clear Hok. revert Hread Hdat. generalize (saveState path (MkState id tok) s).1 as s'. intros s' Hread Hdat.
  unfold loadState, os_ReadFile, mbind, st_bind. rewrite Hread, Hdat, state_text_parsed by done.
  cbn [st_DeviceID st_Token]. by rewrite !bool_decide_eq_false_2 by done.
Qed.

Lemma state_roundtrip_witness :
  (λ O : OsWorld,
    (loadState (saveState "state.json" (MkState "u1" "t") (MkSys 0 None)).1).2 = Ok (Some (MkState "u1" "t")))
    {| os_at _ := OsOk |}.
Proof.
  apply (state_roundtrip (O := {| os_at _ := OsOk |}) "state.json" "u1" "t" (MkSys 0 None));
    [by apply (bool_decide_unpack _)|by apply (bool_decide_unpack _)|discriminate|discriminate|
     vm_compute; reflexivity|reflexivity].
Defined.
