(* ===== verification/Agent.v ===== *)
(** * The agent (cmd/puls-agent/agent.go).

    A device's client: it registers or reuses its registration, connects, sends
    heartbeats and answers diagnostic requests, and connects again when the connection
    ends.  The server, the network and the operating system are oracles of the reading
    of the agent's counter; what the agent does to them is its trace. *)
From Stdlib Require Import QArith.
From S2P Require Import Prelude GoString GoTime GoFloat GoJson Model World Wire HostStats AgentState.
Local Open Scope Z_scope.

Record Config := MkConfig {
  ServerURL : string;
  Name : string;
  OS : string;
  Arch : string;
  Secret : string;
  Interval : Duration;
  StateFile : string;
  Insecure : bool
}.

(** What a dial comes to: a connection, or an error with the status of a response if
    there was one. *)
Inductive dial : Type :=
  | Dialled
  | Refused (status : option Z).

(** What the goroutines of one connection see: the context is done; the read loop's
    next message, or its error; the ticker; an answer a goroutine has ready. *)
Inductive session_event : Type :=
  | EvDone
  | EvReadErr
  | EvFrame (raw : list ascii)
  | EvTick
  | EvAnswer (k : nat).

Class Network := {
  ctx_done : nat → bool;
  http_Do : nat → string → list ascii → option (Z * list ascii);
  ws_Dial : nat → string → string → dial;
  session_at : nat → list session_event;
  write_ok : nat → bool
}.

Inductive action : Type :=
  | Posted (url : string) (body : list ascii)
  | DialledAt (url token : string)
  | WroteHeartbeat (msg : list ascii)
  | WroteAnswer (requestID : string) (msg : list ascii)
  | ClosedConn
  | Waited (d : Duration).

Record agent_data := MkData { ad_file : option (list ascii); ad_trace : list action }.

Inductive agent_err : Type :=
  | ErrUnauthorized
  | ErrURL
  | ErrDial
  | ErrSession
  | ErrEncodeHeartbeat
  | ErrWriteHeartbeat
  | ErrNoSecret
  | ErrSend
  | ErrStatus (status : Z)
  | ErrResponse.

Definition NewAgent (cfg : Config) : res string Config :=
  let url := TrimSuffix (ServerURL cfg) "/" in
  let cfg := MkConfig url (Name cfg) (OS cfg) (Arch cfg) (Secret cfg) (Interval cfg)
               (StateFile cfg) (Insecure cfg) in
  if bool_decide (url = "") then Err "server URL is required"
  else if Interval cfg <=? 0 then Err "heartbeat interval must be positive"
  else Ok cfg.

Definition toWebSocketURL (serverURL : string) : res agent_err string :=
  if HasPrefix serverURL "https://" then Ok ("wss://" +:+ TrimPrefix serverURL "https://")
  else if HasPrefix serverURL "http://" then Ok ("ws://" +:+ TrimPrefix serverURL "http://")
  else Err ErrURL.

Section agent.
Context `{W : World, OW : OsWorld, N : Network, HS : Host} (cfg : Config).

Abbreviation AOp := (Op agent_data agent_err).

Definition act (a : action) : AOp unit := modify_dat (λ d, MkData (ad_file d) (ad_trace d ++ [a])).

Definition on_file {E A} (m : Op (option (list ascii)) E A) : Op agent_data E A :=
  on_part ad_file (λ f d, MkData f (ad_trace d)) m.

(** ** Registration *)

Definition register_url : string := ServerURL cfg +:+ "/api/v1/devices/register".

Definition register_body : list ascii :=
  default [] (register_request_json (Build_RegisterRequest (Name cfg) (OS cfg) (Arch cfg) (Secret cfg))).

(** [a.http.Do] *)
Definition post : AOp (Z * list ascii) := λ s,
  let s' := MkSys (S (tick s)) (MkData (ad_file (dat s)) (ad_trace (dat s) ++ [Posted register_url register_body])) in
  match http_Do (tick s) register_url register_body with
  | Some r => (s', Ok r)
  | None => (s', Err ErrSend)
  end.

(** The identifier and the token. *)
Definition register : AOp (string * string) :=
  '(status, body) ← post;
  if negb (status =? 201) then st_fail (ErrStatus status)
  else match Decode response_fields false set_response_field body (Build_RegisterResponse "" "") with
       | None => st_fail ErrResponse
       | Some out => mret (rs_DeviceID out, rs_Token out)
       end.

(** Errors of the state file are logged. *)
Definition ensureRegistered : AOp state :=
  loaded ← st_try (on_file loadState);
  match loaded with
  | Ok (Some st) => mret st
  | _ =>
      if bool_decide (Secret cfg = "") then st_fail ErrNoSecret
      else
        '(id, token) ← register;
        let st := MkState id token in
        _ ← st_try (E' := agent_err) (on_file (saveState (StateFile cfg) st));
        mret st
  end.

(** ** A connection *)

Definition conn_Write (a : action) : AOp bool := λ s,
  if write_ok (tick s)
  then (MkSys (S (tick s)) (MkData (ad_file (dat s)) (ad_trace (dat s) ++ [a])), Ok true)
  else (bump s, Ok false).

(** A reading of the host's oracles. *)
Definition sample : AOp nat := λ s, (bump s, Ok (tick s)).

Definition sendHeartbeat : AOp unit :=
  n ← sample;
  match (data ← heartbeatData n; Encode TypeHeartbeat "" (heartbeat_data_json data)) with
  | None => st_fail ErrEncodeHeartbeat
  | Some msg =>
      ok ← conn_Write (WroteHeartbeat msg);
      if ok : bool then mret () else st_fail ErrWriteHeartbeat
  end.

(** The goroutine of one request; its errors are logged. *)
Definition handleDiagRequest (env : Envelope) : AOp unit :=
  match decode_member "scope" (en_Data env) with
  | None => mret ()
  | Some scope =>
      n ← sample;
      match Encode TypeDiagResponse (en_RequestID env) (json_map (diagnosticPayload n scope)) with
      | None => mret ()
      | Some msg => _ ← conn_Write (WroteAnswer (en_RequestID env) msg); mret ()
      end
  end.

(** The requests whose goroutines [handleMessage] has started. *)
Definition handleMessage (env : Envelope) (pending : list Envelope) : list Envelope :=
  if bool_decide (en_Type env = TypeDiagRequest) then pending ++ [env] else pending.

(** The loop of [connectAndServe], with [readLoop] behind it: [None] when the context is
    done.  A connection that has no more events is lost. *)
Fixpoint serve_loop (events : list session_event) (pending : list Envelope) : AOp unit :=
  match events with
  | [] | EvReadErr :: _ => st_fail ErrSession
  | EvDone :: _ => act ClosedConn
  | EvFrame raw :: events =>
      match decode_envelope raw with
      | None => serve_loop events pending
      | Some env => serve_loop events (handleMessage env pending)
      end
  | EvTick :: events => _ ← sendHeartbeat; serve_loop events pending
  | EvAnswer k :: events =>
      match pending !! k with
      | None => serve_loop events pending
      | Some env => _ ← handleDiagRequest env; serve_loop events (delete k pending)
      end
  end.

Definition ws_Dial_at (url token : string) : AOp dial := λ s,
  (MkSys (S (tick s)) (MkData (ad_file (dat s)) (ad_trace (dat s) ++ [DialledAt url token])),
   Ok (ws_Dial (tick s) url token)).

Definition next_session : AOp (list session_event) := λ s, (bump s, Ok (session_at (tick s))).

Definition connectAndServe (token : string) : AOp unit :=
  wsURL ← st_lift (toWebSocketURL (ServerURL cfg));
  d ← ws_Dial_at (wsURL +:+ "/api/v1/ws") ("Bearer " +:+ token);
  match d with
  | Refused status => st_fail (if bool_decide (status = Some 401) then ErrUnauthorized else ErrDial)
  | Dialled =>
      _ ← sendHeartbeat;
      events ← next_session;
      serve_loop events []
  end.

(** ** The agent's life *)

Definition maxBackoff : Duration := 30 * Second.
Definition backoffResetAfter : Duration := 2 * maxBackoff.

Definition ctx_Err : AOp bool := λ s, (bump s, Ok (ctx_done (tick s))).

(** [time.After(d)] or the end of the context: [true] for the latter. *)
Definition wait (d : Duration) : AOp bool := λ s,
  if ctx_done (tick s) then (bump s, Ok true)
  else (MkSys (S (tick s)) (MkData (ad_file (dat s)) (ad_trace (dat s) ++ [Waited d])), Ok false).

Definition next_backoff (backoff : Duration) : Duration :=
  if backoff <? maxBackoff then Z.min (backoff * 2) maxBackoff else backoff.

(** [Some ()] is a return of nil; [None], still running after so many connections. *)
Fixpoint run_loop (fuel : nat) (st : state) (backoff : Duration) : AOp (option unit) :=
  match fuel with
  | O => mret None
  | S fuel =>
      connectedAt ← time_Now;
      r ← st_try (connectAndServe (st_Token st));
      stopped ← ctx_Err;
      if stopped : bool then mret (Some ()) else
      now ← time_Now;
      let backoff := if backoffResetAfter <? now - connectedAt then Second else backoff in
      st ← match r with
           | Err ErrUnauthorized =>
               _ ← st_try (E' := agent_err) (on_file clearState);
               ensureRegistered
           | _ => mret st
           end;
      stopped ← wait backoff;
      if stopped : bool then mret (Some ()) else run_loop fuel st (next_backoff backoff)
  end.

Definition Run (fuel : nat) : AOp (option unit) :=
  st ← ensureRegistered; run_loop fuel st Second.
End agent.
