(* ===== verification/AgentFacts.v ===== *)
(** * What the agent does to the others. *)
From Stdlib Require Import QArith.
From S2P Require Import Prelude GoString GoTime GoFloat GoJson Model World Wire HostStats AgentState Agent.
Local Open Scope Z_scope.

(** ** Pace

    What the agent may do next: dial, once for every wait; register, once for every dial;
    wait a second, or twice as long as it last waited, up to the longest wait. *)
Record pace := MkPace { can_dial : bool; can_post : bool; last_wait : option Duration }.

Definition start_pace : pace := MkPace true true None.

Definition wait_ok (last : option Duration) (d : Duration) : bool :=
  bool_decide (d = Second) ||
  match last with None => false | Some l => bool_decide (d = next_backoff l) end.

Definition pace_step (p : pace) (a : action) : option pace :=
  match a with
  | Posted _ _ => if can_post p then Some (MkPace (can_dial p) false (last_wait p)) else None
  | DialledAt _ _ => if can_dial p then Some (MkPace false true (last_wait p)) else None
  | Waited d => if wait_ok (last_wait p) d then Some (MkPace true (can_post p) (Some d)) else None
  | _ => Some p
  end.

Definition paced (tr : list action) : option pace :=
  foldl (λ p a, p ≫= λ p, pace_step p a) (Some start_pace) tr.

Lemma paced_snoc tr a : paced (tr ++ [a]) = paced tr ≫= λ p, pace_step p a.
Proof. unfold paced. by rewrite foldl_app. Qed.

Definition trace (s : Sys agent_data) : list action := ad_trace (dat s).

(** From a trace of pace in [P], [m] ends in one of pace in [Q]. *)
Definition pacing {A} (P : pace → Prop) (m : Op agent_data agent_err A)
    (Q : res agent_err A → pace → Prop) : Prop :=
  ∀ s p, paced (trace s) = Some p → P p → ∃ p', paced (trace (m s).1) = Some p' ∧ Q (m s).2 p'.

Section rules.
Context {A : Type}.

Lemma pacing_bind {B} P (R : res agent_err A → pace → Prop) (Q : res agent_err B → pace → Prop)
    (m : Op agent_data agent_err A) (f : A → Op agent_data agent_err B) :
  pacing P m R → (∀ a, pacing (R (Ok a)) (f a) Q) → (∀ e p, R (Err e) p → Q (Err e) p) →
  pacing P (m ≫= f) Q.
Proof using.
  intros Hm Hf He s p Hp HP. destruct (Hm s p Hp HP) as (p1 & Hp1 & HR).
  unfold mbind, st_bind. destruct (m s) as [s1 [a|e]]; simpl in *; [by eapply Hf|eauto].
Qed.

Lemma pacing_ret P (Q : res agent_err A → pace → Prop) a :
  (∀ p, P p → Q (Ok a) p) → pacing P (mret a) Q.
Proof using. intros H s p Hp HP. exists p. auto. Qed.

Lemma pacing_fail P (Q : res agent_err A → pace → Prop) e :
  (∀ p, P p → Q (Err e) p) → pacing P (st_fail e) Q.
Proof using. intros H s p Hp HP. exists p. auto. Qed.

(** What leaves the trace alone. *)
Lemma pacing_silent (P : pace → Prop) (m : Op agent_data agent_err A) :
  (∀ s, trace (m s).1 = trace s) → pacing P m (λ _, P).
Proof using. intros Hm s p Hp HP. exists p. by rewrite Hm. Qed.

Lemma pacing_weaken (P P' : pace → Prop) (Q Q' : res agent_err A → pace → Prop) m :
  pacing P m Q → (∀ p, P' p → P p) → (∀ r p, Q r p → Q' r p) → pacing P' m Q'.
Proof using. intros Hm HP HQ s p Hp H. destruct (Hm s p Hp (HP _ H)) as (p' & ? & ?). eauto. Qed.

(** One action. *)
Lemma pacing_step P (m : Op agent_data agent_err A) (Q : res agent_err A → pace → Prop) :
  (∀ s p, P p → ∃ a p', pace_step p a = Some p' ∧ trace (m s).1 = trace s ++ [a] ∧ Q (m s).2 p') →
  pacing P m Q.
Proof using.
  intros H s p Hp HP. destruct (H s p HP) as (a & p' & Ha & Ht & HQ). exists p'.
  by rewrite Ht, paced_snoc, Hp.
Qed.
End rules.

(** Actions that have no pace. *)
Definition unpaced (a : action) : bool :=
  match a with Posted _ _ | DialledAt _ _ | Waited _ => false | _ => true end.

Section agent.
Context `{W : World, OW : OsWorld, N : Network, HS : Host} (cfg : Config).

Lemma file_trace {E A} (m : Op (option (list ascii)) E A) s : trace (on_file m s).1 = trace s.
Proof using. unfold on_file, on_part, trace. by destruct (m _). Qed.

Lemma try_trace {E E' A} (m : Op agent_data E A) s :
  trace (st_try (E' := E') m s).1 = trace (m s).1.
Proof using. unfold st_try. by destruct (m s). Qed.

(** Writes and reads of the host, in any number. *)
Lemma pacing_heartbeat (P : pace → Prop) : pacing P sendHeartbeat (λ r p, P p ∧ r ≠ Err ErrUnauthorized).
Proof using.
  intros s p Hp HP. exists p. unfold sendHeartbeat, sample, conn_Write, mbind, st_bind.
  case_match; [|done]. cbn [tick bump]. destruct (write_ok _); simpl; [|done].
  unfold trace in *. simpl. by rewrite paced_snoc, Hp.
Qed.

Lemma pacing_answer (P : pace → Prop) env : pacing P (handleDiagRequest env) (λ r p, P p ∧ r = Ok ()).
Proof using.
  intros s p Hp HP. exists p. unfold handleDiagRequest, sample, conn_Write, mbind, st_bind.
  destruct (decode_member _ _); [|done]. case_match; [|done]. cbn [tick bump].
  destruct (write_ok _); simpl; [|done]. unfold trace in *. simpl. by rewrite paced_snoc, Hp.
Qed.

Lemma pacing_serve (P : pace → Prop) events pending :
  pacing P (serve_loop events pending) (λ r p, P p ∧ r ≠ Err ErrUnauthorized).
Proof using.
  revert pending. induction events as [|[| |raw| |k] events IH]; intros pending; simpl.
  - by apply pacing_fail.
  - intros s p Hp HP. exists p. unfold act, modify_dat, trace in *. simpl. by rewrite paced_snoc, Hp.
  - by apply pacing_fail.
  - destruct (decode_envelope raw); apply IH.
  - eapply pacing_bind; [apply pacing_heartbeat| |done]. intros []. eapply pacing_weaken; [apply IH| |done].
    by intros p [].
  - destruct (pending !! k); [|apply IH]. eapply pacing_bind; [apply pacing_answer| |naive_solver].
    intros []. eapply pacing_weaken; [apply IH| |done]. by intros p [].
Qed.

(** One connection: one dial, after which the agent may register. *)
Lemma pacing_connect token w :
  pacing (λ p, can_dial p = true ∧ last_wait p = w) (connectAndServe cfg token)
    (λ r p, last_wait p = w ∧ (r = Err ErrUnauthorized → can_post p = true)).
Proof using.
  unfold connectAndServe, toWebSocketURL.
  assert (Hurl : ∀ u, pacing (λ p, can_dial p = true ∧ last_wait p = w)
    (d ← ws_Dial_at u ("Bearer " +:+ token);
     match d with
     | Refused status => st_fail (if bool_decide (status = Some 401) then ErrUnauthorized else ErrDial)
     | Dialled => _ ← sendHeartbeat; events ← next_session; serve_loop events []
     end) (λ r p, last_wait p = w ∧ (r = Err ErrUnauthorized → can_post p = true))).
  { intros u. eapply pacing_bind with (R := λ r p, (∃ d, r = Ok d) ∧ last_wait p = w ∧ can_post p = true).
    - apply pacing_step. intros s p [Hd Hw].
      exists (DialledAt u ("Bearer " +:+ token)), (MkPace false true (last_wait p)). simpl. rewrite Hd.
      split_and!; eauto.
    - intros [|status]; [|apply pacing_fail; naive_solver].
      eapply pacing_weaken with (P := λ p, last_wait p = w ∧ can_post p = true)
        (Q := λ r p, (last_wait p = w ∧ can_post p = true) ∧ r ≠ Err ErrUnauthorized); [|naive_solver..].
      set (P := λ p, last_wait p = w ∧ can_post p = true).
      eapply pacing_bind; [apply (pacing_heartbeat P)| |done]. intros [].
      eapply pacing_bind with (R := λ r p, P p ∧ is_ok r = true).
      + intros s p Hp [HP _]. by exists p.
      + intros events. eapply pacing_weaken; [apply (pacing_serve P)| |done]. by intros p [].
      + by intros ? ? [].
    - by intros ? ? [[? ?] _]. }
  repeat case_match; simpl; [apply Hurl|apply Hurl|]. apply pacing_fail. naive_solver.
Qed.
End agent.

Section life.
Context `{W : World, OW : OsWorld, N : Network, HS : Host} (cfg : Config).

Lemma pacing_try {A} (P : pace → Prop) (m : Op agent_data agent_err A) Q :
  pacing P m Q → pacing P (st_try m) (λ r p, ∃ r', r = Ok r' ∧ Q r' p).
Proof using.
  intros Hm s p Hp HP. destruct (Hm s p Hp HP) as (p' & H1 & H2). exists p'.
  rewrite try_trace. unfold st_try. destruct (m s) as [s' r]. eauto.
Qed.

(** What a registration costs. *)
Lemma pacing_ensure c w :
  pacing (λ p, can_dial p = c ∧ can_post p = true ∧ last_wait p = w) (ensureRegistered cfg)
    (λ _ p, can_dial p = c ∧ last_wait p = w).
Proof using.
  set (P := λ p, can_dial p = c ∧ can_post p = true ∧ last_wait p = w).
  set (Q := λ p, can_dial p = c ∧ last_wait p = w).
  assert (Hw : ∀ A (r : res agent_err A) p, P p → Q p) by (intros A r p (?&?&?); by split).
  unfold ensureRegistered. eapply pacing_bind with (R := λ _, P).
  { apply pacing_silent. intros s. by rewrite try_trace, file_trace. }
  2: { intros e p. apply (Hw unit (Err e)). }
  intros loaded.
  assert (Hreg : pacing P (if bool_decide (Secret cfg = "") then st_fail ErrNoSecret
    else '(id, token) ← register cfg; _ ← st_try (E' := agent_err) (on_file (saveState (StateFile cfg) (MkState id token)));
         mret (MkState id token)) (λ _, Q)).
  { case_bool_decide; [apply pacing_fail, (Hw unit (Ok ()))|].
    eapply pacing_bind with (R := λ _, Q); [|intros [id token]|done].
    - eapply pacing_bind with (R := λ _, Q); [|intros [status body]|done].
      + apply pacing_step. intros s p (H1 & H2 & H3).
        exists (Posted (register_url cfg) (register_body cfg)), (MkPace (can_dial p) false (last_wait p)).
        simpl. rewrite H2. unfold post. case_match; simpl; by split_and!.
      + case_match; [by apply pacing_fail|]. case_match; [by apply pacing_ret|by apply pacing_fail].
    - eapply pacing_bind with (R := λ _, Q); [|intros ?; by apply pacing_ret|done].
      apply pacing_silent. intros s. by rewrite try_trace, file_trace. }
  destruct loaded as [[st|]|e]; [apply pacing_ret, (Hw unit (Ok ()))|exact Hreg|exact Hreg].
Qed.

Lemma pacing_again w :
  pacing (λ p, can_post p = true ∧ last_wait p = w)
    (_ ← st_try (E' := agent_err) (on_file clearState); ensureRegistered cfg) (λ _ p, last_wait p = w).
Proof using.
  set (P := λ p, can_post p = true ∧ last_wait p = w).
  eapply pacing_bind with (R := λ _, P); [|intros _|by intros ? ? []].
  - apply pacing_silent. intros s. by rewrite try_trace, file_trace.
  - intros s p Hp [H1 H2]. destruct (pacing_ensure (can_dial p) w s p Hp) as (p' & ? & _ & ?); [done|].
    by exists p'.
Qed.

Lemma pacing_run fuel st backoff w :
  (w = None ∧ backoff = Second ∨ ∃ d, w = Some d ∧ backoff = next_backoff d) →
  pacing (λ p, can_dial p = true ∧ last_wait p = w) (run_loop cfg fuel st backoff) (λ _ _, True).
Proof using.
  revert st backoff w. induction fuel as [|fuel IH]; intros st backoff w Hb; cbn [run_loop].
  { by apply pacing_ret. }
  set (P := λ p, can_dial p = true ∧ last_wait p = w).
  eapply pacing_bind with (R := λ _, P); [by apply pacing_silent|intros connectedAt|done].
  eapply pacing_bind; [apply pacing_try, pacing_connect|intros r|done].
  set (P1 := λ p, last_wait p = w ∧ (r = Err ErrUnauthorized → can_post p = true)).
  eapply pacing_weaken with (P := P1) (Q := λ _ _, True); [|by intros p (? & [= <-] & H)|done].
  eapply pacing_bind with (R := λ _, P1); [by apply pacing_silent|intros stopped|done].
  destruct stopped; [by apply pacing_ret|].
  eapply pacing_bind with (R := λ _, P1); [by apply pacing_silent|intros now|done].
  set (backoff' := if _ <? _ then Second else backoff).
  eapply pacing_bind with (R := λ _ p, last_wait p = w); [|intros st'|done].
  { assert (Hret : pacing P1 (mret st) (λ _ p, last_wait p = w)) by (apply pacing_ret; by intros p []).
    destruct r as [|[]]; try exact Hret.
    eapply pacing_weaken; [apply (pacing_again w)| |done]. intros p [H1 H2]. auto. }
  assert (Hok : wait_ok w backoff' = true).
  { unfold backoff'. destruct (_ <? _); [unfold wait_ok; by rewrite bool_decide_eq_true_2|].
    destruct Hb as [[-> ->]|(d & -> & ->)]; [done|]. unfold wait_ok.
    rewrite (bool_decide_eq_true_2 (next_backoff d = next_backoff d)) by done. apply orb_true_r. }
  eapply pacing_bind with (R := λ r p, ∃ b, r = Ok b ∧
    (b = false → can_dial p = true ∧ last_wait p = Some backoff')); [|intros stopped|done].
  - intros s p Hp Hw. unfold wait. destruct (ctx_done (tick s)); [exists p; split; [exact Hp|by exists true]|].
    exists (MkPace true (can_post p) (Some backoff')). split; [|exists false; by split].
    change (paced (trace s ++ [Waited backoff']) = Some (MkPace true (can_post p) (Some backoff'))).
    rewrite paced_snoc, Hp. simpl. by rewrite Hw, Hok.
  - destruct stopped; [by apply pacing_ret|].
    eapply pacing_weaken; [apply (IH st' _ (Some backoff')); eauto| |done].
    intros p (b & [= <-] & H). auto.
Qed.
End life.

Lemma paced_waits tr p :
  paced tr = Some p →
  (∀ d, Waited d ∈ tr → Second <= d <= maxBackoff) ∧
  (∀ d, last_wait p = Some d → Second <= d <= maxBackoff).
Proof.
  revert p. induction tr as [|a tr IH] using rev_ind; intros p; [intros [= <-]; split; [set_solver|done]|].
  rewrite paced_snoc. destruct (paced tr) as [q|]; [|done]. simpl. destruct (IH q eq_refl) as [H1 H2].
  intros Ha. destruct a; simpl in Ha;
    try (assert (Hl : last_wait p = last_wait q) by (by repeat case_match; simplify_eq);
         rewrite Hl; split; [set_solver|exact H2]).
  destruct (wait_ok (last_wait q) d) eqn:Hw; [|done]. injection Ha as <-. simpl.
  assert (Hd : Second <= d <= maxBackoff).
  { unfold wait_ok in Hw. apply orb_true_iff in Hw as [Hw|Hw]; [bool_prop; subst; by unfold maxBackoff, Second|].
    destruct (last_wait q) as [l|]; [|done]. bool_prop. specialize (H2 l eq_refl). subst d.
    unfold next_backoff, maxBackoff, Second in *. case_match; bool_prop; lia. }
  split; [set_solver|by intros d' [= <-]].
Qed.

(** C17: the agent backs off.  However long the agent runs, and whatever the server, the
    network and the disk do to it, it dials at most once between two waits and registers
    at most once between two dials; its first wait is one second, each wait is one second
    or twice the last, up to thirty seconds, and so no wait is shorter or longer. *)
Theorem agent_backs_off `{W : World, OW : OsWorld, N : Network, HS : Host} cfg fuel file n :
  let tr := trace (Run cfg fuel (MkSys n (MkData file []))).1 in
  is_Some (paced tr) ∧ ∀ d, Waited d ∈ tr → Second <= d <= 30 * Second.
Proof.
  cbv zeta. set (s := MkSys n (MkData file [])).
  assert (Hrun : pacing (λ p, p = start_pace) (Run cfg fuel) (λ _ _, True)).
  { unfold Run. eapply pacing_bind with (R := λ _ p, can_dial p = true ∧ last_wait p = None); [|intros st|done].
    - eapply pacing_weaken; [apply (pacing_ensure cfg true None)|by intros p ->|done].
    - apply (pacing_run cfg fuel st Second None). auto. }
  destruct (Hrun s start_pace eq_refl eq_refl) as (p & Hp & _). split; [by exists p|].
  apply (paced_waits _ _ Hp).
Qed.

(** ** Whom the agent talks to *)

(** [m] adds to the trace actions of [P] only, and its result is in [Q]. *)
Definition acting {A} (P : action → Prop) (m : Op agent_data agent_err A)
    (Q : res agent_err A → Prop) : Prop :=
  ∀ s, Forall P (trace s) → Forall P (trace (m s).1) ∧ Q (m s).2.

Lemma acting_bind {A B} P (R : res agent_err A → Prop) (Q : res agent_err B → Prop)
    (m : Op agent_data agent_err A) (f : A → Op agent_data agent_err B) :
  acting P m R → (∀ a, R (Ok a) → acting P (f a) Q) → (∀ e, R (Err e) → Q (Err e)) →
  acting P (m ≫= f) Q.
Proof.
  intros Hm Hf He s Hs. destruct (Hm s Hs) as [H1 H2]. unfold mbind, st_bind.
  destruct (m s) as [s1 [a|e]]; simpl in *; [by apply (Hf a)|auto].
Qed.

Lemma acting_silent {A} P (m : Op agent_data agent_err A) (Q : res agent_err A → Prop) :
  (∀ s, trace (m s).1 = trace s ∧ Q (m s).2) → acting P m Q.
Proof. intros Hm s Hs. destruct (Hm s) as [-> ?]. done. Qed.

Lemma acting_snoc {A} (P : action → Prop) (m : Op agent_data agent_err A) (Q : res agent_err A → Prop) :
  (∀ s, (trace (m s).1 = trace s ∨ ∃ a, P a ∧ trace (m s).1 = trace s ++ [a]) ∧ Q (m s).2) → acting P m Q.
Proof.
  intros Hm s Hs. destruct (Hm s) as [[->|(a & Ha & ->)] ?]; [done|]. split; [|done].
  apply Forall_app. by repeat constructor.
Qed.

Section reuse.
Context `{W : World, OW : OsWorld, N : Network, HS : Host} (cfg : Config) (tok : string).

(** Nothing but connections with this token, and what goes over them. *)
Definition only_with (a : action) : Prop :=
  match a with
  | Posted _ _ => False
  | DialledAt url t =>
      t = "Bearer " +:+ tok ∧ ∃ u, toWebSocketURL (ServerURL cfg) = Ok u ∧ url = u +:+ "/api/v1/ws"
  | _ => True
  end.

Lemma acting_heartbeat : acting only_with sendHeartbeat (λ r, r ≠ Err ErrUnauthorized).
Proof using.
  apply acting_snoc. intros s. unfold sendHeartbeat, sample, conn_Write, mbind, st_bind.
  case_match; [|by auto]. cbn [tick bump]. destruct (write_ok _); simpl; [|by auto].
  split; [|done]. right. eexists. split; [|reflexivity]. exact I.
Qed.

Lemma acting_answer env : acting only_with (handleDiagRequest env) (λ r, r = Ok ()).
Proof using.
  apply acting_snoc. intros s. unfold handleDiagRequest, sample, conn_Write, mbind, st_bind.
  destruct (decode_member _ _); [|by auto]. case_match; [|by auto]. cbn [tick bump].
  destruct (write_ok _); simpl; [|by auto]. split; [|done]. right. eexists. split; [|reflexivity]. exact I.
Qed.

Lemma acting_serve events pending :
  acting only_with (serve_loop events pending) (λ r, r ≠ Err ErrUnauthorized).
Proof using.
  revert pending. induction events as [|[| |raw| |k] events IH]; intros pending; simpl.
  - by apply acting_silent.
  - apply acting_snoc. intros s. split; [|done]. right. eexists. split; [|reflexivity]. exact I.
  - by apply acting_silent.
  - destruct (decode_envelope raw); apply IH.
  - eapply acting_bind; [apply acting_heartbeat|by intros [] _|done].
  - destruct (pending !! k); [|apply IH]. eapply acting_bind; [apply acting_answer|by intros [] _|done].
Qed.

Lemma acting_connect :
  (∀ n u t, ws_Dial n u t ≠ Refused (Some 401)) →
  acting only_with (connectAndServe cfg tok) (λ r, r ≠ Err ErrUnauthorized).
Proof using.
  intros Hdial. unfold connectAndServe. destruct (toWebSocketURL (ServerURL cfg)) as [u|e] eqn:Hu.
  2: { assert (e = ErrURL) as ->.
       { revert Hu. unfold toWebSocketURL. destruct (HasPrefix _ _); [done|]. destruct (HasPrefix _ _); congruence. }
       by apply acting_silent. }
  rewrite st_lift_ok.
  eapply acting_bind with (R := λ r, r ≠ Ok (Refused (Some 401)) ∧ is_ok r = true); [|intros d [Hd _]|by intros ? []].
  { apply acting_snoc. intros s. split; [right|split; [|done]].
    - exists (DialledAt (u +:+ "/api/v1/ws") ("Bearer " +:+ tok)). split; [|done]. split; [done|]. eauto.
    - simpl. intros [= H]. by eapply Hdial. }
  destruct d as [|status].
  - eapply acting_bind; [apply acting_heartbeat|intros [] _|done].
    eapply acting_bind with (R := λ r, is_ok r = true); [by apply acting_silent|intros events _|done].
    apply acting_serve.
  - apply acting_silent. intros s. split; [done|]. simpl. rewrite bool_decide_eq_false_2; [done|].
    intros ->. by apply Hd.
Qed.

Lemma acting_run fuel id backoff :
  (∀ n u t, ws_Dial n u t ≠ Refused (Some 401)) →
  acting only_with (run_loop cfg fuel (MkState id tok) backoff) (λ r, is_ok r = true).
Proof using.
  intros Hdial. revert backoff. induction fuel as [|fuel IH]; intros backoff; cbn [run_loop st_Token].
  { by apply acting_silent. }
  eapply acting_bind with (R := λ r, is_ok r = true); [by apply acting_silent|intros t0 _|done].
  eapply acting_bind with (R := λ r, ∃ r', r = Ok r' ∧ r' ≠ Err ErrUnauthorized); [|intros r (r' & [= <-] & Hr)|by intros ? (? & ? & _)].
  { intros s Hs. destruct (acting_connect Hdial s Hs) as [H1 H2]. rewrite try_trace. split; [done|].
    unfold st_try. destruct (connectAndServe cfg tok s) as [s' r]. eauto. }
  eapply acting_bind with (R := λ r, is_ok r = true); [by apply acting_silent|intros [] _|done];
    [by apply acting_silent|].
  eapply acting_bind with (R := λ r, is_ok r = true); [by apply acting_silent|intros now _|done].
  assert (Hst : match r with
           | Err ErrUnauthorized => _ ← st_try (E' := agent_err) (on_file clearState); ensureRegistered cfg
           | _ => mret (MkState id tok)
           end = (mret (MkState id tok) : Op agent_data agent_err state)) by (by destruct r as [|[]]).
  rewrite Hst. clear Hst.
  eapply acting_bind with (R := λ r, r = Ok (MkState id tok)); [by apply acting_silent|intros st [= ->]|done].
  eapply acting_bind with (R := λ r, is_ok r = true).
  - apply acting_snoc. intros s. unfold wait. destruct (ctx_done (tick s)); split; try done; [by left|].
    right. eexists. split; [|reflexivity]. exact I.
  - intros [] _; [by apply acting_silent|]. apply IH.
  - done.
Qed.
End reuse.

(** C28: the agent keeps its registration.  If the state file can be read and holds a
    registration, and no dial is refused with 401, then however long the agent runs it
    never registers, dials the server's own WebSocket address only, always with the saved
    token, and never gives up with an error. *)
Theorem agent_reuses_registration `{W : World, OW : OsWorld, N : Network, HS : Host} cfg fuel n raw id tok :
  os_at n = OsOk → id ≠ "" → tok ≠ "" →
  Unmarshal state_fields false set_state_field raw (MkState "" "") = Some (MkState id tok) →
  (∀ n u t, ws_Dial n u t ≠ Refused (Some 401)) →
  let out := Run cfg fuel (MkSys n (MkData (Some raw) [])) in
  Forall (only_with cfg tok) (trace out.1) ∧ is_ok out.2 = true.
Proof.
  intros Hos Hid Htok Hraw Hdial. cbv zeta. unfold Run.
  assert (Hst : ensureRegistered cfg (MkSys n (MkData (Some raw) [])) =
                (MkSys (S n) (MkData (Some raw) []), Ok (MkState id tok))).
  { unfold ensureRegistered, loadState, os_ReadFile, on_file, on_part, st_try, mbind, st_bind.
    cbn [tick dat ad_file]. rewrite Hos, Hraw. cbn [st_DeviceID st_Token].
    by rewrite !bool_decide_eq_false_2 by done. }
  erewrite st_bind_ok by exact Hst. by apply acting_run.
Qed.

(** An agent that is stopped before it has waited; its server is unreachable. *)
Definition test_os : OsWorld := {| os_at _ := OsOk |}.
Definition test_network : Network := {|
  ctx_done n := (20 <=? Z.of_nat n); http_Do _ _ _ := None; ws_Dial _ _ _ := Refused None;
  session_at _ := []; write_ok _ := true
|}.
Definition test_host : Host := {|
  cpu_Percent _ := None; cpu_Counts _ := None; mem_VirtualMemory _ := None; disk_Usage _ _ := None;
  disk_Partitions _ := None; host_Info _ := None; net_Interfaces _ := None; process_Processes _ := None;
  goos_windows := false
|}.
Definition test_agent : Config :=
  MkConfig "http://localhost:8080" "n" "linux" "amd64" "" (20 * Second) "state.json" false.

Lemma agent_reuses_registration_witness :
  (λ (W : World) (O : OsWorld) (N : Network) (H : Host),
    is_ok (Run test_agent 3 (MkSys 0 (MkData (Some (state_text (MkState "u1" "t"))) []))).2 = true)
    test_world test_os test_network test_host.
Proof.
  destruct (agent_reuses_registration (W := test_world) (OW := test_os) (N := test_network) (HS := test_host)
              test_agent 3 0 (state_text (MkState "u1" "t")) "u1" "t") as [_ H].
  - reflexivity.
  - discriminate.
  - discriminate.
  - apply state_text_parsed; by apply (bool_decide_unpack _).
  - discriminate.
  - exact H.
Defined.

(** ** Answers *)

Definition answer_of (a : action) : option string :=
  match a with WroteAnswer rid _ => Some rid | _ => None end.

Definition diag_request (env : Envelope) : option string :=
  if bool_decide (en_Type env = TypeDiagRequest) then Some (en_RequestID env) else None.

(** The identifiers of the diagnostic requests of a session. *)
Definition requests_of (events : list session_event) : list string :=
  omap (λ e, match e with EvFrame raw => decode_envelope raw ≫= diag_request | _ => None end) events.

(** An answer is a payload of the scope asked for. *)
Definition is_answer `{W : World, HS : Host} (a : action) : Prop :=
  match a with
  | WroteAnswer rid msg => ∃ n scope, Encode TypeDiagResponse rid (json_map (diagnosticPayload n scope)) = Some msg
  | _ => True
  end.

Section answers.
Context `{W : World, N : Network, HS : Host}.

Lemma heartbeat_new s :
  ∃ new, trace (sendHeartbeat s).1 = trace s ++ new ∧ omap answer_of new = [] ∧ Forall is_answer new.
Proof using.
  unfold sendHeartbeat, sample, conn_Write, mbind, st_bind.
  case_match; [|exists []; by rewrite app_nil_r]. cbn [tick bump].
  destruct (write_ok _); simpl; [|exists []; by rewrite app_nil_r]. eexists [_]. split; [done|]. by repeat constructor.
Qed.

Lemma answer_new env s :
  ∃ new, trace (handleDiagRequest env s).1 = trace s ++ new ∧
    omap answer_of new `sublist_of` [en_RequestID env] ∧ Forall is_answer new.
Proof using.
  assert (Hnil : ∃ new : list action, trace s = trace s ++ new ∧
            omap answer_of new `sublist_of` [en_RequestID env] ∧ Forall is_answer new).
  { exists []. rewrite app_nil_r. split_and!; [done|apply sublist_nil_l|done]. }
  unfold handleDiagRequest, sample, conn_Write, mbind, st_bind.
  destruct (decode_member _ _) as [scope|]; [|done]. destruct (Encode _ _ _) as [msg|] eqn:He; [|done].
  cbn [tick bump]. destruct (write_ok _); simpl; [|done].
  exists [WroteAnswer (en_RequestID env) msg]. split_and!; [done|done|]. repeat constructor. simpl. eauto.
Qed.

Lemma serve_new events pending s :
  ∃ new, trace (serve_loop events pending s).1 = trace s ++ new ∧
    omap answer_of new ⊆+ (en_RequestID <$> pending) ++ requests_of events ∧ Forall is_answer new.
Proof using.
  assert (Hnil : ∀ (l : list string) s, ∃ new : list action,
    trace s = trace s ++ new ∧ omap answer_of new ⊆+ l ∧ Forall is_answer new).
  { intros l s'. exists []. rewrite app_nil_r. split_and!; [done|apply submseteq_nil_l|done]. }
  revert pending s. induction events as [|[| |raw| |k] events IH]; intros pending s; simpl.
  - apply Hnil.
  - exists [ClosedConn]. split_and!; [done|apply submseteq_nil_l|by repeat constructor].
  - apply Hnil.
  - unfold requests_of. cbn [omap list_omap]. fold (requests_of events).
    destruct (decode_envelope raw) as [env|]; simpl; [|apply IH]. unfold handleMessage, diag_request.
    case_bool_decide; [|apply IH]. destruct (IH (pending ++ [env]) s) as (new & H1 & H2 & H3).
    exists new. rewrite fmap_app, <-app_assoc in H2. by split_and!.
  - destruct (heartbeat_new s) as (new & H1 & H2 & H3). unfold mbind, st_bind.
    destruct (sendHeartbeat s) as [s1 [[]|e]]; simpl in *.
    + destruct (IH pending s1) as (new' & H4 & H5 & H6). exists (new ++ new').
      rewrite H4, H1, app_assoc, omap_app, H2. split_and!; [done|done|by apply Forall_app].
    + exists new. rewrite H2. split_and!; [done|apply submseteq_nil_l|done].
  - destruct (pending !! k) as [env|] eqn:Hk; [|apply IH].
    destruct (answer_new env s) as (new & H1 & H2 & H3). unfold mbind, st_bind.
    assert (Hp : en_RequestID <$> pending ≡ₚ en_RequestID env :: (en_RequestID <$> delete k pending)).
    { by rewrite (delete_Permutation _ _ _ Hk) at 1. }
    destruct (handleDiagRequest env s) as [s1 [[]|e]]; simpl in *.
    + destruct (IH (delete k pending) s1) as (new' & H4 & H5 & H6). exists (new ++ new').
      rewrite H4, H1, app_assoc, omap_app. split_and!; [done| |by apply Forall_app].
      rewrite Hp. apply (submseteq_app _ [en_RequestID env] _ ((en_RequestID <$> delete k pending) ++ requests_of events));
        [by apply sublist_submseteq|done].
    + exists new. split_and!; [done| |done]. rewrite Hp.
      etrans; [by apply sublist_submseteq|]. apply submseteq_skip, submseteq_nil_l.
Qed.
End answers.

(** C27: the agent answers what it is asked.  Over one connection, whatever is read and
    however the goroutines are scheduled, each answer the agent writes is to a diagnostic
    request it has read, no request is answered twice, and the answer is the encoding of
    a payload under the request's own identifier. *)
Theorem agent_answers_requests `{W : World, N : Network, HS : Host} events s :
  ∃ new, trace (serve_loop events [] s).1 = trace s ++ new ∧
    omap answer_of new ⊆+ requests_of events ∧
    ∀ rid msg, WroteAnswer rid msg ∈ new →
      ∃ n scope, Encode TypeDiagResponse rid (json_map (diagnosticPayload n scope)) = Some msg.
Proof.
  destruct (serve_new events [] s) as (new & H1 & H2 & H3). exists new. split_and!; [done|done|].
  intros rid msg Hin. rewrite Forall_forall in H3. exact (H3 _ Hin).
Qed.
