(* ===== verification/AgentMain.v ===== *)
(** * The agent's command line (cmd/puls-agent/main.go), and the server it talks to.

    The flags are what [flag.Parse] found on the command line, by name; their defaults
    come from the environment. *)
From Stdlib Require Import QArith.
From S2P Require Import Prelude GoString GoTime GoFloat RateLimit GoJson Model World Sql Store StoreFacts Hub Broadcaster Auth Config Wire Metrics Http Middleware Server Devices Diagnostics Sockets Routes Logic ServerFacts EndpointFacts HostStats AgentState Agent AgentFacts.
Local Open Scope Z_scope.

Definition envOr (e : environ) (key fallback : string) : string :=
  let v := os_Getenv e key in if bool_decide (v = "") then fallback else v.

Definition envDurationOr (e : environ) (key : string) (fallback : Duration) : Duration :=
  let v := os_Getenv e key in
  if bool_decide (v = "") then fallback else default fallback (ParseDuration v).

Definition envBoolOr (e : environ) (key : string) (fallback : bool) : bool :=
  let v := os_Getenv e key in
  if bool_decide (v ∈ ["1"; "true"; "yes"]) then true
  else if bool_decide (v ∈ ["0"; "false"; "no"]) then false
  else fallback.

Definition hostnameOrDefault (hostname : option string) : string :=
  match hostname with
  | Some h => if bool_decide (h = "") then "puls-agent" else h
  | None => "puls-agent"
  end.

Definition resolveOS (windows : bool) (override : string) : string :=
  if negb (bool_decide (override = "")) then override
  else if windows then "windows" else "linux".

(** [os.UserConfigDir], with slashes. *)
Definition defaultStateFile (config_dir : option string) : string :=
  match config_dir with
  | Some dir => if bool_decide (dir = "") then ".puls-agent-state.json" else dir +:+ "/puls-agent/state.json"
  | None => ".puls-agent-state.json"
  end.

Record Flags := {
  fl_string : string → option string;
  fl_duration : string → option Duration;
  fl_bool : string → option bool
}.

(** What [main] finds: the environment, the host name, the user's configuration
    directory, and the platform. *)
Record Platform := {
  pf_environ : environ;
  pf_hostname : option string;
  pf_config_dir : option string;
  pf_windows : bool;
  pf_GOARCH : string
}.

(** The configuration [main] gives [NewAgent]. *)
Definition main_config (p : Platform) (fl : Flags) : Agent.Config :=
  let e := pf_environ p in
  let str name fallback := default fallback (fl_string fl name) in
  Agent.MkConfig
    (str "server" (envOr e "PULS_AGENT_SERVER" "http://localhost:8080"))
    (str "name" (envOr e "PULS_AGENT_NAME" (hostnameOrDefault (pf_hostname p))))
    (resolveOS (pf_windows p) (str "os" (envOr e "PULS_AGENT_OS" "")))
    (pf_GOARCH p)
    (str "secret" (os_Getenv e "PULS_AGENT_SECRET"))
    (default (envDurationOr e "PULS_AGENT_INTERVAL" (20 * Second)) (fl_duration fl "interval"))
    (str "state-file" (envOr e "PULS_AGENT_STATE_FILE" (defaultStateFile (pf_config_dir p))))
    (default (envBoolOr e "PULS_AGENT_INSECURE" false) (fl_bool fl "insecure")).

(** The exit status of [main]; [None], the agent still runs. *)
Definition main `{W : World, OW : OsWorld, N : Network, HS : Host} (p : Platform) (fl : Flags) (fuel : nat)
    (s : Sys agent_data) : Sys agent_data * option Z :=
  match NewAgent (main_config p fl) with
  | Err _ => (s, Some 1)
  | Ok cfg =>
      match Agent.Run cfg fuel s with
      | (s', Ok None) => (s', None)
      | (s', Ok (Some ())) => (s', Some 0)
      | (s', Err _) => (bump s', Some (if ctx_done (tick s') then 0 else 1))
      end
  end.

(** ** The agent registers with the server *)

(** What the agent posts. *)
Definition agent_request (cfg : Agent.Config) : RegisterRequest :=
  Build_RegisterRequest (Agent.Name cfg) (Agent.OS cfg) (Agent.Arch cfg) (Agent.Secret cfg).

Definition ascii_config (cfg : Agent.Config) : Prop :=
  ascii_text (bytes (Agent.Name cfg)) ∧ ascii_text (bytes (Agent.OS cfg)) ∧
  ascii_text (bytes (Agent.Arch cfg)) ∧ ascii_text (bytes (Agent.Secret cfg)).

(** The body as an object of strings. *)
Lemma register_body_eq cfg :
  register_body cfg = encode_object
    [(bytes "name", encode_string (bytes (Agent.Name cfg))); (bytes "os", encode_string (bytes (Agent.OS cfg)));
     (bytes "arch", encode_string (bytes (Agent.Arch cfg)));
     (bytes "secret", encode_string (bytes (Agent.Secret cfg)))].
Proof. reflexivity. Qed.

Lemma set_register_string name v req :
  ascii_text (bytes v) → name ∈ register_fields →
  set_register_field name (encode_string (bytes v)) req = Some
    (if bool_decide (name = "name") then Build_RegisterRequest v (rr_OS req) (rr_Arch req) (rr_Secret req)
     else if bool_decide (name = "os") then Build_RegisterRequest (rr_Name req) v (rr_Arch req) (rr_Secret req)
     else if bool_decide (name = "arch") then Build_RegisterRequest (rr_Name req) (rr_OS req) v (rr_Secret req)
     else Build_RegisterRequest (rr_Name req) (rr_OS req) (rr_Arch req) v).
Proof.
  intros Hv _. destruct req as [n o a s]. unfold set_register_field. rewrite !decode_encode_string by done. simpl.
  rewrite unbytes_bytes. by repeat case_bool_decide.
Qed.

Lemma register_body_decoded cfg r :
  ascii_config cfg → rq_Body r = register_body cfg → rq_limit r = None →
  decode_body register_fields set_register_field r (Build_RegisterRequest "" "" "" "") = Some (agent_request cfg).
Proof.
  intros (Hn & Ho & Ha & Hs) Hbody Hlim. unfold decode_body, read_body. rewrite Hlim, Hbody, register_body_eq.
  rewrite <-(app_nil_r (encode_object _)), parse_encode_object.
  2: { repeat apply Forall_cons_2; [..|apply Forall_nil; done];
         (split; [by apply (bool_decide_unpack _)|by apply encode_string_value]). }
  cbn [mbind option_bind decode_top].
  do 3 (erewrite decode_fields_cons by reflexivity; rewrite set_register_string by (done || set_solver);
    cbn [mbind option_bind]).
  erewrite decode_fields_cons by reflexivity; rewrite set_register_string by (done || set_solver). reflexivity.
Qed.

Lemma response_decoded id tok t :
  ascii_text (bytes id) → ascii_text (bytes tok) →
  register_response_json (Build_RegisterResponse id tok) = Some t →
  Decode response_fields false set_response_field (t ++ newline) (Build_RegisterResponse "" "") =
    Some (Build_RegisterResponse id tok).
Proof.
  intros Hi Ht [= <-]. unfold Decode. rewrite parse_encode_object.
  2: { repeat apply Forall_cons_2; [..|apply Forall_nil; done];
         (split; [by apply (bool_decide_unpack _)|by apply encode_string_value]). }
  cbn [mbind option_bind decode_top rs_DeviceID rs_Token].
  assert (Hset : ∀ v r, ascii_text (bytes v) →
    set_response_field "deviceId" (encode_string (bytes v)) r = Some (Build_RegisterResponse v (rs_Token r)) ∧
    set_response_field "token" (encode_string (bytes v)) r = Some (Build_RegisterResponse (rs_DeviceID r) v)).
  { intros v r Hv. unfold set_response_field.
    split; [rewrite bool_decide_eq_true_2 by done|rewrite bool_decide_eq_false_2 by done];
      rewrite decode_encode_string by done; cbn; by rewrite unbytes_bytes. }
  rewrite (decode_fields_cons _ _ _ _ "deviceId"), (proj1 (Hset _ _ Hi)) by reflexivity. cbn [mbind option_bind].
  by rewrite (decode_fields_cons _ _ _ _ "token"), (proj2 (Hset _ _ Ht)) by reflexivity.
Qed.

(** C12: the agent and the server agree on a registration.  Let the server's handler be
    given the body the agent posts, and the agent the server's answer.  A configuration
    the server does not register, for its name, system, architecture or secret, makes the
    agent's [register] fail with 422, and nothing is stored.  Any other is registered: the
    device stored has the name, system and architecture of the configuration, and
    [register] returns its identifier and a token that validates as the device's for the
    configured lifetime.  It fails with 500 only if the server could not store the device,
    and then there is none, or did not learn that it had, and then the device is there but
    the agent has no token. *)
Theorem agent_registers_with_server
    `{W : World, J : Jwt, L : Lib, OW : OsWorld, N : Network, HS : Host} `{!JwtLaws J}
    round collate accepts srv cfg r (s : Sys (Ctx (Srv (Tables Time)))) (a : Sys agent_data) :
  ascii_uuids W → ascii_config cfg →
  rq_Body r = register_body cfg → rq_limit r = None → cx_w (dat s) = new_writer →
  let c := dat (handleRegister (St := Spec round collate accepts) srv r s).1 in
  http_Do (tick a) (register_url cfg) (register_body cfg) = Some (final_status (cx_w c), w_body (cx_w c)) →
  let req := trim_request (agent_request cfg) in
  let T := sv_db (cx_srv (dat s)) in
  let T' := sv_db (cx_srv c) in
  let result := (register cfg a).2 in
  (¬ registration_ok req ∧ result = Err (ErrStatus 422) ∧ T' = T) ∨
  (registration_ok req ∧
   match registering round accepts (tick s) req T with
   | Stored row =>
       T' = add_device row T ∧
       (dr_name row, dr_os row, dr_arch row) = (TrimSpace (Agent.Name cfg), Agent.OS cfg, Agent.Arch cfg) ∧
       ∃ tok, result = Ok (dr_id row, tok) ∧
         token_for (jwtMgr srv) (dr_id row) RoleDevice (now_at (4 + tick s)) (DeviceTokenExpiry (Server.cfg srv)) tok
   | Unacked row => T' = add_device row T ∧ result = Err (ErrStatus 500)
   | NotStored => T' = T ∧ result = Err (ErrStatus 500)
   end).
Proof.
  intros Huuid Hcfg Hbody Hlim Hw c Hhttp req T T' result. subst result.
  pose proof (register_cases round collate accepts srv r s Hw Huuid) as [_ H]. fold c T T' in H.
  rewrite (register_body_decoded cfg r Hcfg Hbody Hlim) in H. fold req in H.
  assert (Hans : ∀ status v, answered c status v →
    (register cfg a).2 =
      if negb (status =? 201) then Err (ErrStatus status)
      else match Decode response_fields false set_response_field
                   (match v with Some l => l ++ newline | None => [] end) (Build_RegisterResponse "" "") with
           | None => Err ErrResponse
           | Some out => Ok (rs_DeviceID out, rs_Token out)
           end).
  { intros status v [Hs Hb]. unfold register, post, mbind, st_bind. rewrite Hhttp.
    unfold final_status. rewrite Hs, Hb. simpl.
    destruct (negb (status =? 201)); [done|]. by destruct (Decode _ _ _ _ _). }
  destruct H as [(Hbad & [msg Hf] & HT)|(Hok & H)]; [left|right]; (split; [done|]);
    [split; [by rewrite (Hans _ _ Hf)|done]|].
  destruct (registering round accepts (tick s) req T) as [row|row|] eqn:Hreg.
  - destruct H as (HT & tok & Hf & Htok). split; [exact HT|].
    apply registering_row in Hreg as (Hid & Hrow).
    split; [exact Hrow|]. exists tok. split; [|exact Htok]. rewrite (Hans _ _ Hf).
    destruct (register_response_json (Build_RegisterResponse (dr_id row) tok)) as [t|] eqn:Hj; [|done].
    rewrite (response_decoded (dr_id row) tok t); [done| |apply Htok|done]. rewrite Hid. apply Huuid.
  - destruct H as ([msg Hf] & HT). by rewrite (Hans _ _ Hf).
  - destruct H as ([msg Hf] & HT). by rewrite (Hans _ _ Hf).
Qed.

(** ** A concrete exchange *)

Definition fresh_agent : Agent.Config :=
  Agent.MkConfig "http://localhost:8080" "n" "linux" "amd64" "0123456789abcdef" (20 * Second) "state.json" false.

Lemma agent_registers_with_server_witness :
  (λ (W : World) (J : Jwt) (L : Lib) (O : OsWorld) (H : Host),
    let r := body_request "POST" "/api/v1/devices/register" "" (unbytes (register_body fresh_agent)) in
    let c := dat (handleRegister (St := Spec trunc_sec String.compare (λ _, true)) test_server r
                    (fresh_ctx (new_srv empty_tables 0))).1 in
    let N := {| ctx_done _ := false; http_Do _ _ _ := Some (final_status (cx_w c), w_body (cx_w c));
                ws_Dial _ _ _ := Refused None; session_at _ := []; write_ok _ := true |} in
    ∃ row tok, sv_db (cx_srv c) = add_device row empty_tables ∧ dr_name row = "n" ∧
      (register (N := N) fresh_agent (MkSys 0 (MkData None []))).2 = Ok (dr_id row, tok))
    test_world toy_jwt test_lib test_os test_host.
Proof.
  cbv beta zeta. set (r := body_request _ _ _ _). set (c := dat _). set (N := {| http_Do := _ |}).
  pose proof (agent_registers_with_server (W := test_world) (J := toy_jwt) (L := test_lib) (OW := test_os)
              (N := N) (HS := test_host) trunc_sec String.compare (λ _, true) test_server fresh_agent r
              (fresh_ctx (new_srv empty_tables 0)) (MkSys 0 (MkData None [])) test_world_uuids) as H.
  destruct H as [(Hbad & _)|(_ & HT & _ & tok & Htok & _)].
  - split_and!; by apply (bool_decide_unpack _).
  - apply bytes_unbytes.
  - reflexivity.
  - reflexivity.
  - reflexivity.
  - exfalso. apply Hbad. split; [split; [by vm_compute|apply TrimSpace_trimmed]|by right|done|].
    split; [by vm_compute|apply TrimSpace_trimmed].
  - eexists _, tok. split; [exact HT|]. split; [reflexivity|exact Htok].
Defined.
