(* ===== verification/ServerMain.v ===== *)
(** * The server's command (cmd/puls-server/main.go, Start of internal/server/server.go).

    From the environment to a server that listens, on the database of the configuration;
    and the health check of a container.  Opening and pinging a database, the
    exporter and the metrics registry, and listening are the world's. *)
From S2P Require Import Prelude GoString GoTime World Auth Config Metrics Tracing Schema SQLiteMigrate PostgresMigrate.
Local Open Scope Z_scope.

(** ** The health check *)

Definition starts_with_colon (addr : string) : bool := HasPrefix addr ":".

Definition health_url (e : environ) : string :=
  let addr := os_Getenv e "PULS_HTTP_ADDR" in
  let addr := if bool_decide (addr = "") then ":8080" else addr in
  let addr := if starts_with_colon addr then "localhost" +:+ addr else addr in
  let scheme := if bool_decide (os_Getenv e "PULS_TLS_CERT" = "") then "http" else "https" in
  scheme +:+ "://" +:+ addr +:+ "/healthz".

(** The exit status; [get] is the status of the answer, if there is one. *)
Definition healthcheck (get : string → option Z) (e : environ) : Z :=
  match get (health_url e) with
  | Some status => if status =? 200 then 0 else 1
  | None => 1
  end.

(** ** Log level *)

Inductive slog_Level : Type := LevelDebug | LevelInfo | LevelWarn | LevelError.

(** The level and whether the format is JSON. *)
Definition buildLogger (c : Config) : slog_Level * bool :=
  (if bool_decide (LogLevel c = "debug") then LevelDebug
   else if bool_decide (LogLevel c = "warn") then LevelWarn
   else if bool_decide (LogLevel c = "error") then LevelError
   else LevelInfo,
   negb (bool_decide (LogFormat c = "text"))).

(** ** Starting *)

(** How [ListenAndServe] ends. *)
Inductive listening : Type := ServerClosed | ListenFailed.

(** What [main] is told of: a signal, or the end of the server. *)
Class Machine := {
  sql_Open : string → string → bool;
  db_Ping : nat → bool;
  reg_Register : string → bool;
  trip_at : nat → trip;
  listen : string → option (string * string) → listening;
  (** The [select] of [run] takes the signal, and what the two shutdowns then return. *)
  signalled : bool;
  http_Shutdown_ok : bool
}.

Inductive start_err : Type :=
  | LoadConfig (err : config_err)
  | ErrTracing (err : tracing_err)
  | OpenDatabase
  | PingDatabase
  | MigrateSQLite (err : migrate_err)
  | MigratePostgres
  | InitJwt
  | InitServer
  | ListenError
  | ShutdownServer
  | ShutdownTracing.

(** The two databases a configuration may name. *)
Record databases := { ds_sqlite : sqlite_db; ds_postgres : pg_db }.

Inductive backend : Type := OnSQLite | OnPostgres.

Section main.
Context `{W : World, M : Machine, T : Otel} (me : nat).

Abbreviation MainOp := (Op databases start_err).

(** [migrate] of this instance, by the trips from [n] on. *)
Fixpoint run_migrate (fuel n : nat) (p : pc) (db : pg_db) : pc * pg_db :=
  match fuel, migrate_step me (trip_at n) p db with
  | S fuel, Some (p', db') => run_migrate fuel (S n) p' db'
  | _, _ => (p, db)
  end.

(** Twelve steps reach the end; what waits for the lock longer than the deadline fails. *)
Definition NewPostgres : MainOp unit := λ s,
  let '(p, db) := run_migrate 12 (tick s) PcConn (ds_postgres (dat s)) in
  let s' := MkSys (tick s + 12) (Build_databases (ds_sqlite (dat s)) db) in
  match p with
  | PcDone true => (s', Ok ())
  | _ => (s', Err MigratePostgres)
  end.

Definition on_sqlite (m : Op sqlite_db migrate_err unit) : MainOp unit := λ s,
  match m (MkSys (tick s) (ds_sqlite (dat s))) with
  | (s', Ok _) => (MkSys (tick s') (Build_databases (dat s') (ds_postgres (dat s))), Ok ())
  | (s', Err e) => (MkSys (tick s') (Build_databases (dat s') (ds_postgres (dat s))), Err (MigrateSQLite e))
  end.

Definition check (ok : bool) (err : start_err) : MainOp unit := if ok then mret () else st_fail err.

Definition ping : MainOp unit := λ s, (bump s, if db_Ping (tick s) then Ok () else Err PingDatabase).

Definition initStore (c : Config) : MainOp backend :=
  if negb (bool_decide (DatabaseURL c = "")) then
    _ ← check (sql_Open "pgx" (DatabaseURL c)) OpenDatabase;
    _ ← ping;
    _ ← NewPostgres;
    mret OnPostgres
  else
    _ ← check (sql_Open "sqlite" (DBPath c)) OpenDatabase;
    _ ← ping;
    _ ← on_sqlite NewSQLite;
    mret OnSQLite.

(** What [run] starts, up to [srv.Start]. *)
Definition startup (e : environ) : MainOp (Config * Manager * backend * bool) :=
  cfg ← match Load e with Ok c => mret c | Err err => st_fail (LoadConfig err) end;
  tracingShutdown ← match SetupTracing (OTelEndpoint cfg) with Ok f => mret f | Err err => st_fail (ErrTracing err) end;
  st ← initStore cfg;
  jwtMgr ← match NewManager (JWTSecret cfg) with Ok m => mret m | Err _ => st_fail InitJwt end;
  _ ← check (bool_decide (is_Some (NewMetrics reg_Register))) InitServer;
  mret (cfg, jwtMgr, st, tracingShutdown).

(** [srv.Start]: a server that was shut down is no error. *)
Definition Start (c : Config) : res start_err unit :=
  let tls := if TLSEnabled c then Some (TLSCertFile c, TLSKeyFile c) else None in
  match listen (HTTPAddr c) tls with
  | ServerClosed => Ok ()
  | ListenFailed => Err ListenError
  end.

(** [srv.Shutdown] is the hub's [shutdown] and the HTTP server's, whose error it returns. *)
Definition run (e : environ) : MainOp unit :=
  '(cfg, _, _, tracingShutdown) ← startup e;
  if signalled then
    _ ← check http_Shutdown_ok ShutdownServer;
    check tracingShutdown ShutdownTracing
  else match Start cfg with Ok _ => mret () | Err err => st_fail err end.

(** The exit status of the command with arguments [args]. *)
Definition main (args : list string) (get : string → option Z) (e : environ) (s : Sys databases) : Sys databases * Z :=
  if bool_decide (args !! 1%nat = Some "healthcheck") then (s, healthcheck get e)
  else match run e s with
       | (s', Ok _) => (s', 0)
       | (s', Err _) => (s', 1)
       end.
End main.

(** ** What a configuration starts *)

Lemma Load_fields e c :
  Load e = Ok c →
  HTTPAddr c = env e "PULS_HTTP_ADDR" ":8080" ∧ TLSCertFile c = env e "PULS_TLS_CERT" "".
Proof.
  unfold Load. destruct (envDuration e "PULS_DEVICE_TOKEN_EXPIRY" _); simpl; [|done].
  destruct (envDuration e "PULS_ADMIN_TOKEN_EXPIRY" _); simpl; [|done].
  destruct (envDuration e "PULS_HEARTBEAT_TIMEOUT" _); simpl; [|done].
  destruct (envDuration e "PULS_DIAGNOSTIC_TIMEOUT" _); simpl; [|done].
  match goal with |- context [validate ?x] => destruct (validate x) end; simpl; [|done]. by intros [= <-].
Qed.

(** C40: the health check asks the server that the configuration starts, unless its address
    is empty.  If the environment loads, the URL probed has the address the server listens
    on, with the local host where it names none, and is an https URL exactly when the
    server uses TLS.  Only if the address is set to the empty string, which starts the
    server on the standard port of its scheme, the probe goes to port 8080. *)
Theorem health_url_of_config e c :
  Load e = Ok c →
  health_url e =
    (if TLSEnabled c then "https" else "http") +:+ "://" +:+
    (if bool_decide (HTTPAddr c = "") then "localhost:8080"
     else if HasPrefix (HTTPAddr c) ":" then "localhost" +:+ HTTPAddr c else HTTPAddr c) +:+ "/healthz".
Proof.
  intros Hload. destruct (Load_fields e c Hload) as [Ha Ht].
  unfold health_url, os_Getenv, TLSEnabled, starts_with_colon, env in *. rewrite <-Ht. cbv zeta.
  assert (Haddr : (if bool_decide (default "" (e "PULS_HTTP_ADDR") = "") then ":8080"
                   else default "" (e "PULS_HTTP_ADDR")) = if bool_decide (HTTPAddr c = "") then ":8080" else HTTPAddr c).
  { rewrite Ha. by destruct (e "PULS_HTTP_ADDR"). }
  rewrite Haddr. by destruct (bool_decide (TLSCertFile c = "")), (bool_decide (HTTPAddr c = "")), (HasPrefix (HTTPAddr c) ":").
Qed.

(** An environment whose address is [addr]. *)
Definition addr_environ (addr : string) : environ := λ k,
  if bool_decide (k = "PULS_HTTP_ADDR") then Some addr
  else if bool_decide (k = "PULS_ADMIN_SECRET") then Some "an admin secret." else None.

Lemma health_url_of_config_witness :
  health_url (addr_environ ":9000") = "http://localhost:9000/healthz" ∧
  (HTTPAddr <$> Load (addr_environ "")) = Ok "" ∧
  health_url (addr_environ "") = "http://localhost:8080/healthz".
Proof.
  destruct (Load (addr_environ ":9000")) as [c|err] eqn:H; [|vm_compute in H; discriminate H].
  destruct (Load (addr_environ "")) as [c'|err] eqn:H'; [|vm_compute in H'; discriminate H'].
  rewrite (health_url_of_config _ c H), (health_url_of_config _ c' H').
  vm_compute in H; injection H as <-. vm_compute in H'; injection H' as <-. by vm_compute.
Defined.

Section ready.
Context `{W : World, M : Machine, T : Otel} (me : nat).

Lemma run_migrate_level fuel n p db k :
  level false k (pg_on_disk db) → pc_ok k (pg_on_disk db) p → (critical p = true → pg_lock db = Some me) →
  let '(p', db') := run_migrate me fuel n p db in
  ∃ k', level false k' (pg_on_disk db') ∧ pc_ok k' (pg_on_disk db') p'.
Proof using.
  revert n p db k. induction fuel as [|fuel IH]; intros n p db k Hl Hp Hlock; simpl; [by exists k|].
  destruct (migrate_step me (trip_at n) p db) as [[p' db']|] eqn:Hstep; [|by exists k].
  destruct (step_moves false k me (trip_at n) db p p' db' Hl (λ _, eq_refl) Hp Hlock Hstep)
    as [(k' & Hl' & _ & Hp' & _) Hlk _].
  apply (IH (S n) p' db' k' Hl' Hp'). intros Hc. rewrite Hc in Hlk. apply Hlk.
Qed.

Lemma new_postgres_level s s' k :
  level false k (pg_on_disk (ds_postgres (dat s))) → NewPostgres me s = (s', Ok ()) →
  level false 2 (pg_on_disk (ds_postgres (dat s'))) ∧ ds_sqlite (dat s') = ds_sqlite (dat s).
Proof using.
  intros Hl. unfold NewPostgres.
  pose proof (run_migrate_level 12 (tick s) PcConn (ds_postgres (dat s)) k Hl I (λ H, False_ind _ (diff_false_true H))) as H.
  destruct (run_migrate _ _ _ _ _) as [p db]. destruct H as (k' & Hl' & Hp').
  destruct p as [| | | | | | | | | |[]]; try discriminate. intros [= <-]. simpl in *. by subst k'.
Qed.

Lemma new_sqlite_file s s' :
  sq_tx (ds_sqlite (dat s)) = None →
  sq_file (ds_sqlite (dat s)) ∈
    [MkFile empty_catalog 0; MkFile tables_catalog 1; MkFile (indexed_catalog true) 2] →
  on_sqlite NewSQLite s = (s', Ok ()) →
  sq_file (ds_sqlite (dat s')) = MkFile (indexed_catalog true) 2 ∧ ds_postgres (dat s') = ds_postgres (dat s).
Proof using.
  intros Htx Hf. unfold on_sqlite, NewSQLite.
  pose proof (start_spec migrations (MkSys (tick s) (ds_sqlite (dat s))) Htx) as H. cbn [dat] in H.
  destruct (NewSQLite_with migrations _) as [t [[]|e]]; [|done]. intros [= <-]. simpl in *. split; [|done].
  destruct H as (done & todo & H1 & H2 & H3). destruct (H3 eq_refl) as [-> _].
  rewrite app_nil_r in H1. subst done. revert H2. set_unfold in Hf.
  destruct Hf as [->|[->|[->|[]]]]; intros [= <-]; reflexivity.
Qed.
End ready.

(** C33: a server that starts is ready.  When [startup] succeeds, on databases that
    earlier starts may have left anywhere, the configuration is the environment's and passes
    the checks of [Load], the signing key has 32 bytes or more, and the database the configuration names holds the whole schema at
    version 2, while the other is as it was. *)
Theorem startup_ready `{W : World, M : Machine, T : Otel} me e s k :
  sq_tx (ds_sqlite (dat s)) = None →
  sq_file (ds_sqlite (dat s)) ∈
    [MkFile empty_catalog 0; MkFile tables_catalog 1; MkFile (indexed_catalog true) 2] →
  level false k (pg_on_disk (ds_postgres (dat s))) →
  match startup me e s with
  | (s', Ok (c, m, st, _)) =>
      config_ok c ∧ config_of e c ∧ mg_secret m = JWTSecret c ∧ 32 <= len (mg_secret m) ∧
      match st with
      | OnSQLite => DatabaseURL c = "" ∧ sq_file (ds_sqlite (dat s')) = MkFile (indexed_catalog true) 2 ∧
                    ds_postgres (dat s') = ds_postgres (dat s)
      | OnPostgres => DatabaseURL c ≠ "" ∧ level false 2 (pg_on_disk (ds_postgres (dat s'))) ∧
                      ds_sqlite (dat s') = ds_sqlite (dat s)
      end
  | (_, Err err) => err = InitJwt → ∃ c, Load e = Ok c ∧ len (JWTSecret c) < 32
  end.
Proof.
  intros Htx Hf Hl. unfold startup. pose proof (load_diagnosis e) as Hload.
  destruct (Load e) as [c|err]; [|done].
  unfold check, mbind, st_bind, mret, st_ret. cbn beta iota zeta.
  destruct (SetupTracing (OTelEndpoint c)) as [f|]; [|done]. cbn beta iota zeta.
  assert (Hst : match initStore me c s with
    | (s', Ok OnSQLite) => DatabaseURL c = "" ∧ sq_file (ds_sqlite (dat s')) = MkFile (indexed_catalog true) 2 ∧
                           ds_postgres (dat s') = ds_postgres (dat s)
    | (s', Ok OnPostgres) => DatabaseURL c ≠ "" ∧ level false 2 (pg_on_disk (ds_postgres (dat s'))) ∧
                             ds_sqlite (dat s') = ds_sqlite (dat s)
    | (_, Err err) => err ≠ InitJwt
    end).
  { unfold initStore, check. case_bool_decide as Hurl; cbn [negb].
    - destruct (sql_Open _ _); [|done]. unfold ping, mbind, st_bind, mret, st_ret. cbn beta iota zeta.
      destruct (db_Ping _); [|done]. cbn beta iota zeta.
      destruct (on_sqlite NewSQLite (bump s)) as [s' [[]|err]] eqn:Hn.
      + destruct (new_sqlite_file (bump s) s' Htx Hf Hn) as [H1 H2]. exact (conj Hurl (conj H1 H2)).
      + revert Hn. unfold on_sqlite. destruct (NewSQLite _) as [t [u|err']]; intros H; [discriminate H|]. by injection H as _ <-.
    - destruct (sql_Open _ _); [|done]. unfold ping, mbind, st_bind, mret, st_ret. cbn beta iota zeta.
      destruct (db_Ping _); [|done]. cbn beta iota zeta.
      destruct (NewPostgres me (bump s)) as [s' [[]|err]] eqn:Hn.
      + destruct (new_postgres_level me (bump s) s' k Hl Hn) as [H1 H2]. exact (conj Hurl (conj H1 H2)).
      + revert Hn. unfold NewPostgres. destruct (run_migrate _ _ _ _ _) as [p db].
        intros H. destruct p as [| | | | | | | | | |[]]; [..|discriminate H|]; injection H as _ <-; done. }
  destruct (initStore me c s) as [s' [st|err]]; [|by intros ->].
  destruct (NewManager (JWTSecret c)) as [m|msg] eqn:Hm; cbn beta iota zeta.
  - revert Hm. unfold NewManager. destruct (Z.ltb_spec (len (JWTSecret c)) 32); [done|]. intros [= <-].
    destruct (bool_decide _); [|done]. destruct Hload. split_and!; [done|done|done|done|exact Hst].
  - intros _. exists c. split; [done|]. revert Hm. unfold NewManager.
    by destruct (Z.ltb_spec (len (JWTSecret c)) 32).
Qed.

Definition test_machine : Machine := {|
  sql_Open _ _ := true; db_Ping _ := true; reg_Register _ := true;
  trip_at _ := Acked; listen _ _ := ServerClosed;
  signalled := true; http_Shutdown_ok := true
|}.

Definition new_databases : databases :=
  Build_databases (MkSqlite (MkFile empty_catalog 0) None ∅) (MkPg (MkDisk empty_catalog None) None).

Definition test_environ : environ := λ k,
  if bool_decide (k = "PULS_JWT_SECRET") then Some (mg_secret test_manager)
  else if bool_decide (k = "DATABASE_URL") then Some "postgres://db" else addr_environ ":8080" k.

Lemma startup_ready_witness :
  (λ (W : World) (M : Machine) (T : Otel),
    match startup 0 test_environ (MkSys 0 new_databases) with
    | (s', Ok (_, _, st, _)) => st = OnPostgres ∧ level false 2 (pg_on_disk (ds_postgres (dat s')))
    | _ => False
    end) test_world test_machine test_otel.
Proof.
  cbv beta. pose proof (startup_ready (W := test_world) (M := test_machine) (T := test_otel) 0 test_environ (MkSys 0 new_databases) 0
                eq_refl (list_elem_of_here _ _) (level_new false)) as H.
  destruct (startup 0 test_environ (MkSys 0 new_databases)) as [s' [[[[c m] st] f]|err]] eqn:Hs.
  - destruct H as (_ & _ & _ & _ & H). destruct st.
    + exfalso. vm_compute in Hs. discriminate Hs.
    + split; [reflexivity|]. exact (proj1 (proj2 H)).
  - vm_compute in Hs. discriminate Hs.
Defined.
